(* ===== verification/_CoqProject ===== *)
-Q . S2P
Prelude.v
GoText.v
Regex.v
Sha256.v
Utf8.v
GoURL.v
GoQuery.v
UrlFacts.v
ResolveFacts.v
GoTime.v
GoMime.v
Redis.v
RedisMem.v
Proto.v
RefCodec.v
Store.v
Service.v
LeaseSpec.v
StoreRefine.v
CallRefine.v
Paging.v
Validation.v
StoreRun.v
Samples.v
ServiceRun.v
Listing.v
GrpcRegistry.v
Watch.v
System.v
Races.v
PathMatch.v
Config.v
ConfigFacts.v
ConfigSpec.v
Database.v
Migration.v
MigrationFacts.v
Locking.v
LockFacts.v
Load.v
LoadFacts.v
Defaults.v
Startup.v
StartupFacts.v
Clients.v
ClientFacts.v
Outbound.v
OutboundFacts.v
Access.v
AccessFacts.v
Http.v
HttpFacts.v
HttpServer.v
Json.v
ApiDocs.v
ApiAnswers.v
GrpcServer.v
Providers.v
Requests.v
EndToEnd.v
Acks.v
Wiring.v
