(* ===== verification/Prelude.v ===== *)
(** * service-registry-service: verification development

    The program is a service registry in Go: instances of services register under
    a lease, renew it, are listed and watched, and disappear when the lease ends.
    Its state lives in Redis and is changed by three Lua scripts; a gRPC server
    offers all operations, an HTTP server the listings.

    ** The parts of the program and the files that model them

    - internal/registry/store.go, type [Store]: Store.v.  The keys, the scripts
      [registerScript], [updateScript], [deleteScript] statement by statement, and
      every method ([store_Register], [store_Update], [store_Deregister],
      [store_Get], [store_List], [store_Services], [store_Changes]) as a program of
      Redis calls ([gprog], a free monad: between two calls of a method others may
      act).  A script is one call; its commands run without interruption.
    - internal/registry/service.go, type [Service]: Service.v.  [service_Register],
      [service_Renew], [service_SetStatus], [service_Deregister], [service_Get], the
      listings, [pageValues], [matches], [validateInstance], [leaseDuration].  The
      clock and the random bytes of a call are arguments; [sort.Slice] is the
      interface [SliceSort]: a permutation, sorted, not stable.
    - internal/transport/grpc/registry.go: GrpcRegistry.v.  The handlers,
      [registryError], and [WatchService] as a loop with the effects Redis call,
      send, and context error.
    - internal/transport/grpc/server.go, internal/auth, internal/requestid:
      Access.v (authentication, the interceptors of both chains with recovery and
      metrics, requirements), PathMatch.v ([path.Match] and [MatchesAny]),
      GrpcServer.v (credentials, [NewServer], the registered services, start and
      stop, health service).  An interceptor is a function of the handler it calls.
    - internal/config/config.go: Config.v.  All structs, the decoded defaults and
      [Validate]; Load.v, [LoadWithProfile], [setDefaults] and the hook that reads lists.
    - internal/transport/http, internal/apperror, internal/health,
      internal/ratelimit, internal/buildinfo: Http.v.  A middleware is a function of the rest of its
      chain; the chains compose them in the order of [NewServer].  A handler that calls
      the Redis client panics when there is none ([on_client]).  HttpServer.v: the
      table of routes with their groups, the server, its start and stop.
    - docs/docs.go: ApiDocs.v.  The Swagger document, copied as JSON values in the
      notation of Json.v, and the values that fill in its template.
    - internal/grpcclient/client.go, internal/outbound: Clients.v.  [Dial] with its
      guards, the interceptors of a connection as functions of the context of a call
      (timeout, metadata, metrics, circuit breaker, retries) and their chain
      [through], the target of an HTTP request, and both retry loops with attempts
      and waits as effects.  What the circuit breaker does with the error of a call and
      the verdict of the predicate it was given ([breaker_report]) is gobreaker's.  Outbound.v: building and
      closing the HTTP client and the registry of clients.
    - internal/database: Database.v.  [Transactor.Within] as a program of SQL calls,
      [Open] with its drivers.
    - internal/migration: Migration.v.  [withMigrationOptions] on URLs, [Run] and the
      creation of the schema.
    - internal/cache and internal/scheduler: Locking.v.  The lock, the sample job and
      the tick around it.
    - internal/app, internal/eventbus, internal/logging, internal/observability and
      the two commands: Startup.v.  Each constructor with its stop hook, and main.
      Wiring.v: [app.New] and the fx modules as a graph of constructors with what they
      take and give, what is invoked, and who appends a hook.
    - The servers as a whole: Requests.v.  What arrives, a gRPC call or an HTTP
      request, and the program a server runs for it: the interceptors or middleware
      around the handler of the method or route.  EndToEnd.v: any number of such
      programs against one Redis, with what each has exchanged; Acks.v: what its
      answer tells a caller.
    - internal/observability/metrics.go, internal/idempotency and
      internal/authorization: Providers.v.  The metrics and their registration, and
      what the platform library is given.

    Below these: GoText.v, Utf8.v, Regex.v, GoURL.v, GoQuery.v, GoTime.v, GoMime.v
    and Sha256.v hold what the sources use of Go's standard library, executable;
    UrlFacts.v and ResolveFacts.v are the theory of URLs: when printing and parsing
    give the same URL, and what resolution against a base keeps.  Proto.v holds the
    messages.  This file holds errors (with [errors.Join]), results, machine
    integers and the free monad, with the traces of its programs ([emits]), the
    shared lemmas, tactics and the hint database.

    ** Interfaces

    Redis.v states what the code relies on of Redis as a class, [RedisLaws]: time
    is a number of milliseconds, a key with a deadline is gone from then on, each
    command has its reply and effect.  RedisMem.v is an in-memory database that
    satisfies it; witnesses run on it.  [InstanceCodec] with [CodecLaws] (Proto.v)
    is encoding/json on the generated message type; RefCodec.v is an instance.
    [MapRange] (Config.v) is the unspecified order of a range over a map.
    [SqlOps] with [SqlLaws] (Database.v) is database/sql: the transactions that are
    committed, and at most one open transaction, which any call can find rolled back
    because its context was cancelled; the laws speak of statements a transaction can
    contain, not of those that commit by themselves.  [LockService] with [LockLaws]
    (LockFacts.v) is redsync: a lock that was granted is exclusive until it is released or
    the deadline it was granted with has passed, which is before its expiry.  [Viper] with
    [ViperLaws] (Load.v) keeps defaults and reads files and environment; the instance of
    Defaults.v decodes settings field by field, and on it loading without a file gives
    [default_config].
    [PromRegistry] with [PromLaws] (Providers.v) registers collectors.
    [DbDrivers] and [TLSFiles] are the SQL drivers and the files of certificates.
    Each class with laws has an instance on which witnesses run.
    [JwtLib], [HttpEnv] and the arguments of the chains stand for the JWT library,
    gin's binding, the rate-limit backend and the HTTP side of the platform's authorizer.
    [JsonEnv] (ApiAnswers.v) is the zone of the process and the nil maps of the codec.
    [Platform] (Access.v) is the platform's authorization and replay interceptors; what
    is relied on is [enforces] (the authorizer runs the handler as it is or refuses,
    by a decision) and [replays] (AccessFacts.v: a call without an idempotency key goes on
    as it is; for one with a key the platform exchanges messages with its store, and
    answers in the place of the handler or runs it once and lets its result, or a failure
    of its own, through).  These exchanges are the effect [EPlatform].  [fx_step] (Wiring.v) is what fx
    documents about the order in which it calls constructors and invokes functions.

    ** What the theorems show

    - The store implements a lease registry.  LeaseSpec.v is the abstract
      registry: leases with payload, token hash and deadline, an index, the service
      names and a log whose length is the revision.  StoreRefine.v and CallRefine.v
      prove that each script and each call does the abstract action ([refines]).
      System.v puts any number of handlers in one system in which calls interleave,
      time passes, requests and replies get lost and handlers die, and proves by
      induction on its steps that every reachable state refines a registry the
      specification reaches; that both keys of an instance live and die together;
      that the stream is the complete log under consecutive revisions, in which every
      change of an instance is one event; and that a
      held lease changes only under its own token.  The system is generic in the
      programs that requests start; System.v runs the handlers by themselves.
    - The registry end to end (Requests.v, EndToEnd.v): the same system on whole
      requests, interceptors and middleware included.  A held lease changes only by
      the script of a call that was admitted, authorized and presents the token
      ([write_provenance]); and at every moment what a watch has sent is a snapshot
      and then a gapless piece of the log after it ([watch_history]), whatever else
      happened meanwhile and whatever of it failed.  A caller who was told that a write
      succeeded was told the truth: its event is in the log under the revision of the
      answer, and no other request was given that revision ([acknowledged_once]), unless the
      answer was replayed from the platform's store.  [play] runs a schedule of the
      system; witnesses are such runs.
    - Each operation does what it should, errors included: ServiceRun.v
      (registration, renewal, status, deregistration, the round trip of
      registration and lookup, refusal of wrong tokens, absence), Listing.v (exactly
      the live matching instances, ordered, paged, counted), Watch.v (snapshot and
      then every logged event once and in order), Validation.v and Paging.v (names,
      keys, selectors, lease bounds, pages, at machine width).
    - Where the code composes several calls and does not protect the composition,
      Races.v states the outcome of the interleaving, for every registry, request and
      instant of the calls ([partway] is a program stopped between two of its calls): a lost
      status update, an instance dropped from the index, a deletion a watch never sees, a
      name that reaches another instance's keys.  Silent expiry and unstable pages are
      runs on one database.
    - Access.v and AccessFacts.v: exactly which gRPC calls are let in, as whom, and
      that a chain either refuses a call before its handler runs, for a reason, or is
      the handler in its recovery and count, with a replay around it if it has a key.
    - ConfigFacts.v: what an accepted configuration guarantees, in production and
      for every pattern.  ConfigSpec.v: the conditions of every section, and that exactly
      the configurations that satisfy them are accepted, whatever the order of the maps.
      LoadFacts.v: what is loaded was validated, under the profile that was asked
      for; lists survive the way they are written.
    - HttpFacts.v and HttpServer.v: what a request has to pass for the handler of its
      route to run, what is open to a request without credentials, the shape of
      every answer, what the listing route returns, and what of a request is logged
      and counted; the text of the uptime.  ApiAnswers.v: the encoding of the answers,
      and that they have the schemas docs/docs.go documents, up to two fields that can
      be null ([answers_documented]); which operations it documents without
      credentials, and which requests.  GrpcServer.v: what the
      health service answers, and for which services.
    - ClientFacts.v and OutboundFacts.v: retries are bounded, stop at the first final
      answer or when the context ends during a wait, and wait as configured; credentials go
      over TLS unless the configuration allows otherwise; every attempt of a gRPC call carries its deadline, credential,
      request id and key, and the call is counted once when metrics are enabled; a request
      stays on the configured server whatever path is asked for, but for //user@/...,
      which names no server; the registry holds every
      configured client or has closed all.
    - Database.v and MigrationFacts.v: a transaction takes effect as a whole or not
      at all; the rewritten URL names the same database and carries the options; no
      text but a plain identifier gets into the SQL that [Run] composes; [Run] releases
      what it opened and returns nil only when the migration asked for was done.
    - LockFacts.v: replicas of the job with a locker, interleaved with time passing and
      with replicas without one, exclude each other while a lock is valid; by rule induction on the steps of the cluster.
    - StartupFacts.v: a constructor that fails has released what it acquired, one
      that succeeds has a stop hook for it, and the servers start, and migrations
      run, only under a configuration that passed validation.
    - Wiring.v: in every order fx can choose, startup completes in a bounded number of
      steps or fails, nothing is opened before the startup migration has succeeded,
      and nothing is stopped while something made from it still runs.

    ** Bounds and fuel

    Revisions are bounded by [lua_max] = 10^14, from which on Lua would print a
    number in scientific notation; list lengths by 2^62, so that page arithmetic
    on int64 is exact; both are far beyond what a server can hold.  [watch_loop]
    is the endless loop of a watch, unrolled a given number of rounds; the theorems
    quantify over it and say how many rounds reach the end of the log.  A retry loop
    recurses on the number of attempts left.
    [path.Match], [ParseMediaType] and the UTF-8 decoder recurse on fuel that is
    the length of their input; PathMatch.v and GoMime.v prove that more changes
    nothing.  [conforms] (Json.v) recurses on the nesting of schemas and refuses when
    fuel runs out; [depth] = 12 is more than the document needs, and an accepted value is
    accepted with more.

    ** What is not modelled

    Which of the orders it documents fx chooses, sockets and TLS handshakes, the values
    of metrics and traces and the text of logs: they observe or belong to
    libraries, and where a call of them matters it is an effect.  How gin finds the
    route of a request, and its answer when there is none.  The text of JSON
    (encoding/json, gin's binding) and swag's execution of the template of
    docs/docs.go.  The idempotency replay and the authorizer of the platform library
    are parameters of the transports.  The gRPC handlers, and the servers of Requests.v,
    have a Redis client; the HTTP handlers are modelled with and without one.  The context values a request carries are fields
    of the call contexts, and their accessors the functions on these. *)

From stdpp Require Export base tactics option list gmap strings numbers sorting.
From Stdlib Require Export ZArith Lia.

Declare Scope go_scope.
Delimit Scope go_scope with go.

Create HintDb registry.

(** ** Go errors and (value, error) results *)

(** An error value. [ESentinel] is a package-level variable such as
    [registry.ErrNotFound] or [redis.Nil], compared by identity; [ENew] is a
    fresh [errors.New]/[fmt.Errorf] without [%w], or an error produced by a
    library; [EWrap pre e] is [fmt.Errorf("pre: %w", e)]; [EJoin e1 e2] is
    [errors.Join(e1, e2)]. *)
Inductive goerr : Type :=
  | ESentinel (name msg : string)
  | ENew (msg : string)
  | EWrap (pre : string) (e : goerr)
  | EJoin (e1 e2 : goerr).

#[global] Instance goerr_eq_dec : EqDecision goerr.
Proof. solve_decision. Defined.

(** [err.Error()]. *)
Fixpoint error_text (e : goerr) : string :=
  match e with
  | ESentinel _ m => m
  | ENew m => m
  | EWrap p e' => p +:+ ": " +:+ error_text e'
  | EJoin e1 e2 => error_text e1 +:+ String (Ascii.ascii_of_nat 10) (error_text e2)
  end.

(** [errors.Is(err, target)] for a sentinel target: walk the [Unwrap] chain. *)
Fixpoint errors_is (e : goerr) (target : goerr) : bool :=
  bool_decide (e = target) ||
  match e with
  | EWrap _ e' => errors_is e' target
  | EJoin e1 e2 => errors_is e1 target || errors_is e2 target
  | _ => false
  end.

(** The pair (value, error) of a Go function whose value is not used when the
    error is set. *)
Inductive res (A : Type) : Type :=
  | Ok (a : A)
  | Err (e : goerr).
Arguments Ok {A} a.
Arguments Err {A} e.

#[global] Instance res_eq_dec `{EqDecision A} : EqDecision (res A).
Proof. solve_decision. Defined.

Definition res_bind {A B} (r : res A) (f : A -> res B) : res B :=
  match r with Ok a => f a | Err e => Err e end.

Definition res_map {A B} (f : A -> B) (r : res A) : res B :=
  match r with Ok a => Ok (f a) | Err e => Err e end.

Definition is_ok {A} (r : res A) : bool :=
  match r with Ok _ => true | Err _ => false end.

Notation "'try' x ':=' r 'in' k" := (res_bind r (fun x => k))
  (at level 10, x pattern, r at level 100, k at level 200) : go_scope.

(** [if cond { return err }]. *)
Notation "'fail_if' b 'with' m ';' k" := (if b then Err (ENew m) else k)
  (at level 10, b at level 100, m at level 100, k at level 200) : go_scope.

Lemma res_bind_ok_inv {A B} (r : res A) (f : A -> res B) b :
  res_bind r f = Ok b -> exists a, r = Ok a /\ f a = Ok b.
Proof. destruct r; simpl; [eauto | discriminate]. Qed.

(** ** Machine integers *)

Definition max_int64 : Z := 2 ^ 63 - 1.
Definition min_int64 : Z := - 2 ^ 63.
Definition max_uint64 : Z := 2 ^ 64 - 1.
Definition max_uint32 : Z := 2 ^ 32 - 1.

(** Two's-complement wrap-around of [int]/[int64] arithmetic. *)
Definition wrap64 (z : Z) : Z := (z + 2 ^ 63) mod 2 ^ 64 - 2 ^ 63.
(** Wrap-around of [uint32] and [uint64] arithmetic. *)
Definition wrapu32 (z : Z) : Z := z mod 2 ^ 32.
Definition wrapu64 (z : Z) : Z := z mod 2 ^ 64.

Definition in_int64 (z : Z) : Prop := (min_int64 <= z <= max_int64)%Z.

Lemma wrap64_id z : in_int64 z -> wrap64 z = z.
Proof.
  unfold in_int64, wrap64, min_int64, max_int64. intros H.
  rewrite Z.mod_small; lia.
Qed.

Lemma wrap64_range z : in_int64 (wrap64 z).
Proof.
  unfold in_int64, wrap64, min_int64, max_int64.
  pose proof (Z.mod_pos_bound (z + 2 ^ 63) (2 ^ 64)). lia.
Qed.

Lemma wrapu64_id z : (0 <= z <= max_uint64)%Z -> wrapu64 z = z.
Proof. unfold wrapu64, max_uint64. intros. apply Z.mod_small. lia. Qed.

Lemma wrapu32_id z : (0 <= z <= max_uint32)%Z -> wrapu32 z = z.
Proof. unfold wrapu32, max_uint32. intros. apply Z.mod_small. lia. Qed.

(** ** Programs that call a service

    A Go method that talks to Redis, and a Lua script that calls
    [redis.call], are finite trees of calls: each node issues a request of type
    [C] and continues with the reply of type [R].  The tree makes the order of
    the calls explicit, so the same definition can be run alone ([prun]) or
    interleaved with others (module System). *)
Inductive prog (C R A : Type) : Type :=
  | Ret (a : A)
  | Do (c : C) (k : R -> prog C R A).
Arguments Ret {C R A} a.
Arguments Do {C R A} c k.

Section prog.
Context {C R : Type}.

Fixpoint pbind {A B} (p : prog C R A) (f : A -> prog C R B) : prog C R B :=
  match p with
  | Ret a => f a
  | Do c k => Do c (fun r => pbind (k r) f)
  end.

(** Issue one call and return its reply. *)
Definition call (c : C) : prog C R R := Do c Ret.

(** [v, err := p; if err != nil { return err }]. *)
Definition gbind {A B} (p : prog C R (res A)) (f : A -> prog C R (res B)) :
    prog C R (res B) :=
  pbind p (fun r => match r with Ok a => f a | Err e => Ret (Err e) end).

(** Run a program against a handler that owns a state [S]. *)
Fixpoint prun {S A} (h : C -> S -> R * S) (p : prog C R A) (s : S) : A * S :=
  match p with
  | Ret a => (a, s)
  | Do c k => let (r, s') := h c s in prun h (k r) s'
  end.

(** The program can exchange the calls and replies [tr] and return [a]. *)
Inductive emits {A} : prog C R A -> list (C * R) -> A -> Prop :=
  | emits_ret a : emits (Ret a) [] a
  | emits_do c k r tr a : emits (k r) tr a -> emits (Do c k) ((c, r) :: tr) a.

(** [p] has exchanged [tr] and goes on as [q]. *)
Inductive after {A} : prog C R A -> list (C * R) -> prog C R A -> Prop :=
  | after_nil p : after p [] p
  | after_cons c k r tr q : after (k r) tr q -> after (Do c k) ((c, r) :: tr) q.

(** What is left of a program that got the replies [rs]. *)
Fixpoint resume {A} (p : prog C R A) (rs : list R) : prog C R A :=
  match p, rs with
  | Do _ k, r :: rs' => resume (k r) rs'
  | _, _ => p
  end.

(** Every call the program can issue satisfies [P], as long as every reply [r] to
    a call [c] satisfies [Q c r]. *)
Fixpoint issues {A} (P : C -> Prop) (Q : C -> R -> Prop) (p : prog C R A) : Prop :=
  match p with
  | Ret _ => True
  | Do c k => P c /\ forall r, Q c r -> issues P Q (k r)
  end.

(** Every value the program can return under such replies satisfies [V]. *)
Fixpoint returns {A} (Q : C -> R -> Prop) (V : A -> Prop) (p : prog C R A) : Prop :=
  match p with
  | Ret a => V a
  | Do c k => forall r, Q c r -> returns Q V (k r)
  end.

Lemma prun_bind {S A B} (h : C -> S -> R * S) (p : prog C R A)
    (f : A -> prog C R B) s :
  prun h (pbind p f) s = let (a, s') := prun h p s in prun h (f a) s'.
Proof.
  revert s. induction p as [a|c k IH]; intros s; simpl; [done|].
  destruct (h c s) as [r s']. apply IH.
Qed.

Lemma emits_bind {A B} (p : prog C R A) (f : A -> prog C R B) tr b :
  emits (pbind p f) tr b <->
  exists tr1 a tr2, tr = tr1 ++ tr2 /\ emits p tr1 a /\ emits (f a) tr2 b.
Proof.
  split.
  - revert tr. induction p as [a|c k IH]; intros tr H; simpl in H.
    + exists [], a, tr. split_and!; [done|constructor|done].
    + inversion H as [|? ? r tr' ? Hk]; subst. destruct (IH _ _ Hk) as (t1 & a & t2 & -> & H1 & H2).
      exists ((c, r) :: t1), a, t2. split_and!; [done|by constructor|done].
  - intros (t1 & a & t2 & -> & H1 & H2). induction H1; simpl; [done|]. constructor. auto.
Qed.

Lemma emits_ret_inv {A} (a b : A) tr : emits (Ret a) tr b -> tr = [] /\ a = b.
Proof. by inversion 1. Qed.

Lemma emits_gbind {A B} (p : prog C R (res A)) (f : A -> prog C R (res B)) tr b :
  emits (gbind p f) tr b ->
  (exists e, b = Err e /\ emits p tr (Err e)) \/
  (exists t1 a t2, tr = t1 ++ t2 /\ emits p t1 (Ok a) /\ emits (f a) t2 b).
Proof.
  unfold gbind. intros H. apply emits_bind in H as (t1 & [a|e] & t2 & -> & H1 & H2).
  - right. by exists t1, a, t2.
  - left. apply emits_ret_inv in H2 as [-> <-]. exists e. by rewrite app_nil_r.
Qed.

Lemma emits_do_inv {A} c k tr (a : A) :
  emits (Do c k) tr a -> exists r tr', tr = (c, r) :: tr' /\ emits (k r) tr' a.
Proof. inversion 1; eauto. Qed.

(** A run against a handler is one of the exchanges. *)
Lemma prun_emits {S A} (h : C -> S -> R * S) (p : prog C R A) s a s' :
  prun h p s = (a, s') -> exists tr, emits p tr a.
Proof.
  revert s. induction p as [a0|c k IH]; intros s H; simpl in H.
  - injection H as -> _. exists []. constructor.
  - destruct (h c s) as [r s1]. destruct (IH _ _ H) as [tr Htr]. exists ((c, r) :: tr). by constructor.
Qed.

Lemma after_snoc {A} (p : prog C R A) tr c k r :
  after p tr (Do c k) -> after p (tr ++ [(c, r)]) (k r).
Proof.
  remember (Do c k) as q eqn:E. induction 1 as [p|c' k' r' tr q H IH]; subst; cbn.
  - constructor. constructor.
  - constructor. auto.
Qed.

Lemma after_resume {A} (p : prog C R A) tr q : after p tr q -> q = resume p tr.*2.
Proof. induction 1 as [p|c k r tr q H IH]; [by destruct p|done]. Qed.

Lemma after_ret {A} (a : A) tr q : after (Ret a) tr q -> tr = [] /\ q = Ret a.
Proof. by inversion 1. Qed.

Lemma after_bind {A B} (p : prog C R A) (f : A -> prog C R B) tr q :
  after (pbind p f) tr q ->
  (exists p', after p tr p' /\ q = pbind p' f) \/
  (exists tr1 a tr2, tr = tr1 ++ tr2 /\ after p tr1 (Ret a) /\ after (f a) tr2 q).
Proof.
  revert tr. induction p as [a|c k IH]; intros tr H; simpl in H.
  - right. exists [], a, tr. split_and!; [done|constructor|done].
  - inversion H as [|? ? r tr' ? Hk]; subst.
    + left. exists (Do c k). split; [constructor|done].
    + destruct (IH _ _ Hk) as [(p' & H1 & H2)|(t1 & a & t2 & -> & H1 & H2)].
      * left. exists p'. split; [by constructor|done].
      * right. exists ((c, r) :: t1), a, t2. split_and!; [done|by constructor|done].
Qed.

(** A program that has returned went through both parts of a sequence. *)
Lemma after_bind_ret {A B} (p : prog C R A) (f : A -> prog C R B) tr b :
  after (pbind p f) tr (Ret b) ->
  exists tr1 a tr2, tr = tr1 ++ tr2 /\ after p tr1 (Ret a) /\ after (f a) tr2 (Ret b).
Proof.
  intros H. apply after_bind in H as [(p' & Hp & E)|H]; [|done].
  destruct p' as [a|c k]; [|done]. exists tr, a, []. cbn in E. rewrite <- E, app_nil_r.
  split_and!; [done..|constructor].
Qed.

Lemma issues_bind {A B} P Q (V : A -> Prop) (p : prog C R A) (f : A -> prog C R B) :
  issues P Q p -> returns Q V p -> (forall a, V a -> issues P Q (f a)) ->
  issues P Q (pbind p f).
Proof.
  induction p as [a|c k IH]; simpl; [auto|].
  intros [Hc Hk] HV Hf. split; [done|]. intros r Hr. apply IH; auto.
Qed.

Lemma issues_mono {A} (P P' : C -> Prop) (Q Q' : C -> R -> Prop) (p : prog C R A) :
  (forall c, P c -> P' c) -> (forall c r, Q' c r -> Q c r) -> issues P Q p -> issues P' Q' p.
Proof. intros HP HQ. induction p as [a|c k IH]; simpl; [done|]. intros [Hc Hk]. auto. Qed.

Lemma issues_and {A} (P P' : C -> Prop) Q (p : prog C R A) :
  issues P Q p -> issues P' Q p -> issues (fun c => P c /\ P' c) Q p.
Proof. induction p as [a|c k IH]; simpl; [done|]. intros [Hc Hk] [Hc' Hk']. auto. Qed.

Lemma returns_bind {A B} Q (V : A -> Prop) (W : B -> Prop) (p : prog C R A) (f : A -> prog C R B) :
  returns Q V p -> (forall a, V a -> returns Q W (f a)) -> returns Q W (pbind p f).
Proof. induction p as [a|c k IH]; simpl; auto. Qed.

Lemma returns_assoc {A B D} Q (W : D -> Prop) (p : prog C R A) (f : A -> prog C R B) (g : B -> prog C R D) :
  returns Q W (pbind p (fun a => pbind (f a) g)) -> returns Q W (pbind (pbind p f) g).
Proof. induction p as [a|c k IH]; simpl; auto. Qed.

Lemma returns_mono {A} Q (V W : A -> Prop) (p : prog C R A) :
  (forall a, V a -> W a) -> returns Q V p -> returns Q W p.
Proof. intros HV. induction p as [a|c k IH]; simpl; auto. Qed.

Lemma returns_true {A} Q (p : prog C R A) : returns Q (fun _ => True) p.
Proof. induction p; simpl; auto. Qed.

(** The successful results of a program that can fail. *)
Definition returns_ok {A} (Q : C -> R -> Prop) (V : A -> Prop) (p : prog C R (res A)) : Prop :=
  returns Q (fun r => match r with Ok a => V a | Err _ => True end) p.

Lemma returns_gtrue {A} Q (p : prog C R (res A)) : returns_ok Q (fun _ => True) p.
Proof. unfold returns_ok. induction p as [[a|e]|c k IH]; simpl; auto. Qed.

Lemma issues_gbind {A B} P Q (V : A -> Prop) (p : prog C R (res A)) (f : A -> prog C R (res B)) :
  issues P Q p -> returns_ok Q V p -> (forall a, V a -> issues P Q (f a)) ->
  issues P Q (gbind p f).
Proof.
  intros Hp HV Hf. eapply issues_bind; [exact Hp|exact HV|]. intros [a|e]; simpl; auto.
Qed.

Lemma returns_gbind {A B} Q (V : A -> Prop) (W : B -> Prop) (p : prog C R (res A))
    (f : A -> prog C R (res B)) :
  returns_ok Q V p -> (forall a, V a -> returns_ok Q W (f a)) -> returns_ok Q W (gbind p f).
Proof. intros HV Hf. eapply returns_bind; [exact HV|]. intros [a|e] Ha; [by apply Hf|done]. Qed.

(** The same when nothing is needed of the results. *)
Lemma issues_seq {A B} P Q (p : prog C R A) (f : A -> prog C R B) :
  issues P Q p -> (forall a, issues P Q (f a)) -> issues P Q (pbind p f).
Proof. intros Hp Hf. apply (issues_bind P Q (fun _ => True)); auto using returns_true. Qed.

Lemma issues_gseq {A B} P Q (p : prog C R (res A)) (f : A -> prog C R (res B)) :
  issues P Q p -> (forall a, issues P Q (f a)) -> issues P Q (gbind p f).
Proof. intros Hp Hf. apply issues_seq; [done|]. intros [a|e]; simpl; auto. Qed.

End prog.

(** Run the calls of a program as calls of a wider interface. *)
Fixpoint plift {C R C' R' A} (f : C -> C') (g : R' -> R) (p : prog C R A) : prog C' R' A :=
  match p with
  | Ret a => Ret a
  | Do c k => Do (f c) (fun r => plift f g (k (g r)))
  end.

Lemma emits_plift {C R C' R' A} (f : C -> C') (g : R' -> R) (p : prog C R A) tr a :
  emits (plift f g p) tr a ->
  exists tr0, emits p tr0 a /\ tr.*1 = f <$> tr0.*1 /\ g <$> tr.*2 = tr0.*2.
Proof.
  revert tr. induction p as [a0|c k IH]; intros tr H; simpl in H.
  - apply emits_ret_inv in H as [-> ->]. exists []. split_and!; [constructor|done..].
  - apply emits_do_inv in H as (r & tr' & -> & H). destruct (IH _ _ H) as (tr0 & H0 & E1 & E2).
    exists ((c, g r) :: tr0). split_and!; [by constructor|..]; cbn; congruence.
Qed.

Notation "'let*' x ':=' p 'in' k" := (pbind p (fun x => k))
  (at level 10, x pattern, p at level 100, k at level 200) : go_scope.
Notation "'let!' x ':=' p 'in' k" := (gbind p (fun x => k))
  (at level 10, x pattern, p at level 100, k at level 200) : go_scope.

#[export] Hint Resolve issues_seq issues_gseq returns_true : registry.

(** ** Shared tactics *)

(** Reduce a [match]/[if] on a pair or a boolean test in the goal. *)
Ltac break_pair :=
  match goal with
  | |- context [let (_, _) := ?e in _] => destruct e eqn:?
  | H : context [let (_, _) := ?e in _] |- _ => destruct e eqn:?
  end.

(** Split the boolean tests of a chain of guards in a hypothesis. *)
Ltac break_if_in H :=
  repeat match type of H with
  | context [if ?b then _ else _] => destruct b eqn:?; try discriminate H
  end.

(** Compute the equality tests between closed terms. *)
Ltac decide_in H :=
  repeat match type of H with
  | context [@bool_decide (?a = ?b) ?d] =>
      let v := eval vm_compute in (@bool_decide (a = b) d) in
      lazymatch v with true => idtac | false => idtac end;
      change (@bool_decide (a = b) d) with v in H
  end; cbn beta iota in H.

(** Take an exchange of a program apart, one call or bind at a time. *)
Ltac emits_inv H :=
  cbn [pbind gbind call plift] in H;
  lazymatch type of H with
  | emits (Ret _) _ _ => apply emits_ret_inv in H as [? ?]
  | emits (Do _ _) _ _ =>
      let r := fresh "r" in let tr := fresh "tr" in
      apply emits_do_inv in H as (r & tr & ? & H)
  | emits (pbind _ _) _ _ =>
      let t1 := fresh "t" in let a := fresh "a" in let t2 := fresh "t" in
      let H1 := fresh "H" in
      apply emits_bind in H as (t1 & a & t2 & ? & H1 & H)
  end; simplify_eq.

(** ** Lists *)

Lemma Forall_filter_keep {A} (P : A -> Prop) (f : A -> bool) (l : list A) :
  Forall P l -> Forall P (List.filter f l).
Proof.
  induction 1 as [|x l Hx Hl IH]; simpl; [constructor|].
  destruct (f x); [by constructor | done].
Qed.

(** A list that is strictly sorted by an irreflexive, asymmetric order is
    determined by its elements. *)
Lemma StronglySorted_perm_unique {A} (lt : A -> A -> Prop) (l1 l2 : list A) :
  (forall x, ~ lt x x) -> (forall x y, lt x y -> lt y x -> False) ->
  StronglySorted lt l1 -> StronglySorted lt l2 -> l1 ≡ₚ l2 -> l1 = l2.
Proof.
  intros Hirr Hasym. revert l2.
  induction l1 as [|x l1 IH]; intros l2 H1 H2 HP.
  - by apply Permutation_nil_l in HP.
  - destruct l2 as [|y l2]; [by apply symmetry, Permutation_nil_l in HP|].
    inversion_clear H1 as [|? ? Hs1 Hf1]. inversion_clear H2 as [|? ? Hs2 Hf2].
    assert (x = y) as ->.
    { assert (x ∈ y :: l2) as Hx by (rewrite <- HP; set_solver).
      assert (y ∈ x :: l1) as Hy by (rewrite HP; set_solver).
      apply list_elem_of_In in Hx, Hy. simpl in Hx, Hy.
      destruct Hx as [->|Hx]; [done|]. destruct Hy as [->|Hy]; [done|].
      rewrite List.Forall_forall in Hf1, Hf2. exfalso.
      eapply Hasym; [apply Hf1, Hy | apply Hf2, Hx]. }
    f_equal. apply IH; [done..|]. by apply (Permutation_cons_inv HP).
Qed.

(** Two duplicate-free lists with the same elements in the domain of [f]. *)
Lemma omap_filter_perm {A B} (f : A -> option B) (l1 l2 : list A) :
  NoDup l1 -> NoDup l2 -> (forall x, is_Some (f x) -> x ∈ l1 <-> x ∈ l2) ->
  omap f l1 ≡ₚ omap f l2.
Proof.
  intros Hn1 Hn2 Hiff.
  assert (forall l : list A, omap f l = omap f (filter (fun x => is_Some (f x)) l)) as E.
  { induction l as [|x l IH]; simpl; [done|]. rewrite filter_cons.
    destruct (f x) eqn:Ex; case_decide as Hd.
    - simpl. rewrite Ex. by f_equal.
    - destruct Hd. eauto.
    - by destruct Hd.
    - done. }
  rewrite (E l1), (E l2). apply omap_Permutation. apply NoDup_Permutation.
  - by apply NoDup_filter.
  - by apply NoDup_filter.
  - intros x. rewrite !list_elem_of_filter. naive_solver.
Qed.

Lemma filter_perm_bool {A} (f : A -> bool) (l1 l2 : list A) :
  l1 ≡ₚ l2 -> List.filter f l1 ≡ₚ List.filter f l2.
Proof.
  induction 1 as [|x l1 l2 HP IH|x y l|l1 l2 l3 H12 IH1 H23 IH2]; simpl; [done| | |by rewrite IH1].
  - destruct (f x); [by constructor|done].
  - destruct (f x), (f y); try done. constructor.
Qed.

#[global] Instance filter_bool_proper {A} (f : A -> bool) :
  Proper (Permutation ==> Permutation) (List.filter f).
Proof. intros l1 l2. apply filter_perm_bool. Qed.

Lemma omap_all_some {A B} (f : A -> option B) (l : list A) (l' : list B) :
  Forall2 (fun x y => f x = Some y) l l' -> omap f l = l'.
Proof.
  induction 1 as [|x y l l' Hx Hl IH]; [done|]. cbn [omap list_omap]. rewrite Hx. by f_equal.
Qed.

Lemma list_omap_fmap {A B C} (f : B -> option C) (g : A -> B) (l : list A) :
  omap f (g <$> l) = omap (fun x => f (g x)) l.
Proof. induction l as [|x l IH]; [done|]. cbn. by rewrite IH. Qed.
