(* ===== verification/GoText.v ===== *)
(** * Go strings and number formatting

    The parts of [strings], [strconv] and [encoding/hex|base64] the sources use,
    on byte strings: a Go [string] is a sequence of bytes, here [string] with
    one [ascii] per byte.  [strings.Contains], [strings.HasPrefix],
    [strings.Cut], [strings.Split(s, sep)[0]], [strconv.FormatUint] and
    [strconv.ParseUint] (base 10, 64 bits), with the round trips and the
    cancellation lemmas the key layout of the store relies on. *)

From S2P Require Import Prelude.
From Stdlib Require Export Ascii.
From Stdlib Require Import Decimal DecimalString DecimalN DecimalPos.

(** ** Characters and substrings *)

(** [strings.HasPrefix(s, p)]. *)
Fixpoint has_prefix (p s : string) : bool :=
  match p, s with
  | EmptyString, _ => true
  | String a p', String b s' => bool_decide (a = b) && has_prefix p' s'
  | String _ _, EmptyString => false
  end.

(** [strings.Contains(s, sub)]. *)
Fixpoint contains (sub s : string) : bool :=
  has_prefix sub s ||
  match s with
  | EmptyString => false
  | String _ s' => contains sub s'
  end.

(** Every byte of [s] satisfies [f]. *)
Fixpoint str_forallb (f : ascii -> bool) (s : string) : bool :=
  match s with
  | EmptyString => true
  | String c s' => f c && str_forallb f s'
  end.

(** [strings.Cut(s, sep)] for a one-byte separator: the text before and after
    the first occurrence, and whether there is one. *)
Fixpoint cut (sep : ascii) (s : string) : string * string * bool :=
  match s with
  | EmptyString => (EmptyString, EmptyString, false)
  | String c s' =>
      if bool_decide (c = sep) then (EmptyString, s', true)
      else let '(a, b, ok) := cut sep s' in (String c a, b, ok)
  end.

(** [strings.Split(s, sep)[0]] for a one-byte separator. *)
Definition split_first (sep : ascii) (s : string) : string := (cut sep s).1.1.

(** [strings.Split(s, sep)] for a one-byte separator. *)
Fixpoint split_on (sep : ascii) (s : string) : list string :=
  match s with
  | EmptyString => [EmptyString]
  | String c s' =>
      if bool_decide (c = sep) then EmptyString :: split_on sep s'
      else match split_on sep s' with
           | x :: rest => String c x :: rest
           | [] => []
           end
  end.

(** [strings.Join(l, sep)]. *)
Fixpoint str_join (sep : string) (l : list string) : string :=
  match l with
  | [] => EmptyString
  | [x] => x
  | x :: rest => x +:+ sep +:+ str_join sep rest
  end.

(** Go's [<] on strings: bytewise lexicographic. *)
Definition str_ltb (a b : string) : bool :=
  match String.compare a b with Lt => true | _ => false end.

Lemma str_ltb_irrefl a : str_ltb a a = false.
Proof.
  unfold str_ltb. pose proof (String.compare_antisym a a) as E.
  by destruct (String.compare a a).
Qed.

Lemma str_ltb_trans a b c : str_ltb a b = true -> str_ltb b c = true -> str_ltb a c = true.
Proof.
  unfold str_ltb. revert b c.
  induction a as [|x a IH]; intros [|y b] [|z c]; simpl; try done.
  unfold Ascii.compare. specialize (IH b c).
  destruct (N.compare_spec (N_of_ascii x) (N_of_ascii y)) as [E1|E1|E1];
    destruct (N.compare_spec (N_of_ascii y) (N_of_ascii z)) as [E2|E2|E2];
    destruct (N.compare_spec (N_of_ascii x) (N_of_ascii z)) as [E3|E3|E3];
    try lia; try done.
Qed.

(** The order is total on different strings. *)
Lemma str_ltb_total a b : str_ltb a b = false -> str_ltb b a = false -> a = b.
Proof.
  unfold str_ltb. rewrite (String.compare_antisym b a). intros H1 H2.
  apply String.compare_eq_iff. by destruct (String.compare a b).
Qed.

Lemma has_prefix_app p s : has_prefix p (p +:+ s) = true.
Proof.
  induction p as [|a p IH]; simpl; [by destruct s|].
  by rewrite bool_decide_eq_true_2.
Qed.

Lemma has_prefix_inv p s : has_prefix p s = true -> exists s', s = p +:+ s'.
Proof.
  revert s. induction p as [|a p IH]; intros [|b s] H; simpl in H; try discriminate.
  - by exists EmptyString.
  - by exists (String b s).
  - apply andb_prop in H as [Ha Hp]. apply bool_decide_eq_true in Ha as ->.
    destruct (IH _ Hp) as [s' ->]. by exists s'.
Qed.

Lemma has_prefix_spec p s : has_prefix p s = true <-> exists s', s = p +:+ s'.
Proof.
  split; [apply has_prefix_inv|]. intros [s' ->]. apply has_prefix_app.
Qed.

(** Strings that start with incompatible prefixes differ. *)
Lemma has_prefix_ne p s1 s2 :
  has_prefix p s1 = true -> has_prefix p s2 = false -> s1 <> s2.
Proof. intros H1 H2 ->. by rewrite H1 in H2. Qed.

Lemma str_forallb_app f a b :
  str_forallb f (a +:+ b) = str_forallb f a && str_forallb f b.
Proof.
  induction a as [|c a IH]; simpl; [done|].
  change (String.append (String c a) b) with (String c (a +:+ b)). simpl.
  by rewrite IH, andb_assoc.
Qed.

Lemma str_app_nil_r s : s +:+ EmptyString = s.
Proof.
  induction s as [|c s IH]; [done|].
  change (String c s +:+ EmptyString) with (String c (s +:+ EmptyString)). by rewrite IH.
Qed.

Lemma str_app_assoc a b c : a +:+ (b +:+ c) = (a +:+ b) +:+ c.
Proof.
  induction a as [|x a IH]; [done|].
  change (String x a +:+ (b +:+ c)) with (String x (a +:+ (b +:+ c))).
  change ((String x a +:+ b) +:+ c) with (String x ((a +:+ b) +:+ c)). by rewrite IH.
Qed.

(** A separator that occurs in neither left part determines the split. *)
Lemma cut_app sep a b :
  str_forallb (fun c => negb (bool_decide (c = sep))) a = true ->
  cut sep (a +:+ String sep b) = (a, b, true).
Proof.
  induction a as [|c a IH]; intros H.
  - change (EmptyString +:+ String sep b) with (String sep b). simpl.
    by rewrite bool_decide_eq_true_2.
  - change (String c a +:+ String sep b) with (String c (a +:+ String sep b)).
    simpl in H |- *. apply andb_prop in H as [Hc Ha].
    rewrite negb_true_iff in Hc. rewrite Hc, (IH Ha). done.
Qed.

Lemma app_sep_inj sep a a' b b' :
  str_forallb (fun c => negb (bool_decide (c = sep))) a = true ->
  str_forallb (fun c => negb (bool_decide (c = sep))) a' = true ->
  a +:+ String sep b = a' +:+ String sep b' -> a = a' /\ b = b'.
Proof.
  intros Ha Ha' H. pose proof (cut_app sep a b Ha) as E.
  rewrite H, (cut_app sep a' b' Ha') in E. by inversion E.
Qed.

Lemma split_first_app sep a b :
  str_forallb (fun c => negb (bool_decide (c = sep))) a = true ->
  split_first sep (a +:+ String sep b) = a.
Proof. intros H. unfold split_first. by rewrite cut_app. Qed.

(** ** Decimal numbers *)

Definition is_digit (c : ascii) : bool :=
  let n := N_of_ascii c in (48 <=? n)%N && (n <=? 57)%N.

(** [strconv.FormatUint(n, 10)]. *)
Definition format_uint (n : N) : string := NilZero.string_of_uint (N.to_uint n).

(** [strconv.ParseUint(s, 10, 64)]; [None] is a syntax or range error. *)
Definition parse_uint (s : string) : option N :=
  match NilZero.uint_of_string s with
  | Some u => let n := N.of_uint u in if (n <? 2 ^ 64)%N then Some n else None
  | None => None
  end.

Lemma parse_uint_bound s n : parse_uint s = Some n -> (n < 2 ^ 64)%N.
Proof.
  unfold parse_uint. repeat case_match; try done. intros [= <-]. by apply N.ltb_lt.
Qed.

Lemma uint_of_format n : NilZero.uint_of_string (format_uint n) = Some (N.to_uint n).
Proof.
  unfold format_uint. apply NilZero.usu. destruct n as [|p]; [done|]. simpl.
  apply DecimalPos.Unsigned.to_uint_nonnil.
Qed.

Lemma parse_format_uint n : (n < 2 ^ 64)%N -> parse_uint (format_uint n) = Some n.
Proof.
  intros Hn. unfold parse_uint. rewrite uint_of_format.
  rewrite DecimalN.Unsigned.of_to. cbv zeta.
  destruct (N.ltb_spec n (2 ^ 64)); [done|lia].
Qed.

#[global] Instance format_uint_inj : Inj (=) (=) format_uint.
Proof.
  intros n m H. pose proof (uint_of_format n) as Hn. rewrite H, uint_of_format in Hn.
  apply DecimalN.Unsigned.to_uint_inj. by inversion Hn.
Qed.

Lemma digits_of_uint u : str_forallb is_digit (NilEmpty.string_of_uint u) = true.
Proof. induction u; simpl; done. Qed.

Lemma format_uint_digits n : str_forallb is_digit (format_uint n) = true.
Proof.
  unfold format_uint, NilZero.string_of_uint.
  destruct (N.to_uint n) eqn:E; [done|..]; rewrite <- E; apply digits_of_uint.
Qed.

Lemma digits_avoid sep s :
  is_digit sep = false -> str_forallb is_digit s = true ->
  str_forallb (fun c => negb (bool_decide (c = sep))) s = true.
Proof.
  intros Hsep. induction s as [|c s IH]; simpl; [done|].
  intros [Hc Hs]%andb_prop. rewrite IH by done. rewrite andb_true_r, negb_true_iff.
  apply bool_decide_eq_false. intros ->. congruence.
Qed.

Lemma format_uint_no_sep sep n :
  is_digit sep = false ->
  str_forallb (fun c => negb (bool_decide (c = sep))) (format_uint n) = true.
Proof. intros H. apply digits_avoid; [done|apply format_uint_digits]. Qed.

#[export] Hint Resolve format_uint_digits format_uint_no_sep has_prefix_app : registry.

(** ** Hexadecimal and base64 *)

Definition string_of_bytes (l : list ascii) : string := String.string_of_list_ascii l.
Definition bytes_of_string (s : string) : list ascii := String.list_ascii_of_string s.

(** The [i]-th character of an alphabet. *)
Definition pick (alphabet : string) (i : Z) : ascii :=
  default Ascii.zero (String.get (Z.to_nat i) alphabet).

Definition hex_alphabet : string := "0123456789abcdef".
Definition base64url_alphabet : string :=
  "ABCDEFGHIJKLMNOPQRSTUVWXYZabcdefghijklmnopqrstuvwxyz0123456789-_".

Definition byte_val (c : ascii) : Z := Z.of_N (N_of_ascii c).

(** [hex.EncodeToString]. *)
Fixpoint hex_encode (l : list ascii) : string :=
  match l with
  | [] => EmptyString
  | b :: l' =>
      String (pick hex_alphabet (Z.shiftr (byte_val b) 4))
        (String (pick hex_alphabet (Z.land (byte_val b) 15)) (hex_encode l'))
  end.

(** [base64.RawURLEncoding.EncodeToString]: URL alphabet, no padding. *)
Fixpoint base64_raw_url (l : list ascii) : string :=
  let p := pick base64url_alphabet in
  match l with
  | [] => EmptyString
  | [a] =>
      let v := Z.shiftl (byte_val a) 4 in
      String (p (Z.shiftr v 6)) (String (p (Z.land v 63)) EmptyString)
  | [a; b] =>
      let v := Z.shiftl (Z.lor (Z.shiftl (byte_val a) 8) (byte_val b)) 2 in
      String (p (Z.shiftr v 12)) (String (p (Z.land (Z.shiftr v 6) 63))
        (String (p (Z.land v 63)) EmptyString))
  | a :: b :: c :: l' =>
      let v := Z.lor (Z.lor (Z.shiftl (byte_val a) 16) (Z.shiftl (byte_val b) 8)) (byte_val c) in
      String (p (Z.shiftr v 18)) (String (p (Z.land (Z.shiftr v 12) 63))
        (String (p (Z.land (Z.shiftr v 6) 63)) (String (p (Z.land v 63))
          (base64_raw_url l'))))
  end.

(** A predicate on every byte of a string, read on the list of its bytes. *)
Lemma str_forallb_bytes (f : ascii -> bool) s :
  Forall (fun c => f c = true) (bytes_of_string s) -> str_forallb f s = true.
Proof.
  unfold bytes_of_string. induction s as [|c s IH]; [done|]. intros HF.
  inversion_clear HF as [|? ? Hc HF']. simpl. by rewrite Hc, IH.
Qed.

Lemma bytes_forallb (f : ascii -> bool) s :
  str_forallb f s = true -> Forall (fun c => f c = true) (bytes_of_string s).
Proof.
  unfold bytes_of_string. induction s as [|c s IH]; [constructor|]. cbn. intros [Hc Hs]%andb_prop.
  constructor; [done|]. by apply IH.
Qed.

Lemma bytes_length s : length (bytes_of_string s) = String.length s.
Proof. unfold bytes_of_string. induction s as [|c s IH]; [done|]. cbn. by rewrite IH. Qed.

Example hex_encode_ex : hex_encode (bytes_of_string "Az~") = "417a7e".
Proof. reflexivity. Qed.

Example base64_ex :
  base64_raw_url (bytes_of_string "light w") = "bGlnaHQgdw" /\
  base64_raw_url (bytes_of_string "light wo") = "bGlnaHQgd28" /\
  base64_raw_url (bytes_of_string "light wor") = "bGlnaHQgd29y" /\
  base64_raw_url [ascii_of_nat 251; ascii_of_nat 255] = "-_8".
Proof. repeat split; reflexivity. Qed.

(** ** Splitting and joining *)

Abbreviation avoids sep s := (str_forallb (fun c => negb (bool_decide (c = sep))) s).

Lemma split_on_nonempty sep s : split_on sep s <> [].
Proof. induction s as [|c s IH]; [done|]. simpl. case_bool_decide; [done|]. by case_match. Qed.

Lemma split_on_avoids sep s : avoids sep s = true -> split_on sep s = [s].
Proof.
  induction s as [|c s IH]; [done|]. simpl. intros [Hc Hs]%andb_prop.
  apply negb_true_iff in Hc. by rewrite Hc, IH.
Qed.

Lemma split_on_app sep a b :
  avoids sep a = true -> split_on sep (a +:+ String sep b) = a :: split_on sep b.
Proof.
  induction a as [|c a IH]; intros H.
  - change (EmptyString +:+ String sep b) with (String sep b). simpl.
    by rewrite bool_decide_eq_true_2.
  - change (String c a +:+ String sep b) with (String c (a +:+ String sep b)).
    simpl in H |- *. apply andb_prop in H as [Hc Ha]. apply negb_true_iff in Hc.
    by rewrite Hc, IH.
Qed.

Lemma split_on_join sep l :
  l <> [] -> Forall (fun s => avoids sep s = true) l ->
  split_on sep (str_join (String sep EmptyString) l) = l.
Proof.
  intros Hl H. destruct l as [|x l]; [done|]. clear Hl. revert x H.
  induction l as [|y l IH]; intros x H; inversion_clear H as [|? ? Hx Hl].
  - by apply split_on_avoids.
  - change (str_join (String sep EmptyString) (x :: y :: l))
      with (x +:+ String sep (str_join (String sep EmptyString) (y :: l))).
    by rewrite split_on_app, IH.
Qed.

(** Joining what was split gives the text back. *)
Lemma join_split_on sep s : str_join (String sep EmptyString) (split_on sep s) = s.
Proof.
  induction s as [|c s IH]; [done|]. simpl. pose proof (split_on_nonempty sep s) as Hn.
  case_bool_decide as Hc; destruct (split_on sep s) as [|x [|y r]]; try done; rewrite <- IH;
    try subst c; done.
Qed.
