(* ===== verification/Regex.v ===== *)
(** * Anchored regular expressions

    The sources compile three anchored patterns with [regexp.MustCompile] and
    only call [MatchString]: [namePattern] (registry/service.go), [validProfile]
    and [validMigrationTable] (config/config.go, repeated in
    migration/migration.go).  The patterns are written here with the
    constructors of [re] (character class, sequence, alternative, star; [opt]
    and [upto] for [?] and [{0,n}]), executed by Brzozowski derivatives
    ([re_match]) and related to the language [re_lang] they denote. *)

From S2P Require Import Prelude GoText.

Inductive re : Type :=
  | RNone
  | REps
  | RChr (f : ascii -> bool)
  | RSeq (a b : re)
  | RAlt (a b : re)
  | RStar (a : re).

Definition opt (r : re) : re := RAlt REps r.

(** [r{0,n}]. *)
Fixpoint upto (n : nat) (r : re) : re :=
  match n with
  | O => REps
  | S n' => opt (RSeq r (upto n' r))
  end.

(** The language of an expression. *)
Inductive re_lang : re -> list ascii -> Prop :=
  | lang_eps : re_lang REps []
  | lang_chr f c : f c = true -> re_lang (RChr f) [c]
  | lang_seq a b s1 s2 : re_lang a s1 -> re_lang b s2 -> re_lang (RSeq a b) (s1 ++ s2)
  | lang_alt_l a b s : re_lang a s -> re_lang (RAlt a b) s
  | lang_alt_r a b s : re_lang b s -> re_lang (RAlt a b) s
  | lang_star_nil a : re_lang (RStar a) []
  | lang_star_cons a s1 s2 :
      re_lang a s1 -> re_lang (RStar a) s2 -> re_lang (RStar a) (s1 ++ s2).

(** ** The matcher *)

Fixpoint nullable (r : re) : bool :=
  match r with
  | RNone | RChr _ => false
  | REps | RStar _ => true
  | RSeq a b => nullable a && nullable b
  | RAlt a b => nullable a || nullable b
  end.

(** Smart constructors keep the derivatives small. *)
Definition seq (a b : re) : re :=
  match a, b with
  | RNone, _ | _, RNone => RNone
  | REps, _ => b
  | _, _ => RSeq a b
  end.

Definition alt (a b : re) : re :=
  match a, b with
  | RNone, _ => b
  | _, RNone => a
  | _, _ => RAlt a b
  end.

Fixpoint deriv (c : ascii) (r : re) : re :=
  match r with
  | RNone | REps => RNone
  | RChr f => if f c then REps else RNone
  | RSeq a b =>
      if nullable a then alt (seq (deriv c a) b) (deriv c b) else seq (deriv c a) b
  | RAlt a b => alt (deriv c a) (deriv c b)
  | RStar a => seq (deriv c a) (RStar a)
  end.

Fixpoint re_match_list (r : re) (s : list ascii) : bool :=
  match s with
  | [] => nullable r
  | c :: s' => re_match_list (deriv c r) s'
  end.

(** [pattern.MatchString(s)] for a pattern anchored at both ends. *)
Definition re_match (r : re) (s : string) : bool := re_match_list r (bytes_of_string s).

(** ** Correctness of the matcher *)

Lemma lang_seq_iff a b s :
  re_lang (RSeq a b) s <-> exists s1 s2, s = s1 ++ s2 /\ re_lang a s1 /\ re_lang b s2.
Proof.
  split; [inversion 1; subst; eauto 6|]. intros (s1 & s2 & -> & ? & ?). by constructor.
Qed.

Lemma lang_alt_iff a b s : re_lang (RAlt a b) s <-> re_lang a s \/ re_lang b s.
Proof. split; [inversion 1; auto|]. intros [?|?]; [by apply lang_alt_l|by apply lang_alt_r]. Qed.

Lemma lang_none s : re_lang RNone s <-> False.
Proof. split; [inversion 1|done]. Qed.

Lemma lang_eps_iff s : re_lang REps s <-> s = [].
Proof. split; [by inversion 1|]. intros ->. constructor. Qed.

Lemma lang_chr_iff f s : re_lang (RChr f) s <-> exists c, s = [c] /\ f c = true.
Proof. split; [inversion 1; eauto|]. intros (c & -> & ?). by constructor. Qed.

Lemma seq_lang a b s : re_lang (seq a b) s <-> re_lang (RSeq a b) s.
Proof.
  assert (re_lang (RSeq RNone b) s <-> False) as Hn.
  { rewrite lang_seq_iff. setoid_rewrite lang_none. naive_solver. }
  assert (re_lang (RSeq REps b) s <-> re_lang b s) as He.
  { rewrite lang_seq_iff. setoid_rewrite lang_eps_iff. split; [|by exists [], s].
    by intros (? & ? & -> & -> & ?). }
  assert (re_lang (RSeq a RNone) s <-> False) as Hm.
  { rewrite lang_seq_iff. setoid_rewrite lang_none. naive_solver. }
  unfold seq. destruct a; destruct b; rewrite ?Hn, ?He, ?Hm, ?lang_none; done.
Qed.

Lemma alt_lang a b s : re_lang (alt a b) s <-> re_lang (RAlt a b) s.
Proof.
  rewrite lang_alt_iff. unfold alt.
  destruct a; destruct b; rewrite ?lang_alt_iff, ?lang_none; tauto.
Qed.

Lemma nullable_lang r : nullable r = true <-> re_lang r [].
Proof.
  induction r; simpl.
  - rewrite lang_none. done.
  - rewrite lang_eps_iff. done.
  - rewrite lang_chr_iff. naive_solver.
  - rewrite andb_true_iff, lang_seq_iff, IHr1, IHr2. split.
    + intros [? ?]. by exists [], [].
    + intros (s1 & s2 & E & ? & ?). symmetry in E. apply app_nil in E as [-> ->]. done.
  - by rewrite orb_true_iff, lang_alt_iff, IHr1, IHr2.
  - split; [|done]. intros _. constructor.
Qed.

Lemma star_cons_inv a c s :
  re_lang (RStar a) (c :: s) ->
  exists s1 s2, s = s1 ++ s2 /\ re_lang a (c :: s1) /\ re_lang (RStar a) s2.
Proof.
  remember (RStar a) as r eqn:Er. remember (c :: s) as w eqn:Ew. intros H.
  induction H as [| | | | | |a0 s1 s2 H1 _ H2 IH]; try discriminate.
  injection Er as ->. destruct s1 as [|c1 s1]; simpl in Ew.
  - by apply IH.
  - injection Ew as -> <-. eauto 6.
Qed.

Lemma deriv_lang r c s : re_lang (deriv c r) s <-> re_lang r (c :: s).
Proof.
  revert s. induction r as [| |f|a IHa b IHb|a IHa b IHb|a IHa]; intros s; simpl.
  - by rewrite !lang_none.
  - rewrite lang_none, lang_eps_iff. done.
  - rewrite lang_chr_iff. destruct (f c) eqn:E.
    + rewrite lang_eps_iff. split; [intros ->; by exists c|].
      by intros (c' & [= <- ->] & _).
    + rewrite lang_none. split; [done|]. intros (c' & [= <- ->] & ?). congruence.
  - assert (re_lang (RSeq a b) (c :: s) <->
      re_lang (RSeq (deriv c a) b) s \/ (nullable a = true /\ re_lang (deriv c b) s)) as ->.
    { rewrite !lang_seq_iff, IHb, nullable_lang. setoid_rewrite IHa. split.
      - intros ([|c1 s1] & s2 & E & H1 & H2); simpl in E; [subst s2; by right|].
        injection E as <- ->. left. eauto 6.
      - intros [(s1 & s2 & -> & H1 & H2)|[H1 H2]]; [by exists (c :: s1), s2|].
        by exists [], (c :: s). }
    destruct (nullable a); [rewrite alt_lang, lang_alt_iff|]; rewrite seq_lang; naive_solver.
  - by rewrite alt_lang, !lang_alt_iff, IHa, IHb.
  - rewrite seq_lang, lang_seq_iff. setoid_rewrite IHa. split.
    + intros (s1 & s2 & -> & H1 & H2). change (c :: s1 ++ s2) with ((c :: s1) ++ s2).
      by constructor.
    + intros H. apply star_cons_inv in H as (s1 & s2 & -> & ? & ?). eauto.
Qed.

Lemma re_match_list_correct r s : re_match_list r s = true <-> re_lang r s.
Proof.
  revert r. induction s as [|c s IH]; intros r; simpl; [apply nullable_lang|].
  by rewrite IH, deriv_lang.
Qed.

Lemma re_match_correct r s : re_match r s = true <-> re_lang r (bytes_of_string s).
Proof. apply re_match_list_correct. Qed.

(** ** Bounded repetition of a character class *)

Lemma upto_chr_lang n f s :
  re_lang (upto n (RChr f)) s <-> length s <= n /\ Forall (fun c => f c = true) s.
Proof.
  revert s. induction n as [|n IH]; intros s; simpl.
  - rewrite lang_eps_iff. destruct s; simpl; [naive_solver|]. split; [done|lia].
  - unfold opt. rewrite lang_alt_iff, lang_eps_iff, lang_seq_iff.
    setoid_rewrite lang_chr_iff. setoid_rewrite IH. split.
    + intros [->|(? & s2 & -> & (c & -> & Hc) & Hl & HF)]; simpl; [split; [lia|done]|].
      split; [lia|]. by constructor.
    + intros [Hl HF]. destruct s as [|c s]; [by left|]. right.
      inversion_clear HF. simpl in Hl. exists [c], s. repeat split; [by eauto|lia|done].
Qed.

Lemma star_chr_lang f s :
  re_lang (RStar (RChr f)) s <-> Forall (fun c => f c = true) s.
Proof.
  split.
  - induction s as [|c s IH]; [done|]. intros H.
    apply star_cons_inv in H as (s1 & s2 & -> & H1 & H2).
    apply lang_chr_iff in H1 as (c' & [= <- ->] & Hc). constructor; auto.
  - induction 1 as [|c s Hc Hs IH]; [constructor|].
    change (c :: s) with ([c] ++ s). constructor; [by constructor|done].
Qed.

(** ** Character classes of the patterns *)

Definition in_range (lo hi : N) (c : ascii) : bool :=
  let n := N_of_ascii c in (lo <=? n)%N && (n <=? hi)%N.

Definition is_lower (c : ascii) : bool := in_range 97 122 c.
Definition is_upper (c : ascii) : bool := in_range 65 90 c.
(** [[a-z0-9]]. *)
Definition lower_alnum (c : ascii) : bool := is_lower c || is_digit c.
(** [[a-z0-9-]]. *)
Definition lower_alnum_dash (c : ascii) : bool := lower_alnum c || bool_decide (c = "-"%char).
(** [[a-z0-9_]]. *)
Definition lower_alnum_us (c : ascii) : bool := lower_alnum c || bool_decide (c = "_"%char).
(** [[a-z0-9_-]]. *)
Definition lower_alnum_us_dash (c : ascii) : bool :=
  lower_alnum_us c || bool_decide (c = "-"%char).
