(* ===== verification/Sha256.v ===== *)
(** * SHA-256

    [crypto/sha256.Sum256] (FIPS 180-4) on byte strings, used by
    [registry.hashToken].  Words are [Z] in [0, 2^32) with the wrap-around of
    the additions written out. *)

From S2P Require Import Prelude GoText.

Local Open Scope Z_scope.

Definition w32 (z : Z) : Z := z mod 2 ^ 32.
Definition add32 (a b : Z) : Z := w32 (a + b).
Definition rotr32 (n x : Z) : Z := Z.lor (Z.shiftr x n) (w32 (Z.shiftl x (32 - n))).
Definition not32 (x : Z) : Z := Z.lxor x (2 ^ 32 - 1).

(** The constants as the standard defines them: the first 32 bits of the
    fractional parts of the cube roots of the first 64 primes, and of the square
    roots of the first 8. *)
Definition is_prime (n : nat) : bool :=
  forallb (fun d => negb (n mod d =? 0)%nat) (seq 2 (n - 2)).

Definition sha_primes : list Z :=
  Eval vm_compute in Z.of_nat <$> List.filter is_prime (seq 2 310).

(** The integer cube root, bit by bit from the top. *)
Fixpoint cbrt_bits (n : nat) (x acc : Z) : Z :=
  match n with
  | O => acc
  | S n' =>
      let acc' := acc + 2 ^ Z.of_nat n' in
      cbrt_bits n' x (if acc' * acc' * acc' <=? x then acc' else acc)
  end.

Definition sha_k : list Z :=
  Eval vm_compute in (fun p => w32 (cbrt_bits 36 (p * 2 ^ 96) 0)) <$> take 64 sha_primes.

Definition sha_h0 : list Z :=
  Eval vm_compute in (fun p => w32 (Z.sqrt (p * 2 ^ 64))) <$> take 8 sha_primes.

(** Big-endian bytes of an [n]-byte number. *)
Fixpoint be_bytes (n : nat) (z : Z) : list Z :=
  match n with
  | O => []
  | S n' => Z.land (Z.shiftr z (8 * Z.of_nat n')) 255 :: be_bytes n' z
  end.

(** Padding: 0x80, zeros up to 56 mod 64, the bit length as 64 bits. *)
Definition sha_pad (msg : list Z) : list Z :=
  let len := Z.of_nat (length msg) in
  let zeros := (55 - len) mod 64 in
  msg ++ [128] ++ replicate (Z.to_nat zeros) 0 ++ be_bytes 8 (8 * len).

Fixpoint be_words (l : list Z) : list Z :=
  match l with
  | a :: b :: c :: d :: l' =>
      Z.lor (Z.lor (Z.shiftl a 24) (Z.shiftl b 16)) (Z.lor (Z.shiftl c 8) d) :: be_words l'
  | _ => []
  end.

Definition nthz (l : list Z) (i : nat) : Z := default 0 (l !! i).

(** The message schedule, newest word first. *)
Fixpoint sha_schedule (n : nat) (rev_w : list Z) : list Z :=
  match n with
  | O => rev_w
  | S n' =>
      let w15 := nthz rev_w 14 in
      let w2 := nthz rev_w 1 in
      let s0 := Z.lxor (Z.lxor (rotr32 7 w15) (rotr32 18 w15)) (Z.shiftr w15 3) in
      let s1 := Z.lxor (Z.lxor (rotr32 17 w2) (rotr32 19 w2)) (Z.shiftr w2 10) in
      sha_schedule n' (add32 (add32 (nthz rev_w 15) s0) (add32 (nthz rev_w 6) s1) :: rev_w)
  end.

Definition sha_round (st : list Z) (kw : Z * Z) : list Z :=
  match st with
  | [a; b; c; d; e; f; g; h] =>
      let s1 := Z.lxor (Z.lxor (rotr32 6 e) (rotr32 11 e)) (rotr32 25 e) in
      let ch := Z.lxor (Z.land e f) (Z.land (not32 e) g) in
      let t1 := add32 (add32 h s1) (add32 ch (add32 kw.1 kw.2)) in
      let s0 := Z.lxor (Z.lxor (rotr32 2 a) (rotr32 13 a)) (rotr32 22 a) in
      let maj := Z.lxor (Z.lxor (Z.land a b) (Z.land a c)) (Z.land b c) in
      let t2 := add32 s0 maj in
      [add32 t1 t2; a; b; c; add32 d t1; e; f; g]
  | _ => st
  end.

Definition sha_block (h : list Z) (block : list Z) : list Z :=
  let w := rev (sha_schedule 48 (rev (be_words block))) in
  zip_with add32 h (foldl sha_round h (zip sha_k w)).

(** Process the padded message block by block; [n] is the number of blocks. *)
Fixpoint sha_blocks (n : nat) (h : list Z) (l : list Z) : list Z :=
  match n with
  | O => h
  | S n' => sha_blocks n' (sha_block h (take 64 l)) (drop 64 l)
  end.

Definition sha256 (msg : string) : list ascii :=
  let padded := sha_pad (byte_val <$> bytes_of_string msg) in
  let h := sha_blocks (length padded / 64) sha_h0 padded in
  (fun b => ascii_of_N (Z.to_N b)) <$> concat (be_bytes 4 <$> h).

(** The padded message is a whole number of blocks, so the block loop consumes
    all of it. *)
Lemma sha_pad_blocks msg : (length (sha_pad msg) mod 64 = 0)%nat.
Proof.
  unfold sha_pad. rewrite !length_app, length_replicate. simpl length.
  set (n := length msg). pose proof (Z.mod_pos_bound (55 - Z.of_nat n) 64 ltac:(lia)).
  pose proof (Z.div_mod (55 - Z.of_nat n) 64 ltac:(lia)).
  apply Nat2Z.inj. rewrite Nat2Z.inj_mod, !Nat2Z.inj_add, Z2Nat.id by lia.
  change (Z.of_nat 1) with 1. change (Z.of_nat 8) with 8.
  change (Z.of_nat 64) with 64. change (Z.of_nat 0) with 0.
  replace (Z.of_nat n + (1 + ((55 - Z.of_nat n) mod 64 + 8)))
    with ((1 - (55 - Z.of_nat n) / 64) * 64) by lia.
  apply Z_mod_mult.
Qed.

(** The FIPS 180-4 test vectors (one block, two blocks). *)
Example sha256_abc :
  hex_encode (sha256 "abc") = "ba7816bf8f01cfea414140de5dae2223b00361a396177a9cb410ff61f20015ad".
Proof. vm_compute. reflexivity. Qed.

Example sha256_two_blocks :
  hex_encode (sha256 "abcdbcdecdefdefgefghfghighijhijkijkljklmklmnlmnomnopnopq") =
  "248d6a61d20638b8e5c026930c3e6039a33ce45964ff2167f6ecedd419db06c1".
Proof. vm_compute. reflexivity. Qed.
