(* ===== verification/Utf8.v ===== *)
(** * UTF-8

    [unicode/utf8] as the sources use it: a [for _, char := range s] loop and
    [strings.EqualFold] decode runes, with U+FFFD (width 1) for an invalid byte;
    [encoding/json] keeps a string unchanged exactly when it is valid UTF-8. *)

From S2P Require Import Prelude GoText.

Local Open Scope Z_scope.

Definition rune_error : Z := 65533.

Definition between (lo hi z : Z) : bool := (lo <=? z) && (z <=? hi).
Definition cont (z : Z) : bool := between 128 191 z.

(** [utf8.DecodeRune] on the bytes of [s], as the rune, its width and whether
    the encoding is valid; the caller has checked that [s] is not empty. *)
Definition decode_rune (s : list Z) : Z * nat * bool :=
  match s with
  | [] => (rune_error, O, false)
  | b0 :: t =>
      if b0 <? 128 then (b0, 1%nat, true)
      else if between 194 223 b0 then
        match t with
        | b1 :: _ =>
            if cont b1 then (Z.lor (Z.shiftl (Z.land b0 31) 6) (Z.land b1 63), 2%nat, true)
            else (rune_error, 1%nat, false)
        | _ => (rune_error, 1%nat, false)
        end
      else if between 224 239 b0 then
        match t with
        | b1 :: b2 :: _ =>
            if between (if b0 =? 224 then 160 else 128) (if b0 =? 237 then 159 else 191) b1
               && cont b2
            then (Z.lor (Z.shiftl (Z.land b0 15) 12)
                    (Z.lor (Z.shiftl (Z.land b1 63) 6) (Z.land b2 63)), 3%nat, true)
            else (rune_error, 1%nat, false)
        | _ => (rune_error, 1%nat, false)
        end
      else if between 240 244 b0 then
        match t with
        | b1 :: b2 :: b3 :: _ =>
            if between (if b0 =? 240 then 144 else 128) (if b0 =? 244 then 143 else 191) b1
               && cont b2 && cont b3
            then (Z.lor (Z.shiftl (Z.land b0 7) 18)
                    (Z.lor (Z.shiftl (Z.land b1 63) 12)
                      (Z.lor (Z.shiftl (Z.land b2 63) 6) (Z.land b3 63))), 4%nat, true)
            else (rune_error, 1%nat, false)
        | _ => (rune_error, 1%nat, false)
        end
      else (rune_error, 1%nat, false)
  end.

(** The runes of a string with their validity; each step consumes at least one
    byte, so the length of the string is enough fuel. *)
Fixpoint runes_fuel (n : nat) (s : list Z) : list (Z * bool) :=
  match n, s with
  | S n', _ :: _ =>
      let '(r, w, ok) := decode_rune s in (r, ok) :: runes_fuel n' (drop w s)
  | _, _ => []
  end.

(** [unicode.IsSpace]. *)
Definition is_space (r : Z) : bool :=
  between 9 13 r || (r =? 32) || (r =? 133) || (r =? 160) || (r =? 5760) || between 8192 8202 r ||
  (r =? 8232) || (r =? 8233) || (r =? 8239) || (r =? 8287) || (r =? 12288).

Definition byte_vals (s : string) : list Z := byte_val <$> bytes_of_string s.

Definition decoded (s : string) : list (Z * bool) :=
  runes_fuel (length (byte_vals s)) (byte_vals s).

(** [for _, r := range s]. *)
Definition runes (s : string) : list Z := (decoded s).*1.

(** [utf8.ValidString]. *)
Definition utf8_valid (s : string) : bool := forallb snd (decoded s).

(** ** Facts *)

Lemma byte_val_range c : 0 <= byte_val c < 256.
Proof.
  unfold byte_val. pose proof (N_ascii_bounded c). lia.
Qed.

Lemma decode_rune_width s : s <> [] -> (1 <= (decode_rune s).1.2)%nat.
Proof.
  destruct s as [|b0 [|b1 [|b2 [|b3 s]]]]; intros; [done|..];
    simpl; repeat case_match; simpl; lia.
Qed.
