(* ===== verification/GoURL.v ===== *)
(** * [net/url]

    URLs as package [net/url] (Go 1.25) parses, prints and resolves them: [Parse],
    [String], [ResolveReference], and the escaping they rest on.  Used by the
    validation of endpoints, the migration URL and the outbound HTTP client. *)

From S2P Require Import Prelude GoText Regex.

Local Open Scope Z_scope.
Local Open Scope go_scope.

(** The encoding modes; a path segment is never escaped on its own here. *)
Inductive url_mode : Type :=
  | EncodePath | EncodeHost | EncodeZone | EncodeUserPassword | EncodeQueryComponent
  | EncodeFragment.

(** [url.Userinfo]: the username, and the password when one is set. *)
Record Userinfo : Type := { ui_username : string; ui_password : option string }.

Record URL : Type := {
  url_Scheme : string;
  url_Opaque : string;
  url_User : option Userinfo;
  url_Host : string;
  url_Path : string;
  url_RawPath : string;
  url_OmitHost : bool;
  url_ForceQuery : bool;
  url_RawQuery : string;
  url_Fragment : string;
  url_RawFragment : string;
}.

Definition is_alpha (c : ascii) : bool := is_lower c || is_upper c.

(** [s] contains the byte [c]. *)
Definition has_byte (c : ascii) (s : string) : bool :=
  negb (str_forallb (fun x => negb (bool_decide (x = c))) s).

(** [strings.Cut] around the last occurrence of [sep]. *)
Fixpoint cut_last (sep : ascii) (s : string) : option (string * string) :=
  match s with
  | EmptyString => None
  | String c s' =>
      match cut_last sep s' with
      | Some (a, b) => Some (String c a, b)
      | None => if bool_decide (c = sep) then Some (EmptyString, s') else None
      end
  end.

Definition to_lower_byte (c : ascii) : ascii :=
  if is_upper c then ascii_of_N (N_of_ascii c + 32) else c.
Fixpoint str_map (f : ascii -> ascii) (s : string) : string :=
  match s with EmptyString => EmptyString | String c s' => String (f c) (str_map f s') end.

(** [stringContainsCTLByte]. *)
Definition is_ctl (c : ascii) : bool := (byte_val c <? 32) || (byte_val c =? 127).
Definition contains_ctl (s : string) : bool := negb (str_forallb (fun c => negb (is_ctl c)) s).

(** [getScheme]: the scheme, the rest, or the error "missing protocol scheme". *)
Fixpoint get_scheme_from (i : nat) (acc : string) (raw s : string) : res (string * string) :=
  match s with
  | EmptyString => Ok (EmptyString, raw)
  | String c s' =>
      if is_alpha c then get_scheme_from (S i) (acc +:+ String c EmptyString) raw s'
      else if is_digit c || bool_decide (c = "+"%char) || bool_decide (c = "-"%char)
              || bool_decide (c = "."%char) then
        match i with
        | O => Ok (EmptyString, raw)
        | _ => get_scheme_from (S i) (acc +:+ String c EmptyString) raw s'
        end
      else if bool_decide (c = ":"%char) then
        match i with
        | O => Err (ENew "missing protocol scheme")
        | _ => Ok (acc, s')
        end
      else Ok (EmptyString, raw)
  end.

Definition getScheme (raw : string) : res (string * string) :=
  get_scheme_from O EmptyString raw raw.

Definition unhex (c : ascii) : option Z :=
  if is_digit c then Some (byte_val c - 48)
  else if in_range 97 102 c then Some (byte_val c - 87)
  else if in_range 65 70 c then Some (byte_val c - 55)
  else None.

Definition byte_in (c : ascii) (set : string) : bool := bool_decide (c ∈ bytes_of_string set).

Definition is_host_mode (mode : url_mode) : bool :=
  match mode with EncodeHost | EncodeZone => true | _ => false end.

(** [shouldEscape]. *)
Definition shouldEscape (c : ascii) (mode : url_mode) : bool :=
  if is_alpha c || is_digit c then false
  else if is_host_mode mode && (byte_in c "!$&'()*+,;=:[]<>" || bool_decide (c = ascii_of_nat 34))
  then false
  else if byte_in c "-_.~" then false
  else if byte_in c "$&+,/:;=?@" then
    match mode with
    | EncodePath => bool_decide (c = "?"%char)
    | EncodeUserPassword => byte_in c "@/?:"
    | EncodeQueryComponent => true
    | EncodeFragment => false
    | EncodeHost | EncodeZone => true
    end
  else
    match mode with
    | EncodeFragment => negb (byte_in c "!()*")
    | _ => true
    end.

Definition upper_hex (i : Z) : ascii := pick "0123456789ABCDEF" i.

(** One byte of [escape]. *)
Definition escape_byte (mode : url_mode) (c : ascii) : string :=
  if shouldEscape c mode then
    match mode with
    | EncodeQueryComponent =>
        if bool_decide (c = " "%char) then "+"
        else String "%" (String (upper_hex (byte_val c / 16)) (String (upper_hex (byte_val c mod 16)) EmptyString))
    | _ =>
        String "%" (String (upper_hex (byte_val c / 16)) (String (upper_hex (byte_val c mod 16)) EmptyString))
    end
  else String c EmptyString.

Fixpoint escape (mode : url_mode) (s : string) : string :=
  match s with
  | EmptyString => EmptyString
  | String c s' => escape_byte mode c +:+ escape mode s'
  end.

Definition escape_error : goerr := ENew "invalid URL escape".
Definition host_error : goerr := ENew "invalid character in host name".

(** [unescape(s, mode)]. *)
Fixpoint unescape (mode : url_mode) (s : string) : res string :=
  match s with
  | EmptyString => Ok EmptyString
  | String "%" s' =>
      match s' with
      | String a (String b rest) =>
          match unhex a, unhex b with
          | Some x, Some y =>
              let is25 := bool_decide (a = "2"%char) && bool_decide (b = "5"%char) in
              let v := ascii_of_N (Z.to_N (16 * x + y)) in
              let bad :=
                match mode with
                | EncodeHost => (x <? 8) && negb is25
                | EncodeZone =>
                    negb is25 && negb (bool_decide (v = " "%char)) && shouldEscape v EncodeHost
                | _ => false
                end in
              if bad then Err escape_error
              else res_map (String v) (unescape mode rest)
          | _, _ => Err escape_error
          end
      | _ => Err escape_error
      end
  | String c s' =>
      if is_host_mode mode && (byte_val c <? 128) && shouldEscape c mode then Err host_error
      else
        let c' := match mode with
                  | EncodeQueryComponent => if bool_decide (c = "+"%char) then " "%char else c
                  | _ => c
                  end in
        res_map (String c') (unescape mode s')
  end.

(** [validOptionalPort]: empty, or a colon and digits. *)
Definition validOptionalPort (port : string) : bool :=
  match port with
  | EmptyString => true
  | String c digits => bool_decide (c = ":"%char) && str_forallb is_digit digits
  end.

(** Split before the first occurrence of ["%25"]. *)
Fixpoint cut_zone (s : string) : option (string * string) :=
  if has_prefix "%25" s then Some (EmptyString, s)
  else match s with
       | EmptyString => None
       | String c s' => match cut_zone s' with Some (a, b) => Some (String c a, b) | None => None end
       end.

Definition parseHost (host : string) : res string :=
  if has_prefix "[" host then
    match cut_last "]"%char host with
    | None => Err (ENew "missing ']' in host")
    | Some (inside, colonPort) =>
        if negb (validOptionalPort colonPort) then Err (ENew "invalid port after host")
        else
          match cut_zone inside with
          | Some (addr, zone) =>
              try h1 := unescape EncodeHost addr in
              try h2 := unescape EncodeZone zone in
              try h3 := unescape EncodeHost (String "]" colonPort) in
              Ok (h1 +:+ h2 +:+ h3)
          | None => unescape EncodeHost host
          end
    end
  else
    match cut_last ":"%char host with
    | Some (_, port) =>
        if negb (str_forallb is_digit port) then Err (ENew "invalid port after host")
        else unescape EncodeHost host
    | None => unescape EncodeHost host
    end.

(** [validUserinfo]. *)
Definition userinfo_byte (c : ascii) : bool :=
  is_alpha c || is_digit c || bool_decide (c ∈ bytes_of_string "-._:~!$&'()*+,;=%@").

Definition parseAuthority (authority : string) : res (option Userinfo * string) :=
  match cut_last "@"%char authority with
  | None => try host := parseHost authority in Ok (None, host)
  | Some (userinfo, hostport) =>
      try host := parseHost hostport in
      if negb (str_forallb userinfo_byte userinfo) then Err (ENew "net/url: invalid userinfo")
      else
        let '(username, password, found) := cut ":"%char userinfo in
        try username := unescape EncodeUserPassword username in
        if negb found then Ok (Some {| ui_username := username; ui_password := None |}, host)
        else
          try password := unescape EncodeUserPassword password in
          Ok (Some {| ui_username := username; ui_password := Some password |}, host)
  end.

(** The query of [rest]: what precedes it, [ForceQuery], [RawQuery]. *)
Definition cut_query (rest : string) : string * bool * string :=
  let '(before, after, found) := cut "?"%char rest in
  (before, found && bool_decide (after = EmptyString), after).

(** [u.setPath(p)]: the path and the raw path. *)
Definition setPath (p : string) : res (string * string) :=
  try path := unescape EncodePath p in
  Ok (path, if bool_decide (p = escape EncodePath path) then EmptyString else p).

(** [u.setFragment(f)]. *)
Definition setFragment (f : string) : res (string * string) :=
  try frag := unescape EncodeFragment f in
  Ok (frag, if bool_decide (f = escape EncodeFragment frag) then EmptyString else f).

Definition str_drop (n : nat) (s : string) : string := String.substring n (String.length s) s.

(** [parse(rawURL, false)]. *)
Definition parse_url (raw : string) : res URL :=
  if contains_ctl raw then Err (ENew "net/url: invalid control character in URL")
  else if bool_decide (raw = "*") then
    Ok {| url_Scheme := EmptyString; url_Opaque := EmptyString; url_User := None;
          url_Host := EmptyString; url_Path := "*"; url_RawPath := EmptyString;
          url_OmitHost := false; url_ForceQuery := false; url_RawQuery := EmptyString;
          url_Fragment := EmptyString; url_RawFragment := EmptyString |}
  else
    try (scheme0, rest0) := getScheme raw in
    let scheme := str_map to_lower_byte scheme0 in
    let '(rest, force, query) := cut_query rest0 in
    let mk user host path rawpath omit opaque :=
      {| url_Scheme := scheme; url_Opaque := opaque; url_User := user; url_Host := host;
         url_Path := path; url_RawPath := rawpath; url_OmitHost := omit; url_ForceQuery := force;
         url_RawQuery := query; url_Fragment := EmptyString; url_RawFragment := EmptyString |} in
    if negb (has_prefix "/" rest) && negb (bool_decide (scheme = EmptyString)) then
      Ok (mk None EmptyString EmptyString EmptyString false rest)
    else if negb (has_prefix "/" rest) && has_byte ":"%char (split_first "/"%char rest) then
      Err (ENew "first path segment in URL cannot contain colon")
    else
      let authority_form :=
        (negb (bool_decide (scheme = EmptyString)) || negb (has_prefix "///" rest))
        && has_prefix "//" rest in
      if authority_form then
        let '(authority, tail, slash) := cut "/"%char (str_drop 2 rest) in
        try (user, host) := parseAuthority authority in
        try (path, rawpath) := setPath (if slash then String "/" tail else EmptyString) in
        Ok (mk user host path rawpath false EmptyString)
      else
        let omit := negb (bool_decide (scheme = EmptyString)) && has_prefix "/" rest in
        try (path, rawpath) := setPath rest in
        Ok (mk None EmptyString path rawpath omit EmptyString).

(** The URL with a fragment. *)
Definition with_fragment (u : URL) (frag rawfrag : string) : URL :=
  {| url_Scheme := url_Scheme u; url_Opaque := url_Opaque u; url_User := url_User u;
     url_Host := url_Host u; url_Path := url_Path u; url_RawPath := url_RawPath u;
     url_OmitHost := url_OmitHost u; url_ForceQuery := url_ForceQuery u;
     url_RawQuery := url_RawQuery u; url_Fragment := frag; url_RawFragment := rawfrag |}.

(** [url.Parse(rawURL)]. *)
Definition url_Parse (raw : string) : res URL :=
  let '(u, frag, _) := cut "#"%char raw in
  try url := parse_url u in
  if bool_decide (frag = EmptyString) then Ok url
  else try (f, rf) := setFragment frag in Ok (with_fragment url f rf).

(** ** Printing *)

(** [validEncoded]. *)
Definition validEncoded (mode : url_mode) (s : string) : bool :=
  str_forallb (fun c => byte_in c "!$&'()*+,;=:@[]%" || negb (shouldEscape c mode)) s.

(** [u.EscapedPath()], [u.EscapedFragment()]. *)
Definition escaped (mode : url_mode) (raw plain : string) : string :=
  if negb (bool_decide (raw = EmptyString)) && validEncoded mode raw &&
     bool_decide (unescape mode raw = Ok plain) then raw
  else escape mode plain.

Definition EscapedPath (u : URL) : string :=
  if negb (bool_decide (url_RawPath u = EmptyString)) && validEncoded EncodePath (url_RawPath u) &&
     bool_decide (unescape EncodePath (url_RawPath u) = Ok (url_Path u)) then url_RawPath u
  else if bool_decide (url_Path u = "*") then "*"
  else escape EncodePath (url_Path u).

Definition EscapedFragment (u : URL) : string :=
  escaped EncodeFragment (url_RawFragment u) (url_Fragment u).

(** [ui.String()]. *)
Definition userinfo_String (ui : Userinfo) : string :=
  if bool_decide (ui_username ui = EmptyString) &&
     bool_decide (default EmptyString (ui_password ui) = EmptyString) then EmptyString
  else
    escape EncodeUserPassword (ui_username ui) +:+
    match ui_password ui with
    | Some p => ":" +:+ escape EncodeUserPassword p
    | None => EmptyString
    end.

Definition str_empty (s : string) : bool := bool_decide (s = EmptyString).

(** The authority part of [String]. *)
Definition authority_String (u : URL) : string :=
  let nil_user := match url_User u with None => true | Some _ => false end in
  if str_empty (url_Scheme u) && str_empty (url_Host u) && nil_user then EmptyString
  else if url_OmitHost u && str_empty (url_Host u) && nil_user then EmptyString
  else
    (if negb (str_empty (url_Host u)) || negb (str_empty (url_Path u)) || negb nil_user
     then "//" else EmptyString) +:+
    match url_User u with Some ui => userinfo_String ui +:+ "@" | None => EmptyString end +:+
    escape EncodeHost (url_Host u).

(** [u.String()]. *)
Definition url_String (u : URL) : string :=
  let head := if str_empty (url_Scheme u) then EmptyString else url_Scheme u +:+ ":" in
  let body :=
    if negb (str_empty (url_Opaque u)) then url_Opaque u
    else
      let authority := authority_String u in
      let path := EscapedPath u in
      let slash := if negb (str_empty path) && negb (has_prefix "/" path) &&
                      negb (str_empty (url_Host u)) then "/" else EmptyString in
      let dot := if str_empty (head +:+ authority +:+ slash) &&
                    has_byte ":"%char (split_first "/"%char path) then "./" else EmptyString in
      authority +:+ slash +:+ dot +:+ path in
  head +:+ body +:+
  (if url_ForceQuery u || negb (str_empty (url_RawQuery u)) then "?" +:+ url_RawQuery u
   else EmptyString) +:+
  (if str_empty (url_Fragment u) then EmptyString else "#" +:+ EscapedFragment u).

Definition scheme_host (r : res URL) : res (string * string) :=
  res_map (fun u => (url_Scheme u, url_Host u)) r.

Example url_Parse_grpc :
  scheme_host (url_Parse "grpc://tenant-service:9090") = Ok ("grpc", "tenant-service:9090") /\
  scheme_host (url_Parse "HTTPS://u:p@[fe80::1%25en0]:443/a%20b?q#f") =
    Ok ("https", "[fe80::1%en0]:443") /\
  scheme_host (url_Parse "tenant-service:9090") = Ok ("tenant-service", "") /\
  scheme_host (url_Parse "file:///etc/passwd") = Ok ("file", "") /\
  is_ok (url_Parse "http://a b/") = false /\
  is_ok (url_Parse "http://host:port/") = false /\
  is_ok (url_Parse "http://h/%zz") = false.
Proof. repeat split; vm_compute; reflexivity. Qed.

Example url_String_back :
  res_map url_String (url_Parse "postgres://u:p%40@h:5432/db%2Fx?sslmode=disable#a%20b") =
    Ok "postgres://u:p%40@h:5432/db%2Fx?sslmode=disable#a%20b" /\
  res_map url_String (url_Parse "file:///srv/m") = Ok "file:///srv/m" /\
  res_map url_String (url_Parse "/a/b?") = Ok "/a/b?" /\
  res_map url_String (url_Parse "mailto:x@y") = Ok "mailto:x@y".
Proof. repeat split; vm_compute; reflexivity. Qed.

(** ** References *)

(** The elements of [resolvePath]'s loop, applied to the text written so far
    ([dst] without its leading slash) and the flag [first]. *)
Definition resolve_elem (st : string * bool) (elem : string) : string * bool :=
  let '(str, first) := st in
  if bool_decide (elem = ".") then (str, false)
  else if bool_decide (elem = "..") then
    match cut_last "/"%char str with
    | None => (EmptyString, true)
    | Some (before, _) => (before, first)
    end
  else ((if first then str else str +:+ "/") +:+ elem, false).

(** [resolvePath(base, ref)]. *)
Definition resolvePath (base ref : string) : string :=
  let full :=
    if str_empty ref then base
    else if has_prefix "/" ref then ref
    else match cut_last "/"%char base with
         | Some (before, _) => before +:+ "/" +:+ ref
         | None => ref
         end in
  if str_empty full then EmptyString
  else
    let elems := split_on "/"%char full in
    let '(str, _) := fold_left resolve_elem elems (EmptyString, true) in
    let elem := List.last elems EmptyString in
    let r := "/" +:+ str +:+
             (if bool_decide (elem = ".") || bool_decide (elem = "..") then "/" else EmptyString) in
    if has_prefix "//" r then str_drop 1 r else r.

(** The URL with path and raw path from [u.setPath(p)]; an invalid [p] changes
    nothing. *)
Definition with_path (u : URL) (p : string) : URL :=
  match setPath p with
  | Ok (path, rawpath) =>
      {| url_Scheme := url_Scheme u; url_Opaque := url_Opaque u; url_User := url_User u;
         url_Host := url_Host u; url_Path := path; url_RawPath := rawpath;
         url_OmitHost := url_OmitHost u; url_ForceQuery := url_ForceQuery u;
         url_RawQuery := url_RawQuery u; url_Fragment := url_Fragment u;
         url_RawFragment := url_RawFragment u |}
  | Err _ => u
  end.

(** [u.ResolveReference(ref)]. *)
Definition ResolveReference (u ref : URL) : URL :=
  let scheme := if str_empty (url_Scheme ref) then url_Scheme u else url_Scheme ref in
  let with_target opaque user host path query frag rawfrag :=
    {| url_Scheme := scheme; url_Opaque := opaque; url_User := user; url_Host := host;
       url_Path := path; url_RawPath := url_RawPath ref; url_OmitHost := url_OmitHost ref;
       url_ForceQuery := url_ForceQuery ref; url_RawQuery := query; url_Fragment := frag;
       url_RawFragment := rawfrag |} in
  let no_path := str_empty (url_Path ref) in
  if negb (str_empty (url_Scheme ref)) || negb (str_empty (url_Host ref)) ||
     bool_decide (is_Some (url_User ref)) then
    with_path
      (with_target (url_Opaque ref) (url_User ref) (url_Host ref) (url_Path ref)
         (url_RawQuery ref) (url_Fragment ref) (url_RawFragment ref))
      (resolvePath (EscapedPath ref) EmptyString)
  else if negb (str_empty (url_Opaque ref)) then
    with_target (url_Opaque ref) None EmptyString EmptyString
      (url_RawQuery ref) (url_Fragment ref) (url_RawFragment ref)
  else
    let bare := no_path && negb (url_ForceQuery ref) && str_empty (url_RawQuery ref) in
    let query := if bare then url_RawQuery u else url_RawQuery ref in
    let inherit := bare && str_empty (url_Fragment ref) in
    let frag := if inherit then url_Fragment u else url_Fragment ref in
    let rawfrag := if inherit then url_RawFragment u else url_RawFragment ref in
    if no_path && negb (str_empty (url_Opaque u)) then
      with_target (url_Opaque u) None EmptyString EmptyString query frag rawfrag
    else
      with_path
        (with_target (url_Opaque ref) (url_User u) (url_Host u) (url_Path ref) query frag rawfrag)
        (resolvePath (EscapedPath u) (EscapedPath ref)).

(** [u.IsAbs()]. *)
Definition url_IsAbs (u : URL) : bool := negb (str_empty (url_Scheme u)).

(** The examples of RFC 3986, section 5.4. *)
Definition resolve_on (base : string) (refs : list string) : list string :=
  (fun ref => match url_Parse base, url_Parse ref with
              | Ok b, Ok r => url_String (ResolveReference b r)
              | _, _ => "error"
              end) <$> refs.

Example resolve_rfc :
  resolve_on "http://a/b/c/d;p?q"
    ["g"; "./g"; "g/"; "/g"; "//g"; "?y"; "g?y"; "#s"; ""; "."; "./"; ".."; "../"; "../g";
     "../.."; "../../g"; "../../../g"; "/./g"; "/../g"; "g."; "..g"; "./../g"; "./g/.";
     "g/./h"; "g/../h"; "g;x=1/./y"; "///g"] =
    ["http://a/b/c/g"; "http://a/b/c/g"; "http://a/b/c/g/"; "http://a/g"; "http://g";
     "http://a/b/c/d;p?y"; "http://a/b/c/g?y"; "http://a/b/c/d;p?q#s"; "http://a/b/c/d;p?q";
     "http://a/b/c/"; "http://a/b/c/"; "http://a/b/"; "http://a/b/"; "http://a/b/g";
     "http://a/"; "http://a/g"; "http://a/g"; "http://a/g"; "http://a/g"; "http://a/b/c/g.";
     "http://a/b/c/..g"; "http://a/b/g"; "http://a/b/c/g/"; "http://a/b/c/g/h";
     "http://a/b/c/h"; "http://a/b/c/g;x=1/y"; "http://a///g"].
Proof. vm_compute. reflexivity. Qed.
