(* ===== verification/GoQuery.v ===== *)
(** * Query strings of [net/url]

    [url.Values] as a map from keys to lists of values, [QueryEscape] and
    [QueryUnescape], [ParseQuery] as [u.Query()] uses it (malformed pairs are
    dropped), and [Encode]; with the round trips the URL rewriting relies on. *)

From S2P Require Import Prelude GoText Regex GoURL.

Local Open Scope go_scope.

Abbreviation Values := (gmap string (list string)).

Definition QueryEscape (s : string) : string := escape EncodeQueryComponent s.
Definition QueryUnescape (s : string) : res string := unescape EncodeQueryComponent s.

(** One segment of the query; [None] when it is skipped. *)
Definition query_pair (segment : string) : option (string * string) :=
  if has_byte ";"%char segment || str_empty segment then None
  else
    let '(k, v, _) := cut "="%char segment in
    match QueryUnescape k, QueryUnescape v with
    | Ok k', Ok v' => Some (k', v')
    | _, _ => None
    end.

(** [m[key] = append(m[key], value)]. *)
Definition values_add (m : Values) (kv : string * string) : Values :=
  <[kv.1 := m !!! kv.1 ++ [kv.2]]> m.

(** [u.Query()] of a raw query. *)
Definition ParseQuery (query : string) : Values :=
  fold_left values_add (omap query_pair (split_on "&"%char query)) ∅.

Definition str_le (a b : string) : Prop := str_ltb b a = false.

#[global] Instance str_le_dec a b : Decision (str_le a b).
Proof. unfold str_le. apply _. Defined.

(** The keys of [v], as [sort.Strings] orders them. *)
Definition sorted_keys (v : Values) : list string := merge_sort str_le (elements (dom v)).

Definition encode_pair (k v : string) : string := QueryEscape k +:+ "=" +:+ QueryEscape v.

Definition encoded_pairs (v : Values) : list string :=
  sorted_keys v ≫= (fun k => encode_pair k <$> v !!! k).

(** [v.Encode()]. *)
Definition Values_Encode (v : Values) : string := str_join "&" (encoded_pairs v).

Definition Values_Set (key value : string) (v : Values) : Values := <[key := [value]]> v.
Definition Values_Del (key : string) (v : Values) : Values := delete key v.

Example query_ex :
  Values_Encode (ParseQuery "b=2&a=x+y&bad%zz=1&c;d=1&b=%26&&a") = "a=x+y&a=&b=2&b=%26".
Proof. vm_compute. reflexivity. Qed.

(** ** Escaping *)

(** The modes without rules of their own for the bytes of a host. *)
Definition plain_mode (mode : url_mode) : bool := negb (is_host_mode mode).

Lemma unescape_percent mode a b s x y :
  plain_mode mode = true -> unhex a = Some x -> unhex b = Some y ->
  unescape mode (String "%" (String a (String b s))) =
    res_map (String (ascii_of_N (Z.to_N (16 * x + y)))) (unescape mode s).
Proof. intros Hm Ha Hb. cbn [unescape]. rewrite Ha, Hb. by destruct mode. Qed.

Lemma unescape_byte mode c s :
  plain_mode mode = true -> c <> "%"%char ->
  unescape mode (String c s) =
    res_map (String (match mode with
                     | EncodeQueryComponent => if bool_decide (c = "+"%char) then " "%char else c
                     | _ => c
                     end)) (unescape mode s).
Proof. intros Hm Hc. destruct mode; try done; destruct c as [[] [] [] [] [] [] [] []]; done. Qed.

(** A property of bytes, checked on all of them. *)
Definition all_bytes : list ascii := (fun n => ascii_of_nat n) <$> List.seq 0 256.

Lemma forall_bytes (P : ascii -> bool) : forallb P all_bytes = true -> forall c, P c = true.
Proof.
  intros H c. rewrite forallb_forall in H. apply H, list_elem_of_In.
  unfold all_bytes. apply list_elem_of_fmap. exists (nat_of_ascii c).
  rewrite ascii_nat_embedding. split; [done|]. apply elem_of_seq. pose proof (nat_ascii_bounded c). lia.
Qed.

Lemma hex_digits c :
  unhex (upper_hex (byte_val c / 16)) = Some (byte_val c / 16)%Z /\
  unhex (upper_hex (byte_val c mod 16)) = Some (byte_val c mod 16)%Z.
Proof.
  assert (forallb (fun c =>
    bool_decide (unhex (upper_hex (byte_val c / 16)) = Some (byte_val c / 16)%Z) &&
    bool_decide (unhex (upper_hex (byte_val c mod 16)) = Some (byte_val c mod 16)%Z))
    all_bytes = true) as H by (vm_compute; reflexivity).
  apply (forall_bytes _) with (c := c) in H. cbv beta in H.
  apply andb_prop in H as [H1 H2]. by apply bool_decide_eq_true in H1, H2.
Qed.

Lemma byte_of_hex c : ascii_of_N (Z.to_N (16 * (byte_val c / 16) + byte_val c mod 16)) = c.
Proof.
  rewrite <- Z.div_mod by lia. unfold byte_val. rewrite N2Z.id. apply ascii_N_embedding.
Qed.

Lemma unescape_escape_byte mode c s :
  plain_mode mode = true ->
  unescape mode (escape_byte mode c +:+ s) = res_map (String c) (unescape mode s).
Proof.
  intros Hm. destruct (hex_digits c) as [H1 H2].
  assert (unescape mode (String "%" (String (upper_hex (byte_val c / 16))
            (String (upper_hex (byte_val c mod 16)) EmptyString)) +:+ s) =
          res_map (String c) (unescape mode s)) as Hhex.
  { pose proof (unescape_percent mode _ _ s _ _ Hm H1 H2) as E. rewrite byte_of_hex in E. exact E. }
  unfold escape_byte. destruct (shouldEscape c mode) eqn:Es.
  - destruct mode; try done. case_bool_decide as Hs; [|done]. by subst c.
  - assert (c <> "%"%char) as Hc by (intros ->; by destruct mode).
    assert (mode = EncodeQueryComponent -> c <> "+"%char) as Hp by (intros -> ->; done).
    change (String c EmptyString +:+ s) with (String c s). rewrite unescape_byte by done.
    destruct mode; try done. rewrite bool_decide_eq_false_2 by auto. done.
Qed.

(** Escaping and unescaping in any of the plain modes gives the text back. *)
Lemma unescape_escape mode s : plain_mode mode = true -> unescape mode (escape mode s) = Ok s.
Proof.
  intros Hm. induction s as [|c s IH]; [done|]. cbn [escape].
  by rewrite unescape_escape_byte, IH by done.
Qed.

(** Bytes an escaped text never holds. *)
Lemma escape_avoids mode (P : ascii -> bool) s :
  forallb (fun c => str_forallb P (escape_byte mode c)) all_bytes = true ->
  str_forallb P (escape mode s) = true.
Proof.
  intros H. induction s as [|c s IH]; [done|]. cbn [escape]. rewrite str_forallb_app, IH.
  by rewrite (forall_bytes _ H c).
Qed.

(** ** The round trip *)

Lemma QueryEscape_avoids sep s :
  byte_in sep "&;=" = true -> avoids sep (QueryEscape s) = true.
Proof.
  intros Hs. apply escape_avoids. unfold byte_in in Hs. apply bool_decide_eq_true in Hs.
  cbn in Hs. rewrite !elem_of_cons, elem_of_nil in Hs.
  destruct Hs as [->|[->|[->|[]]]]; vm_compute; reflexivity.
Qed.

Lemma encode_pair_avoids sep k v : byte_in sep "&;" = true -> avoids sep (encode_pair k v) = true.
Proof.
  intros Hs. unfold encode_pair.
  assert (byte_in sep "&;=" = true) as H3.
  { revert Hs. unfold byte_in. rewrite !bool_decide_eq_true. cbn. set_solver. }
  rewrite !str_forallb_app, !QueryEscape_avoids by done. simpl.
  rewrite bool_decide_eq_false_2; [done|]. intros <-. by vm_compute in Hs.
Qed.

Lemma query_pair_encode k v : query_pair (encode_pair k v) = Some (k, v).
Proof.
  unfold query_pair, has_byte. rewrite (encode_pair_avoids ";") by reflexivity.
  assert (str_empty (encode_pair k v) = false) as ->.
  { unfold str_empty. apply bool_decide_eq_false. unfold encode_pair.
    by destruct (QueryEscape k). }
  cbn [negb orb]. unfold encode_pair.
  change (QueryEscape k +:+ "=" +:+ QueryEscape v) with
    (QueryEscape k +:+ String "=" (QueryEscape v)).
  rewrite cut_app by (apply QueryEscape_avoids; reflexivity). unfold QueryUnescape, QueryEscape.
  by rewrite !unescape_escape.
Qed.

Lemma add_all_values k vs m :
  fold_left values_add (pair k <$> vs) m = if decide (vs = []) then m else <[k := m !!! k ++ vs]> m.
Proof.
  revert m. induction vs as [|v vs IH]; intros m; [done|]. cbn [fmap list_fmap fold_left].
  change (values_add m (k, v)) with (<[k := m !!! k ++ [v]]> m). rewrite IH. destruct (decide (vs = [])) as [->|Hn].
  - by rewrite decide_False.
  - rewrite decide_False by done. rewrite lookup_total_insert_eq, insert_insert_eq, <- app_assoc.
    done.
Qed.

(** The pairs of [m] in the order of [keys]. *)
Definition pairs_of (m : Values) (keys : list string) : list (string * string) :=
  keys ≫= (fun k => pair k <$> m !!! k).

Lemma fold_pairs_lookup m keys acc k :
  NoDup keys -> (forall k, k ∈ keys -> acc !! k = None) ->
  fold_left values_add (pairs_of m keys) acc !! k =
    if decide (k ∈ keys /\ m !!! k <> []) then Some (m !!! k) else acc !! k.
Proof.
  revert acc. induction keys as [|x keys IH]; intros acc Hnd Hacc.
  - rewrite decide_False by set_solver. done.
  - inversion_clear Hnd as [|? ? Hx Hk]. unfold pairs_of. cbn [mbind list_bind].
    rewrite fold_left_app, add_all_values. fold (pairs_of m keys).
    assert (acc !! x = None) as Hn by (apply Hacc; set_solver).
    rewrite (lookup_total_alt acc), Hn. cbn [default from_option app].
    destruct (decide (m !!! x = [])) as [Hm|Hm].
    + rewrite IH by set_solver. destruct (decide (k = x)) as [->|]; repeat case_decide; set_solver.
    + rewrite IH; [|done|intros y Hy; rewrite lookup_insert_ne by set_solver; set_solver].
      destruct (decide (k = x)) as [->|Hkx].
      * rewrite decide_False by tauto. rewrite decide_True by set_solver.
        by rewrite lookup_insert_eq.
      * rewrite lookup_insert_ne by done. repeat case_decide; set_solver.
Qed.

Lemma sorted_keys_perm v : sorted_keys v ≡ₚ elements (dom v).
Proof. apply merge_sort_Permutation. Qed.

Lemma omap_query_pairs (m : Values) keys :
  omap query_pair (keys ≫= (fun k => encode_pair k <$> m !!! k)) = pairs_of m keys.
Proof.
  unfold pairs_of. induction keys as [|k keys IH]; [done|]. cbn [mbind list_bind].
  rewrite omap_app, IH. f_equal. rewrite list_omap_fmap.
  apply omap_all_some. induction (m !!! k); cbn; constructor; auto using query_pair_encode.
Qed.

(** Parsing an encoded map gives the map back, less its keys without values. *)
Lemma ParseQuery_Encode_lookup m k :
  ParseQuery (Values_Encode m) !! k = if decide (m !!! k = []) then None else m !! k.
Proof.
  assert (omap query_pair (split_on "&"%char (Values_Encode m)) = pairs_of m (sorted_keys m)) as E.
  { unfold Values_Encode. rewrite <- omap_query_pairs. fold (encoded_pairs m).
    destruct (decide (encoded_pairs m = [])) as [->|Hne]; [done|].
    rewrite split_on_join; [done|done|]. unfold encoded_pairs. apply Forall_bind, Forall_true.
    intros x. apply Forall_fmap, Forall_true. intros v. by apply encode_pair_avoids. }
  unfold ParseQuery. rewrite E, fold_pairs_lookup; cycle 1.
  - rewrite sorted_keys_perm. apply NoDup_elements.
  - set_solver.
  - assert (k ∈ sorted_keys m <-> is_Some (m !! k)) as Hin
      by (by rewrite sorted_keys_perm, elem_of_elements, elem_of_dom).
    rewrite lookup_empty, lookup_total_alt.
    destruct (m !! k) as [vs|] eqn:Ek; cbn; repeat case_decide; try done; naive_solver.
Qed.

Lemma ParseQuery_Encode m :
  map_Forall (fun _ vs => vs <> []) m -> ParseQuery (Values_Encode m) = m.
Proof.
  intros H. apply map_eq. intros k. rewrite ParseQuery_Encode_lookup, lookup_total_alt.
  destruct (m !! k) as [vs|] eqn:Ek; cbn; [|done]. rewrite decide_False; [done|]. by apply (H k).
Qed.

(** Maps that come from a query have no key without a value. *)
Lemma values_add_nonempty m kv :
  map_Forall (fun _ vs => vs <> []) m -> map_Forall (fun _ vs => vs <> []) (values_add m kv).
Proof.
  intros H. apply map_Forall_insert_2; [|done]. by destruct (m !!! kv.1).
Qed.

Lemma ParseQuery_nonempty q : map_Forall (fun _ vs => vs <> []) (ParseQuery q).
Proof.
  unfold ParseQuery. generalize (omap query_pair (split_on "&"%char q)). intros l.
  assert (map_Forall (fun _ (vs : list string) => vs <> []) (∅ : Values)) as H by done.
  revert H. generalize (∅ : Values). induction l as [|kv l IH]; intros m H; [done|].
  cbn. apply IH. by apply values_add_nonempty.
Qed.

(** The bytes of an encoded query. *)
Definition query_byte (c : ascii) : bool :=
  is_alpha c || is_digit c || byte_in c "-_.~%+&=".

Lemma Encode_bytes m : str_forallb query_byte (Values_Encode m) = true.
Proof.
  assert (forall s, str_forallb query_byte (QueryEscape s) = true) as He
    by (intros s; apply escape_avoids; vm_compute; reflexivity).
  assert (Forall (fun s => str_forallb query_byte s = true) (encoded_pairs m)) as H.
  { unfold encoded_pairs. apply Forall_bind, Forall_true. intros k. apply Forall_fmap, Forall_true.
    intros v. unfold compose, encode_pair. by rewrite !str_forallb_app, !He. }
  unfold Values_Encode. induction H as [|x l Hx Hl IH]; [done|]. destruct l as [|y l]; [done|].
  change (str_join "&" (x :: y :: l)) with (x +:+ "&" +:+ str_join "&" (y :: l)).
  by rewrite !str_forallb_app, Hx, IH.
Qed.
