(* ===== verification/UrlFacts.v ===== *)
(** * Printing and parsing URLs

    [url.Parse] takes back what [u.String()] printed, for the URLs with a scheme,
    a named host and an absolute path: every component is recovered.  Also what a parsed URL looks like, and which host a resolved
    reference has. *)

From S2P Require Import Prelude GoText Regex GoURL GoQuery.

Local Open Scope go_scope.

(** ** Bytes *)

Lemma str_forallb_impl (P Q : ascii -> bool) s :
  forallb (fun c => implb (P c) (Q c)) all_bytes = true ->
  str_forallb P s = true -> str_forallb Q s = true.
Proof.
  intros H. induction s as [|c s IH]; [done|]. cbn. intros [Hc Hs]%andb_prop.
  apply (forall_bytes _) with (c := c) in H. rewrite Hc in H. simpl in H. by rewrite H, IH.
Qed.

Lemma cut_avoids sep s : avoids sep s = true -> cut sep s = (s, EmptyString, false).
Proof.
  induction s as [|c s IH]; [done|]. cbn. intros [Hc Hs]%andb_prop.
  apply negb_true_iff in Hc. by rewrite Hc, IH.
Qed.

Lemma cut_last_avoids sep s : avoids sep s = true -> cut_last sep s = None.
Proof.
  induction s as [|c s IH]; [done|]. cbn. intros [Hc Hs]%andb_prop.
  apply negb_true_iff in Hc. by rewrite IH, Hc.
Qed.

Lemma cut_last_app sep a b : avoids sep b = true -> cut_last sep (a +:+ String sep b) = Some (a, b).
Proof.
  intros Hb. induction a as [|c a IH].
  - change (EmptyString +:+ String sep b) with (String sep b). cbn.
    rewrite cut_last_avoids by done. by rewrite bool_decide_eq_true_2.
  - change (String c a +:+ String sep b) with (String c (a +:+ String sep b)). cbn. by rewrite IH.
Qed.

(** Everything [cut_last] splits is what it was given. *)
Lemma cut_last_some sep s a b : cut_last sep s = Some (a, b) -> s = a +:+ String sep b.
Proof.
  revert a. induction s as [|c s IH]; intros a; [done|]. cbn.
  destruct (cut_last sep s) as [[a' b']|].
  - intros [= <- <-]. by rewrite (IH a').
  - case_bool_decide; [|done]. intros [= <- <-]. by subst.
Qed.

(** ** Plain URLs *)

Definition host_byte (c : ascii) : bool := is_alpha c || is_digit c || byte_in c "-._:".
Definition path_byte (c : ascii) : bool :=
  byte_in c "!$&'()*+,;=:@[]%" || negb (shouldEscape c EncodePath).
Definition user_byte (c : ascii) : bool := is_alpha c || is_digit c || byte_in c "-._~$&+,;=%".

(** A name or IPv4 address with an optional port. *)
Definition plain_host (h : string) : bool :=
  negb (str_empty h) && str_forallb host_byte h &&
  match cut_last ":"%char h with Some (_, port) => str_forallb is_digit port | None => true end.

(** A path that is absolute or absent, with a raw path of the same kind. *)
Definition plain_path (u : URL) : bool :=
  (str_empty (url_Path u) && str_empty (url_RawPath u)) ||
  (has_prefix "/" (url_Path u) && (str_empty (url_RawPath u) || has_prefix "/" (url_RawPath u))).

(** The bytes of a printed URL before its fragment. *)
Definition url_byte (c : ascii) : bool := negb (is_ctl c) && negb (bool_decide (c = "#"%char)).

Definition plain_url (u : URL) : bool :=
  negb (str_empty (url_Scheme u)) && str_forallb is_lower (url_Scheme u) &&
  str_empty (url_Opaque u) && plain_host (url_Host u) &&
  match url_User u with Some ui => negb (str_empty (ui_username ui)) | None => true end &&
  plain_path u && str_forallb url_byte (url_RawQuery u).

(** What a parser keeps of it: raw forms only where the default escaping is not
    used. *)
Definition normal_url (u : URL) : URL :=
  {| url_Scheme := url_Scheme u; url_Opaque := EmptyString; url_User := url_User u;
     url_Host := url_Host u; url_Path := url_Path u;
     url_RawPath := if bool_decide (EscapedPath u = escape EncodePath (url_Path u)) then EmptyString
                    else EscapedPath u;
     url_OmitHost := false;
     url_ForceQuery := url_ForceQuery u && str_empty (url_RawQuery u);
     url_RawQuery := url_RawQuery u;
     url_Fragment := url_Fragment u;
     url_RawFragment :=
       if str_empty (url_Fragment u) ||
          bool_decide (EscapedFragment u = escape EncodeFragment (url_Fragment u)) then EmptyString
       else EscapedFragment u |}.

(** *** The scheme *)

Lemma get_scheme_lower s i acc raw rest :
  str_forallb is_lower s = true -> (s <> EmptyString \/ i <> O) ->
  get_scheme_from i acc raw (s +:+ String ":" rest) = Ok (acc +:+ s, rest).
Proof.
  revert i acc. induction s as [|c s IH]; intros i acc Hs Hi.
  - change (EmptyString +:+ String ":" rest) with (String ":" rest). cbn.
    destruct i; [naive_solver|]. by rewrite str_app_nil_r.
  - change (String c s +:+ String ":" rest) with (String c (s +:+ String ":" rest)).
    cbn in Hs. apply andb_prop in Hs as [Hc Hs]. cbn [get_scheme_from]. unfold is_alpha.
    rewrite Hc. cbn [orb]. rewrite IH by (done || (right; lia)).
    by rewrite <- str_app_assoc.
Qed.

Lemma str_map_lower s : str_forallb is_lower s = true -> str_map to_lower_byte s = s.
Proof.
  assert (forallb (fun c => implb (is_lower c) (bool_decide (to_lower_byte c = c))) all_bytes = true)
    as H by (vm_compute; reflexivity).
  induction s as [|c s IH]; [done|]. cbn. intros [Hc Hs]%andb_prop.
  apply (forall_bytes _) with (c := c) in H. rewrite Hc in H. apply bool_decide_eq_true in H.
  by rewrite H, IH.
Qed.

(** *** The authority *)

Lemma unescape_host h : str_forallb host_byte h = true -> unescape EncodeHost h = Ok h.
Proof.
  induction h as [|c h IH]; [done|]. cbn [str_forallb]. intros [Hc Hh]%andb_prop.
  assert (unescape EncodeHost (String c h) = res_map (String c) (unescape EncodeHost h)) as ->.
  { clear IH Hh. destruct c as [[] [] [] [] [] [] [] []]; first [discriminate Hc | reflexivity]. }
  by rewrite IH.
Qed.

Lemma escape_host h : str_forallb host_byte h = true -> escape EncodeHost h = h.
Proof.
  assert (forallb (fun c => implb (host_byte c) (bool_decide (escape_byte EncodeHost c =
    String c EmptyString))) all_bytes = true) as H by (vm_compute; reflexivity).
  induction h as [|c h IH]; [done|]. cbn [str_forallb]. intros [Hc Hh]%andb_prop.
  apply (forall_bytes _) with (c := c) in H. rewrite Hc in H. apply bool_decide_eq_true in H.
  cbn [escape]. by rewrite H, IH.
Qed.

Lemma parseHost_plain h : plain_host h = true -> parseHost h = Ok h.
Proof.
  unfold plain_host. intros [[Hne Hb]%andb_prop Hp]%andb_prop. unfold parseHost.
  destruct (has_prefix "[" h) eqn:Eb.
  { apply has_prefix_inv in Eb as [s' ->]. discriminate Hb. }
  destruct (cut_last ":" h) as [[? port]|]; [rewrite Hp; cbn [negb]|]; by apply unescape_host.
Qed.

Lemma escape_user_bytes s : str_forallb user_byte (escape EncodeUserPassword s) = true.
Proof. apply escape_avoids. vm_compute. reflexivity. Qed.

(** A class of bytes from a smaller one. *)
Ltac bytes_from H := refine (str_forallb_impl _ _ _ _ H); vm_compute; reflexivity.

Lemma escape_user_ok sep s :
  user_byte sep = false -> avoids sep (escape EncodeUserPassword s) = true.
Proof.
  intros Hsep. generalize (escape_user_bytes s). generalize (escape EncodeUserPassword s).
  intros t. induction t as [|c t IH]; [done|]. cbn. intros [Hc Ht]%andb_prop. rewrite IH by done.
  rewrite andb_true_r. apply negb_true_iff, bool_decide_eq_false. intros ->. congruence.
Qed.

Definition plain_user (user : option Userinfo) : bool :=
  match user with Some ui => negb (str_empty (ui_username ui)) | None => true end.

Definition user_text (user : option Userinfo) : string :=
  match user with Some ui => userinfo_String ui +:+ "@" | None => EmptyString end.

Lemma plain_host_bytes h : plain_host h = true -> str_forallb host_byte h = true.
Proof. unfold plain_host. by intros [[_ H]%andb_prop _]%andb_prop. Qed.

Lemma userinfo_text ui :
  str_empty (ui_username ui) = false ->
  userinfo_String ui = escape EncodeUserPassword (ui_username ui) +:+
    match ui_password ui with Some p => ":" +:+ escape EncodeUserPassword p | None => EmptyString end.
Proof. unfold userinfo_String, str_empty. by intros ->. Qed.

Lemma userinfo_bytes ui :
  str_empty (ui_username ui) = false -> str_forallb userinfo_byte (userinfo_String ui) = true.
Proof.
  intros H. rewrite userinfo_text by done. rewrite str_forallb_app.
  assert (forall s, str_forallb userinfo_byte (escape EncodeUserPassword s) = true) as He.
  { intros s. bytes_from (escape_user_bytes s). }
  rewrite He. destruct (ui_password ui); [|done]. by rewrite str_forallb_app, He.
Qed.

Lemma parseAuthority_plain user h :
  plain_user user = true -> plain_host h = true ->
  parseAuthority (user_text user +:+ h) = Ok (user, h).
Proof.
  intros Hu Hh. pose proof (plain_host_bytes h Hh) as Hb.
  assert (avoids "@"%char h = true) as Hat by (bytes_from Hb).
  unfold parseAuthority. destruct user as [ui|]; cbn [user_text plain_user] in *.
  - apply negb_true_iff in Hu.
    change (userinfo_String ui +:+ "@") with (userinfo_String ui +:+ String "@" EmptyString).
    rewrite <- str_app_assoc. change (String "@" EmptyString +:+ h) with (String "@" h).
    rewrite cut_last_app by done. rewrite parseHost_plain by done. cbn [res_bind].
    rewrite userinfo_bytes by done. cbn [negb]. rewrite userinfo_text by done.
    destruct ui as [name [p|]]; cbn [ui_username ui_password].
    + change (":" +:+ escape EncodeUserPassword p) with (String ":" (escape EncodeUserPassword p)).
      rewrite cut_app by (by apply escape_user_ok).
      rewrite !unescape_escape by done. done.
    + rewrite str_app_nil_r, cut_avoids by (by apply escape_user_ok).
      by rewrite unescape_escape.
  - change (EmptyString +:+ h) with h. rewrite cut_last_avoids by done.
    by rewrite parseHost_plain.
Qed.

(** *** The path *)

Lemma path_escape_bytes s : str_forallb path_byte (escape EncodePath s) = true.
Proof. apply escape_avoids. vm_compute. reflexivity. Qed.

Lemma plain_path_cases u :
  plain_path u = true ->
  (url_Path u = EmptyString /\ EscapedPath u = EmptyString) \/
  (has_prefix "/" (url_Path u) = true /\
   str_empty (url_RawPath u) || has_prefix "/" (url_RawPath u) = true).
Proof.
  intros [[Hp Hr]%andb_prop|[Hp Hr]%andb_prop]%orb_prop; [left|by right].
  apply bool_decide_eq_true in Hp, Hr. split; [done|]. unfold EscapedPath. by rewrite Hp, Hr.
Qed.

(** The default escaping is used, or a raw path that is valid for the path. *)
Lemma EscapedPath_cases u :
  (validEncoded EncodePath (EscapedPath u) = true /\
   unescape EncodePath (EscapedPath u) = Ok (url_Path u) /\ EscapedPath u = url_RawPath u) \/
  EscapedPath u = escape EncodePath (url_Path u) \/ (url_Path u = "*" /\ EscapedPath u = "*").
Proof.
  unfold EscapedPath. destruct (_ && _ && _) eqn:E.
  - left. apply andb_prop in E as [[_ E1]%andb_prop E2%bool_decide_eq_true]. done.
  - right. clear E. case_bool_decide; [by right|by left].
Qed.

Lemma EscapedPath_bytes u : str_forallb path_byte (EscapedPath u) = true.
Proof.
  destruct (EscapedPath_cases u) as [(H & _)|[->|[_ ->]]]; [exact H|apply path_escape_bytes|done].
Qed.

Lemma EscapedPath_unescape u : unescape EncodePath (EscapedPath u) = Ok (url_Path u).
Proof.
  destruct (EscapedPath_cases u) as [(_ & H & _)|[->|[-> ->]]];
    [exact H|by apply unescape_escape|done].
Qed.

Lemma EscapedPath_slash u :
  plain_path u = true -> EscapedPath u = EmptyString \/ exists p, EscapedPath u = String "/" p.
Proof.
  intros [[_ H]|[Hp Hr]]%plain_path_cases; [by left|]. right.
  apply has_prefix_inv in Hp as [p Ep].
  destruct (EscapedPath_cases u) as [(_ & Hu & Er)|[->|[Hs _]]].
  - rewrite Er in Hu |- *. apply orb_prop in Hr as [Hr|Hr].
    + apply bool_decide_eq_true in Hr. rewrite Hr, Ep in Hu. discriminate Hu.
    + apply has_prefix_inv in Hr as [r ->]. by exists r.
  - rewrite Ep. exists (escape EncodePath p). change ("/" +:+ p) with (String "/" p). done.
  - by rewrite Ep in Hs.
Qed.

(** *** The fragment *)

Lemma fragment_unescape u : unescape EncodeFragment (EscapedFragment u) = Ok (url_Fragment u).
Proof.
  unfold EscapedFragment, escaped. destruct (_ && _ && _) eqn:E.
  - apply andb_prop in E as [_ E]. by apply bool_decide_eq_true in E.
  - by apply unescape_escape.
Qed.

Lemma fragment_nonempty u : url_Fragment u <> EmptyString -> EscapedFragment u <> EmptyString.
Proof.
  intros Hne E. pose proof (fragment_unescape u) as H. rewrite E in H. by injection H as H.
Qed.

Definition fragment_text (u : URL) : string :=
  if str_empty (url_Fragment u) then EmptyString else "#" +:+ EscapedFragment u.

(** [url.Parse] on a text and a fragment. *)
Lemma url_Parse_fragment u main v :
  avoids "#"%char main = true -> parse_url main = Ok v ->
  url_Fragment v = EmptyString -> url_RawFragment v = EmptyString ->
  url_Parse (main +:+ fragment_text u) =
    Ok (with_fragment v (url_Fragment u)
          (if str_empty (url_Fragment u) ||
              bool_decide (EscapedFragment u = escape EncodeFragment (url_Fragment u))
           then EmptyString else EscapedFragment u)).
Proof.
  intros Hm Hv Hf Hrf. unfold url_Parse, fragment_text, str_empty. case_bool_decide as He.
  - rewrite str_app_nil_r, cut_avoids, Hv by done. cbn [res_bind]. rewrite bool_decide_eq_true_2 by done.
    rewrite He. cbn [orb]. destruct v; cbn in *. by subst.
  - change ("#" +:+ EscapedFragment u) with (String "#" (EscapedFragment u)).
    rewrite cut_app, Hv by done. cbn [res_bind].
    rewrite bool_decide_eq_false_2 by (by apply fragment_nonempty).
    unfold setFragment. by rewrite fragment_unescape.
Qed.

(** *** The whole *)

Definition query_text (force : bool) (q : string) : string :=
  if force || negb (str_empty q) then "?" +:+ q else EmptyString.

Lemma cut_query_text rest force q :
  avoids "?"%char rest = true ->
  cut_query (rest +:+ query_text force q) = (rest, force && str_empty q, q).
Proof.
  intros H. unfold query_text, cut_query. destruct (force || negb (str_empty q)) eqn:E.
  - change ("?" +:+ q) with (String "?" q). rewrite cut_app by done. cbn [andb]. f_equal. f_equal.
    unfold str_empty in *. by destruct force, (bool_decide (q = EmptyString)).
  - rewrite str_app_nil_r, cut_avoids by done. apply orb_false_iff in E as [-> Hq%negb_false_iff].
    apply bool_decide_eq_true in Hq as ->. done.
Qed.

Lemma plain_url_inv u :
  plain_url u = true ->
  (str_empty (url_Scheme u) = false /\ str_forallb is_lower (url_Scheme u) = true) /\
  url_Opaque u = EmptyString /\ plain_host (url_Host u) = true /\ plain_user (url_User u) = true /\
  plain_path u = true /\ str_forallb url_byte (url_RawQuery u) = true.
Proof.
  unfold plain_url, plain_user. intros H. repeat apply andb_prop in H as [H ?].
  repeat match goal with
  | H : negb _ = true |- _ => apply negb_true_iff in H
  | H : str_empty ?s = true |- _ => apply bool_decide_eq_true in H
  end. done.
Qed.

(** What [String] prints after the scheme and before the query. *)
Definition plain_rest (u : URL) : string :=
  "//" +:+ (user_text (url_User u) +:+ url_Host u) +:+ EscapedPath u.

(** ... and what it prints before the fragment. *)
Definition plain_main (u : URL) : string :=
  url_Scheme u +:+ ":" +:+ plain_rest u +:+ query_text (url_ForceQuery u) (url_RawQuery u).

Lemma url_String_plain u : plain_url u = true -> url_String u = plain_main u +:+ fragment_text u.
Proof.
  intros H. destruct (plain_url_inv u H) as ([Hs _] & Ho & Hh & _ & Hp & _).
  pose proof (plain_host_bytes _ Hh) as Hb.
  assert (str_empty (url_Host u) = false) as Hhe.
  { unfold plain_host in Hh. apply andb_prop in Hh as [[Hh _]%andb_prop _].
    by apply negb_true_iff in Hh. }
  unfold url_String, authority_String. rewrite Hs, Ho, Hhe, escape_host by done.
  change (str_empty EmptyString) with true. cbn [negb andb orb]. rewrite andb_false_r.
  cbn [andb]. unfold plain_main, plain_rest.
  assert (forall t, str_empty ((url_Scheme u +:+ ":") +:+ t) = false) as Hhead.
  { intros t. unfold str_empty in *. apply bool_decide_eq_false in Hs. apply bool_decide_eq_false.
    by destruct (url_Scheme u). }
  rewrite Hhead. cbn [andb].
  assert (negb (str_empty (EscapedPath u)) && negb (has_prefix "/" (EscapedPath u)) && true = false)
    as ->.
  { destruct (EscapedPath_slash u Hp) as [->|[p ->]]; done. }
  fold (query_text (url_ForceQuery u) (url_RawQuery u)). fold (user_text (url_User u)).
  fold (fragment_text u).
  rewrite <- !str_app_assoc. done.
Qed.

Lemma plain_rest_bytes u : plain_url u = true -> str_forallb url_byte (plain_rest u) = true /\
  avoids "?"%char (plain_rest u) = true /\ avoids "/"%char (user_text (url_User u) +:+ url_Host u) = true.
Proof.
  intros H. destruct (plain_url_inv u H) as (_ & _ & Hh & Hu & _ & _).
  pose proof (plain_host_bytes _ Hh) as Hb. pose proof (EscapedPath_bytes u) as Hpb.
  set (auth_byte c := (userinfo_byte c || bool_decide (c = "@"%char))).
  assert (str_forallb auth_byte (user_text (url_User u) +:+ url_Host u) = true) as Ha.
  { rewrite str_forallb_app. apply andb_true_intro. split; [|bytes_from Hb].
    destruct (url_User u) as [ui|]; [|done]. cbn [plain_user] in Hu. apply negb_true_iff in Hu.
    cbn [user_text]. rewrite str_forallb_app. apply andb_true_intro.
    split; [bytes_from (userinfo_bytes ui Hu)|done]. }
  assert (str_forallb (fun c => auth_byte c || path_byte c) (plain_rest u) = true) as Hall.
  { unfold plain_rest. rewrite (str_forallb_app _ "//"), (str_forallb_app _ (_ +:+ _)).
    apply andb_true_intro. split; [done|]. apply andb_true_intro.
    split; [bytes_from Ha|bytes_from Hpb]. }
  split; [bytes_from Hall|]. split; [bytes_from Hall|bytes_from Ha].
Qed.

Lemma plain_main_bytes u : plain_url u = true -> str_forallb url_byte (plain_main u) = true.
Proof.
  intros H. destruct (plain_url_inv u H) as ([_ Hsl] & _ & _ & _ & _ & Hq).
  destruct (plain_rest_bytes u H) as (Hrb & _). unfold plain_main. rewrite str_forallb_app.
  apply andb_true_intro. split; [bytes_from Hsl|].
  change (str_forallb url_byte
    (plain_rest u +:+ query_text (url_ForceQuery u) (url_RawQuery u)) = true).
  rewrite str_forallb_app, Hrb. cbn [andb]. unfold query_text.
  destruct (url_ForceQuery u || negb (str_empty (url_RawQuery u))); [|done].
  rewrite str_forallb_app, Hq. done.
Qed.

Lemma substring_all s n : (String.length s <= n)%nat -> String.substring 0 n s = s.
Proof.
  revert n. induction s as [|c s IH]; intros [|n] H; simpl in *; try done; [lia|].
  rewrite IH; [done|lia].
Qed.

Lemma str_drop_app s : str_drop 2 ("//" +:+ s) = s.
Proof.
  unfold str_drop. change ("//" +:+ s) with (String "/" (String "/" s)). cbn [String.substring].
  apply substring_all. cbn [String.length]. lia.
Qed.

(** The URL without its fragment, as parsed. *)
Definition parsed_main (u : URL) : URL := with_fragment (normal_url u) EmptyString EmptyString.

Lemma parse_url_main u : plain_url u = true -> parse_url (plain_main u) = Ok (parsed_main u).
Proof.
  intros H. destruct (plain_url_inv u H) as ([Hs Hsl] & Ho & Hh & Hu & Hp & _).
  destruct (plain_rest_bytes u H) as (_ & Hrq & Ha).
  pose proof (plain_main_bytes u H) as Hb.
  assert (url_Scheme u <> EmptyString) as Hne by (by apply bool_decide_eq_false in Hs).
  assert (contains_ctl (plain_main u) = false) as Hctl.
  { unfold contains_ctl. apply negb_false_iff. bytes_from Hb. }
  unfold parse_url. rewrite Hctl. rewrite bool_decide_eq_false_2; cycle 1.
  { unfold plain_main. destruct (url_Scheme u) as [|c s]; [done|]. intros [= -> _]. discriminate Hsl. }
  unfold getScheme, plain_main.
  change (":" +:+ plain_rest u +:+ query_text (url_ForceQuery u) (url_RawQuery u)) with
    (String ":" (plain_rest u +:+ query_text (url_ForceQuery u) (url_RawQuery u))).
  rewrite get_scheme_lower by auto. cbn [res_bind].
  change (EmptyString +:+ url_Scheme u) with (url_Scheme u). rewrite str_map_lower by done.
  rewrite cut_query_text by done.
  rewrite (bool_decide_eq_false_2 (url_Scheme u = EmptyString)) by done.
  change (has_prefix "/" (plain_rest u)) with true. change (has_prefix "//" (plain_rest u)) with true.
  cbn [negb andb orb]. unfold plain_rest. rewrite str_drop_app.
  destruct (EscapedPath_slash u Hp) as [Ep|[p Ep]]; rewrite Ep.
  - rewrite str_app_nil_r, cut_avoids by done. rewrite parseAuthority_plain by done. cbn [res_bind].
    pose proof (EscapedPath_unescape u) as Hpath. rewrite Ep in Hpath. injection Hpath as Hpath.
    unfold parsed_main, normal_url, with_fragment. cbn. by rewrite Ep, <- Hpath.
  - rewrite cut_app by done. rewrite parseAuthority_plain by done. cbn [res_bind].
    unfold setPath. rewrite <- Ep, EscapedPath_unescape. done.
Qed.

(** The parser takes back what was printed. *)
Lemma url_Parse_String u : plain_url u = true -> url_Parse (url_String u) = Ok (normal_url u).
Proof.
  intros H. rewrite url_String_plain by done.
  assert (avoids "#"%char (plain_main u) = true) as Hhash by bytes_from (plain_main_bytes u H).
  rewrite (url_Parse_fragment u (plain_main u) (parsed_main u)); [done|done|by apply parse_url_main|done..].
Qed.

(** ** Parsed URLs and references *)

Ltac res_inv H :=
  repeat match type of H with
  | res_bind _ _ = Ok _ => let a := fresh "a" in let E := fresh "E" in
      apply res_bind_ok_inv in H as (a & E & H)
  | context [let '(_, _) := ?p in _] => destruct p eqn:?
  | context [if ?b then _ else _] => destruct b eqn:?
  | Err _ = Ok _ => discriminate H
  end.

(** An opaque URL has a scheme and no host. *)
Lemma parse_url_opaque raw u :
  parse_url raw = Ok u -> url_Opaque u = EmptyString \/
                          (url_Host u = EmptyString /\ url_Scheme u <> EmptyString).
Proof.
  unfold parse_url. intros H. res_inv H; injection H as <-; cbn [url_Opaque url_Host url_Scheme]; auto.
  right. split; [done|]. apply andb_prop in Heqb1 as [_ Hs]. apply negb_true_iff in Hs.
  by apply bool_decide_eq_false in Hs.
Qed.

Lemma url_Parse_opaque raw u :
  url_Parse raw = Ok u -> url_Opaque u = EmptyString \/
                          (url_Host u = EmptyString /\ url_Scheme u <> EmptyString).
Proof.
  unfold url_Parse. intros H. res_inv H; injection H as <-;
    eapply parse_url_opaque in E; exact E.
Qed.

Lemma with_path_same u p :
  url_Scheme (with_path u p) = url_Scheme u /\ url_Opaque (with_path u p) = url_Opaque u /\
  url_User (with_path u p) = url_User u /\ url_Host (with_path u p) = url_Host u.
Proof. unfold with_path. by destruct (setPath p) as [[? ?]|]. Qed.

(** A reference without scheme and host keeps the scheme of the base; unless it
    carries user information it keeps user and host too. *)
Lemma resolve_relative u ref :
  url_Scheme ref = EmptyString -> url_Host ref = EmptyString ->
  url_Opaque u = EmptyString -> url_Opaque ref = EmptyString ->
  url_Scheme (ResolveReference u ref) = url_Scheme u /\
  url_Opaque (ResolveReference u ref) = EmptyString /\
  url_Host (ResolveReference u ref) =
    (if bool_decide (is_Some (url_User ref)) then EmptyString else url_Host u) /\
  url_User (ResolveReference u ref) =
    (if bool_decide (is_Some (url_User ref)) then url_User ref else url_User u).
Proof.
  intros Hs Hh Hou Hor. unfold ResolveReference. rewrite Hs, Hh, Hou, Hor.
  change (str_empty EmptyString) with true. cbn [negb orb]. rewrite andb_false_r.
  destruct (bool_decide (is_Some (url_User ref))) eqn:Eu;
    match goal with |- context [with_path ?v ?p] =>
      destruct (with_path_same v p) as (-> & -> & -> & ->) end; done.
Qed.
