(* ===== verification/ResolveFacts.v ===== *)
(** * Where a resolved reference leads

    A path that is resolved against a base URL stays on the scheme, user and host of
    the base, also after the result has been printed and parsed again: resolving
    keeps percent-escapes whole and paths absolute. *)

From S2P Require Import Prelude GoText Regex GoURL GoQuery UrlFacts.

Local Open Scope go_scope.

(** ** Escapes in paths *)

Definition valid_path (s : string) : bool := is_ok (unescape EncodePath s).

Lemma is_ok_map {A B} (f : A -> B) (r : res A) : is_ok (res_map f r) = is_ok r.
Proof. by destruct r. Qed.

Lemma valid_byte c s : c <> "%"%char -> valid_path (String c s) = valid_path s.
Proof. intros Hc. unfold valid_path. rewrite unescape_byte by done. apply is_ok_map. Qed.

Lemma valid_percent a b s :
  valid_path (String "%" (String a (String b s))) =
  match unhex a, unhex b with Some _, Some _ => valid_path s | _, _ => false end.
Proof.
  unfold valid_path. destruct (unhex a) as [x|] eqn:Ea; [destruct (unhex b) as [y|] eqn:Eb|].
  - rewrite (unescape_percent _ _ _ _ x y) by done. apply is_ok_map.
  - cbn [unescape]. by rewrite Ea, Eb.
  - cbn [unescape]. by rewrite Ea.
Qed.

(** A slash is never part of an escape. *)
Lemma valid_slash a b : valid_path (a +:+ String "/" b) = valid_path a && valid_path b.
Proof.
  remember (String.length a) as n eqn:Hn. revert a Hn.
  induction (lt_wf n) as [n _ IH]. intros [|c a] ->.
  { change (EmptyString +:+ String "/" b) with (String "/" b). by rewrite valid_byte. }
  change (String c a +:+ String "/" b) with (String c (a +:+ String "/" b)).
  destruct (decide (c = "%"%char)) as [->|Hc].
  - destruct a as [|x [|y a]].
    + change (EmptyString +:+ String "/" b) with (String "/" b). by destruct b.
    + change (String x EmptyString +:+ String "/" b) with (String x (String "/" b)).
      rewrite valid_percent. by destruct (unhex x).
    + change (String x (String y a) +:+ String "/" b) with (String x (String y (a +:+ String "/" b))).
      rewrite !valid_percent. destruct (unhex x), (unhex y); try done.
      apply (IH (String.length a)); [cbn; lia|done].
  - rewrite !valid_byte by done. apply (IH (String.length a)); [cbn; lia|done].
Qed.

Lemma valid_join l : valid_path (str_join "/" l) = forallb valid_path l.
Proof.
  induction l as [|x [|y l] IH]; [done|cbn; by rewrite andb_true_r|].
  change (str_join "/" (x :: y :: l)) with (x +:+ String "/" (str_join "/" (y :: l))).
  by rewrite valid_slash, IH.
Qed.

Lemma valid_split s : valid_path s = true -> Forall (fun e => valid_path e = true) (split_on "/"%char s).
Proof.
  intros H. rewrite <- (join_split_on "/" s), valid_join in H.
  apply Forall_forall. intros x Hx. rewrite forallb_forall in H. by apply H, list_elem_of_In.
Qed.

(** ** Resolving paths *)

(** The text written so far is validly escaped, and [first] only holds at its
    beginning. *)
Definition resolve_ok (st : string * bool) : Prop :=
  valid_path st.1 = true /\ (st.2 = true -> st.1 = EmptyString).

Lemma resolve_elem_ok st e : resolve_ok st -> valid_path e = true -> resolve_ok (resolve_elem st e).
Proof.
  destruct st as [str first]. intros [Hs Hf] He. unfold resolve_ok, resolve_elem. cbn [fst snd] in *.
  case_bool_decide; [by split|]. case_bool_decide.
  - destruct (cut_last "/" str) as [[before after]|] eqn:Ec; [|done].
    pose proof (cut_last_some _ _ _ _ Ec) as ->. rewrite valid_slash in Hs.
    apply andb_prop in Hs as [Hs _]. split; [done|]. intros Hfirst. cbn [fst snd] in *.
    by destruct before; specialize (Hf Hfirst).
  - split; [|done]. cbn [fst]. destruct first; [by rewrite Hf|].
    rewrite <- str_app_assoc. change ("/" +:+ e) with (String "/" e). by rewrite valid_slash, Hs.
Qed.

Lemma resolve_fold_ok l st :
  resolve_ok st -> Forall (fun e => valid_path e = true) l -> resolve_ok (fold_left resolve_elem l st).
Proof.
  intros Hst Hl. revert st Hst. induction Hl as [|e l He Hl IH]; intros st Hst; [done|].
  apply IH. by apply resolve_elem_ok.
Qed.

(** A resolved path is validly escaped and absolute, or absent. *)
Lemma resolvePath_ok base ref :
  valid_path base = true -> valid_path ref = true ->
  valid_path (resolvePath base ref) = true /\
  (resolvePath base ref = EmptyString \/ has_prefix "/" (resolvePath base ref) = true).
Proof.
  intros Hb Hr. unfold resolvePath.
  set (full := if str_empty ref then base else _).
  assert (valid_path full = true) as Hf.
  { unfold full. destruct (str_empty ref); [done|]. destruct (has_prefix "/" ref); [done|].
    destruct (cut_last "/" base) as [[before after]|] eqn:Ec; [|done].
    pose proof (cut_last_some _ _ _ _ Ec) as ->. rewrite valid_slash in Hb.
    apply andb_prop in Hb as [Hb _]. change ("/" +:+ ref) with (String "/" ref).
    by rewrite valid_slash, Hb. }
  destruct (str_empty full); [by split; [|left]|].
  pose proof (resolve_fold_ok (split_on "/" full) (EmptyString, true)) as Hfold.
  destruct (fold_left resolve_elem (split_on "/" full) (EmptyString, true)) as [str first].
  destruct Hfold as [Hs _]; [by split|by apply valid_split|]. cbn [fst] in Hs.
  set (tail := if _ || _ then "/" else EmptyString).
  assert (valid_path (str +:+ tail) = true) as Ht.
  { unfold tail. destruct (_ || _); [|by rewrite str_app_nil_r].
    change "/" with (String "/" EmptyString). by rewrite valid_slash, Hs. }
  change ("/" +:+ str +:+ tail) with (String "/" (str +:+ tail)).
  destruct (has_prefix "//" (String "/" (str +:+ tail))) eqn:Ep.
  - assert (str_drop 1 (String "/" (str +:+ tail)) = str +:+ tail) as ->.
    { unfold str_drop. cbn [String.substring]. apply substring_all. cbn [String.length]. lia. }
    split; [done|]. right. exact Ep.
  - split; [by rewrite valid_byte|]. by right.
Qed.

(** ** Resolving URLs *)

Lemma with_path_plain u p :
  valid_path p = true -> (p = EmptyString \/ has_prefix "/" p = true) ->
  plain_path (with_path u p) = true.
Proof.
  intros Hv Hp. unfold with_path, setPath. unfold valid_path in Hv.
  destruct Hp as [->|[q ->]%has_prefix_inv]; [done|]. change ("/" +:+ q) with (String "/" q) in *.
  rewrite unescape_byte in Hv |- * by done. destruct (unescape EncodePath q) as [t|]; [|done].
  cbn [res_map res_bind]. unfold plain_path. cbn [url_Path url_RawPath].
  case_bool_decide; cbn; by destruct t.
Qed.

Lemma EscapedPath_valid u : valid_path (EscapedPath u) = true.
Proof. unfold valid_path. by rewrite EscapedPath_unescape. Qed.

(** The query of a parsed URL has no control bytes and no hash. *)
Lemma str_forallb_cut P sep s :
  str_forallb P s = true ->
  str_forallb P (cut sep s).1.1 = true /\ str_forallb P (cut sep s).1.2 = true.
Proof.
  induction s as [|c s IH]; [done|]. cbn [str_forallb cut]. intros [Hc Hs]%andb_prop.
  case_bool_decide; [done|]. destruct (IH Hs) as [H1 H2].
  destruct (cut sep s) as [[a b] ok]. cbn in *. by rewrite Hc, H1.
Qed.

Lemma get_scheme_rest P i acc raw s r :
  str_forallb P raw = true -> str_forallb P s = true -> get_scheme_from i acc raw s = Ok r ->
  str_forallb P r.2 = true.
Proof.
  revert i acc. induction s as [|c s IH]; intros i acc Hraw Hs; cbn [get_scheme_from].
  { by intros [= <-]. }
  cbn [str_forallb] in Hs. apply andb_prop in Hs as [_ Hs].
  destruct (is_alpha c); [by apply IH|]. destruct (_ || _); [destruct i; [by intros [= <-]|by apply IH]|].
  case_bool_decide; [destruct i; [done|by intros [= <-]]|by intros [= <-]].
Qed.

Lemma cut_before_avoids sep s : avoids sep (cut sep s).1.1 = true.
Proof.
  induction s as [|c s IH]; [done|]. cbn [cut]. case_bool_decide as E; [done|].
  destruct (cut sep s) as [[a b] ok]. cbn in *. by rewrite bool_decide_eq_false_2, IH.
Qed.

Lemma str_forallb_and P Q s :
  str_forallb P s = true -> str_forallb Q s = true -> str_forallb (fun c => P c && Q c) s = true.
Proof.
  induction s as [|c s IH]; [done|]. cbn. intros [-> Hp]%andb_prop [-> Hq]%andb_prop. auto.
Qed.

Lemma parse_url_query raw u :
  avoids "#"%char raw = true -> parse_url raw = Ok u -> str_forallb url_byte (url_RawQuery u) = true.
Proof.
  intros Hh. unfold parse_url. destruct (contains_ctl raw) eqn:Ec; [done|].
  unfold contains_ctl in Ec. apply negb_false_iff in Ec.
  pose proof (str_forallb_and _ _ _ Ec Hh) as Hraw. cbv beta in Hraw.
  case_bool_decide as Hstar; [by intros [= <-]|]. intros H.
  apply res_bind_ok_inv in H as ([scheme0 rest0] & Es & H).
  apply (get_scheme_rest _ _ _ _ _ _ Hraw Hraw) in Es. cbn [snd] in Es.
  apply (str_forallb_cut _ "?"%char) in Es as [_ Hq]. unfold cut_query in H.
  destruct (cut "?"%char rest0) as [[rest q] found]. cbn [fst snd] in Hq.
  assert (str_forallb url_byte q = true) as Hq' by exact Hq. clear Hq.
  res_inv H; injection H as <-; exact Hq'.
Qed.

Lemma url_Parse_query raw u :
  url_Parse raw = Ok u -> str_forallb url_byte (url_RawQuery u) = true.
Proof.
  unfold url_Parse. pose proof (cut_before_avoids "#"%char raw) as Ha.
  destruct (cut "#"%char raw) as [[main frag] found]. cbn [fst] in Ha.
  intros (v & Ev & H)%res_bind_ok_inv. pose proof (parse_url_query main v Ha Ev) as Hq.
  destruct (bool_decide (frag = EmptyString)); [by injection H as <-|].
  apply res_bind_ok_inv in H as ([f rf] & _ & [= <-]). exact Hq.
Qed.

Lemma with_path_query u p : url_RawQuery (with_path u p) = url_RawQuery u.
Proof. unfold with_path. by destruct (setPath p) as [[? ?]|]. Qed.

(** A base a client can have: a lower-case scheme, a named host, user information
    with a name if any. *)
Definition plain_base (base : URL) : bool :=
  negb (str_empty (url_Scheme base)) && str_forallb is_lower (url_Scheme base) &&
  str_empty (url_Opaque base) && plain_host (url_Host base) && plain_user (url_User base) &&
  str_forallb url_byte (url_RawQuery base).

(** A relative reference without user information resolves to a plain URL on the
    host of the base. *)
Lemma resolve_plain base ref :
  plain_base base = true -> url_Scheme ref = EmptyString -> url_Host ref = EmptyString ->
  url_User ref = None -> url_Opaque ref = EmptyString ->
  str_forallb url_byte (url_RawQuery ref) = true ->
  plain_url (ResolveReference base ref) = true.
Proof.
  intros Hb Hs Hh Hu Ho Hq. unfold plain_base in Hb. rewrite !andb_true_iff in Hb.
  destruct Hb as (((((Hbs & Hbl) & Hbo) & Hbh) & Hbu) & Hbq).
  pose proof Hbo as Hbo'. apply bool_decide_eq_true in Hbo'.
  destruct (resolve_relative base ref Hs Hh Hbo' Ho) as (Es & Eo & Eh & Eu).
  rewrite Hu in Eh, Eu. rewrite bool_decide_eq_false_2 in Eh, Eu by (by intros [? ?]).
  unfold plain_url. rewrite Es, Eo, Eh, Eu. fold (plain_user (url_User base)).
  rewrite Hbs, Hbl, Hbh, Hbu. cbn [andb str_empty]. change (str_empty EmptyString) with true.
  cbn [andb]. unfold ResolveReference. rewrite Hs, Hh, Hu, Ho, Hbo'.
  change (str_empty EmptyString) with true. cbn [negb orb andb].
  rewrite bool_decide_eq_false_2 by (by intros [? ?]). rewrite andb_false_r. rewrite with_path_query.
  destruct (resolvePath_ok (EscapedPath base) (EscapedPath ref)) as [Hv Hp];
    [apply EscapedPath_valid..|].
  rewrite with_path_plain by done. cbn [andb url_RawQuery]. by destruct (_ && _ && _).
Qed.
