(* ===== verification/GoTime.v ===== *)
(** * Durations and calendar dates

    What the transports use of package [time]: [Duration.Seconds], [Duration.Round],
    [Duration.String] and the RFC 3339 rendering of a UTC time.  A duration is a 64-bit count of
    nanoseconds; a float64 is a [spec_float] of precision 53. *)

From Stdlib Require Import SpecFloat.
From S2P Require Import Prelude GoText.

Local Open Scope Z_scope.

(** ** Durations *)

Definition nanos_per_second : Z := 10 ^ 9.

(** The float64 nearest to an integer. *)
Definition float_of_int (z : Z) : spec_float := binary_normalize 53 1024 z 0 false.

(** [d.Seconds()]: whole seconds plus the rest, each as a float64. *)
Definition Seconds (d : Z) : spec_float :=
  SFadd 53 1024 (float_of_int (Z.quot d nanos_per_second))
    (SFdiv 53 1024 (float_of_int (Z.rem d nanos_per_second)) (float_of_int nanos_per_second)).

(** [int(f)] for a finite [f] in the range of int64: truncation. *)
Definition int_of_float (f : spec_float) : Z :=
  match f with
  | S754_finite s m e =>
      let a := if 0 <=? e then Z.pos m * 2 ^ e else Z.pos m / 2 ^ (- e) in
      if s then - a else a
  | _ => 0
  end.

(** [d.Round(m)]: half away from zero, saturating. *)
Definition lessThanHalf (x y : Z) : bool := wrapu64 (wrapu64 x + wrapu64 x) <? wrapu64 y.

Definition Round (d m : Z) : Z :=
  if m <=? 0 then d
  else
    let r := Z.rem d m in
    if d <? 0 then
      let r := wrap64 (- r) in
      if lessThanHalf r m then wrap64 (d + r)
      else let d1 := wrap64 (wrap64 (d - m) + r) in if d1 <? d then d1 else min_int64
    else if lessThanHalf r m then wrap64 (d - r)
    else let d1 := wrap64 (wrap64 (d + m) - r) in if d <? d1 then d1 else max_int64.

(** ** Dates *)

(** Day, month and year of a count of days since 1970-01-01, in years of March to
    February, so that the leap day is the last. *)
Definition civil_from_days (days : Z) : Z * Z * Z :=
  let z := days + 719468 in
  let era := z / 146097 in
  let doe := z mod 146097 in
  let yoe := (doe - doe / 1460 + doe / 36524 - doe / 146096) / 365 in
  let doy := doe - (365 * yoe + yoe / 4 - yoe / 100) in
  let mp := (5 * doy + 2) / 153 in
  let d := doy - (153 * mp + 2) / 5 + 1 in
  let m := if mp <? 10 then mp + 3 else mp - 9 in
  let y := yoe + era * 400 in
  (if m <=? 2 then y + 1 else y, m, d).

(** [appendInt(b, x, width)]: the decimal digits, padded with zeros. *)
Definition pad (width : nat) (x : Z) : string :=
  let digits := format_uint (Z.to_N (Z.abs x)) in
  (if x <? 0 then "-" else EmptyString) +:+
  string_of_bytes (replicate (width - String.length digits) "0"%char) +:+ digits.

(** [t.Format(time.RFC3339)] of a UTC time given in nanoseconds since the epoch. *)
Definition format_rfc3339 (nanos : Z) : string :=
  let s := nanos / nanos_per_second in
  let '(y, m, d) := civil_from_days (s / 86400) in
  let sod := s mod 86400 in
  pad 4 y +:+ "-" +:+ pad 2 m +:+ "-" +:+ pad 2 d +:+ "T" +:+
  pad 2 (sod / 3600) +:+ ":" +:+ pad 2 (sod / 60 mod 60) +:+ ":" +:+ pad 2 (sod mod 60) +:+ "Z".

(** [strconv.Itoa]. *)
Definition itoa (z : Z) : string := pad 0 z.

(** [fmtFrac]: the last [prec] digits of [v] after a point, without trailing zeros,
    and the rest. *)
Fixpoint trim_zeros (l : list ascii) : list ascii :=
  match l with
  | [] => []
  | c :: l' =>
      match trim_zeros l' with
      | [] => if bool_decide (c = "0"%char) then [] else [c]
      | t => c :: t
      end
  end.
Definition fmtFrac (v : Z) (prec : nat) : string * Z :=
  let p := 10 ^ Z.of_nat prec in
  let digits := trim_zeros (bytes_of_string (pad prec (v mod p))) in
  (match digits with [] => EmptyString | _ => "." +:+ string_of_bytes digits end, v / p).

(** [d.String()]. *)
Definition Duration_String (d : Z) : string :=
  let u := Z.abs d in
  let sign := if d <? 0 then "-" else EmptyString in
  let small prec unit := let '(frac, v) := fmtFrac u prec in itoa v +:+ frac +:+ unit in
  if u =? 0 then "0s"
  else sign +:+
    (if u <? 1000 then itoa u +:+ "ns"
     else if u <? 1000000 then small 3%nat "µs"
     else if u <? nanos_per_second then small 6%nat "ms"
     else
       let '(frac, s) := fmtFrac u 9 in
       let seconds := itoa (s mod 60) +:+ frac +:+ "s" in
       let m := s / 60 in
       if m =? 0 then seconds
       else
         let minutes := itoa (m mod 60) +:+ "m" +:+ seconds in
         let h := m / 60 in
         if h =? 0 then minutes else itoa h +:+ "h" +:+ minutes).

Example duration_ex :
  Duration_String <$> [0; 1; 1100; 2200000; 3300000000; 60000000000; 4 * 60 * nanos_per_second + 5000000000;
    5 * 3600 * nanos_per_second + 6 * 60 * nanos_per_second + 7001000000; -1; 8 * 60 * nanos_per_second + 1] =
  ["0s"; "1ns"; "1.1µs"; "2.2ms"; "3.3s"; "1m0s"; "4m5s"; "5h6m7.001s"; "-1ns"; "8m0.000000001s"].
Proof. vm_compute. reflexivity. Qed.

(** A whole number of seconds is written in hours, minutes and seconds, the leading
    zero units left out. *)
Lemma whole_seconds n :
  0 <= n ->
  Duration_String (n * nanos_per_second) =
    (if n / 60 / 60 =? 0 then EmptyString else itoa (n / 60 / 60) +:+ "h") +:+
    (if n / 60 =? 0 then EmptyString else itoa (n / 60 mod 60) +:+ "m") +:+ itoa (n mod 60) +:+ "s".
Proof.
  intros Hn. destruct (decide (n = 0)) as [->|Hn0]; [vm_compute; reflexivity|].
  unfold Duration_String, nanos_per_second. rewrite Z.abs_eq by lia.
  rewrite (proj2 (Z.eqb_neq _ _)) by lia. rewrite !(proj2 (Z.ltb_ge _ _)) by lia.
  assert (fmtFrac (n * 10 ^ 9) 9 = (EmptyString, n)) as ->.
  { unfold fmtFrac. change (10 ^ Z.of_nat 9) with (10 ^ 9). rewrite Z.mod_mul, Z.div_mul by lia. reflexivity. }
  destruct (Z.eqb_spec (n / 60) 0) as [E|_]; [by rewrite E|]. destruct (n / 60 / 60 =? 0); cbn [String.app]; by rewrite <- ?str_app_assoc.
Qed.

Lemma round_seconds d :
  0 <= d < 2 ^ 62 -> Round d nanos_per_second = (d + 500000000) / nanos_per_second * nanos_per_second.
Proof.
  intros Hd. unfold Round, lessThanHalf, nanos_per_second in *. rewrite (proj2 (Z.ltb_ge d 0)) by lia.
  rewrite (proj2 (Z.leb_gt _ _)) by lia. rewrite Z.rem_mod_nonneg by lia.
  pose proof (Z.mod_pos_bound d (10 ^ 9) ltac:(lia)) as Hr. pose proof (Z.div_mod d (10 ^ 9) ltac:(lia)) as Hq.
  set (q := d / 10 ^ 9) in *. set (r := d mod 10 ^ 9) in *.
  unfold wrapu64. rewrite !(Z.mod_small _ (2 ^ 64)) by (rewrite ?(Z.mod_small r) by lia; lia).
  destruct (Z.ltb_spec (r + r) (10 ^ 9)).
  - rewrite wrap64_id by (unfold in_int64, min_int64, max_int64; lia).
    rewrite <- (Z.div_unique (d + 500000000) (10 ^ 9) q (r + 500000000)); lia.
  - rewrite !wrap64_id by (rewrite ?wrap64_id; unfold in_int64, min_int64, max_int64; lia).
    rewrite (proj2 (Z.ltb_lt _ _)) by lia.
    rewrite <- (Z.div_unique (d + 500000000) (10 ^ 9) (q + 1) (r - 500000000)); lia.
Qed.

Example format_epoch : format_rfc3339 0 = "1970-01-01T00:00:00Z".
Proof. reflexivity. Qed.
Example format_leap : format_rfc3339 (1709210096 * 10 ^ 9 + 5) = "2024-02-29T12:34:56Z".
Proof. vm_compute. reflexivity. Qed.
Example format_new_year : format_rfc3339 (1735689599 * 10 ^ 9) = "2024-12-31T23:59:59Z".
Proof. vm_compute. reflexivity. Qed.
Example format_century : format_rfc3339 (4107542400 * 10 ^ 9) = "2100-03-01T00:00:00Z".
Proof. vm_compute. reflexivity. Qed.
Example seconds_600 : int_of_float (Seconds (600 * 10 ^ 9 + 999999999)) = 600.
Proof. vm_compute. reflexivity. Qed.
