(* ===== verification/GoMime.v ===== *)
(** * [mime.ParseMediaType]

    The parser of a Content-Type header: the type, then parameters whose names
    are tokens and whose values are tokens or quoted strings.  Only the type and
    whether there was an error are kept, which is what the transport reads. *)

From S2P Require Import Prelude GoText Utf8.

Local Open Scope Z_scope.

(** [strings.TrimLeftFunc(s, unicode.IsSpace)]; [fuel] bounds the runes. *)
Fixpoint trim_left (fuel : nat) (s : list Z) : list Z :=
  match fuel, s with
  | S n, _ :: _ =>
      let '(r, width, _) := decode_rune s in
      if is_space r then trim_left n (drop width s) else s
  | _, _ => s
  end.
Definition TrimLeft (s : list Z) : list Z := trim_left (length s) s.

(** [strings.TrimSpace] keeps nothing of a string of spaces and, on the rest,
    everything up to the last rune that is not one.  [keep] is the part read so
    far that ends in such a rune, [pending] the spaces after it. *)
Fixpoint trim_right (fuel : nat) (keep pending s : list Z) : list Z :=
  match fuel, s with
  | S n, _ :: _ =>
      let '(r, width, _) := decode_rune s in
      if is_space r then trim_right n keep (pending ++ take width s) (drop width s)
      else trim_right n (keep ++ pending ++ take width s) [] (drop width s)
  | _, _ => keep
  end.
Definition TrimSpace (s : list Z) : list Z :=
  let s := TrimLeft s in trim_right (length s) [] [] s.

(** [isTSpecial] and [isTokenChar] on bytes. *)
Definition isTSpecial (c : Z) : bool :=
  bool_decide (c ∈ byte_vals "()<>@,;:\/[]?=" ++ [34]).
Definition isTokenChar (c : Z) : bool := (32 <? c) && (c <? 127) && negb (isTSpecial c).

Fixpoint consumeToken (v : list Z) : list Z * list Z :=
  match v with
  | c :: v' => if isTokenChar c then let (t, rest) := consumeToken v' in (c :: t, rest) else ([], v)
  | [] => ([], [])
  end.

(** The loop of [consumeValue] after the opening quote; [None] when no closing
    quote comes before the end or a line break. *)
Fixpoint quoted (v : list Z) : option (list Z * list Z) :=
  match v with
  | [] => None
  | c :: v' =>
      if c =? 34 then Some ([], v')
      else
        let plain :=
          if (c =? 13) || (c =? 10) then None
          else match quoted v' with Some (b, rest) => Some (c :: b, rest) | None => None end in
        match v' with
        | e :: v'' =>
            if (c =? 92) && isTSpecial e then
              match quoted v'' with Some (b, rest) => Some (e :: b, rest) | None => None end
            else plain
        | [] => plain
        end
  end.

Definition consumeValue (v : list Z) : list Z * list Z :=
  match v with
  | [] => ([], [])
  | c :: v' => if c =? 34 then default ([], v) (quoted v') else consumeToken v
  end.

(** [strings.ToLower] up to what can become ASCII: the Kelvin sign lowers to k and
    the dotted capital I to i. *)
Definition lower_rune (r : Z) : Z :=
  if between 65 90 r then r + 32 else if r =? 8490 then 107 else if r =? 304 then 105 else r.
Definition lower_byte (c : Z) : Z := if between 65 90 c then c + 32 else c.

Fixpoint to_lower (fuel : nat) (s : list Z) : list Z :=
  match fuel, s with
  | S n, _ :: _ =>
      let '(r, width, _) := decode_rune s in
      (if lower_rune r <? 128 then [lower_rune r] else take width s) ++ to_lower n (drop width s)
  | _, _ => []
  end.

(** [checkMediaTypeDisposition]: a token, or two tokens around a slash. *)
Definition media_type_ok (s : list Z) : bool :=
  let (typ, rest) := consumeToken s in
  if bool_decide (typ = []) then false
  else
    match rest with
    | [] => true
    | c :: rest' =>
        let (subtype, rest'') := consumeToken rest' in
        (c =? 47) && negb (bool_decide (subtype = [])) && bool_decide (rest'' = [])
    end.

(** [consumeMediaParam]: the parameter and the rest, [None] for an empty key. *)
Definition consumeMediaParam (v : list Z) : option (list Z * list Z * list Z) :=
  match TrimLeft v with
  | 59 :: rest =>
      let (param, rest) := consumeToken (TrimLeft rest) in
      if bool_decide (param = []) then None
      else
        match TrimLeft rest with
        | 61 :: rest =>
            let rest := TrimLeft rest in
            let (value, rest2) := consumeValue rest in
            if bool_decide (value = []) && bool_decide (rest2 = rest) then None
            else Some (lower_byte <$> param, value, rest2)
        | _ => None
        end
  | _ => None
  end.

(** The loop over the parameters; [seen] are those read so far (a name decides
    whether it is kept in the plain or in the continuation map). *)
Fixpoint media_params_ok (fuel : nat) (v : list Z) (seen : list (list Z * list Z)) : bool :=
  match fuel, TrimLeft v with
  | _, [] => true
  | O, _ => false
  | S n, v =>
      match consumeMediaParam v with
      | None => bool_decide (TrimSpace v = [59])
      | Some (key, value, rest) =>
          if existsb (fun kv => bool_decide (kv.1 = key) && negb (bool_decide (kv.2 = value))) seen
          then false
          else media_params_ok n rest ((key, value) :: seen)
      end
  end.

(** The bytes before the first semicolon, and the rest from it on. *)
Fixpoint cut_params (v : list Z) : list Z * list Z :=
  match v with
  | [] => ([], [])
  | c :: v' => if c =? 59 then ([], v) else let (b, p) := cut_params v' in (c :: b, p)
  end.

(** [Some mediatype], or [None] for an error. *)
Definition ParseMediaType (v : string) : option (list Z) :=
  let (base, params) := cut_params (byte_vals v) in
  let mediatype := TrimSpace (to_lower (length base) base) in
  if media_type_ok mediatype && media_params_ok (length params) params [] then Some mediatype
  else None.

Example json_plain : ParseMediaType "application/json" = Some (byte_vals "application/json").
Proof. vm_compute. reflexivity. Qed.
Example json_charset :
  ParseMediaType " Application/JSON ; charset=utf-8;" = Some (byte_vals "application/json").
Proof. vm_compute. reflexivity. Qed.
Example json_quoted : ParseMediaType "application/json; a=b; A=c" = None.
Proof. vm_compute. reflexivity. Qed.
Example json_broken : ParseMediaType "application/json; charset" = None.
Proof. vm_compute. reflexivity. Qed.

(** Every round of the parameter loop eats a byte, so the length of the header is
    fuel enough: more does not change the answer. *)
Lemma trim_left_length n s : (length (trim_left n s) <= length s)%nat.
Proof.
  revert s. induction n as [|n IH]; intros [|c s]; [done..|]. cbn [trim_left].
  destruct (decode_rune (c :: s)) as [[r w] b]. destruct (is_space r); [|done].
  etrans; [apply IH|]. rewrite length_drop. lia.
Qed.

Lemma TrimLeft_length s : (length (TrimLeft s) <= length s)%nat.
Proof. apply trim_left_length. Qed.

Lemma consumeToken_length v : (length (consumeToken v).2 <= length v)%nat.
Proof.
  induction v as [|c v IH]; [done|]. cbn [consumeToken]. destruct (isTokenChar c); [|done].
  destruct (consumeToken v) as [t rest]. cbn in *. lia.
Qed.

Lemma quoted_length v b rest : quoted v = Some (b, rest) -> (length rest <= length v)%nat.
Proof.
  enough (forall n v b rest, (length v <= n)%nat -> quoted v = Some (b, rest) ->
    (length rest <= length v)%nat) by eauto.
  clear. induction n as [|n IH]; intros v b rest Hn.
  { destruct v; [done|cbn in Hn; lia]. }
  destruct v as [|c v']; [done|]. cbn [quoted]. cbn [length] in Hn |- *.
  destruct (c =? 34). { intros [= <- <-]. lia. }
  assert (forall x, (if (c =? 13) || (c =? 10) then None else
      match quoted v' with Some (b, rest) => Some (c :: b, rest) | None => None end) = Some x ->
    (length x.2 <= length v')%nat) as Hplain.
  { intros x. destruct (_ || _); [done|]. destruct (quoted v') as [[b' r']|] eqn:E; [|done].
    intros [= <-]. cbn. apply (IH v' b' r'); [lia|done]. }
  destruct v' as [|e v''].
  { intros Hx%Hplain. cbn in *. lia. }
  destruct ((c =? 92) && isTSpecial e).
  - destruct (quoted v'') as [[b' r']|] eqn:E; [|done]. intros [= <- <-].
    cbn [length] in *. pose proof (IH v'' b' r' ltac:(lia) E). lia.
  - intros Hx%Hplain. cbn in *. lia.
Qed.

Lemma consumeValue_length v : (length (consumeValue v).2 <= length v)%nat.
Proof.
  destruct v as [|c v']; [done|]. cbn [consumeValue]. destruct (c =? 34).
  - destruct (quoted v') as [[b rest]|] eqn:E; [|done]. apply quoted_length in E. cbn in *. lia.
  - apply consumeToken_length.
Qed.

Lemma consumeMediaParam_length v key value rest :
  consumeMediaParam v = Some (key, value, rest) -> (length rest < length v)%nat.
Proof.
  unfold consumeMediaParam. pose proof (TrimLeft_length v) as H1.
  destruct (TrimLeft v) as [|c r1]; [done|]. destruct (decide (c = 59)) as [->|Hc].
  2: { intros H. exfalso. revert H. repeat (case_match; try done). }
  pose proof (TrimLeft_length r1) as H2.
  pose proof (consumeToken_length (TrimLeft r1)) as H3.
  destruct (consumeToken (TrimLeft r1)) as [param r2]. cbn [snd length] in *.
  destruct (bool_decide (param = [])); [done|].
  pose proof (TrimLeft_length r2) as H4. destruct (TrimLeft r2) as [|c r3]; [done|].
  destruct (decide (c = 61)) as [->|Hc].
  2: { intros H. exfalso. revert H. repeat (case_match; try done). }
  pose proof (TrimLeft_length r3) as H5. pose proof (consumeValue_length (TrimLeft r3)) as H6.
  destruct (consumeValue (TrimLeft r3)) as [val r4]. cbn [snd length] in *.
  destruct (_ && _); [done|]. intros [= _ _ <-]. lia.
Qed.

Lemma media_params_fuel n m v seen :
  (length v <= n)%nat -> (length v <= m)%nat -> media_params_ok n v seen = media_params_ok m v seen.
Proof.
  revert m v seen. induction n as [|n IH]; intros m v seen Hn Hm.
  { destruct v; [|cbn in Hn; lia]. by destruct m. }
  pose proof (TrimLeft_length v) as Ht. destruct m as [|m].
  { destruct v; [done|cbn in Hm; lia]. }
  cbn [media_params_ok]. destruct (TrimLeft v) as [|c v'] eqn:E; [done|].
  destruct (consumeMediaParam (c :: v')) as [[[key value] rest]|] eqn:Ec; [|done].
  destruct (existsb _ _); [done|]. apply consumeMediaParam_length in Ec.
  apply IH; lia.
Qed.
