(* ===== verification/Redis.v ===== *)
(** * The Redis interface

    Redis is a service: its code is not part of the repository, so the
    development is parametric in it.  [RedisOps] is what the sources call (the
    commands of store.go and of its Lua scripts, [exec], and the two conversions
    of Lua numbers the scripts depend on) together with an observation [look]:
    the value and the expiry time a key holds at a given server time.
    [RedisLaws] states the documented behaviour of each command in terms of
    [look].  RedisMem.v gives an in-memory instance, so the laws are satisfiable
    and every definition runs.

    Time is the server's clock in milliseconds.  [look_alive] says that a key is
    gone once its expiry time is reached; the server may delete it physically
    whenever it likes. *)

From S2P Require Import Prelude GoText.

Local Open Scope Z_scope.

(** ** Values, commands and replies *)

(** A stream identifier [<ms>-<seq>]. *)
Definition sid : Type := N * N.

Definition sid_ltb (a b : sid) : bool :=
  (a.1 <? b.1)%N || ((a.1 =? b.1)%N && (a.2 <? b.2)%N).

(** Both parts are 64-bit numbers. *)
Definition sid_ok (i : sid) : Prop := (i.1 < 2 ^ 64)%N /\ (i.2 < 2 ^ 64)%N.

Definition sid_text (i : sid) : string := format_uint i.1 +:+ String "-" (format_uint i.2).

Record sentry : Type := SEntry { se_id : sid; se_fields : list (string * string) }.

Inductive rvalue : Type :=
  | VStr (s : string)
  | VSet (X : gset string)
  | VStream (es : list sentry).

Record entry : Type := Entry { e_val : rvalue; e_exp : option Z }.

Inductive cmd : Type :=
  | EXISTS (k : string)
  | SETPX (k v : string) (px : Z)
  | GET (k : string)
  | DEL (ks : list string)
  | SADD (k m : string)
  | SREM (k : string) (ms : list string)
  | SMEMBERS (k : string)
  | INCR (k : string)
  | PEXPIRE (k : string) (px : Z)
  | XADD (k id : string) (fields : list (string * string))
  | XREAD (k start : string) (count : nat).

(** A reply as the client sees it: [RErr] is an error reply of the server (or
    [{err=...}] returned by a script), [RFail] an error of the client itself
    (connection refused, context cancelled). *)
Inductive reply : Type :=
  | RStatus (s : string)
  | RInt (z : Z)
  | RNil
  | RBulk (s : string)
  | RArr (l : list string)
  | RStream (l : list (string * list (string * string)))
  | RErr (msg : string)
  | RFail (msg : string).

(** ** Observed keys *)

(** What remains at time [t] of an observed key. *)
Definition alive (t : Z) (o : option entry) : option entry :=
  match o with
  | Some (Entry v (Some x)) => if t <? x then o else None
  | _ => o
  end.

Definition keyspace : Type := string -> option entry.

Definition ks_set (ks : keyspace) (k : string) (o : option entry) : keyspace :=
  fun k' => if decide (k = k') then o else ks k'.

(** An absent key counts as an empty set or stream. *)
Definition as_set (o : option entry) : option (gset string) :=
  match o with
  | None => Some ∅
  | Some (Entry (VSet X) _) => Some X
  | Some _ => None
  end.

Definition as_stream (o : option entry) : option (list sentry) :=
  match o with
  | None => Some []
  | Some (Entry (VStream es) _) => Some es
  | Some _ => None
  end.

Definition exp_of (o : option entry) : option Z := o ≫= e_exp.

(** A set key disappears with its last member. *)
Definition set_entry (X : gset string) (x : option Z) : option entry :=
  if decide (X = ∅) then None else Some (Entry (VSet X) x).

Definition last_sid (es : list sentry) : sid := default (0, 0)%N (se_id <$> last es).

Definition wrongtype : string :=
  "WRONGTYPE Operation against a key holding the wrong kind of value".

Definition get_reply (o : option entry) : reply :=
  match o with
  | None => RNil
  | Some (Entry (VStr s) _) => RBulk s
  | Some _ => RErr wrongtype
  end.

(** The reply of [XREAD COUNT n STREAMS k start]: entries after [start], at
    most [n]; nil when there is none. *)
Definition xread_reply (es : list sentry) (start : sid) (count : nat) : reply :=
  match take count (filter (fun e => sid_ltb start (se_id e) = true) es) with
  | [] => RNil
  | l => RStream ((fun e => (sid_text (se_id e), se_fields e)) <$> l)
  end.

(** Lua prints a number with 14 significant digits ([%.14g]): integers are
    printed in decimal below this bound. *)
Definition lua_max : Z := 10 ^ 14.

(** ** The interface *)

Class RedisOps (db : Type) : Type := {
  exec : Z -> cmd -> db -> reply * db;
  look : db -> Z -> string -> option entry;
  (** an integer reply read as a Lua number (a double), that number
      concatenated to a string, and passed as an argument of [redis.call] *)
  lua_num : Z -> Z;
  lua_str : Z -> string;
  lua_arg : Z -> string;
}.

(** The outcome of a command at time [t]: its reply and the keys afterwards. *)
Definition yields {db} `{RedisOps db} (t : Z) (out : reply * db) (r : reply)
    (ks : keyspace) : Prop :=
  out.1 = r /\ forall k, look out.2 t k = ks k.

Class RedisLaws (db : Type) `{RedisOps db} : Prop := {
  look_alive d t t' k : t <= t' -> look d t' k = alive t' (look d t k);
  law_exists d t k :
    yields t (exec t (EXISTS k) d) (RInt (match look d t k with Some _ => 1 | None => 0 end))
      (look d t);
  law_set d t k v px : 0 < px ->
    yields t (exec t (SETPX k v px) d) (RStatus "OK")
      (ks_set (look d t) k (Some (Entry (VStr v) (Some (t + px)))));
  law_set_invalid d t k v px : px <= 0 ->
    yields t (exec t (SETPX k v px) d)
      (RErr "ERR invalid expire time in 'set' command") (look d t);
  law_get d t k :
    yields t (exec t (GET k) d) (get_reply (look d t k)) (look d t);
  law_del d t ks : exists n,
    yields t (exec t (DEL ks) d) (RInt n)
      (fun k => if decide (k ∈ ks) then None else look d t k);
  law_sadd d t k m X : as_set (look d t k) = Some X ->
    yields t (exec t (SADD k m) d) (RInt (if decide (m ∈ X) then 0 else 1))
      (ks_set (look d t) k (Some (Entry (VSet ({[m]} ∪ X)) (exp_of (look d t k)))));
  law_srem d t k ms X : as_set (look d t k) = Some X -> exists n,
    yields t (exec t (SREM k ms) d) (RInt n)
      (ks_set (look d t) k (set_entry (X ∖ list_to_set ms) (exp_of (look d t k))));
  law_smembers d t k X : as_set (look d t k) = Some X -> exists l,
    NoDup l /\ (forall m, m ∈ l <-> m ∈ X) /\
    yields t (exec t (SMEMBERS k) d) (RArr l) (look d t);
  law_incr_absent d t k : look d t k = None ->
    yields t (exec t (INCR k) d) (RInt 1)
      (ks_set (look d t) k (Some (Entry (VStr "1") None)));
  law_incr d t k n x :
    look d t k = Some (Entry (VStr (format_uint n)) x) -> Z.of_N n < max_int64 ->
    yields t (exec t (INCR k) d) (RInt (Z.of_N n + 1))
      (ks_set (look d t) k (Some (Entry (VStr (format_uint (n + 1))) x)));
  law_pexpire d t k px v x : look d t k = Some (Entry v x) -> 0 < px ->
    yields t (exec t (PEXPIRE k px) d) (RInt 1)
      (ks_set (look d t) k (Some (Entry v (Some (t + px)))));
  law_xadd d t k i fields es : as_stream (look d t k) = Some es ->
    sid_ok i -> sid_ltb (last_sid es) i = true ->
    yields t (exec t (XADD k (sid_text i) fields) d) (RBulk (sid_text i))
      (ks_set (look d t) k
        (Some (Entry (VStream (es ++ [SEntry i fields])) (exp_of (look d t k)))));
  law_xread d t k i count es : as_stream (look d t k) = Some es -> sid_ok i ->
    yields t (exec t (XREAD k (sid_text i) count) d) (xread_reply es i count) (look d t);
  law_lua_num n : - 2 ^ 53 <= n <= 2 ^ 53 -> lua_num n = n;
  law_lua_str n : 0 <= n < lua_max -> lua_str n = format_uint (Z.to_N n);
  law_lua_arg n : 0 <= n < lua_max -> lua_arg n = format_uint (Z.to_N n);
}.

(** ** Scripts and client calls *)

(** A Lua script: a program over [redis.call]. *)
Definition script : Type := prog cmd reply reply.

(** [redis.call]: an error reply aborts the script with that error; the writes
    made so far stay. *)
Definition redis_call (c : cmd) (k : reply -> script) : script :=
  Do c (fun r => match r with RErr m => Ret (RErr m) | _ => k r end).

(** What the Go client sends: one command, or a script that the server runs
    atomically ([EVALSHA]/[EVAL]). *)
Inductive rcall : Type :=
  | CCmd (c : cmd)
  | CEval (s : script).

(** Go code that talks to Redis. *)
Definition gprog (A : Type) : Type := prog rcall reply A.

Section calls.
Context {db : Type} `{RedisOps db}.

Definition exec_call (t : Z) (c : rcall) (d : db) : reply * db :=
  match c with
  | CCmd c => exec t c d
  | CEval s => prun (exec t) s d
  end.

(** Run a Go program alone: call number [n] reaches the server at time
    [tick n]. *)
Definition seq_handler (tick : nat -> Z) (c : rcall) (s : db * nat) : reply * (db * nat) :=
  let (r, d') := exec_call (tick s.2) c s.1 in (r, (d', S s.2)).

Definition run_ticks {A} (tick : nat -> Z) (p : gprog A) (d : db) : A * db :=
  let (a, s) := prun (seq_handler tick) p (d, O) in (a, s.1).

(** Run a Go program alone with the server clock standing at [t]. *)
Definition run_at {A} (t : Z) (p : gprog A) (d : db) : A * db :=
  prun (exec_call t) p d.

End calls.

(** ** Reading replies in Go *)

(** [redis.Nil]. *)
Definition redisNil : goerr := ESentinel "redis.Nil" "redis: nil".

Definition reply_error (r : reply) : goerr :=
  match r with
  | RErr m | RFail m => ENew m
  | RNil => redisNil
  | _ => ENew "redis: unexpected reply type"
  end.

(** [.Uint64()] of a script result. *)
Definition as_uint64 (r : reply) : res Z :=
  match r with RInt z => Ok (wrapu64 z) | _ => Err (reply_error r) end.

(** [.Bytes()] of a [GET]. *)
Definition as_bytes (r : reply) : res string :=
  match r with RBulk s => Ok s | _ => Err (reply_error r) end.

(** [.Uint64()] of a [GET]. *)
Definition bulk_uint64 (r : reply) : res Z :=
  match r with
  | RBulk s =>
      match parse_uint s with
      | Some n => Ok (Z.of_N n)
      | None => Err (ENew ("strconv.ParseUint: parsing " +:+ s))
      end
  | _ => Err (reply_error r)
  end.

(** [.Result()] of an [SMEMBERS]. *)
Definition as_strings (r : reply) : res (list string) :=
  match r with RArr l => Ok l | _ => Err (reply_error r) end.

(** [.Result()] of an [XREAD] of one stream: its messages. *)
Definition as_messages (r : reply) : res (list (string * list (string * string))) :=
  match r with RStream l => Ok l | _ => Err (reply_error r) end.

(** ** Consequences of the laws *)

Section facts.
Context {db : Type} `{RedisLaws db}.

Lemma alive_look (d : db) t k : alive t (look d t k) = look d t k.
Proof. symmetry. apply look_alive. lia. Qed.

Lemma alive_alive t t' o : t <= t' -> alive t' (alive t o) = alive t' o.
Proof.
  intros Ht. destruct o as [[v [x|]]|]; simpl; try done.
  destruct (Z.ltb_spec t x); simpl; [done|].
  destruct (Z.ltb_spec t' x); [lia|done].
Qed.

Lemma prun_yields {A} t (d : db) c r ks (k : reply -> prog cmd reply A) :
  yields t (exec t c d) r ks ->
  exists d', prun (exec t) (Do c k) d = prun (exec t) (k r) d' /\
    forall k', look d' t k' = ks k'.
Proof.
  intros [Hr Hk]. exists (exec t c d).2. split; [|done]. simpl.
  destruct (exec t c d); simpl in *. by subst.
Qed.

(** One [redis.call] that does not fail. *)
Lemma redis_call_yields t (d : db) c r ks k :
  yields t (exec t c d) r ks -> (forall m, r <> RErr m) ->
  exists d', prun (exec t) (redis_call c k) d = prun (exec t) (k r) d' /\
    forall k', look d' t k' = ks k'.
Proof.
  intros Hy Hr. destruct (prun_yields t d c r ks
    (fun r => match r with RErr m => Ret (RErr m) | _ => k r end) Hy) as (d' & E & Hd).
  exists d'. split; [|done]. unfold redis_call. rewrite E.
  destruct r; try done. by destruct (Hr msg).
Qed.

(** One [redis.call] that fails. *)
Lemma redis_call_fails t (d : db) c m ks k :
  yields t (exec t c d) (RErr m) ks ->
  exists d', prun (exec t) (redis_call c k) d = (RErr m, d') /\
    forall k', look d' t k' = ks k'.
Proof.
  intros Hy. apply (prun_yields t d c (RErr m) ks
    (fun r => match r with RErr m => Ret (RErr m) | _ => k r end) Hy).
Qed.

(** A client command. *)
Lemma exec_cmd_yields t (d : db) c r ks :
  yields t (exec t c d) r ks ->
  exists d', exec_call t (CCmd c) d = (r, d') /\ forall k, look d' t k = ks k.
Proof.
  intros [Hr Hk]. exists (exec t c d).2. simpl.
  destruct (exec t c d); simpl in *. by subst.
Qed.

Lemma run_at_bind {A B} t (p : gprog A) (f : A -> gprog B) (d : db) :
  run_at t (pbind p f) d = let (a, d') := run_at t p d in run_at t (f a) d'.
Proof. apply prun_bind. Qed.

End facts.
