(* ===== verification/RedisMem.v ===== *)
(** * An in-memory Redis

    A concrete instance of the interface of Redis.v: one finite map from keys to
    entries.  It shows that the laws can hold together and makes every program
    of the development executable; nothing else depends on it. *)

From S2P Require Import Prelude GoText Redis.

Local Open Scope Z_scope.

Abbreviation memdb := (gmap string entry).

Definition mem_look (d : memdb) (t : Z) (k : string) : option entry := alive t (d !! k).

Definition mem_put (d : memdb) (k : string) (o : option entry) : memdb :=
  match o with Some e => <[k := e]> d | None => delete k d end.

#[global] Arguments mem_put : simpl never.

Definition parse_sid (s : string) : option sid :=
  let '(a, b, ok) := cut "-"%char s in
  if ok then
    match parse_uint a, parse_uint b with
    | Some x, Some y => if bool_decide (sid_text (x, y) = s) then Some (x, y) else None
    | _, _ => None
    end
  else None.

Definition bad_integer : string := "ERR value is not an integer or out of range".
Definition bad_sid : string := "ERR Invalid stream ID specified as stream command argument".
Definition small_sid : string :=
  "ERR The ID specified in XADD is equal or smaller than the target stream top item".

Definition mem_exec (t : Z) (c : cmd) (d : memdb) : reply * memdb :=
  let ks := mem_look d t in
  match c with
  | EXISTS k => (RInt (match ks k with Some _ => 1 | None => 0 end), d)
  | SETPX k v px =>
      if px <=? 0 then (RErr "ERR invalid expire time in 'set' command", d)
      else (RStatus "OK", mem_put d k (Some (Entry (VStr v) (Some (t + px)))))
  | GET k => (get_reply (ks k), d)
  | DEL l => (RInt (Z.of_nat (length (filter (fun k => is_Some (ks k)) l))),
              foldr (fun k d => mem_put d k None) d l)
  | SADD k m =>
      match as_set (ks k) with
      | Some X => (RInt (if decide (m ∈ X) then 0 else 1),
          mem_put d k (Some (Entry (VSet ({[m]} ∪ X)) (exp_of (ks k)))))
      | None => (RErr wrongtype, d)
      end
  | SREM k ms =>
      match as_set (ks k) with
      | Some X => (RInt (Z.of_nat (size (X ∩ list_to_set ms))),
          mem_put d k (set_entry (X ∖ list_to_set ms) (exp_of (ks k))))
      | None => (RErr wrongtype, d)
      end
  | SMEMBERS k =>
      match as_set (ks k) with
      | Some X => (RArr (elements X), d)
      | None => (RErr wrongtype, d)
      end
  | INCR k =>
      match ks k with
      | None => (RInt 1, mem_put d k (Some (Entry (VStr "1") None)))
      | Some (Entry (VStr s) x) =>
          match parse_uint s with
          | Some n =>
              if bool_decide (format_uint n = s) && (Z.of_N n <? max_int64) then
                (RInt (Z.of_N n + 1), mem_put d k (Some (Entry (VStr (format_uint (n + 1))) x)))
              else (RErr bad_integer, d)
          | None => (RErr bad_integer, d)
          end
      | Some _ => (RErr wrongtype, d)
      end
  | PEXPIRE k px =>
      match ks k with
      | Some (Entry v x) => (RInt 1, mem_put d k (Some (Entry v (Some (t + px)))))
      | None => (RInt 0, d)
      end
  | XADD k id fields =>
      match as_stream (ks k) with
      | Some es =>
          match parse_sid id with
          | Some i =>
              if sid_ltb (last_sid es) i then
                (RBulk id, mem_put d k (Some (Entry (VStream (es ++ [SEntry i fields]))
                                                (exp_of (ks k)))))
              else (RErr small_sid, d)
          | None => (RErr bad_sid, d)
          end
      | None => (RErr wrongtype, d)
      end
  | XREAD k start count =>
      match as_stream (ks k) with
      | Some es =>
          match parse_sid start with
          | Some i => (xread_reply es i count, d)
          | None => (RErr bad_sid, d)
          end
      | None => (RErr wrongtype, d)
      end
  end.

(** Numbers below [lua_max] print in decimal, larger ones in scientific
    notation. *)
Definition mem_lua_str (n : Z) : string :=
  if n <? lua_max then format_uint (Z.to_N n)
  else format_uint (Z.to_N (n / lua_max)) +:+ "e+14".

#[global] Instance mem_ops : RedisOps memdb := {
  exec := mem_exec;
  look := mem_look;
  lua_num := fun n => n;
  lua_str := mem_lua_str;
  lua_arg := fun n => format_uint (Z.to_N n);
}.

Lemma mem_look_put d t k o k' :
  mem_look (mem_put d k o) t k' = ks_set (mem_look d t) k (alive t o) k'.
Proof.
  unfold mem_look, mem_put, ks_set.
  destruct o as [e|]; [rewrite lookup_insert|rewrite lookup_delete]; by case_decide.
Qed.

Lemma mem_look_alive d t k : alive t (mem_look d t k) = mem_look d t k.
Proof. apply alive_alive. lia. Qed.

Lemma alive_keep_exp t o v :
  alive t o = o -> alive t (Some (Entry v (exp_of o))) = Some (Entry v (exp_of o)).
Proof.
  destruct o as [[w [x|]]|]; simpl; try done.
  destruct (t <? x); [done|discriminate].
Qed.

Lemma alive_fresh t px v : 0 < px -> alive t (Some (Entry v (Some (t + px)))) =
  Some (Entry v (Some (t + px))).
Proof. intros. simpl. destruct (Z.ltb_spec t (t + px)); [done|lia]. Qed.

Lemma parse_sid_text i : sid_ok i -> parse_sid (sid_text i) = Some i.
Proof.
  destruct i as [a b]. intros [Ha Hb]. unfold parse_sid, sid_text. simpl in *.
  rewrite cut_app by auto with registry. rewrite !parse_format_uint by done.
  by rewrite bool_decide_eq_true_2.
Qed.

Lemma mem_del_look l d t k :
  mem_look (foldr (fun k d => mem_put d k None) d l) t k =
  if decide (k ∈ l) then None else mem_look d t k.
Proof.
  induction l as [|x l IH]; simpl; [done|].
  rewrite mem_look_put. unfold ks_set. simpl.
  destruct (decide (x = k)) as [->|Hne].
  - rewrite decide_True by set_solver. done.
  - rewrite IH. destruct (decide (k ∈ l)).
    + by rewrite decide_True by set_solver.
    + rewrite decide_False by set_solver. done.
Qed.

Ltac mem_step := split; [done | intros ?; cbn -[alive mem_put]; rewrite ?mem_look_put].

#[global] Instance mem_laws : RedisLaws memdb.
Proof.
  constructor.
  - intros d t t' k Ht. cbn. unfold mem_look. by rewrite alive_alive.
  - intros d t k. by split.
  - intros d t k v px Hpx. cbn -[mem_put]. destruct (Z.leb_spec px 0); [lia|].
    mem_step. by rewrite alive_fresh.
  - intros d t k v px Hpx. cbn. destruct (Z.leb_spec px 0); [by split|lia].
  - intros d t k. by split.
  - intros d t ks. eexists. split; [done|]. intros k. apply mem_del_look.
  - intros d t k m X HX. cbn. cbn in HX. rewrite HX. mem_step.
    by rewrite alive_keep_exp by apply mem_look_alive.
  - intros d t k ms X HX. eexists. cbn. cbn in HX. rewrite HX. mem_step.
    unfold set_entry. case_decide; [done|].
    by rewrite alive_keep_exp by apply mem_look_alive.
  - intros d t k X HX. exists (elements X). split; [apply NoDup_elements|].
    split; [intros; apply elem_of_elements|]. cbn. cbn in HX. rewrite HX. by split.
  - intros d t k Hk. cbn. cbn in Hk. rewrite Hk. mem_step. done.
  - intros d t k n x Hk Hn. cbn. cbn in Hk. rewrite Hk.
    rewrite parse_format_uint by (unfold max_int64 in Hn; lia).
    rewrite bool_decide_eq_true_2 by done. destruct (Z.ltb_spec (Z.of_N n) max_int64); [|lia].
    mem_step. replace x with (exp_of (mem_look d t k)) by by rewrite Hk.
    by rewrite alive_keep_exp by apply mem_look_alive.
  - intros d t k px v x Hk Hpx. cbn. cbn in Hk. rewrite Hk. mem_step. by rewrite alive_fresh.
  - intros d t k i fields es Hes Hok Hlt. cbn. cbn in Hes. rewrite Hes.
    rewrite parse_sid_text, Hlt by done. mem_step.
    by rewrite alive_keep_exp by apply mem_look_alive.
  - intros d t k i count es Hes Hok. cbn. cbn in Hes. rewrite Hes.
    rewrite parse_sid_text by done. by split.
  - done.
  - intros n Hn. cbn. unfold mem_lua_str. destruct (Z.ltb_spec n lua_max); [done|lia].
  - done.
Qed.
