(* ===== verification/Proto.v ===== *)
(** * The messages of [platform.registry.v1]

    The generated Go package is not part of the repository.  The records below
    carry the fields the sources read or write; an enum keeps the values the
    sources name and any other number (proto3 enums are open).  A timestamp is
    the nanosecond count since the Unix epoch, [None] for an absent message.

    [encoding/json] applied to the generated type depends on its struct tags, so
    the codec of a stored instance is a parameter, [InstanceCodec]; [CodecLaws]
    states what the code relies on. *)

From S2P Require Import Prelude GoText Utf8.

Local Open Scope Z_scope.

Inductive InstanceStatus : Type :=
  | STATUS_UNSPECIFIED
  | STATUS_HEALTHY
  | STATUS_DRAINING
  | STATUS_OTHER (n : Z).

#[global] Instance status_eq_dec : EqDecision InstanceStatus.
Proof. solve_decision. Defined.

Record ServiceInstance : Type := {
  ServiceName : string;
  InstanceId : string;
  Endpoint : string;
  Protocol : string;
  Version : string;
  Status : InstanceStatus;
  Weight : Z;
  Metadata : gmap string string;
  RegisteredAt : option Z;
  UpdatedAt : option Z;
  LeaseExpiresAt : option Z;
}.

#[global] Instance instance_eq_dec : EqDecision ServiceInstance.
Proof. solve_decision. Defined.

(** [selector.GetMatch()]; a nil selector is the empty map. *)
Abbreviation Selector := (gmap string string).

Record RegisterInstanceRequest : Type := {
  reg_Instance : option ServiceInstance;
  reg_LeaseSeconds : Z;
}.
Record RegisterInstanceResponse : Type := {
  regr_Instance : ServiceInstance;
  regr_LeaseToken : string;
  regr_Revision : Z;
}.
Record RenewLeaseRequest : Type := {
  ren_ServiceName : string;
  ren_InstanceId : string;
  ren_LeaseToken : string;
  ren_LeaseSeconds : Z;
}.
Record DeregisterInstanceRequest : Type := {
  der_ServiceName : string;
  der_InstanceId : string;
  der_LeaseToken : string;
}.
Record SetInstanceStatusRequest : Type := {
  sst_ServiceName : string;
  sst_InstanceId : string;
  sst_LeaseToken : string;
  sst_Status : InstanceStatus;
}.
(** The body of a [RenewLeaseResponse] and of a [SetInstanceStatusResponse]. *)
Record InstanceRevision : Type := {
  ir_Instance : ServiceInstance;
  ir_Revision : Z;
}.
Record ListInstancesRequest : Type := {
  lst_ServiceName : string;
  lst_Selector : Selector;
  lst_IncludeDraining : bool;
}.
Record ListInstancesResponse : Type := {
  lstr_Instances : list ServiceInstance;
  lstr_Revision : Z;
}.
Record ServiceSummary : Type := {
  sum_ServiceName : string;
  sum_HealthyInstances : Z;
  sum_DrainingInstances : Z;
}.
Record ListServicesResponse : Type := {
  lsvr_Services : list ServiceSummary;
  lsvr_Revision : Z;
}.

(** ** Stored instances *)

(** [json.Marshal(instance)] and [json.Unmarshal(payload, &value)]. *)
Class InstanceCodec : Type := {
  marshal : ServiceInstance -> res string;
  unmarshal : string -> res ServiceInstance;
}.

(** Every string of the instance is valid UTF-8: proto3 guarantees it for a
    decoded request, and [encoding/json] replaces invalid bytes. *)
Definition utf8_instance (v : ServiceInstance) : bool :=
  utf8_valid (ServiceName v) && utf8_valid (InstanceId v) && utf8_valid (Endpoint v) &&
  utf8_valid (Protocol v) && utf8_valid (Version v) &&
  forallb (fun kv => utf8_valid kv.1 && utf8_valid kv.2) (map_to_list (Metadata v)).

Class CodecLaws `{InstanceCodec} : Prop := {
  (** a struct encodes to a JSON object *)
  codec_object v p : marshal v = Ok p -> has_prefix "{" p = true;
  (** decoding replaces invalid UTF-8 *)
  codec_valid p v : unmarshal p = Ok v -> utf8_instance v = true;
  codec_roundtrip v p : utf8_instance v = true -> marshal v = Ok p -> unmarshal p = Ok v;
}.
