(* ===== verification/RefCodec.v ===== *)
(** * A reference codec of stored instances

    A concrete instance of [InstanceCodec] with its laws, used by witnesses and
    by executions of the whole system: the fields as terminated strings after an
    opening brace. *)

From S2P Require Import Prelude GoText Utf8 Proto.

Local Open Scope Z_scope.

(** ** Terminated strings: byte 0 ends a string, byte 1 escapes 0 and 1 *)

Definition nul : ascii := ascii_of_nat 0.
Definition esc : ascii := ascii_of_nat 1.

Fixpoint enc_string (s : string) (rest : string) : string :=
  match s with
  | EmptyString => String nul rest
  | String c s' =>
      if bool_decide (c = nul) then String esc (String esc (enc_string s' rest))
      else if bool_decide (c = esc) then String esc (String "2" (enc_string s' rest))
      else String c (enc_string s' rest)
  end.

Fixpoint enc_strings (l : list string) : string :=
  match l with
  | [] => EmptyString
  | s :: l' => enc_string s (enc_strings l')
  end.

(** [cur] is the string being read, in reverse; [e] says the last byte was an
    escape. *)
Fixpoint dec_strings (cur : string) (e : bool) (s : string) : list string :=
  match s with
  | EmptyString => []
  | String c s' =>
      if e then
        dec_strings (String (if bool_decide (c = esc) then nul else esc) cur) false s'
      else if bool_decide (c = esc) then dec_strings cur true s'
      else if bool_decide (c = nul) then String.rev cur :: dec_strings EmptyString false s'
      else dec_strings (String c cur) false s'
  end.

Lemma rev_app_spec s1 s2 : String.rev_app s1 s2 = String.rev s1 +:+ s2.
Proof.
  assert (forall s a b, String.rev_app s (a +:+ b) = String.rev_app s a +:+ b) as H.
  { clear. induction s as [|c s IH]; intros a b; simpl; [done|].
    change (String c (a +:+ b)) with (String c a +:+ b). by rewrite IH. }
  change s2 with (EmptyString +:+ s2) at 1. apply H.
Qed.

Lemma dec_enc_string s cur rest :
  dec_strings cur false (enc_string s rest) =
  (String.rev cur +:+ s) :: dec_strings EmptyString false rest.
Proof.
  revert cur. induction s as [|c s IH]; intros cur.
  - simpl. by rewrite str_app_nil_r.
  - assert (forall x, String.rev (String x cur) +:+ s = String.rev cur +:+ String x s) as Hx.
    { intros x. unfold String.rev at 1. simpl. rewrite rev_app_spec.
      generalize (String.rev cur) as a. induction a as [|y a IHa]; [done|].
      change ((String y a +:+ String x EmptyString) +:+ s)
        with (String y ((a +:+ String x EmptyString) +:+ s)). by rewrite IHa. }
    simpl. destruct (bool_decide (c = nul)) eqn:E0.
    + apply bool_decide_eq_true in E0 as ->. simpl. rewrite IH. by rewrite Hx.
    + destruct (bool_decide (c = esc)) eqn:E1.
      * apply bool_decide_eq_true in E1 as ->. simpl. rewrite IH. by rewrite Hx.
      * simpl. rewrite E1, E0. rewrite IH. by rewrite Hx.
Qed.

Lemma dec_enc_first s rest :
  dec_strings EmptyString false (enc_string s rest) =
  s :: dec_strings EmptyString false rest.
Proof. apply dec_enc_string. Qed.

Lemma dec_enc_strings l : dec_strings EmptyString false (enc_strings l) = l.
Proof.
  induction l as [|s l IH]; simpl; [done|]. by rewrite dec_enc_first, IH.
Qed.

(** ** Scalars *)

Definition enc_z (z : Z) : string :=
  if z <? 0 then String "-" (format_uint (Z.to_N (- z))) else format_uint (Z.to_N z).

Definition dec_nat (s : string) : Z :=
  match DecimalString.NilZero.uint_of_string s with
  | Some u => Z.of_N (N.of_uint u)
  | None => 0
  end.

Definition dec_z (s : string) : Z :=
  match s with
  | String "-" s' => - dec_nat s'
  | _ => dec_nat s
  end.

Lemma dec_nat_format n : dec_nat (format_uint n) = Z.of_N n.
Proof.
  unfold dec_nat. rewrite uint_of_format. by rewrite DecimalN.Unsigned.of_to.
Qed.

Lemma dec_enc_z z : dec_z (enc_z z) = z.
Proof.
  unfold enc_z. destruct (Z.ltb_spec z 0).
  - cbn [dec_z]. rewrite dec_nat_format. lia.
  - pose proof (format_uint_digits (Z.to_N z)) as Hd.
    pose proof (dec_nat_format (Z.to_N z)) as Hn.
    destruct (format_uint (Z.to_N z)) as [|c s]; [simpl in *; lia|].
    assert (c <> "-"%char) as Hc by (intros ->; discriminate Hd).
    assert (dec_z (String c s) = dec_nat (String c s)) as ->.
    { destruct c as [[] [] [] [] [] [] [] []]; try reflexivity. by destruct Hc. }
    rewrite Hn. lia.
Qed.

Definition enc_oz (o : option Z) : string :=
  match o with None => EmptyString | Some z => String "t" (enc_z z) end.
Definition dec_oz (s : string) : option Z :=
  match s with String _ s' => Some (dec_z s') | EmptyString => None end.

Definition enc_status (s : InstanceStatus) : string :=
  match s with
  | STATUS_UNSPECIFIED => "U"
  | STATUS_HEALTHY => "H"
  | STATUS_DRAINING => "D"
  | STATUS_OTHER n => String "O" (enc_z n)
  end.
Definition dec_status (s : string) : InstanceStatus :=
  match s with
  | String "U" _ => STATUS_UNSPECIFIED
  | String "H" _ => STATUS_HEALTHY
  | String "D" _ => STATUS_DRAINING
  | String _ s' => STATUS_OTHER (dec_z s')
  | EmptyString => STATUS_UNSPECIFIED
  end.

Fixpoint enc_pairs (l : list (string * string)) : list string :=
  match l with [] => [] | (k, v) :: l' => k :: v :: enc_pairs l' end.
Fixpoint dec_pairs (l : list string) : list (string * string) :=
  match l with k :: v :: l' => (k, v) :: dec_pairs l' | _ => [] end.

Lemma dec_enc_pairs l : dec_pairs (enc_pairs l) = l.
Proof. induction l as [|[k v] l IH]; simpl; congruence. Qed.

(** ** Instances *)

Definition ref_fields (v : ServiceInstance) : list string :=
  [ServiceName v; InstanceId v; Endpoint v; Protocol v; Version v; enc_status (Status v);
   enc_z (Weight v); enc_oz (RegisteredAt v); enc_oz (UpdatedAt v);
   enc_oz (LeaseExpiresAt v)] ++ enc_pairs (map_to_list (Metadata v)).

Definition ref_marshal (v : ServiceInstance) : res string :=
  Ok (String "{" (enc_strings (ref_fields v))).

Definition checked (v : ServiceInstance) : res ServiceInstance :=
  if utf8_instance v then Ok v else Err (ENew "invalid UTF-8").

Definition ref_unmarshal (p : string) : res ServiceInstance :=
  match p with
  | String "{" body =>
      match dec_strings EmptyString false body with
      | a :: b :: c :: d :: e :: f :: g :: h :: i :: j :: m =>
          checked {| ServiceName := a; InstanceId := b; Endpoint := c; Protocol := d;
                Version := e; Status := dec_status f; Weight := dec_z g;
                Metadata := list_to_map (dec_pairs m); RegisteredAt := dec_oz h;
                UpdatedAt := dec_oz i; LeaseExpiresAt := dec_oz j |}
      | _ => Err (ENew "unexpected end of JSON input")
      end
  | _ => Err (ENew "invalid character")
  end.

#[global] Instance ref_codec : InstanceCodec := {
  marshal := ref_marshal;
  unmarshal := ref_unmarshal;
}.

#[global] Instance ref_codec_laws : CodecLaws.
Proof.
  constructor.
  - intros v p [= <-]. done.
  - intros p v H. cbn [unmarshal ref_codec] in H. unfold ref_unmarshal in H.
    repeat case_match; try discriminate; subst. unfold checked in H.
    case_match; [|discriminate]. by injection H as <-.
  - intros v p Hv [= <-]. cbn [unmarshal ref_codec ref_unmarshal].
    rewrite !dec_enc_first, dec_enc_strings. cbv beta iota. rewrite dec_enc_pairs, list_to_map_to_list, dec_enc_z.
    assert (forall o, dec_oz (enc_oz o) = o) as Ho.
    { intros [z|]; simpl; [by rewrite dec_enc_z|done]. }
    assert (forall st, dec_status (enc_status st) = st) as Hst.
    { intros []; simpl; by rewrite ?dec_enc_z. }
    rewrite !Ho, Hst. destruct v as [? ? ? ? ? st ? ? o1 o2 o3]; cbn in *.
    unfold checked. by rewrite Hv.
Qed.
