(* ===== verification/Store.v ===== *)
(** * The lease store (internal/registry/store.go)

    [Store] keeps, per instance, a payload key and a token key with the lease as
    their expiry; per service a set of instance ids; the set of service names; a
    revision counter; and a stream of changes whose entry ids are the revisions.
    The three Lua scripts are translated call by call; the Go methods are
    programs over the client calls they make.  A duration is a number of
    nanoseconds, as in Go. *)

From S2P Require Import Prelude GoText Utf8 Sha256 Redis Proto.

Local Open Scope Z_scope.
Local Open Scope go_scope.

(** ** Errors *)

Definition ErrAlreadyRegistered : goerr :=
  ESentinel "registry.ErrAlreadyRegistered" "instance is already registered".
Definition ErrNotFound : goerr :=
  ESentinel "registry.ErrNotFound" "instance was not found".
Definition ErrLeaseNotOwned : goerr :=
  ESentinel "registry.ErrLeaseNotOwned" "lease is not owned".

(** [mapScriptError] on a non-nil error. *)
Definition mapScriptError (e : goerr) : goerr :=
  if contains "ALREADY_REGISTERED" (error_text e) then ErrAlreadyRegistered
  else if contains "NOT_FOUND" (error_text e) then ErrNotFound
  else if contains "LEASE_NOT_OWNED" (error_text e) then ErrLeaseNotOwned
  else e.

(** [return result, mapScriptError(err)]. *)
Definition script_result (r : res Z) : res Z :=
  match r with Ok z => Ok z | Err e => Err (mapScriptError e) end.

(** ** Keys *)

Definition keyPrefix : string := "platform:registry:".

Definition instanceKey (service instance : string) : string :=
  keyPrefix +:+ "instance:" +:+ service +:+ ":" +:+ instance.
Definition tokenKey (service instance : string) : string :=
  keyPrefix +:+ "token:" +:+ service +:+ ":" +:+ instance.
Definition serviceKey (service : string) : string := keyPrefix +:+ "service:" +:+ service.
Definition revisionKey : string := keyPrefix +:+ "revision".
Definition streamKey : string := keyPrefix +:+ "changes".
Definition servicesKey : string := keyPrefix +:+ "services".

(** ** Values *)

Definition second : Z := 1000000000.
Definition millisecond : Z := 1000000.

(** [d.Milliseconds()]: truncated towards zero. *)
Definition milliseconds (d : Z) : Z := Z.quot d millisecond.

Definition hashToken (token : string) : string := hex_encode (sha256 token).

Definition cloneMap (input : gmap string string) : gmap string string :=
  map_fold (fun key value output => <[key := value]> output) ∅ input.

(** [now] is the service clock in nanoseconds since the epoch. *)
Definition prepareInstance (input : ServiceInstance) (lease now : Z) : ServiceInstance := {|
  ServiceName := ServiceName input;
  InstanceId := InstanceId input;
  Endpoint := Endpoint input;
  Protocol := Protocol input;
  Version := Version input;
  Status := if decide (Status input = STATUS_UNSPECIFIED) then STATUS_HEALTHY else Status input;
  Weight := if Weight input =? 0 then 100 else Weight input;
  Metadata := cloneMap (Metadata input);
  RegisteredAt := Some now;
  UpdatedAt := Some now;
  LeaseExpiresAt := Some (now + lease);
|}.

(** ** The Lua scripts *)

Section scripts.
Context {db : Type} `{RedisOps db}.

(** The value of a Lua local bound to the reply of [INCR]. *)
Definition lua_number (r : reply) : Z := match r with RInt z => lua_num z | _ => 0 end.

(** The last two statements every script shares: append the change under the id
    [revision .. '-0'] and return the revision. *)
Definition publish (stream : string) (kind : string) (revision : Z)
    (fields : list (string * string)) : script :=
  redis_call (XADD stream (lua_str revision +:+ "-0")
    ([("revision", lua_arg revision); ("type", kind)] ++ fields)) (fun _ =>
  Ret (RInt revision)).

Definition registerScript (k1 k2 k3 k4 k5 k6 a1 a2 : string) (a3 : Z) (a4 a5 : string) : script :=
  redis_call (EXISTS k1) (fun r =>
  match r with
  | RInt 1 => Ret (RErr "ALREADY_REGISTERED")
  | _ =>
      redis_call (SETPX k1 a1 a3) (fun _ =>
      redis_call (SETPX k2 a2 a3) (fun _ =>
      redis_call (SADD k3 a4) (fun _ =>
      redis_call (SADD k6 a5) (fun _ =>
      redis_call (INCR k4) (fun revision =>
      publish k5 "upsert" (lua_number revision)
        [("service", a5); ("instance", a4); ("payload", a1)])))))
  end).

Definition updateScript (k1 k2 k3 k4 a1 a2 : string) (a3 : Z) (a4 a5 : string) : script :=
  redis_call (GET k2) (fun token =>
  match token with
  | RBulk token =>
      if negb (bool_decide (token = a2)) then Ret (RErr "LEASE_NOT_OWNED")
      else
        redis_call (SETPX k1 a1 a3) (fun _ =>
        redis_call (PEXPIRE k2 a3) (fun _ =>
        redis_call (INCR k3) (fun revision =>
        publish k4 "upsert" (lua_number revision)
          [("service", a4); ("instance", a5); ("payload", a1)])))
  | _ => Ret (RErr "NOT_FOUND")
  end).

Definition deleteScript (k1 k2 k3 k4 k5 a1 a2 a3 : string) : script :=
  redis_call (GET k2) (fun token =>
  match token with
  | RBulk token =>
      if negb (bool_decide (token = a1)) then Ret (RErr "LEASE_NOT_OWNED")
      else
        redis_call (DEL [k1; k2]) (fun _ =>
        redis_call (SREM k3 [a2]) (fun _ =>
        redis_call (INCR k4) (fun revision =>
        publish k5 "delete" (lua_number revision) [("service", a3); ("instance", a2)])))
  | _ => Ret (RErr "NOT_FOUND")
  end).

(** The calls of [Store.Register], [Store.Update] and [Store.Deregister]:
    [script.Run(ctx, s.redis, keys, args...)]. *)
Definition registerCall (service instance payload token : string) (lease : Z) : rcall :=
  CEval (registerScript (instanceKey service instance) (tokenKey service instance)
    (serviceKey service) revisionKey streamKey servicesKey
    payload (hashToken token) (milliseconds lease) instance service).

Definition updateCall (service instance payload token : string) (lease : Z) : rcall :=
  CEval (updateScript (instanceKey service instance) (tokenKey service instance)
    revisionKey streamKey payload (hashToken token) (milliseconds lease) service instance).

Definition deleteCall (service instance token : string) : rcall :=
  CEval (deleteScript (instanceKey service instance) (tokenKey service instance)
    (serviceKey service) revisionKey streamKey (hashToken token) instance service).

End scripts.

(** ** The methods of [Store] *)

Section store.
Context {db : Type} `{RedisOps db} `{InstanceCodec}.

Definition store_Register (instance : ServiceInstance) (token : string) (lease : Z) :
    gprog (res Z) :=
  match marshal instance with
  | Err e => Ret (Err (EWrap "marshal instance" e))
  | Ok payload =>
      let* r := call (registerCall (ServiceName instance) (InstanceId instance)
                        payload token lease) in
      Ret (script_result (as_uint64 r))
  end.

Definition store_Update (instance : ServiceInstance) (token : string) (lease : Z) :
    gprog (res Z) :=
  match marshal instance with
  | Err e => Ret (Err (EWrap "marshal instance" e))
  | Ok payload =>
      let* r := call (updateCall (ServiceName instance) (InstanceId instance)
                        payload token lease) in
      Ret (script_result (as_uint64 r))
  end.

Definition store_Deregister (service instance token : string) : gprog (res Z) :=
  let* r := call (deleteCall service instance token) in
  Ret (script_result (as_uint64 r)).

(** The pure part of [Store.Get]: from the reply of [GET] to the result. *)
Definition decode_instance (r : reply) : res ServiceInstance :=
  match as_bytes r with
  | Err e => if errors_is e redisNil then Err ErrNotFound else Err (EWrap "get instance" e)
  | Ok payload =>
      match unmarshal payload with
      | Err e => Err (EWrap "decode instance" e)
      | Ok value => Ok value
      end
  end.

Definition store_Get (service instance : string) : gprog (res ServiceInstance) :=
  let* r := call (CCmd (GET (instanceKey service instance))) in
  Ret (decode_instance r).

(** [revision, err := s.redis.Get(ctx, revisionKey()).Uint64()] with [redis.Nil]
    read as revision 0. *)
Definition read_revision : gprog (res Z) :=
  let* r := call (CCmd (GET revisionKey)) in
  Ret (match bulk_uint64 r with
       | Err e => if errors_is e redisNil then Ok 0 else Err e
       | Ok n => Ok n
       end).

(** The loop of [Store.List]: the instances found and the stale ids, in the
    order of [ids]. *)
Fixpoint list_loop (service : string) (ids : list string)
    (instances : list ServiceInstance) (stale : list string) :
    gprog (res (list ServiceInstance * list string)) :=
  match ids with
  | [] => Ret (Ok (instances, stale))
  | id :: ids' =>
      let* r := store_Get service id in
      match r with
      | Err e =>
          if errors_is e ErrNotFound then list_loop service ids' instances (stale ++ [id])
          else Ret (Err e)
      | Ok value => list_loop service ids' (instances ++ [value]) stale
      end
  end.

(** [if len(stale) > 0 { _ = s.redis.SRem(...).Err() }]: the reply is ignored. *)
Definition drop_stale (service : string) (stale : list string) : gprog reply :=
  match stale with
  | [] => Ret RNil
  | _ => call (CCmd (SREM (serviceKey service) stale))
  end.

Definition store_List (service : string) : gprog (res (list ServiceInstance * Z)) :=
  let* r := call (CCmd (SMEMBERS (serviceKey service))) in
  match as_strings r with
  | Err e => Ret (Err (EWrap "list instance ids" e))
  | Ok ids =>
      let! (instances, stale) := list_loop service ids [] [] in
      let* _ := drop_stale service stale in
      let! revision := read_revision in
      Ret (Ok (instances, revision))
  end.

Definition store_Services : gprog (res (list string * Z)) :=
  let* r := call (CCmd (SMEMBERS servicesKey)) in
  match as_strings r with
  | Err e => Ret (Err (EWrap "list services" e))
  | Ok services =>
      let! revision := read_revision in
      Ret (Ok (services, revision))
  end.

(** ** The change stream *)

Record Change : Type := {
  ch_Revision : Z;
  ch_Type : string;
  ch_Service : string;
  ch_Instance : string;
  ch_Value : option ServiceInstance;
}.

(** [fmt.Sprint(message.Values[name])]; [Values] is a map, so the last pair of a
    repeated field wins, and a missing field prints as ["<nil>"]. *)
Definition sprint_field (fields : list (string * string)) (name : string) : string :=
  default "<nil>" ((list_to_map (reverse fields) : gmap string string) !! name).

(** One message of [XREAD]; [None] when its id has no numeric revision. *)
Definition decode_change (m : string * list (string * string)) : option Change :=
  match parse_uint (split_first "-"%char m.1) with
  | None => None
  | Some revision =>
      let payload := sprint_field m.2 "payload" in
      Some {|
        ch_Revision := Z.of_N revision;
        ch_Type := sprint_field m.2 "type";
        ch_Service := sprint_field m.2 "service";
        ch_Instance := sprint_field m.2 "instance";
        ch_Value :=
          if negb (bool_decide (payload = "<nil>")) && negb (bool_decide (payload = EmptyString))
          then match unmarshal payload with Ok value => Some value | Err _ => None end
          else None;
      |}
  end.

Definition changes_count : nat := 128.

(** [Store.Changes]; the blocking read is the call that returns its reply. *)
Definition store_Changes (after : Z) : gprog (res (list Change)) :=
  let start := format_uint (Z.to_N after) +:+ "-0" in
  let* r := call (CCmd (XREAD streamKey start changes_count)) in
  Ret (match as_messages r with
       | Err e =>
           if errors_is e redisNil then Ok []
           else Err (EWrap "read registry changes" e)
       | Ok messages => Ok (omap decode_change messages)
       end).

End store.
