(* ===== verification/Service.v ===== *)
(** * The registry service (internal/registry/service.go)

    [Service] validates requests, computes leases and calls the store.  The
    methods are programs over the same client calls; the clocks they read
    ([s.now()], [time.Now()] inside [time.Until]) and the random bytes of
    [rand.Read] are arguments.  [sort.Slice] is only known to return a sorted
    permutation, so it is a parameter ([SliceSort]) with that contract
    ([SliceSortLaws]). *)

From S2P Require Import Prelude GoText Regex GoURL Redis Proto Store.

Local Open Scope Z_scope.
Local Open Scope go_scope.

(** ** [sort.Slice] *)

Class SliceSort : Type := sort_slice : forall {A : Type}, (A -> A -> bool) -> list A -> list A.

(** Documented contract: [less] describes a transitive ordering and equal
    elements may end up in any order. *)
Definition strict_weak {A} (less : A -> A -> bool) : Prop :=
  (forall x, less x x = false) /\
  (forall x y z, less x y = true -> less y z = true -> less x z = true) /\
  (forall x y z, less x y = false -> less y z = false -> less x z = false).

Class SliceSortLaws `{SliceSort} : Prop := {
  sort_perm {A} less (l : list A) : sort_slice less l ≡ₚ l;
  sort_sorted {A} (less : A -> A -> bool) (l : list A) : strict_weak less ->
    StronglySorted (fun a b => less b a = false) (sort_slice less l);
}.

(** Comparing a string key describes such an ordering. *)
Lemma strict_weak_key {A} (key : A -> string) :
  strict_weak (fun a b => str_ltb (key a) (key b)).
Proof.
  split_and!.
  - intros x. apply str_ltb_irrefl.
  - intros x y z. apply str_ltb_trans.
  - intros x y z Hxy Hyz. destruct (str_ltb (key x) (key z)) eqn:E; [|done].
    destruct (str_ltb (key y) (key x)) eqn:Eyx.
    + by rewrite (str_ltb_trans _ _ _ Eyx E) in Hyz.
    + by rewrite (str_ltb_total _ _ Hxy Eyx), Hyz in E.
Qed.

(** With distinct keys the sorted order is unique: any sort gives it. *)
Lemma sorted_by_key_unique {A} (key : A -> string) (l1 l2 : list A) :
  NoDup (key <$> l1) -> l1 ≡ₚ l2 ->
  StronglySorted (fun a b => str_ltb (key b) (key a) = false) l1 ->
  StronglySorted (fun a b => str_ltb (key b) (key a) = false) l2 -> l1 = l2.
Proof.
  intros Hnd HP H1 H2.
  assert (forall l, NoDup (key <$> l) ->
    StronglySorted (fun a b => str_ltb (key b) (key a) = false) l ->
    StronglySorted (fun a b => str_ltb (key a) (key b) = true) l) as Hstrict.
  { clear. induction 2 as [|x l Hs IH HF]; [constructor|]. rewrite fmap_cons in H.
    apply NoDup_cons in H as [Hx Hl]. constructor; [auto|].
    rewrite Forall_forall in HF |- *. intros y Hy.
    destruct (str_ltb (key x) (key y)) eqn:E; [done|].
    destruct Hx. rewrite (str_ltb_total _ _ E (HF y Hy)). by apply list_elem_of_fmap_2. }
  apply (StronglySorted_perm_unique (fun a b => str_ltb (key a) (key b) = true)).
  - intros x. by rewrite str_ltb_irrefl.
  - intros x y Hx Hy. pose proof (str_ltb_trans _ _ _ Hx Hy) as E. by rewrite str_ltb_irrefl in E.
  - auto.
  - apply Hstrict; [|done]. by rewrite <- HP.
  - done.
Qed.

(** ** Validation and leases *)

Definition defaultLease : Z := 30 * second.

(** [^[a-z0-9](?:[a-z0-9-]{0,61}[a-z0-9])?$] *)
Definition namePattern : re :=
  RSeq (RChr lower_alnum)
    (opt (RSeq (upto 61 (RChr lower_alnum_dash)) (RChr lower_alnum))).

Definition name_ok (s : string) : bool := re_match namePattern s.

Definition validateInstance (instance : option ServiceInstance) : res ServiceInstance :=
  match instance with
  | None => Err (ENew "service_name and instance_id are required")
  | Some instance =>
      fail_if negb (name_ok (ServiceName instance)) || bool_decide (InstanceId instance = EmptyString)
        with "service_name and instance_id are required";
      match url_Parse (Endpoint instance) with
      | Ok parsed =>
          let s := url_Scheme parsed in
          fail_if bool_decide (url_Host parsed = EmptyString) ||
            (negb (bool_decide (s = "grpc")) && negb (bool_decide (s = "grpcs")) &&
             negb (bool_decide (s = "http")) && negb (bool_decide (s = "https")))
            with "endpoint must use grpc, grpcs, http, or https";
          Ok instance
      | Err _ => Err (ENew "endpoint must use grpc, grpcs, http, or https")
      end
  end.

(** [seconds] is a uint32. *)
Definition leaseDuration (seconds : Z) : Z :=
  if seconds =? 0 then defaultLease
  else
    let seconds := if seconds <? 5 then 5 else seconds in
    let seconds := if 300 <? seconds then 300 else seconds in
    wrap64 (seconds * second).

(** [time.Until(t)] with the wall clock at [wall]: a saturating difference. *)
Definition time_until (t wall : Z) : Z := Z.max min_int64 (Z.min max_int64 (t - wall)).

(** [instance.GetLeaseExpiresAt().AsTime()]: a nil timestamp is the epoch. *)
Definition lease_expires (instance : ServiceInstance) : Z := default 0 (LeaseExpiresAt instance).

Definition matches (value : ServiceInstance) (selector : Selector) (includeDraining : bool) : bool :=
  if bool_decide (Status value = STATUS_DRAINING) && negb includeDraining then false
  else if negb (bool_decide (Status value = STATUS_HEALTHY)) &&
          negb (bool_decide (Status value = STATUS_DRAINING)) then false
  else forallb (fun kv => bool_decide (default EmptyString (Metadata value !! kv.1) = kv.2))
         (map_to_list selector).

(** [values[lo:hi]] of a slice whose capacity is its length; [None] is the
    run-time panic on bounds out of range. *)
Definition go_slice {A} (values : list A) (lo hi : Z) : option (list A) :=
  if (0 <=? lo) && (lo <=? hi) && (hi <=? Z.of_nat (length values)) then
    Some (take (Z.to_nat (hi - lo)) (drop (Z.to_nat lo) values))
  else None.

(** [page] and [pageSize] are Go ints (64 bits). *)
Definition pageValues {A} (values : list A) (page pageSize : Z) : option (list A) :=
  let len := Z.of_nat (length values) in
  if (page <=? 0) || (pageSize <=? 0) then Some values
  else
    let offsetPages := wrap64 (page - 1) in
    if Z.quot len pageSize <? offsetPages then Some []
    else
      let start := wrap64 (offsetPages * pageSize) in
      if len <=? start then Some []
      else go_slice values start (Z.min (wrap64 (start + pageSize)) len).

(** ** The methods of [Service] *)

Section service.
Context {db : Type} `{RedisOps db} `{InstanceCodec} `{SliceSort}.

(** [rnd] is the outcome of [rand.Read] on 32 bytes. *)
Definition service_Register (now : Z) (rnd : res (list ascii))
    (request : RegisterInstanceRequest) : gprog (res RegisterInstanceResponse) :=
  match validateInstance (reg_Instance request) with
  | Err e => Ret (Err e)
  | Ok input =>
      let lease := leaseDuration (reg_LeaseSeconds request) in
      let instance := prepareInstance input lease now in
      match rnd with
      | Err e => Ret (Err e)
      | Ok tokenBytes =>
          let token := base64_raw_url tokenBytes in
          let! revision := store_Register instance token lease in
          Ret (Ok {| regr_Instance := instance; regr_LeaseToken := token;
                     regr_Revision := revision |})
      end
  end.

(** [instance.UpdatedAt = ...; instance.LeaseExpiresAt = ...]. *)
Definition renewed (instance : ServiceInstance) (now lease : Z) : ServiceInstance := {|
  ServiceName := ServiceName instance; InstanceId := InstanceId instance;
  Endpoint := Endpoint instance; Protocol := Protocol instance; Version := Version instance;
  Status := Status instance; Weight := Weight instance; Metadata := Metadata instance;
  RegisteredAt := RegisteredAt instance;
  UpdatedAt := Some now; LeaseExpiresAt := Some (now + lease) |}.

Definition service_Renew (now : Z) (request : RenewLeaseRequest) : gprog (res InstanceRevision) :=
  let! instance := store_Get (ren_ServiceName request) (ren_InstanceId request) in
  let lease := leaseDuration (ren_LeaseSeconds request) in
  let instance := renewed instance now lease in
  let! revision := store_Update instance (ren_LeaseToken request) lease in
  Ret (Ok {| ir_Instance := instance; ir_Revision := revision |}).

Definition service_Deregister (request : DeregisterInstanceRequest) : gprog (res Z) :=
  store_Deregister (der_ServiceName request) (der_InstanceId request) (der_LeaseToken request).

(** [instance.Status = ...; instance.UpdatedAt = ...]. *)
Definition with_status (instance : ServiceInstance) (status : InstanceStatus) (now : Z) :
    ServiceInstance := {|
  ServiceName := ServiceName instance; InstanceId := InstanceId instance;
  Endpoint := Endpoint instance; Protocol := Protocol instance; Version := Version instance;
  Status := status; Weight := Weight instance; Metadata := Metadata instance;
  RegisteredAt := RegisteredAt instance;
  UpdatedAt := Some now; LeaseExpiresAt := LeaseExpiresAt instance |}.

Definition service_SetStatus (wall now : Z) (request : SetInstanceStatusRequest) :
    gprog (res InstanceRevision) :=
  if negb (bool_decide (sst_Status request = STATUS_HEALTHY)) &&
     negb (bool_decide (sst_Status request = STATUS_DRAINING)) then
    Ret (Err (ENew "status must be healthy or draining"))
  else
    let! instance := store_Get (sst_ServiceName request) (sst_InstanceId request) in
    let remaining := time_until (lease_expires instance) wall in
    if remaining <=? 0 then Ret (Err ErrNotFound)
    else
      let instance := with_status instance (sst_Status request) now in
      let! revision := store_Update instance (sst_LeaseToken request) remaining in
      Ret (Ok {| ir_Instance := instance; ir_Revision := revision |}).

(** The loop over [serviceNames] in [list]. *)
Fixpoint collect (serviceNames : list string) (values : list ServiceInstance) (revision : Z) :
    gprog (res (list ServiceInstance * Z)) :=
  match serviceNames with
  | [] => Ret (Ok (values, revision))
  | serviceName :: rest =>
      let! (instances, currentRevision) := store_List serviceName in
      collect rest (values ++ instances)
        (if revision <? currentRevision then currentRevision else revision)
  end.

Definition instance_less (a b : ServiceInstance) : bool := str_ltb (InstanceId a) (InstanceId b).

(** Filter, sort and page the collected instances. *)
Definition select_instances (request : ListInstancesRequest) (values : list ServiceInstance)
    (page pageSize : Z) : option (list ServiceInstance * Z) :=
  let filtered := List.filter (fun value =>
    matches value (lst_Selector request) (lst_IncludeDraining request)) values in
  let sorted := sort_slice instance_less filtered in
  match pageValues sorted page pageSize with
  | Some paged => Some (paged, Z.of_nat (length sorted))
  | None => None
  end.

Definition panic : goerr := ENew "runtime error: slice bounds out of range".

Definition service_list (request : ListInstancesRequest) (page pageSize : Z) :
    gprog (res (ListInstancesResponse * Z)) :=
  let name := lst_ServiceName request in
  if bool_decide (name = EmptyString) && bool_decide (lst_Selector request = ∅) then
    Ret (Err (ENew "service_name or metadata selector is required"))
  else if negb (bool_decide (name = EmptyString)) && negb (name_ok name) then
    Ret (Err (ENew "invalid service name"))
  else
    let! (serviceNames, revision) :=
      (if bool_decide (name = EmptyString) then store_Services else Ret (Ok ([name], 0))) in
    let! (values, revision) := collect serviceNames [] revision in
    Ret (match select_instances request values page pageSize with
         | Some (paged, total) =>
             Ok ({| lstr_Instances := paged; lstr_Revision := revision |}, total)
         | None => Err panic
         end).

Definition service_List (request : ListInstancesRequest) : gprog (res ListInstancesResponse) :=
  let! (response, _) := service_list request 0 0 in Ret (Ok response).

Definition service_ListPage (request : ListInstancesRequest) (page pageSize : Z) :
    gprog (res (ListInstancesResponse * Z)) :=
  service_list request page pageSize.

Definition service_Get (serviceName instanceID : string) : gprog (res ServiceInstance) :=
  if negb (name_ok serviceName) || bool_decide (instanceID = EmptyString) then
    Ret (Err (ENew "service_name and instance_id are required"))
  else store_Get serviceName instanceID.

(** The counting loop over the instances of one service (uint32 counters). *)
Definition count_status (summary : ServiceSummary) (instance : ServiceInstance) : ServiceSummary :=
  match Status instance with
  | STATUS_HEALTHY =>
      {| sum_ServiceName := sum_ServiceName summary;
         sum_HealthyInstances := wrapu32 (sum_HealthyInstances summary + 1);
         sum_DrainingInstances := sum_DrainingInstances summary |}
  | STATUS_DRAINING =>
      {| sum_ServiceName := sum_ServiceName summary;
         sum_HealthyInstances := sum_HealthyInstances summary;
         sum_DrainingInstances := wrapu32 (sum_DrainingInstances summary + 1) |}
  | _ => summary
  end.

Definition summarize (name : string) (instances : list ServiceInstance) : ServiceSummary :=
  foldl count_status
    {| sum_ServiceName := name; sum_HealthyInstances := 0; sum_DrainingInstances := 0 |} instances.

Fixpoint summaries (names : list string) (prefix : string) (acc : list ServiceSummary) :
    gprog (res (list ServiceSummary)) :=
  match names with
  | [] => Ret (Ok acc)
  | name :: rest =>
      if negb (bool_decide (prefix = EmptyString)) && negb (has_prefix prefix name) then
        summaries rest prefix acc
      else
        let! (instances, _) := store_List name in
        let summary := summarize name instances in
        summaries rest prefix
          (if 0 <? wrapu32 (sum_HealthyInstances summary + sum_DrainingInstances summary)
           then acc ++ [summary] else acc)
  end.

Definition summary_less (a b : ServiceSummary) : bool :=
  str_ltb (sum_ServiceName a) (sum_ServiceName b).

Definition service_listServices (prefix : string) (page pageSize : Z) :
    gprog (res (ListServicesResponse * Z)) :=
  let! (names, revision) := store_Services in
  let! collected := summaries names prefix [] in
  let sorted := sort_slice summary_less collected in
  Ret (match pageValues sorted page pageSize with
       | Some paged =>
           Ok ({| lsvr_Services := paged; lsvr_Revision := revision |}, Z.of_nat (length sorted))
       | None => Err panic
       end).

Definition service_ListServices (prefix : string) : gprog (res ListServicesResponse) :=
  let! (response, _) := service_listServices prefix 0 0 in Ret (Ok response).

Definition service_ListServicesPage (prefix : string) (page pageSize : Z) :
    gprog (res (ListServicesResponse * Z)) :=
  service_listServices prefix page pageSize.

End service.
