(* ===== verification/LeaseSpec.v ===== *)
(** * What the lease store promises

    The abstract registry: a map of leases (payload, token hash, deadline), the
    discovery index, the set of service names and the log of changes.  A lease is
    held until its deadline; the revision is the length of the log.  StoreRefine.v
    proves that the Lua scripts on Redis implement these operations; the theorems
    here say what the operations guarantee. *)

From S2P Require Import Prelude GoText Redis Store.

Local Open Scope Z_scope.

(** ** State *)

Record lease : Type := Lease { l_payload : string; l_hash : string; l_deadline : Z }.

Inductive event_kind : Type := Upsert (payload : string) | Delete.

Record event : Type := Event { ev_service : string; ev_instance : string; ev_kind : event_kind }.

Record registry : Type := Registry {
  r_leases : gmap string lease;
  r_index : gmap string (gset string);
  r_services : gset string;
  r_log : list event;
}.

Definition empty_registry : registry := Registry ∅ ∅ ∅ [].

(** The name under which a lease is kept: what follows the family prefix in the
    Redis keys of the instance. *)
Definition lease_id (service instance : string) : string := service +:+ ":" +:+ instance.

Definition ev_id (e : event) : string := lease_id (ev_service e) (ev_instance e).

Definition revision (r : registry) : Z := Z.of_nat (length (r_log r)).

(** The lease held at time [t]. *)
Definition held (t : Z) (r : registry) (x : string) : option lease :=
  match r_leases r !! x with
  | Some l => if t <? l_deadline l then Some l else None
  | None => None
  end.

Definition members (r : registry) (service : string) : gset string :=
  default ∅ (r_index r !! service).

(** ** Operations *)

Definition invalid_expire : goerr := ENew "ERR invalid expire time in 'set' command".

(** Record a change. *)
Definition logged (r : registry) (e : event) : registry :=
  Registry (r_leases r) (r_index r) (r_services r) (r_log r ++ [e]).

Definition with_lease (r : registry) (x : string) (l : lease) : registry :=
  Registry (<[x := l]> (r_leases r)) (r_index r) (r_services r) (r_log r).

Definition indexed (r : registry) (service instance : string) : registry :=
  Registry (r_leases r) (<[service := {[instance]} ∪ members r service]> (r_index r))
    ({[service]} ∪ r_services r) (r_log r).

Definition unlisted (r : registry) (service : string) (ids : list string) : registry :=
  Registry (r_leases r) (<[service := members r service ∖ list_to_set ids]> (r_index r))
    (r_services r) (r_log r).

Definition dropped (r : registry) (x : string) : registry :=
  Registry (delete x (r_leases r)) (r_index r) (r_services r) (r_log r).

(** A request to the store, at the level of one atomic call. *)
Inductive action : Type :=
  | ARegister (service instance payload hash : string) (px : Z)
  | AUpdate (service instance payload hash : string) (px : Z)
  | ADelete (service instance hash : string)
  | AUnlist (service : string) (ids : list string)
  | ARead.

Definition act (t : Z) (a : action) (r : registry) : res Z * registry :=
  match a with
  | ARegister s i payload hash px =>
      let x := lease_id s i in
      match held t r x with
      | Some _ => (Err ErrAlreadyRegistered, r)
      | None =>
          if px <=? 0 then (Err invalid_expire, r)
          else
            let r' := logged (indexed (with_lease r x (Lease payload hash (t + px))) s i)
                        (Event s i (Upsert payload)) in
            (Ok (revision r'), r')
      end
  | AUpdate s i payload hash px =>
      let x := lease_id s i in
      match held t r x with
      | None => (Err ErrNotFound, r)
      | Some l =>
          if negb (bool_decide (l_hash l = hash)) then (Err ErrLeaseNotOwned, r)
          else if px <=? 0 then (Err invalid_expire, r)
          else
            let r' := logged (with_lease r x (Lease payload hash (t + px)))
                        (Event s i (Upsert payload)) in
            (Ok (revision r'), r')
      end
  | ADelete s i hash =>
      let x := lease_id s i in
      match held t r x with
      | None => (Err ErrNotFound, r)
      | Some l =>
          if negb (bool_decide (l_hash l = hash)) then (Err ErrLeaseNotOwned, r)
          else
            let r' := logged (unlisted (dropped r x) s [i]) (Event s i Delete) in
            (Ok (revision r'), r')
      end
  | AUnlist s ids => (Ok 0, unlisted r s ids)
  | ARead => (Ok 0, r)
  end.

(** ** Executions *)

(** One atomic call at a time that never goes back. *)
Inductive abs_step : Z * registry -> Z * registry -> Prop :=
  | abs_act t r a t' : t <= t' -> abs_step (t, r) (t', (act t' a r).2).

Inductive abs_reach : Z * registry -> Prop :=
  | abs_init t : abs_reach (t, empty_registry)
  | abs_next s s' : abs_reach s -> abs_step s s' -> abs_reach s'.

(** ** The change log *)

(** What a reader of the log knows: the latest payload per lease name. *)
Definition apply_event (m : gmap string string) (e : event) : gmap string string :=
  match ev_kind e with
  | Upsert p => <[ev_id e := p]> m
  | Delete => delete (ev_id e) m
  end.

Definition replay (log : list event) : gmap string string := foldl apply_event ∅ log.

(** Replaying the whole log gives exactly the payloads of the leases that were
    not deregistered. *)
Definition log_coherent (r : registry) : Prop :=
  replay (r_log r) = l_payload <$> r_leases r.

Lemma replay_snoc log e : replay (log ++ [e]) = apply_event (replay log) e.
Proof. unfold replay. by rewrite foldl_app. Qed.

Lemma log_coherent_upsert r s i payload hash d :
  log_coherent r ->
  log_coherent (logged (with_lease r (lease_id s i) (Lease payload hash d))
    (Event s i (Upsert payload))).
Proof.
  unfold log_coherent. simpl. rewrite replay_snoc. unfold apply_event, ev_id. simpl.
  intros ->. by rewrite fmap_insert.
Qed.

Lemma log_coherent_act t a r : log_coherent r -> log_coherent (act t a r).2.
Proof.
  intros H. destruct a as [s i p h px|s i p h px|s i h|s ids|]; simpl; try done.
  - destruct (held t r _); [done|]. destruct (px <=? 0); [done|].
    apply log_coherent_upsert, H.
  - destruct (held t r _); [|done]. destruct (negb _); [done|]. destruct (px <=? 0); [done|].
    by apply log_coherent_upsert.
  - destruct (held t r _); [|done]. destruct (negb _); [done|].
    unfold log_coherent in *. simpl. rewrite replay_snoc. unfold apply_event, ev_id. simpl.
    by rewrite H, fmap_delete.
Qed.

(** The event a write publishes, and the revision it returns: that of the event. *)
Definition action_event (a : action) : option event :=
  match a with
  | ARegister s i payload _ _ | AUpdate s i payload _ _ => Some (Event s i (Upsert payload))
  | ADelete s i _ => Some (Event s i Delete)
  | AUnlist _ _ | ARead => None
  end.

Lemma act_publishes t a r e n :
  action_event a = Some e -> (act t a r).1 = Ok n ->
  n = revision r + 1 /\ r_log (act t a r).2 = r_log r ++ [e].
Proof.
  intros He Hn. destruct a as [s i p h px|s i p h px|s i h|s ids|]; try done; injection He as <-;
    cbn [act] in *; destruct (held t r (lease_id s i)); try done;
    try (destruct (negb _); [done|]); try (destruct (px <=? 0); [done|]);
    cbn [fst snd] in *; injection Hn as <-; (split; [|done]); unfold revision; cbn;
    rewrite length_app; cbn; lia.
Qed.

(** The log only grows, and by at most one entry per call. *)
Lemma act_log_prefix t a r :
  (act t a r).2 = r \/ r_log (act t a r).2 = r_log r \/
  exists e, r_log (act t a r).2 = r_log r ++ [e].
Proof.
  destruct a; simpl; repeat case_match; simpl; eauto.
Qed.

Lemma abs_reach_coherent s : abs_reach s -> log_coherent s.2.
Proof.
  induction 1 as [t|s s' Hr IH Hs]; [by change (∅ = l_payload <$> (∅ : gmap string lease)); rewrite fmap_empty|].
  destruct Hs. by apply log_coherent_act.
Qed.
