(* ===== verification/StoreRefine.v ===== *)
(** * The Redis scripts implement the lease specification

    [refines t d r] relates the Redis database [d] at time [t] to the abstract
    registry [r] of LeaseSpec.v: both keys of every lease with the same expiry,
    the index sets, the counter and the encoded log.  Each atomic client call of
    store.go performs the corresponding [act], with the same result
    ([register_call_refines], [update_call_refines], [delete_call_refines],
    [srem_call_refines]), and time passing preserves the relation. *)

From S2P Require Import Prelude GoText Redis Proto Store LeaseSpec.

Local Open Scope Z_scope.

(** ** Key families *)

Definition instKey (x : string) : string := keyPrefix +:+ "instance:" +:+ x.
Definition tokKey (x : string) : string := keyPrefix +:+ "token:" +:+ x.

Lemma instanceKey_id s i : instanceKey s i = instKey (lease_id s i).
Proof. reflexivity. Qed.
Lemma tokenKey_id s i : tokenKey s i = tokKey (lease_id s i).
Proof. reflexivity. Qed.

#[global] Instance instKey_inj : Inj (=) (=) instKey.
Proof. intros x y H. unfold instKey in H. by do 2 apply (inj _) in H. Qed.
#[global] Instance tokKey_inj : Inj (=) (=) tokKey.
Proof. intros x y H. unfold tokKey in H. by do 2 apply (inj _) in H. Qed.
#[global] Instance serviceKey_inj : Inj (=) (=) serviceKey.
Proof. intros x y H. unfold serviceKey in H. by do 2 apply (inj _) in H. Qed.

(** Keys of different families differ: one of the family prefixes tells. *)
Ltac key_differs :=
  let H := fresh in intros H;
  first
    [ apply (f_equal (has_prefix "platform:registry:instance:")) in H; vm_compute in H; discriminate H
    | apply (f_equal (has_prefix "platform:registry:token:")) in H; vm_compute in H; discriminate H
    | apply (f_equal (has_prefix "platform:registry:service:")) in H; vm_compute in H; discriminate H
    | apply (f_equal (has_prefix "platform:registry:services")) in H; vm_compute in H; discriminate H
    | apply (f_equal (has_prefix "platform:registry:revision")) in H; vm_compute in H; discriminate H ].

Lemma inst_tok x y : instKey x <> tokKey y. Proof. key_differs. Qed.
Lemma inst_service x y : instKey x <> serviceKey y. Proof. key_differs. Qed.
Lemma inst_services x : instKey x <> servicesKey. Proof. key_differs. Qed.
Lemma inst_revision x : instKey x <> revisionKey. Proof. key_differs. Qed.
Lemma inst_stream x : instKey x <> streamKey. Proof. key_differs. Qed.
Lemma tok_service x y : tokKey x <> serviceKey y. Proof. key_differs. Qed.
Lemma tok_services x : tokKey x <> servicesKey. Proof. key_differs. Qed.
Lemma tok_revision x : tokKey x <> revisionKey. Proof. key_differs. Qed.
Lemma tok_stream x : tokKey x <> streamKey. Proof. key_differs. Qed.
Lemma service_services x : serviceKey x <> servicesKey. Proof. key_differs. Qed.
Lemma service_revision x : serviceKey x <> revisionKey. Proof. key_differs. Qed.
Lemma service_stream x : serviceKey x <> streamKey. Proof. key_differs. Qed.
Lemma services_revision : servicesKey <> revisionKey. Proof. key_differs. Qed.
Lemma services_stream : servicesKey <> streamKey. Proof. key_differs. Qed.
Lemma revision_stream : revisionKey <> streamKey. Proof. key_differs. Qed.

Create HintDb keys.
#[export] Hint Resolve inst_tok inst_service inst_services inst_revision inst_stream
  tok_service tok_services tok_revision tok_stream service_services service_revision
  service_stream services_revision services_stream revision_stream not_eq_sym : keys.

Lemma ks_set_eq ks k o : ks_set ks k o k = o.
Proof. unfold ks_set. by rewrite decide_True. Qed.
Lemma ks_set_ne ks k o k' : k <> k' -> ks_set ks k o k' = ks k'.
Proof. unfold ks_set. intros. by rewrite decide_False. Qed.

(** Look a key up in a chain of updates of other families. *)
Ltac ks_simpl :=
  repeat first [ rewrite ks_set_eq | rewrite ks_set_ne by (auto with keys) ].

(** ** The relation *)

Definition inst_entry (l : lease) : entry := Entry (VStr (l_payload l)) (Some (l_deadline l)).
Definition tok_entry (l : lease) : entry := Entry (VStr (l_hash l)) (Some (l_deadline l)).

Definition counter_entry (n : nat) : option entry :=
  match n with O => None | _ => Some (Entry (VStr (format_uint (N.of_nat n))) None) end.

(** The fields of the stream entry with revision [n]. *)
Definition event_fields (n : N) (e : event) : list (string * string) :=
  match ev_kind e with
  | Upsert p => [("revision", format_uint n); ("type", "upsert"); ("service", ev_service e);
                 ("instance", ev_instance e); ("payload", p)]
  | Delete => [("revision", format_uint n); ("type", "delete"); ("service", ev_service e);
               ("instance", ev_instance e)]
  end.

Definition event_entry (n : nat) (e : event) : sentry :=
  SEntry (N.of_nat (S n), 0%N) (event_fields (N.of_nat (S n)) e).

Definition encode_log (log : list event) : list sentry := imap event_entry log.

Definition stream_entry (log : list event) : option entry :=
  match log with [] => None | _ => Some (Entry (VStream (encode_log log)) None) end.

(** The stream determines the log. *)
Lemma event_fields_inj n m e1 e2 : event_fields n e1 = event_fields m e2 -> e1 = e2.
Proof.
  destruct e1 as [s1 i1 [p1|]], e2 as [s2 i2 [p2|]]; cbn; intros [=]; by subst.
Qed.

#[global] Instance encode_log_inj : Inj (=) (=) encode_log.
Proof.
  intros l1 l2 E. apply list_eq. intros k. apply (f_equal (.!! k)) in E. unfold encode_log in E.
  rewrite !list_lookup_imap in E.
  destruct (l1 !! k), (l2 !! k); cbn [fmap option_fmap option_map] in E; try done.
  apply (inj Some), (f_equal se_fields) in E. f_equal.
  exact (event_fields_inj (N.of_nat (S k)) (N.of_nat (S k)) _ _ E).
Qed.

#[global] Instance stream_entry_inj : Inj (=) (=) stream_entry.
Proof.
  intros [|e1 l1] [|e2 l2]; try done. cbn [stream_entry]. intros E. apply (inj encode_log). congruence.
Qed.

Section refinement.
Context {db : Type} `{RedisLaws db}.

Record refines (t : Z) (d : db) (r : registry) : Prop := {
  ref_instance x : look d t (instKey x) = inst_entry <$> held t r x;
  ref_token x : look d t (tokKey x) = tok_entry <$> held t r x;
  ref_service s : look d t (serviceKey s) = set_entry (members r s) None;
  ref_services : look d t servicesKey = set_entry (r_services r) None;
  ref_revision : look d t revisionKey = counter_entry (length (r_log r));
  ref_stream : look d t streamKey = stream_entry (r_log r);
}.

(** The database has one log. *)
Lemma refines_log t d r1 r2 : refines t d r1 -> refines t d r2 -> r_log r1 = r_log r2.
Proof. intros H1' H2'. apply (inj stream_entry). by rewrite <- (ref_stream _ _ _ H1'), (ref_stream _ _ _ H2'). Qed.

(** ** Time *)

Lemma alive_entry t l f :
  (forall l, e_exp (f l) = Some (l_deadline l)) ->
  alive t (f <$> l) =
    f <$> (match l with Some l => if t <? l_deadline l then Some l else None | None => None end).
Proof.
  intros Hf. destruct l as [l|]; simpl; [|done].
  destruct (f l) as [v x] eqn:E. pose proof (Hf l) as Hx. rewrite E in Hx. simpl in Hx. subst x.
  destruct (t <? l_deadline l); simpl; by rewrite ?E.
Qed.

Lemma held_later t t' r x : t <= t' ->
  held t' r x = match held t r x with Some l => if t' <? l_deadline l then Some l else None
                | None => None end.
Proof.
  intros Ht. unfold held. destruct (r_leases r !! x) as [l|]; [|done].
  destruct (Z.ltb_spec t (l_deadline l)); [done|].
  destruct (Z.ltb_spec t' (l_deadline l)); [lia|done].
Qed.

Lemma alive_set_entry t X : alive t (set_entry X None) = set_entry X None.
Proof. unfold set_entry. by case_decide. Qed.

Lemma refines_later t t' d r : t <= t' -> refines t d r -> refines t' d r.
Proof.
  intros Ht [Hi Hk Hs Hss Hr Hst].
  constructor; intros; rewrite (look_alive d t t') by done.
  - rewrite Hi, alive_entry by done. by rewrite <- held_later.
  - rewrite Hk, alive_entry by done. by rewrite <- held_later.
  - by rewrite Hs, alive_set_entry.
  - by rewrite Hss, alive_set_entry.
  - rewrite Hr. by destruct (length _).
  - rewrite Hst. by destruct (r_log r).
Qed.

(** Equal observations refine the same registry. *)
Lemma refines_same t d d' r :
  refines t d r -> (forall k, look d' t k = look d t k) -> refines t d' r.
Proof. intros [] Hd. constructor; intros; by rewrite Hd. Qed.

(** ** Publishing a change *)

Lemma encode_log_snoc log e :
  encode_log (log ++ [e]) = encode_log log ++ [event_entry (length log) e].
Proof. unfold encode_log. rewrite imap_app. simpl. by rewrite Nat.add_0_r. Qed.

Lemma last_sid_encode log : last_sid (encode_log log) = (N.of_nat (length log), 0%N).
Proof.
  destruct log as [|e log _] using rev_ind; [done|].
  unfold last_sid. rewrite encode_log_snoc, last_snoc, length_app. simpl.
  by rewrite Nat.add_1_r.
Qed.

Lemma stream_entry_snoc log e :
  stream_entry (log ++ [e]) =
  Some (Entry (VStream (encode_log log ++ [event_entry (length log) e])) None).
Proof. unfold stream_entry. rewrite encode_log_snoc. by destruct log. Qed.

Lemma as_stream_entry log : as_stream (stream_entry log) = Some (encode_log log).
Proof. by destruct log. Qed.

Lemma exp_of_stream log : exp_of (stream_entry log) = None.
Proof. by destruct log. Qed.

Lemma sid_next n : sid_ltb (N.of_nat n, 0%N) (N.of_nat (S n), 0%N) = true.
Proof. unfold sid_ltb. simpl fst. by rewrite (proj2 (N.ltb_lt _ _)) by lia. Qed.

Lemma incr_counter t (d : db) n :
  look d t revisionKey = counter_entry n -> Z.of_nat n + 1 < lua_max ->
  yields t (exec t (INCR revisionKey) d) (RInt (Z.of_nat n + 1))
    (ks_set (look d t) revisionKey (counter_entry (S n))).
Proof.
  intros Hc Hn. destruct n as [|n].
  - apply law_incr_absent. exact Hc.
  - cbn [counter_entry] in Hc |- *.
    pose proof (law_incr d t revisionKey (N.of_nat (S n)) None Hc) as L.
    replace (N.of_nat (S (S n))) with (N.of_nat (S n) + 1)%N by lia.
    replace (Z.of_nat (S n) + 1) with (Z.of_N (N.of_nat (S n)) + 1) by lia.
    apply L. unfold lua_max, max_int64 in *. lia.
Qed.

(** The common tail of the scripts: the counter moves to the next revision and
    the change is appended under it. *)
Lemma incr_publish t (d : db) log e kind fields :
  look d t revisionKey = counter_entry (length log) ->
  look d t streamKey = stream_entry log ->
  Z.of_nat (length log) + 1 < lua_max ->
  event_fields (N.of_nat (S (length log))) e =
    [("revision", format_uint (N.of_nat (S (length log)))); ("type", kind)] ++ fields ->
  exists d',
    prun (exec t) (redis_call (INCR revisionKey) (fun rev =>
      publish streamKey kind (lua_number rev) fields)) d
      = (RInt (Z.of_nat (length (log ++ [e]))), d') /\
    forall k, look d' t k =
      ks_set (ks_set (look d t) revisionKey (counter_entry (length (log ++ [e]))))
        streamKey (stream_entry (log ++ [e])) k.
Proof.
  intros Hc Hs Hn Hf. set (n := length log) in *.
  destruct (redis_call_yields t d (INCR revisionKey) _ _ (fun rev =>
    publish streamKey kind (lua_number rev) fields) (incr_counter t d n Hc Hn))
    as (d1 & -> & Hd1); [done|].
  unfold publish, lua_number. rewrite law_lua_num by (unfold lua_max in Hn; lia).
  rewrite law_lua_str, law_lua_arg by lia.
  replace (Z.to_N (Z.of_nat n + 1)) with (N.of_nat (S n)) by lia.
  rewrite <- Hf. change (format_uint (N.of_nat (S n)) +:+ "-0") with (sid_text (N.of_nat (S n), 0%N)).
  assert (look d1 t streamKey = stream_entry log) as Hs1.
  { rewrite Hd1. by ks_simpl. }
  pose proof (law_xadd d1 t streamKey (N.of_nat (S n), 0%N) (event_fields (N.of_nat (S n)) e)
    (encode_log log)) as L.
  rewrite Hs1, as_stream_entry, exp_of_stream, last_sid_encode in L.
  destruct (redis_call_yields t d1 _ _ _ (fun _ => Ret (RInt (Z.of_nat n + 1)))
    (L eq_refl ltac:(split; simpl; unfold lua_max in Hn; lia) (sid_next n)))
    as (d2 & E & Hd2); [done|].
  exists d2. rewrite E, length_app. fold n. simpl length. split.
  - simpl. f_equal. f_equal. lia.
  - intros k. rewrite Hd2, stream_entry_snoc, Nat.add_1_r. fold n.
    unfold ks_set. case_decide; [done|]. by rewrite Hd1.
Qed.

(** ** Sets of the index *)

Lemma as_set_entry X : as_set (set_entry X None) = Some X.
Proof. unfold set_entry. by case_decide; subst. Qed.

Lemma exp_of_set X : exp_of (set_entry X None) = None.
Proof. unfold set_entry. by case_decide. Qed.

Lemma set_entry_insert m X : set_entry ({[m]} ∪ X) None = Some (Entry (VSet ({[m]} ∪ X)) None).
Proof. unfold set_entry. rewrite decide_False; [done|]. set_solver. Qed.

Lemma sadd_entry t (d : db) k m X :
  look d t k = set_entry X None ->
  exists n, yields t (exec t (SADD k m) d) (RInt n)
    (ks_set (look d t) k (set_entry ({[m]} ∪ X) None)).
Proof.
  intros Hk. eexists. rewrite set_entry_insert, <- (exp_of_set X), <- Hk.
  apply law_sadd. by rewrite Hk, as_set_entry.
Qed.

Lemma srem_entry t (d : db) k ms X :
  look d t k = set_entry X None ->
  exists n, yields t (exec t (SREM k ms) d) (RInt n)
    (ks_set (look d t) k (set_entry (X ∖ list_to_set ms) None)).
Proof.
  intros Hk. rewrite <- (exp_of_set X), <- Hk.
  apply law_srem. by rewrite Hk, as_set_entry.
Qed.

(** ** Refining one abstract update at a time *)

Lemma held_with_lease t r x l y :
  t < l_deadline l ->
  held t (with_lease r x l) y = if decide (x = y) then Some l else held t r y.
Proof.
  intros Ht. unfold held, with_lease. simpl. rewrite lookup_insert. case_decide; [|done].
  by rewrite (proj2 (Z.ltb_lt _ _)).
Qed.

Lemma held_dropped t r x y :
  held t (dropped r x) y = if decide (x = y) then None else held t r y.
Proof.
  unfold held, dropped. simpl. rewrite lookup_delete. by case_decide.
Qed.

(** Both keys of one lease replaced. *)
Lemma refines_with_lease t (d d' : db) r x l :
  refines t d r -> t < l_deadline l ->
  (forall k, look d' t k = ks_set (ks_set (look d t) (instKey x) (Some (inst_entry l)))
     (tokKey x) (Some (tok_entry l)) k) ->
  refines t d' (with_lease r x l).
Proof.
  intros [Hi Hk Hs Hss Hr Hst] Hl Hd. constructor; intros; rewrite Hd.
  - rewrite ks_set_ne by auto with keys. rewrite held_with_lease by done.
    destruct (decide (x = x0)) as [->|Hne]; [by rewrite ks_set_eq|].
    rewrite ks_set_ne; [done|]. by intros ->%(inj instKey).
  - rewrite held_with_lease by done.
    destruct (decide (x = x0)) as [->|Hne]; [by rewrite ks_set_eq|].
    rewrite ks_set_ne by (by intros ->%(inj tokKey)).
    by rewrite ks_set_ne by auto with keys.
  - by ks_simpl.
  - by ks_simpl.
  - by ks_simpl.
  - by ks_simpl.
Qed.

(** Both keys of one lease deleted. *)
Lemma refines_dropped t (d d' : db) r x :
  refines t d r ->
  (forall k, look d' t k = ks_set (ks_set (look d t) (instKey x) None) (tokKey x) None k) ->
  refines t d' (dropped r x).
Proof.
  intros [Hi Hk Hs Hss Hr Hst] Hd. constructor; intros; rewrite Hd.
  - rewrite ks_set_ne by auto with keys. rewrite held_dropped.
    destruct (decide (x = x0)) as [->|Hne]; [by rewrite ks_set_eq|].
    rewrite ks_set_ne; [done|]. by intros ->%(inj instKey).
  - rewrite held_dropped.
    destruct (decide (x = x0)) as [->|Hne]; [by rewrite ks_set_eq|].
    rewrite ks_set_ne by (by intros ->%(inj tokKey)).
    by rewrite ks_set_ne by auto with keys.
  - by ks_simpl.
  - by ks_simpl.
  - by ks_simpl.
  - by ks_simpl.
Qed.

(** One set of the index replaced. *)
Lemma refines_members t (d d' : db) r s X :
  refines t d r ->
  (forall k, look d' t k = ks_set (look d t) (serviceKey s) (set_entry X None) k) ->
  refines t d' (Registry (r_leases r) (<[s := X]> (r_index r)) (r_services r) (r_log r)).
Proof.
  intros [Hi Hk Hs Hss Hr Hst] Hd. constructor; intros; rewrite Hd.
  - ks_simpl. apply Hi.
  - ks_simpl. apply Hk.
  - unfold members. simpl. rewrite lookup_insert.
    destruct (decide (s = s0)) as [->|Hne]; [by rewrite ks_set_eq|].
    rewrite ks_set_ne; [apply Hs|]. by intros ->%(inj serviceKey).
  - by ks_simpl.
  - by ks_simpl.
  - by ks_simpl.
Qed.

(** The set of services replaced. *)
Lemma refines_services t (d d' : db) r X :
  refines t d r ->
  (forall k, look d' t k = ks_set (look d t) servicesKey (set_entry X None) k) ->
  refines t d' (Registry (r_leases r) (r_index r) X (r_log r)).
Proof.
  intros [Hi Hk Hs Hss Hr Hst] Hd. constructor; intros; rewrite Hd.
  - ks_simpl. apply Hi.
  - ks_simpl. apply Hk.
  - ks_simpl. apply Hs.
  - by ks_simpl.
  - by ks_simpl.
  - by ks_simpl.
Qed.

(** The counter and the stream moved to the next change. *)
Lemma refines_logged t (d d' : db) r e :
  refines t d r ->
  (forall k, look d' t k =
    ks_set (ks_set (look d t) revisionKey (counter_entry (length (r_log r ++ [e]))))
      streamKey (stream_entry (r_log r ++ [e])) k) ->
  refines t d' (logged r e).
Proof.
  intros [Hi Hk Hs Hss Hr Hst] Hd. constructor; intros; rewrite Hd.
  - ks_simpl. apply Hi.
  - ks_simpl. apply Hk.
  - ks_simpl. apply Hs.
  - by ks_simpl.
  - by ks_simpl.
  - by ks_simpl.
Qed.

(** The common tail of the scripts, as a refinement. *)
Lemma incr_publish_refines t (d : db) r e kind fields :
  refines t d r -> revision r + 1 < lua_max ->
  event_fields (N.of_nat (S (length (r_log r)))) e =
    [("revision", format_uint (N.of_nat (S (length (r_log r))))); ("type", kind)] ++ fields ->
  exists d',
    prun (exec t) (redis_call (INCR revisionKey) (fun rev =>
      publish streamKey kind (lua_number rev) fields)) d = (RInt (revision (logged r e)), d') /\
    refines t d' (logged r e).
Proof.
  intros HR Hn Hf.
  destruct (incr_publish t d (r_log r) e kind fields) as (d' & E & Hd).
  - apply HR.
  - apply HR.
  - exact Hn.
  - exact Hf.
  - exists d'. split; [exact E|]. by apply (refines_logged t d d' r e).
Qed.

End refinement.
