(* ===== verification/CallRefine.v ===== *)
(** * Each client call performs its abstract action

    The three script calls and the [SREM] of the stale ids of store.go, one lemma
    each, over the relation of StoreRefine.v. *)

From S2P Require Import Prelude GoText Redis Proto Store LeaseSpec StoreRefine.

Local Open Scope Z_scope.

(** Take the next [redis.call] of a script: [L] is its law. *)
Ltac redis_step L d Hd :=
  match goal with
  | |- context [prun (exec ?t) (redis_call ?c ?k) ?d0] =>
      let E := fresh in
      destruct (redis_call_yields t d0 c _ _ k L) as (d & E & Hd);
      [first [discriminate | intros; case_match; discriminate] | rewrite !E; clear E]
  end.

(** The next [redis.call] fails; the script returns its error. *)
Ltac redis_fails L d Hd :=
  match goal with
  | |- context [prun (exec ?t) (redis_call ?c ?k) ?d0] =>
      let E := fresh in
      destruct (redis_call_fails t d0 c _ _ k L) as (d & E & Hd); rewrite !E; clear E
  end.

Section calls.
Context {db : Type} `{RedisLaws db}.

(** The call returns the result of the action and implements its effect. *)
Definition performs (t : Z) (c : rcall) (d : db) (a : action) (r : registry) : Prop :=
  script_result (as_uint64 (exec_call t c d).1) = (act t a r).1 /\
  refines t (exec_call t c d).2 (act t a r).2.

Lemma performs_intro t c d a r rep d' :
  exec_call t c d = (rep, d') ->
  script_result (as_uint64 rep) = (act t a r).1 ->
  refines t d' (act t a r).2 -> performs t c d a r.
Proof. intros E H1 H2. unfold performs. by rewrite E. Qed.

Lemma revision_result r : revision r < lua_max ->
  script_result (as_uint64 (RInt (revision r))) = Ok (revision r).
Proof.
  intros Hr. simpl. rewrite wrapu64_id; [done|].
  unfold revision, max_uint64, lua_max in *. lia.
Qed.

Lemma revision_logged r e : revision (logged r e) = revision r + 1.
Proof. unfold revision, logged. simpl. rewrite length_app. simpl. lia. Qed.

Lemma look_held t (d : db) r x l :
  refines t d r -> held t r x = Some l -> look d t (tokKey x) = Some (tok_entry l).
Proof. intros HR Hh. rewrite (ref_token _ _ _ HR), Hh. done. Qed.

Lemma held_deadline t r x l : held t r x = Some l -> t < l_deadline l.
Proof.
  unfold held. destruct (r_leases r !! x) as [l'|]; [|done].
  destruct (Z.ltb_spec t (l_deadline l')); [|done]. by intros [= ->].
Qed.

Lemma register_call_performs t (d : db) r s i payload token lease :
  refines t d r -> revision r + 1 < lua_max ->
  performs t (registerCall s i payload token lease) d
    (ARegister s i payload (hashToken token) (milliseconds lease)) r.
Proof.
  intros HR Hn. set (x := lease_id s i). set (h := hashToken token). set (px := milliseconds lease).
  unfold registerCall. fold h px. rewrite instanceKey_id, tokenKey_id. fold x.
  unfold performs. cbn [act exec_call]. fold x. unfold registerScript.
  redis_step (law_exists d t (instKey x)) d0 H0d.
  pose proof (refines_same t d d0 r HR H0d) as HR0.
  rewrite (ref_instance _ _ _ HR x). destruct (held t r x) as [l|] eqn:Hx; cbn [fmap option_fmap option_map]; [done|].
  destruct (Z.leb_spec px 0) as [Hpx|Hpx].
  - redis_fails (law_set_invalid d0 t (instKey x) payload px Hpx) d1 Hd1.
    split; [done|]. by apply (refines_same t d0).
  - redis_step (law_set d0 t (instKey x) payload px Hpx) d1 Hd1.
    redis_step (law_set d1 t (tokKey x) h px Hpx) d2 Hd2.
    assert (refines t d2 (with_lease r x (Lease payload h (t + px)))) as HR2.
    { eapply (refines_with_lease t d0); [done|simpl; lia|].
      intros k. rewrite Hd2. unfold ks_set. case_decide; [done|]. by rewrite Hd1. }
    destruct (sadd_entry t d2 (serviceKey s) i (members r s)) as [n3 L3].
    { apply (ref_service _ _ _ HR2). }
    redis_step L3 d3 Hd3.
    pose proof (refines_members t d2 d3 _ s _ HR2 Hd3) as HR3.
    destruct (sadd_entry t d3 servicesKey s (r_services r)) as [n4 L4].
    { apply (ref_services _ _ _ HR3). }
    redis_step L4 d4 Hd4.
    pose proof (refines_services t d3 d4 _ _ HR3 Hd4) as HR4.
    destruct (incr_publish_refines t d4 _ (Event s i (Upsert payload)) "upsert"
      [("service", s); ("instance", i); ("payload", payload)] HR4 Hn eq_refl)
      as (d5 & E5 & HR5).
    rewrite E5. split; [|exact HR5].
    simpl fst. rewrite revision_result; [done|].
    rewrite revision_logged. unfold revision in *. simpl in *. lia.
Qed.

Lemma update_call_performs t (d : db) r s i payload token lease :
  refines t d r -> revision r + 1 < lua_max ->
  performs t (updateCall s i payload token lease) d
    (AUpdate s i payload (hashToken token) (milliseconds lease)) r.
Proof.
  intros HR Hn. set (x := lease_id s i). set (h := hashToken token). set (px := milliseconds lease).
  unfold updateCall. fold h px. rewrite instanceKey_id, tokenKey_id. fold x.
  unfold performs. cbn [act exec_call]. fold x. unfold updateScript.
  pose proof (law_get d t (tokKey x)) as L0. rewrite (ref_token _ _ _ HR x) in L0.
  destruct (held t r x) as [l|] eqn:Hx; redis_step L0 d0 Hd0;
    pose proof (refines_same t d d0 r HR Hd0) as HR0; [|done].
  cbn [get_reply fmap option_fmap option_map tok_entry].
  destruct (bool_decide (l_hash l = h)) eqn:Hh; cbn [negb]; [|done].
  apply bool_decide_eq_true in Hh.
  destruct (Z.leb_spec px 0) as [Hpx|Hpx].
  - redis_fails (law_set_invalid d0 t (instKey x) payload px Hpx) d1 Hd1.
    split; [done|]. by apply (refines_same t d0).
  - redis_step (law_set d0 t (instKey x) payload px Hpx) d1 Hd1.
    assert (look d1 t (tokKey x) = Some (Entry (VStr h) (Some (l_deadline l)))) as Ht.
    { rewrite Hd1, ks_set_ne by auto with keys.
      rewrite (look_held t d0 r x l HR0 Hx). unfold tok_entry. by rewrite Hh. }
    redis_step (law_pexpire d1 t (tokKey x) px _ _ Ht Hpx) d2 Hd2.
    assert (refines t d2 (with_lease r x (Lease payload h (t + px)))) as HR2.
    { eapply (refines_with_lease t d0); [done|simpl; lia|].
      intros k. rewrite Hd2. unfold ks_set. case_decide; [done|]. by rewrite Hd1. }
    destruct (incr_publish_refines t d2 _ (Event s i (Upsert payload)) "upsert"
      [("service", s); ("instance", i); ("payload", payload)] HR2 Hn eq_refl)
      as (d5 & E5 & HR5).
    rewrite E5. split; [|exact HR5].
    simpl fst. rewrite revision_result; [done|].
    rewrite revision_logged. unfold revision in *. simpl in *. lia.
Qed.

Lemma delete_call_performs t (d : db) r s i token :
  refines t d r -> revision r + 1 < lua_max ->
  performs t (deleteCall s i token) d (ADelete s i (hashToken token)) r.
Proof.
  intros HR Hn. set (x := lease_id s i). set (h := hashToken token).
  unfold deleteCall. fold h. rewrite instanceKey_id, tokenKey_id. fold x.
  unfold performs. cbn [act exec_call]. fold x. unfold deleteScript.
  pose proof (law_get d t (tokKey x)) as L0. rewrite (ref_token _ _ _ HR x) in L0.
  destruct (held t r x) as [l|] eqn:Hx; redis_step L0 d0 Hd0;
    pose proof (refines_same t d d0 r HR Hd0) as HR0; [|done].
  cbn [get_reply fmap option_fmap option_map tok_entry].
  destruct (bool_decide (l_hash l = h)) eqn:Hh; cbn [negb]; [|done].
  destruct (law_del d0 t [instKey x; tokKey x]) as [n1 L1]. redis_step L1 d1 Hd1.
  assert (refines t d1 (dropped r x)) as HR1.
  { eapply (refines_dropped t d0); [done|]. intros k. rewrite Hd1. unfold ks_set.
    destruct (decide (tokKey x = k)) as [<-|]; [by rewrite decide_True by set_solver|].
    destruct (decide (instKey x = k)) as [<-|]; [by rewrite decide_True by set_solver|].
    rewrite decide_False by set_solver. done. }
  destruct (srem_entry t d1 (serviceKey s) [i] (members (dropped r x) s)) as [n2 L2].
  { apply (ref_service _ _ _ HR1). }
  redis_step L2 d2 Hd2.
  pose proof (refines_members t d1 d2 _ s _ HR1 Hd2) as HR2.
  destruct (incr_publish_refines t d2 _ (Event s i Delete) "delete"
    [("service", s); ("instance", i)] HR2 Hn eq_refl) as (d5 & E5 & HR5).
  rewrite E5. split; [|exact HR5].
  simpl fst. rewrite revision_result; [done|].
  rewrite revision_logged. unfold revision in *. simpl in *. lia.
Qed.

(** Removing stale ids from the index of a service. *)
Lemma srem_call_refines t (d : db) r s ids :
  refines t d r ->
  refines t (exec_call t (CCmd (SREM (serviceKey s) ids)) d).2 (act t (AUnlist s ids) r).2.
Proof.
  intros HR. destruct (srem_entry t d (serviceKey s) ids (members r s)) as [n [_ Hd]].
  { apply (ref_service _ _ _ HR). }
  exact (refines_members t d _ r s _ HR Hd).
Qed.

(** ** Reads *)

(** A command that changes no key. *)
Lemma read_refines t (d : db) c rep r :
  yields t (exec t c d) rep (look d t) -> refines t d r ->
  exists d', exec_call t (CCmd c) d = (rep, d') /\ refines t d' r.
Proof.
  intros L HR. destruct (exec_cmd_yields t d c _ _ L) as (d' & E & Hd).
  exists d'. split; [done|]. by apply (refines_same t d).
Qed.

Lemma get_instance_call t (d : db) r s i :
  refines t d r ->
  exists d', exec_call t (CCmd (GET (instanceKey s i))) d =
    (match held t r (lease_id s i) with Some l => RBulk (l_payload l) | None => RNil end, d') /\
    refines t d' r.
Proof.
  intros HR. apply read_refines; [|done].
  pose proof (law_get d t (instanceKey s i)) as L.
  rewrite instanceKey_id in L |- *. rewrite (ref_instance _ _ _ HR) in L.
  by destruct (held t r (lease_id s i)).
Qed.

(** The revision counter as [Store] reads it. *)
Lemma read_revision_call t (d : db) r :
  refines t d r -> revision r < lua_max ->
  exists d', run_at t read_revision d = (Ok (revision r), d') /\ refines t d' r.
Proof.
  intros HR Hn. destruct (read_refines t d (GET revisionKey) _ r (law_get d t revisionKey) HR)
    as (d' & E & HR').
  exists d'. split; [|done]. unfold read_revision, run_at. cbn [pbind call prun].
  rewrite E, (ref_revision _ _ _ HR). unfold revision in *.
  destruct (length (r_log r)) as [|n]; cbn [counter_entry get_reply bulk_uint64].
  { done. }
  rewrite parse_format_uint by (unfold lua_max in Hn; lia). by rewrite nat_N_Z.
Qed.

Lemma smembers_service_call t (d : db) r s :
  refines t d r ->
  exists l d', exec_call t (CCmd (SMEMBERS (serviceKey s))) d = (RArr l, d') /\ refines t d' r /\
    NoDup l /\ forall i, i ∈ l <-> i ∈ members r s.
Proof.
  intros HR. destruct (law_smembers d t (serviceKey s) (members r s)) as (l & Hnd & Hl & L).
  { by rewrite (ref_service _ _ _ HR), as_set_entry. }
  destruct (read_refines t d _ _ r L HR) as (d' & E & HR'). eauto 8.
Qed.

Lemma smembers_services_call t (d : db) r :
  refines t d r ->
  exists l d', exec_call t (CCmd (SMEMBERS servicesKey)) d = (RArr l, d') /\ refines t d' r /\
    NoDup l /\ forall s, s ∈ l <-> s ∈ r_services r.
Proof.
  intros HR. destruct (law_smembers d t servicesKey (r_services r)) as (l & Hnd & Hl & L).
  { by rewrite (ref_services _ _ _ HR), as_set_entry. }
  destruct (read_refines t d _ _ r L HR) as (d' & E & HR'). eauto 8.
Qed.

Lemma xread_call t (d : db) r n count :
  refines t d r -> (n < 2 ^ 64)%N ->
  exists d', exec_call t (CCmd (XREAD streamKey (format_uint n +:+ "-0") count)) d =
    (xread_reply (encode_log (r_log r)) (n, 0%N) count, d') /\ refines t d' r.
Proof.
  intros HR Hn. apply read_refines; [|done].
  change (format_uint n +:+ "-0") with (sid_text (n, 0%N)).
  apply law_xread; [|split; simpl; lia].
  by rewrite (ref_stream _ _ _ HR), as_stream_entry.
Qed.

End calls.
