(* ===== verification/Paging.v ===== *)
(** * Pagination ([pageValues])

    The page cut by the 64-bit arithmetic of service.go is the mathematical page,
    no access is out of bounds, and the pages of a list partition it. *)

From S2P Require Import Prelude Service.

Local Open Scope Z_scope.

(** The page as lists define it: numbered from 1. *)
Definition page_of {A} (values : list A) (page size : nat) : list A :=
  take size (drop ((page - 1) * size) values).

Lemma go_slice_some {A} (values : list A) lo hi :
  0 <= lo -> lo <= hi -> hi <= Z.of_nat (length values) ->
  go_slice values lo hi = Some (take (Z.to_nat (hi - lo)) (drop (Z.to_nat lo) values)).
Proof.
  intros H1 H2 H3. unfold go_slice.
  by rewrite !(proj2 (Z.leb_le _ _)) by lia.
Qed.

(** The offset test keeps every product and sum of the page computation inside
    64 bits. *)
Lemma page_arith page size len :
  0 < page <= max_int64 -> 0 < size <= max_int64 -> 0 <= len < 2 ^ 62 ->
  page - 1 <= Z.quot len size ->
  wrap64 (page - 1) = page - 1 /\ wrap64 ((page - 1) * size) = (page - 1) * size /\
  0 <= (page - 1) * size <= len /\
  (forall start, start = (page - 1) * size -> start < len ->
     wrap64 (start + size) = start + size).
Proof.
  intros Hp Hs Hl Hq. rewrite Z.quot_div_nonneg in Hq by lia.
  pose proof (Z.div_mod len size ltac:(lia)) as Hd.
  pose proof (Z.mod_pos_bound len size ltac:(lia)) as Hm.
  assert (0 <= (page - 1) * size <= len) as Hb by nia.
  unfold max_int64 in *.
  split_and!; try (apply wrap64_id; unfold in_int64, min_int64, max_int64; lia); [lia..|].
  intros start -> Hlt. apply wrap64_id. unfold in_int64, min_int64, max_int64.
  destruct (Z.eq_dec (page - 1) 0) as [->|Hne]; [lia|].
  assert (size <= len) by nia. lia.
Qed.

(** For positive page and size the result is the mathematical page. *)
Lemma pageValues_page_of {A} (values : list A) (page pageSize : Z) :
  0 < page <= max_int64 -> 0 < pageSize <= max_int64 ->
  Z.of_nat (length values) < 2 ^ 62 ->
  pageValues values page pageSize =
    Some (page_of values (Z.to_nat page) (Z.to_nat pageSize)).
Proof.
  intros Hp Hs Hl. unfold pageValues, page_of. set (len := Z.of_nat (length values)) in *.
  rewrite !(proj2 (Z.leb_gt _ _)) by lia. cbn [orb].
  assert (wrap64 (page - 1) = page - 1) as Ew.
  { apply wrap64_id. unfold in_int64, min_int64, max_int64 in *. lia. }
  rewrite Ew. destruct (Z.ltb_spec (Z.quot len pageSize) (page - 1)) as [Hq|Hq].
  - rewrite drop_ge; [by rewrite take_nil|].
    rewrite Z.quot_div_nonneg in Hq by lia.
    pose proof (Z.div_mod len pageSize ltac:(lia)).
    pose proof (Z.mod_pos_bound len pageSize ltac:(lia)).
    apply Nat2Z.inj_le. fold len. rewrite Nat2Z.inj_mul, Nat2Z.inj_sub, !Z2Nat.id by lia. nia.
  - destruct (page_arith page pageSize len Hp Hs ltac:(lia) Hq) as (_ & -> & Hb & Hend).
    assert (Z.to_nat ((page - 1) * pageSize) = ((Z.to_nat page - 1) * Z.to_nat pageSize)%nat) as En.
    { rewrite Z2Nat.inj_mul, Z2Nat.inj_sub by lia. done. }
    destruct (Z.leb_spec len ((page - 1) * pageSize)) as [Hge|Hlt].
    + rewrite drop_ge; [by rewrite take_nil|]. rewrite <- En. lia.
    + rewrite (Hend _ eq_refl Hlt). rewrite go_slice_some by lia. f_equal. rewrite En.
      destruct (Z.min_spec ((page - 1) * pageSize + pageSize) len) as [[? ->]|[? ->]].
      * f_equal. lia.
      * rewrite !take_ge; [done|rewrite length_drop; lia..].
Qed.

(** A non-positive page or size returns the list unpaged. *)
Lemma pageValues_unpaged {A} (values : list A) page pageSize :
  page <= 0 \/ pageSize <= 0 -> pageValues values page pageSize = Some values.
Proof.
  intros Hd. unfold pageValues.
  destruct (Z.leb_spec page 0), (Z.leb_spec pageSize 0); simpl; try done; lia.
Qed.

(** C36: for every 64-bit page number and size [pageValues] does not panic: it
    returns the mathematical page when both are positive (no overflow of the
    offset is observable, however large they are) and the whole list otherwise,
    as long as the list is shorter than 2^62. *)
Theorem pageValues_spec {A} (values : list A) (page pageSize : Z) :
  in_int64 page -> in_int64 pageSize -> Z.of_nat (length values) < 2 ^ 62 ->
  pageValues values page pageSize =
    Some (if (0 <? page) && (0 <? pageSize)
          then page_of values (Z.to_nat page) (Z.to_nat pageSize) else values).
Proof.
  unfold in_int64. intros Hp Hs Hl.
  destruct (Z.ltb_spec 0 page), (Z.ltb_spec 0 pageSize); cbn [andb];
    first [apply pageValues_page_of; lia | apply pageValues_unpaged; lia].
Qed.

Lemma pages_concat {A} (values : list A) (size n : nat) :
  concat ((fun p => page_of values p size) <$> seq 1 n) = take (n * size) values.
Proof.
  induction n as [|n IH]; [done|]. rewrite seq_S, fmap_app, concat_app, IH.
  cbn [fmap list_fmap concat]. rewrite app_nil_r. unfold page_of.
  replace (1 + n - 1)%nat with n by lia.
  rewrite take_take_drop. f_equal. lia.
Qed.

(** Reading the pages 1, 2, ..., n of a fixed size returns every element
    exactly once and in order, as soon as n pages are enough for the list. *)
Lemma pageValues_partition {A} (values : list A) (pageSize : Z) (n : nat) :
  0 < pageSize <= max_int64 -> Z.of_nat (length values) < 2 ^ 62 ->
  Z.of_nat n <= max_int64 -> Z.of_nat (length values) <= Z.of_nat n * pageSize ->
  concat ((fun p => default [] (pageValues values (Z.of_nat p) pageSize)) <$> seq 1 n) = values.
Proof.
  intros Hs Hl Hn Hcov.
  rewrite (list_fmap_ext _ (fun p => page_of values p (Z.to_nat pageSize))).
  - rewrite pages_concat. apply take_ge. nia.
  - intros i p Hi. apply lookup_seq in Hi as [-> Hi].
    rewrite pageValues_page_of by lia. simpl. by rewrite Nat2Z.id.
Qed.

Lemma pageValues_spec_witness :
  pageValues [1; 2; 3; 4; 5] max_int64 100 = Some [] /\
  pageValues [1; 2; 3; 4; 5] 3 2 = Some (page_of [1; 2; 3; 4; 5] 3 2).
Proof.
  split; [vm_compute; reflexivity|].
  apply (pageValues_spec [1; 2; 3; 4; 5] 3 2); vm_compute; first [reflexivity | split; congruence].
Defined.

Lemma pageValues_partition_witness :
  concat ((fun p => default [] (pageValues [1; 2; 3; 4; 5] (Z.of_nat p) 2)) <$> seq 1 3)
    = [1; 2; 3; 4; 5].
Proof. apply pageValues_partition; vm_compute; try split; congruence. Defined.
