(* ===== verification/Validation.v ===== *)
(** * Names, leases, selectors: the pure rules of service.go

    What [namePattern], [validateInstance], [leaseDuration], [prepareInstance] and
    [matches] compute, and that the Redis keys of different instances with valid
    service names differ. *)

From S2P Require Import Prelude GoText Regex GoURL Redis Proto Store Service LeaseSpec StoreRefine.

Local Open Scope Z_scope.

(** ** Service names *)

(** A DNS label: 1 to 63 characters of [a-z0-9-], no hyphen at either end. *)
Definition dns_label (l : list ascii) : Prop :=
  (1 <= length l <= 63)%nat /\ Forall (fun c => lower_alnum_dash c = true) l /\
  (exists c, head l = Some c /\ lower_alnum c = true) /\
  (exists c, last l = Some c /\ lower_alnum c = true).

Lemma lower_alnum_in_dash c : lower_alnum c = true -> lower_alnum_dash c = true.
Proof. unfold lower_alnum_dash. by intros ->. Qed.

#[local] Hint Resolve lower_alnum_in_dash : core.

Lemma namePattern_lang l : re_lang namePattern l <-> dns_label l.
Proof.
  unfold namePattern, opt, dns_label. rewrite lang_seq_iff. setoid_rewrite lang_alt_iff.
  setoid_rewrite lang_eps_iff. setoid_rewrite lang_seq_iff. setoid_rewrite upto_chr_lang.
  setoid_rewrite lang_chr_iff. split.
  - intros (? & ? & -> & (c & -> & Hc) & [->|(m & ? & -> & (Hm & HF) & (z & -> & Hz))]).
    + simpl. split_and!; [lia..| |eauto|eauto]. constructor; auto.
    + split_and!; [simpl; rewrite length_app; simpl; lia..| | |].
      * constructor; [auto|]. apply Forall_app. auto.
      * simpl. eauto.
      * exists z. split; [|done]. change ([c] ++ m ++ [z]) with ((c :: m) ++ [z]). apply last_snoc.
  - intros (Hlen & HF & (c & Hc & Hcl) & (z & Hz & Hzl)).
    destruct l as [|c' l]; [simpl in Hlen; lia|]. simpl in Hc. injection Hc as ->.
    exists [c], l. split_and!; [done|eauto|].
    destruct l as [|z' m _] using rev_ind; [by left|right].
    change (c :: m ++ [z']) with ((c :: m) ++ [z']) in Hz. rewrite last_snoc in Hz.
    injection Hz as ->. exists m, [z]. inversion_clear HF as [|? ? _ HF'].
    apply Forall_app in HF' as [HF' _]. simpl in Hlen. rewrite length_app in Hlen. simpl in Hlen.
    split_and!; [done|lia|done|eauto].
Qed.

(** A service name is accepted exactly when it is a DNS label. *)
Lemma name_ok_dns_label s : name_ok s = true <-> dns_label (bytes_of_string s).
Proof. unfold name_ok. rewrite re_match_correct. apply namePattern_lang. Qed.

(** A valid name has no colon, so it can be read back from a key. *)
Lemma name_no_colon s :
  name_ok s = true -> str_forallb (fun c => negb (bool_decide (c = ":"%char))) s = true.
Proof.
  unfold name_ok. rewrite re_match_correct, namePattern_lang. intros (_ & HF & _).
  apply str_forallb_bytes. eapply Forall_impl; [exact HF|]. cbv beta. intros c Hc.
  apply negb_true_iff, bool_decide_eq_false. by intros ->.
Qed.

Lemma lease_id_inj s s' i i' :
  name_ok s = true -> name_ok s' = true -> lease_id s i = lease_id s' i' -> s = s' /\ i = i'.
Proof. intros Hs Hs'. apply app_sep_inj; by apply name_no_colon. Qed.

(** Two instances whose service names are valid share a payload key or a
    token key only if they are the same instance of the same service. *)
Lemma instance_keys_separate s s' i i' :
  name_ok s = true -> name_ok s' = true ->
  instanceKey s i = instanceKey s' i' \/ tokenKey s i = tokenKey s' i' ->
  s = s' /\ i = i'.
Proof.
  intros Hs Hs' [E|E].
  - rewrite !instanceKey_id in E. apply (inj instKey) in E. by apply lease_id_inj.
  - rewrite !tokenKey_id in E. apply (inj tokKey) in E. by apply lease_id_inj.
Qed.

Lemma instance_keys_separate_witness :
  name_ok "orders" = true /\ "orders" = "orders" /\ "a:b" = "a:b".
Proof.
  split; [vm_compute; reflexivity|].
  apply (instance_keys_separate "orders" "orders" "a:b" "a:b");
    [vm_compute; reflexivity..|left; reflexivity].
Defined.

(** ** Registration requests *)

Definition endpoint_schemes : list string := ["grpc"; "grpcs"; "http"; "https"].

Definition endpoint_ok (e : string) : Prop :=
  exists u, url_Parse e = Ok u /\ url_Host u <> EmptyString /\ url_Scheme u ∈ endpoint_schemes.

Lemma endpoint_guard u :
  bool_decide (url_Host u = EmptyString) ||
  (negb (bool_decide (url_Scheme u = "grpc")) && negb (bool_decide (url_Scheme u = "grpcs")) &&
   negb (bool_decide (url_Scheme u = "http")) && negb (bool_decide (url_Scheme u = "https"))) = false
  <-> url_Host u <> EmptyString /\ url_Scheme u ∈ endpoint_schemes.
Proof.
  unfold endpoint_schemes. rewrite !elem_of_cons, elem_of_nil.
  repeat case_bool_decide; simpl; naive_solver.
Qed.

Lemma validateInstance_ok o v :
  validateInstance o = Ok v ->
  o = Some v /\ name_ok (ServiceName v) = true /\ InstanceId v <> EmptyString.
Proof.
  unfold validateInstance. destruct o as [w|]; [|done].
  destruct (name_ok (ServiceName w)) eqn:Hn; [|done]. cbn [negb orb].
  destruct (bool_decide (InstanceId w = EmptyString)) eqn:Hi; [done|].
  apply bool_decide_eq_false in Hi. intros E.
  repeat case_match; try discriminate. by injection E as <-.
Qed.

(** [validateInstance] accepts exactly the instances with a valid service
    name, a non-empty id and an endpoint URL with a host and one of the four
    schemes, and returns them unchanged. *)
Lemma validateInstance_accepts o v :
  validateInstance o = Ok v <->
  o = Some v /\ name_ok (ServiceName v) = true /\ InstanceId v <> EmptyString /\
  endpoint_ok (Endpoint v).
Proof.
  unfold validateInstance, endpoint_ok. destruct o as [w|]; [|split; [done|by intros [? _]]].
  destruct (name_ok (ServiceName w)) eqn:Hn; cbn [negb orb];
    [|split; [done|intros (E & Hv & _); congruence]].
  destruct (bool_decide (InstanceId w = EmptyString)) eqn:Hi;
    [apply bool_decide_eq_true in Hi | apply bool_decide_eq_false in Hi];
    [split; [done|intros (E & _ & Hv & _); congruence]|].
  destruct (url_Parse (Endpoint w)) as [u|e] eqn:Hu;
    [|split; [done|intros (E & _ & _ & u & Hv & _); congruence]].
  pose proof (endpoint_guard u) as Hg.
  match goal with |- context [if ?b then _ else _] => destruct b end; split.
  - done.
  - intros (E & _ & _ & u' & Hv & Hb). injection E as ->. rewrite Hu in Hv.
    injection Hv as ->. by apply Hg in Hb.
  - intros [= <-]. destruct Hg as [Hg _]. specialize (Hg eq_refl). naive_solver.
  - by intros ([= ->] & _).
Qed.

(** ** Leases *)

Lemma leaseDuration_value seconds :
  0 <= seconds <= max_uint32 ->
  leaseDuration seconds = (if seconds =? 0 then 30 else Z.max 5 (Z.min 300 seconds)) * second.
Proof.
  intros Hs. unfold leaseDuration, defaultLease. destruct (Z.eqb_spec seconds 0); [done|].
  destruct (Z.ltb_spec seconds 5); [change (300 <? 5) with false|destruct (Z.ltb_spec 300 seconds)];
    (rewrite wrap64_id; [|unfold in_int64, min_int64, max_int64, second in *; lia]); f_equal; lia.
Qed.

Lemma milliseconds_seconds n : 0 <= n -> milliseconds (n * second) = n * 1000.
Proof.
  intros Hn. unfold milliseconds, second, millisecond. rewrite Z.quot_div_nonneg by lia.
  replace (n * 1000000000) with (n * 1000 * 1000000) by lia. by rewrite Z.div_mul by lia.
Qed.

Lemma leaseDuration_ms seconds :
  0 <= seconds <= max_uint32 -> 5000 <= milliseconds (leaseDuration seconds) <= 300000.
Proof.
  intros Hs. rewrite leaseDuration_value, milliseconds_seconds by (try case_match; lia).
  case_match; lia.
Qed.

(** For every uint32 the lease is the requested number of seconds clamped to
    5..300, 30 when the request has none, and the milliseconds handed to Redis
    are between 5000 and 300000. *)
Lemma leaseDuration_clamped seconds :
  0 <= seconds <= max_uint32 ->
  leaseDuration seconds = (if seconds =? 0 then 30 else Z.max 5 (Z.min 300 seconds)) * second /\
  5000 <= milliseconds (leaseDuration seconds) <= 300000.
Proof. intros Hs. split; [by apply leaseDuration_value | by apply leaseDuration_ms]. Qed.

Lemma leaseDuration_clamped_witness :
  leaseDuration max_uint32 = 300 * second /\
  5000 <= milliseconds (leaseDuration max_uint32) <= 300000.
Proof.
  pose proof (leaseDuration_clamped max_uint32) as [H1 H2];
    [vm_compute; split; discriminate|]. split; [rewrite H1; reflexivity|exact H2].
Defined.

(** ** Selectors *)

(** A selector pair is met by an equal value; a missing key reads as the empty
    string. *)
Definition selects (selector : Selector) (v : ServiceInstance) : Prop :=
  forall k x, selector !! k = Some x -> default EmptyString (Metadata v !! k) = x.

Lemma selector_forallb selector v :
  forallb (fun kv => bool_decide (default EmptyString (Metadata v !! kv.1) = kv.2))
    (map_to_list selector) = true <-> selects selector v.
Proof.
  rewrite forallb_forall. unfold selects. split.
  - intros H k x Hk. apply elem_of_map_to_list, list_elem_of_In in Hk.
    by apply H, bool_decide_eq_true in Hk.
  - intros H [k x] Hin%list_elem_of_In%elem_of_map_to_list. apply bool_decide_eq_true_2. by apply H.
Qed.

(** A listed instance is healthy, or draining when the request includes
    draining instances, and its metadata meets every pair of the selector;
    nothing else is listed. *)
Lemma matches_spec v selector includeDraining :
  matches v selector includeDraining = true <->
  (Status v = STATUS_HEALTHY \/ (Status v = STATUS_DRAINING /\ includeDraining = true)) /\
  selects selector v.
Proof.
  rewrite <- selector_forallb. unfold matches.
  destruct (Status v) eqn:E; simpl;
    repeat rewrite bool_decide_eq_true_2 by done; simpl; destruct includeDraining; simpl;
    naive_solver.
Qed.

(** ** Prepared instances *)

Lemma cloneMap_id m : cloneMap m = m.
Proof.
  unfold cloneMap. apply (map_fold_weak_ind (fun r m => r = m)); [done|].
  intros i x m' r _ ->. done.
Qed.

Lemma forallb_utf8_clone v lease now :
  utf8_instance (prepareInstance v lease now) = utf8_instance v.
Proof. unfold utf8_instance. cbn. by rewrite cloneMap_id. Qed.
