(* ===== verification/StoreRun.v ===== *)
(** * The store's methods run alone

    From the calls of CallRefine.v to the methods of [Store]: what each returns
    and which abstract registry the database represents afterwards. *)

From S2P Require Import Prelude GoText Redis Proto Store LeaseSpec StoreRefine CallRefine.

Local Open Scope Z_scope.

Section run.
Context {db : Type} `{RedisLaws db} `{CodecLaws}.

(** Running [p] on [d] with the server clock at [t] returns [a] and leaves a
    database that represents [r']. *)
Definition computes {A} (t : Z) (p : gprog A) (d : db) (a : A) (r' : registry) : Prop :=
  exists d', run_at t p d = (a, d') /\ refines t d' r'.

(** The same for a program whose calls reach the server at the times [tick 0],
    [tick 1], ...; the relation holds at time [t'] afterwards. *)
Definition computes_ticks {A} (tick : nat -> Z) (p : gprog A) (d : db) (a : A) (t' : Z)
    (r' : registry) : Prop :=
  exists d', run_ticks tick p d = (a, d') /\ refines t' d' r'.

Lemma computes_ret {A} t (a : A) d r : refines t d r -> computes t (Ret a) d a r.
Proof. intros HR. by exists d. Qed.

Lemma computes_bind {A B} t (p : gprog A) (f : A -> gprog B) d a b r r' :
  computes t p d a r -> (forall d', refines t d' r -> computes t (f a) d' b r') ->
  computes t (pbind p f) d b r'.
Proof.
  intros (d' & E & HR) Hf. destruct (Hf d' HR) as (d'' & E' & HR').
  exists d''. split; [|done]. by rewrite run_at_bind, E.
Qed.

Lemma computes_gbind_at {A B} t (p : gprog (res A)) (f : A -> gprog (res B)) (d d1 : db) a b r' :
  run_at t p d = (Ok a, d1) -> computes t (f a) d1 b r' -> computes t (gbind p f) d b r'.
Proof.
  intros E (d2 & E2 & HR). exists d2. split; [|done]. unfold gbind. by rewrite run_at_bind, E.
Qed.

Lemma computes_gbind {A B} t (p : gprog (res A)) (f : A -> gprog (res B)) d a b r r' :
  computes t p d (Ok a) r -> (forall d', refines t d' r -> computes t (f a) d' b r') ->
  computes t (gbind p f) d b r'.
Proof. intros Hp Hf. eapply computes_bind; [exact Hp|]. exact Hf. Qed.

Lemma computes_gbind_err {A B} t (p : gprog (res A)) (f : A -> gprog (res B)) d e r :
  computes t p d (Err e) r -> computes t (gbind p f) d (Err e) r.
Proof. intros Hp. eapply computes_bind; [exact Hp|]. intros. by apply computes_ret. Qed.

(** One client call followed by pure code. *)
Lemma computes_call {A} t c (f : reply -> A) d rep d' r :
  exec_call t c d = (rep, d') -> refines t d' r ->
  computes t (pbind (call c) (fun x => Ret (f x))) d (f rep) r.
Proof.
  intros E HR. exists d'. split; [|done]. unfold run_at. cbn [pbind call prun]. by rewrite E.
Qed.

Lemma performs_computes t c d a r :
  performs t c d a r ->
  computes t (pbind (call c) (fun x => Ret (script_result (as_uint64 x)))) d
    (act t a r).1 (act t a r).2.
Proof.
  intros [Ha Hr]. rewrite <- Ha. destruct (exec_call t c d) as [rep d'] eqn:E.
  by apply (computes_call t c (fun x => script_result (as_uint64 x)) d rep d').
Qed.

(** *** The writing methods perform their action *)

Lemma store_Register_run t d r v p token lease :
  refines t d r -> revision r + 1 < lua_max -> marshal v = Ok p ->
  let a := ARegister (ServiceName v) (InstanceId v) p (hashToken token) (milliseconds lease) in
  computes t (store_Register v token lease) d (act t a r).1 (act t a r).2.
Proof.
  intros HR Hn Hp. unfold store_Register. rewrite Hp. cbv beta iota zeta.
  by apply performs_computes, register_call_performs.
Qed.

Lemma store_Update_run t d r v p token lease :
  refines t d r -> revision r + 1 < lua_max -> marshal v = Ok p ->
  let a := AUpdate (ServiceName v) (InstanceId v) p (hashToken token) (milliseconds lease) in
  computes t (store_Update v token lease) d (act t a r).1 (act t a r).2.
Proof.
  intros HR Hn Hp. unfold store_Update. rewrite Hp. cbv beta iota zeta.
  by apply performs_computes, update_call_performs.
Qed.

Lemma store_Deregister_run t d r s i token :
  refines t d r -> revision r + 1 < lua_max ->
  let a := ADelete s i (hashToken token) in
  computes t (store_Deregister s i token) d (act t a r).1 (act t a r).2.
Proof. intros HR Hn. by apply performs_computes, delete_call_performs. Qed.

(** *** Reading one instance *)

(** What [Store.Get] makes of a lease. *)
Definition read_lease (o : option lease) : res ServiceInstance :=
  match o with
  | None => Err ErrNotFound
  | Some l =>
      match unmarshal (l_payload l) with
      | Ok v => Ok v
      | Err e => Err (EWrap "decode instance" e)
      end
  end.

Lemma store_Get_run t d r s i :
  refines t d r -> computes t (store_Get s i) d (read_lease (held t r (lease_id s i))) r.
Proof.
  intros HR. destruct (get_instance_call t d r s i HR) as (d' & E & HR').
  replace (read_lease (held t r (lease_id s i))) with (decode_instance
    (match held t r (lease_id s i) with Some l => RBulk (l_payload l) | None => RNil end)).
  - by eapply (computes_call t _ decode_instance).
  - by destruct (held t r (lease_id s i)).
Qed.

(** *** Two methods in a row: a read at [tick 0], a write at [tick 1] *)

Lemma run_ticks_do {A} tick c (k : reply -> gprog A) (d : db) :
  run_ticks tick (Do c k) d =
  let (r, d') := exec_call (tick O) c d in run_ticks (fun n => tick (S n)) (k r) d'.
Proof.
  unfold run_ticks. cbn [prun]. unfold seq_handler at 1. cbn [fst snd].
  destruct (exec_call (tick O) c d) as [rep d'].
  assert (forall (q : gprog A) n (d : db),
    (let (a, s) := prun (seq_handler tick) q (d, S n) in (a, s.1)) =
    (let (a, s) := prun (seq_handler (fun n => tick (S n))) q (d, n) in (a, s.1))) as G.
  { clear. induction q as [a|c k IH]; intros n d; simpl; [done|].
    unfold seq_handler. cbn [fst snd]. destruct (exec_call (tick (S n)) c d). apply IH. }
  apply G.
Qed.

Lemma computes_ticks_single {A} (tick : nat -> Z) c (f : reply -> A) d a r' :
  computes (tick O) (pbind (call c) (fun x => Ret (f x))) d a r' ->
  computes_ticks tick (pbind (call c) (fun x => Ret (f x))) d a (tick O) r'.
Proof.
  intros (d' & E & HR). exists d'. split; [|done]. cbn [pbind call] in *.
  rewrite run_ticks_do. unfold run_at in E. cbn [prun] in E.
  destruct (exec_call (tick O) c d). exact E.
Qed.

Lemma computes_ticks_map {A B} (tick : nat -> Z) c (f : reply -> res A) (g : A -> B) d a t' r' :
  computes_ticks tick (pbind (call c) (fun x => Ret (f x))) d a t' r' ->
  computes_ticks tick (gbind (pbind (call c) (fun x => Ret (f x))) (fun x => Ret (Ok (g x)))) d
    (res_map g a) t' r'.
Proof.
  intros (d' & E & HR). exists d'. split; [|done]. unfold gbind. cbn [pbind call] in *.
  rewrite run_ticks_do. rewrite (run_ticks_do tick c (fun x => Ret (f x)) d) in E. destruct (exec_call (tick O) c d) as [rep d1].
  unfold run_ticks in *. cbn in E. injection E as <- <-.
  by destruct (f rep).
Qed.

(** [store.Get] first: the rest runs from [tick 1] on. *)
Lemma get_then {A} (tick : nat -> Z) s i (k : res ServiceInstance -> gprog A) d r a t' r' :
  refines (tick O) d r ->
  (forall d', refines (tick O) d' r ->
    computes_ticks (fun n => tick (S n)) (k (read_lease (held (tick O) r (lease_id s i)))) d' a t' r') ->
  computes_ticks tick (pbind (store_Get s i) k) d a t' r'.
Proof.
  intros HR Hk. destruct (store_Get_run (tick O) d r s i HR) as (d' & E & HR').
  destruct (Hk d' HR') as (d'' & E' & HR''). exists d''. split; [|done].
  unfold store_Get in *. cbn [pbind call] in *. rewrite run_ticks_do.
  unfold run_at in E. cbn [prun] in E. destruct (exec_call (tick O) _ d) as [rep d1].
  injection E as E1 E2. rewrite E1, E2. exact E'.
Qed.

End run.
