(* ===== verification/Samples.v ===== *)
(** * Concrete instances and sample data

    An insertion sort with the contract of [sort.Slice], the empty database, and
    the requests the witnesses and the executions of Races.v run on. *)

From S2P Require Import Prelude GoText Redis RedisMem Proto RefCodec Store Service LeaseSpec StoreRefine.

Local Open Scope Z_scope.

(** ** A sort *)

Section insertion.
Context {A : Type} (less : A -> A -> bool).

(** Insert before the first element that is not smaller. *)
Fixpoint insert_by (x : A) (l : list A) : list A :=
  match l with
  | [] => [x]
  | y :: l' => if less y x then y :: insert_by x l' else x :: l
  end.

Definition insertion_sort (l : list A) : list A := foldr insert_by [] l.

Lemma insert_by_perm x l : insert_by x l ≡ₚ x :: l.
Proof.
  induction l as [|y l IH]; simpl; [done|]. destruct (less y x); [|done].
  rewrite IH. constructor.
Qed.

Lemma insertion_sort_perm l : insertion_sort l ≡ₚ l.
Proof. induction l as [|x l IH]; simpl; [done|]. by rewrite insert_by_perm, IH. Qed.

Lemma strict_weak_asym : strict_weak less -> forall x y, less x y = true -> less y x = false.
Proof.
  intros (Hi & Ht & _) x y Hxy. destruct (less y x) eqn:E; [|done].
  pose proof (Hi x). by rewrite (Ht x y x) in H.
Qed.

Lemma insert_by_sorted x l : strict_weak less ->
  StronglySorted (fun a b => less b a = false) l ->
  StronglySorted (fun a b => less b a = false) (insert_by x l).
Proof.
  intros Hw. induction 1 as [|y l Hl IH Hy]; simpl; [by repeat constructor|].
  destruct (less y x) eqn:E.
  - constructor; [done|]. rewrite insert_by_perm. constructor; [|done].
    by apply strict_weak_asym.
  - constructor; [by constructor|]. constructor; [done|].
    eapply Forall_impl; [exact Hy|]. cbv beta. intros z Hz. destruct Hw as (_ & _ & Hw). eauto.
Qed.

Lemma insertion_sort_sorted l : strict_weak less ->
  StronglySorted (fun a b => less b a = false) (insertion_sort l).
Proof.
  intros Hw. induction l as [|x l IH]; simpl; [constructor|]. by apply insert_by_sorted.
Qed.

End insertion.

#[global] Instance ref_sort : SliceSort := @insertion_sort.

#[global] Instance ref_sort_laws : SliceSortLaws.
Proof. constructor; intros; [apply insertion_sort_perm | by apply insertion_sort_sorted]. Qed.

(** ** The empty database *)

Lemma refines_empty t : refines t (∅ : memdb) empty_registry.
Proof.
  constructor; intros; cbn [look mem_ops]; unfold mem_look; by rewrite lookup_empty.
Qed.

(** ** Sample requests *)

Definition sample_instance (s i : string) : ServiceInstance := {|
  ServiceName := s; InstanceId := i; Endpoint := "grpc://10.0.0.1:9090"; Protocol := "grpc";
  Version := "v1"; Status := STATUS_UNSPECIFIED; Weight := 0; Metadata := {["zone" := "a"]};
  RegisteredAt := None; UpdatedAt := None; LeaseExpiresAt := None |}.

Definition sample_register (s i : string) (seconds : Z) : RegisterInstanceRequest :=
  {| reg_Instance := Some (sample_instance s i); reg_LeaseSeconds := seconds |}.

Definition sample_bytes (n : nat) : list ascii := replicate 32 (ascii_of_nat n).
Definition sample_token (n : nat) : string := base64_raw_url (sample_bytes n).

(** A registry with one lease on orders/a, registered at time 0 for 10 s. *)
Definition sample_payload (now lease : Z) : string :=
  match marshal (prepareInstance (sample_instance "orders" "a") lease now) with
  | Ok p => p
  | Err _ => EmptyString
  end.
