(* ===== verification/ServiceRun.v ===== *)
(** * The service's operations on one instance

    [Register], [Get], [Renew], [SetStatus] and [Deregister] of service.go run
    alone against a database that represents an abstract registry: results on
    every branch, the registry afterwards, and how long a lease lasts.  [Renew]
    and [SetStatus] read and then write, so their two calls may reach the server
    at different times. *)

From S2P Require Import Prelude GoText Redis RedisMem Proto RefCodec Store Service LeaseSpec StoreRefine CallRefine StoreRun Validation Samples.

Local Open Scope Z_scope.

(** ** Facts on the abstract actions *)

Lemma act_register_free t r s i p h px :
  held t r (lease_id s i) = None -> 0 < px ->
  act t (ARegister s i p h px) r =
  (Ok (revision r + 1),
   logged (indexed (with_lease r (lease_id s i) (Lease p h (t + px))) s i) (Event s i (Upsert p))).
Proof.
  intros Hh Hpx. cbn [act]. rewrite Hh. rewrite (proj2 (Z.leb_gt _ _)) by lia.
  f_equal. f_equal. rewrite revision_logged. done.
Qed.

Lemma act_update_owned t r s i p h px l :
  held t r (lease_id s i) = Some l -> l_hash l = h -> 0 < px ->
  act t (AUpdate s i p h px) r =
  (Ok (revision r + 1),
   logged (with_lease r (lease_id s i) (Lease p h (t + px))) (Event s i (Upsert p))).
Proof.
  intros Hh Hl Hpx. cbn [act]. rewrite Hh, bool_decide_eq_true_2 by done. cbn [negb].
  rewrite (proj2 (Z.leb_gt _ _)) by lia. f_equal. f_equal. rewrite revision_logged. done.
Qed.

(** A call that presents another hash changes nothing. *)
Lemma act_not_owned t r s i h px p l :
  held t r (lease_id s i) = Some l -> l_hash l <> h ->
  act t (AUpdate s i p h px) r = (Err ErrLeaseNotOwned, r) /\
  act t (ADelete s i h) r = (Err ErrLeaseNotOwned, r).
Proof.
  intros Hh Hl. cbn [act]. by rewrite Hh, bool_decide_eq_false_2.
Qed.

(** Nor does a call on a lease that is not held. *)
Lemma act_not_held t r s i h px p :
  held t r (lease_id s i) = None ->
  act t (AUpdate s i p h px) r = (Err ErrNotFound, r) /\
  act t (ADelete s i h) r = (Err ErrNotFound, r).
Proof. intros Hh. cbn [act]. by rewrite Hh. Qed.

(** A payload that decodes to the instance kept under [x], of a valid service. *)
Definition stored_as `{InstanceCodec} (x p : string) : Prop :=
  exists v, unmarshal p = Ok v /\ lease_id (ServiceName v) (InstanceId v) = x /\
    name_ok (ServiceName v) = true.

(** [w] is the instance [v] with this status, update time and expiry: everything
    else is unchanged. *)
Definition updated_from (v w : ServiceInstance) (status : InstanceStatus) (updated : Z)
    (expires : option Z) : Prop :=
  (ServiceName w = ServiceName v /\ InstanceId w = InstanceId v /\ Endpoint w = Endpoint v /\
   Protocol w = Protocol v /\ Version w = Version v /\ Weight w = Weight v /\
   Metadata w = Metadata v /\ RegisteredAt w = RegisteredAt v) /\
  Status w = status /\ UpdatedAt w = Some updated /\ LeaseExpiresAt w = expires.

(** [w] is what a request to register [v] creates: the status defaults to healthy,
    the weight to 100, and the service sets all timestamps. *)
Definition created_from (v w : ServiceInstance) (now lease : Z) : Prop :=
  (ServiceName w = ServiceName v /\ InstanceId w = InstanceId v /\ Endpoint w = Endpoint v /\
   Protocol w = Protocol v /\ Version w = Version v /\ Metadata w = Metadata v) /\
  Status w = (if decide (Status v = STATUS_UNSPECIFIED) then STATUS_HEALTHY else Status v) /\
  Weight w = (if Weight v =? 0 then 100 else Weight v) /\
  RegisteredAt w = Some now /\ UpdatedAt w = Some now /\ LeaseExpiresAt w = Some (now + lease).

Lemma prepareInstance_creates v now lease : created_from v (prepareInstance v lease now) now lease.
Proof. unfold created_from. cbn. by rewrite cloneMap_id. Qed.

(** Every lease keeps such a payload. *)
Definition well_stored `{InstanceCodec} (r : registry) : Prop :=
  forall x l, r_leases r !! x = Some l -> stored_as x (l_payload l).

Lemma held_stored `{InstanceCodec} t r x l :
  well_stored r -> held t r x = Some l -> stored_as x (l_payload l).
Proof.
  intros Hw Hh. unfold held in Hh. destruct (r_leases r !! x) as [l'|] eqn:E; [|done].
  destruct (t <? l_deadline l'); [|done]. injection Hh as ->. eauto.
Qed.

Lemma held_earlier t t' r x l : t <= t' -> held t' r x = Some l -> held t r x = Some l.
Proof.
  intros Ht Hh. unfold held in *. destruct (r_leases r !! x) as [l'|]; [|done].
  destruct (Z.ltb_spec t' (l_deadline l')); [|done].
  by rewrite (proj2 (Z.ltb_lt _ _)) by lia.
Qed.

Section service.
Context {db : Type} `{RedisLaws db} `{CodecLaws}.

(** ** Register *)

Lemma register_run t d r now bytes req v p :
  refines t d r -> revision r + 1 < lua_max ->
  0 <= reg_LeaseSeconds req <= max_uint32 ->
  validateInstance (reg_Instance req) = Ok v ->
  let lease := leaseDuration (reg_LeaseSeconds req) in
  let inst := prepareInstance v lease now in
  marshal inst = Ok p ->
  computes t (service_Register now (Ok bytes) req) d
    (match held t r (lease_id (ServiceName v) (InstanceId v)) with
     | Some _ => Err ErrAlreadyRegistered
     | None => Ok {| regr_Instance := inst; regr_LeaseToken := base64_raw_url bytes;
                     regr_Revision := revision r + 1 |}
     end)
    (act t (ARegister (ServiceName v) (InstanceId v) p (hashToken (base64_raw_url bytes))
              (milliseconds lease)) r).2.
Proof.
  intros HR Hn Hs Hv lease inst Hp. unfold service_Register. rewrite Hv. fold lease inst.
  pose proof (store_Register_run t d r inst p (base64_raw_url bytes) lease HR Hn Hp) as Hrun.
  cbv zeta in Hrun. change (ServiceName inst) with (ServiceName v) in Hrun.
  change (InstanceId inst) with (InstanceId v) in Hrun.
  pose proof (leaseDuration_ms _ Hs) as Hms. fold lease in Hms.
  destruct (held t r (lease_id (ServiceName v) (InstanceId v))) as [l|] eqn:Hh.
  - cbn [act] in Hrun |- *. rewrite Hh in Hrun |- *. by apply computes_gbind_err.
  - rewrite act_register_free in Hrun |- * by (done || lia).
    eapply computes_gbind; [exact Hrun|]. intros. by apply computes_ret.
Qed.

(** C4: [Register] on every branch.  An invalid instance, a failing random source and an
    instance that cannot be encoded are refused with the error of that step, and the
    database is not called.  Otherwise a name that is still leased is refused and
    nothing changes, and a free name gives the instance of the request with its
    defaults filled in and its timestamps set by the service, a token made of the
    random bytes and the next revision; the name is then leased to the hash of that
    token for the clamped duration, indexed under its service, and the change is
    logged. *)
Theorem service_Register_spec t (d : db) r now rnd req :
  refines t d r -> revision r + 1 < lua_max ->
  0 <= reg_LeaseSeconds req <= max_uint32 ->
  exists result d' r',
    run_at t (service_Register now rnd req) d = (result, d') /\ refines t d' r' /\
    match validateInstance (reg_Instance req) with
    | Err e => result = Err e /\ d' = d /\ r' = r
    | Ok v =>
        let lease := leaseDuration (reg_LeaseSeconds req) in
        let inst := prepareInstance v lease now in
        let x := lease_id (ServiceName v) (InstanceId v) in
        reg_Instance req = Some v /\ created_from v inst now lease /\
        match rnd with
        | Err e => result = Err e /\ d' = d /\ r' = r
        | Ok bytes =>
            let token := base64_raw_url bytes in
            match marshal inst with
            | Err e => result = Err (EWrap "marshal instance" e) /\ d' = d /\ r' = r
            | Ok p =>
                match held t r x with
                | Some _ => result = Err ErrAlreadyRegistered /\ r' = r
                | None =>
                    result = Ok {| regr_Instance := inst; regr_LeaseToken := token;
                                   regr_Revision := revision r + 1 |} /\
                    r' = logged (indexed (with_lease r x (Lease p (hashToken token) (t + milliseconds lease)))
                           (ServiceName v) (InstanceId v)) (Event (ServiceName v) (InstanceId v) (Upsert p))
                end
            end
        end
    end.
Proof.
  intros HR Hn Hs. cbv zeta. destruct (validateInstance (reg_Instance req)) as [v|e] eqn:Hv.
  2: { exists (Err e), d, r. unfold service_Register. by rewrite Hv. }
  set (lease := leaseDuration (reg_LeaseSeconds req)). set (inst := prepareInstance v lease now).
  pose proof (proj1 (validateInstance_ok _ _ Hv)) as Hsame. pose proof (prepareInstance_creates v now lease) as Hc.
  destruct rnd as [bytes|e].
  2: { exists (Err e), d, r. unfold service_Register. by rewrite Hv. }
  destruct (marshal inst) as [p|e] eqn:Hp.
  2: { exists (Err (EWrap "marshal instance" e)), d, r. unfold service_Register, store_Register. rewrite Hv.
       fold lease inst. by rewrite Hp. }
  destruct (register_run t d r now bytes req v p HR Hn Hs Hv Hp) as (d' & E & HR').
  eexists _, d', _. split; [exact E|]. split; [exact HR'|]. split_and!; [done..|].
  destruct (held t r (lease_id (ServiceName v) (InstanceId v))) eqn:Hh; (split; [done|]).
  - cbn [act]. by rewrite Hh.
  - pose proof (leaseDuration_ms _ Hs) as Hms. rewrite act_register_free; [done..|lia].
Qed.

(** A free name is registered: the database then represents a held lease. *)
Lemma register_held t d r now bytes req v p :
  refines t d r -> revision r + 1 < lua_max ->
  0 <= reg_LeaseSeconds req <= max_uint32 ->
  validateInstance (reg_Instance req) = Ok v ->
  let lease := leaseDuration (reg_LeaseSeconds req) in
  marshal (prepareInstance v lease now) = Ok p ->
  let x := lease_id (ServiceName v) (InstanceId v) in
  held t r x = None ->
  exists resp d' r',
    run_at t (service_Register now (Ok bytes) req) d = (Ok resp, d') /\
    regr_Instance resp = prepareInstance v lease now /\
    refines t d' r' /\
    r_leases r' !! x = Some (Lease p (hashToken (base64_raw_url bytes)) (t + milliseconds lease)).
Proof.
  intros HR Hn Hs Hv lease Hp x Hh.
  destruct (register_run t d r now bytes req v p HR Hn Hs Hv Hp) as (d' & E & HR').
  fold x in E. rewrite Hh in E. eexists _, d', _. split_and!; [exact E|done|exact HR'|].
  fold lease. pose proof (leaseDuration_ms _ Hs) as Hms.
  rewrite act_register_free by (done || (fold lease in Hms; lia)).
  unfold logged, indexed, with_lease. simpl. apply lookup_insert_eq.
Qed.

(** C11: an instance that was registered at time [t] is returned by [Get], field
    for field, at every later time before its lease ends, and is not found from
    that time on. *)
Theorem register_get_roundtrip t (d : db) r now bytes req v p t' :
  refines t d r -> revision r + 1 < lua_max ->
  0 <= reg_LeaseSeconds req <= max_uint32 ->
  validateInstance (reg_Instance req) = Ok v -> utf8_instance v = true ->
  let lease := leaseDuration (reg_LeaseSeconds req) in
  marshal (prepareInstance v lease now) = Ok p ->
  held t r (lease_id (ServiceName v) (InstanceId v)) = None ->
  t <= t' ->
  exists resp d',
    run_at t (service_Register now (Ok bytes) req) d = (Ok resp, d') /\
    (run_at t' (service_Get (ServiceName v) (InstanceId v)) d').1 =
      if t' <? t + milliseconds lease then Ok (regr_Instance resp) else Err ErrNotFound.
Proof.
  intros HR Hn Hs Hv Hu lease Hp Hh Ht.
  destruct (register_held t d r now bytes req v p HR Hn Hs Hv Hp Hh)
    as (resp & d' & r' & E & Hi & HR' & Hl).
  exists resp, d'. split; [exact E|]. unfold service_Get.
  apply validateInstance_ok in Hv as (_ & Hname & Hid).
  rewrite Hname, bool_decide_eq_false_2 by done. cbn [negb orb].
  destruct (store_Get_run t' d' r' (ServiceName v) (InstanceId v)) as (d'' & -> & _).
  { by apply (refines_later t). }
  cbn [fst]. unfold held. rewrite Hl. cbn [l_deadline]. fold lease.
  destruct (t' <? t + milliseconds lease); [|done]. cbn [read_lease l_payload].
  rewrite (codec_roundtrip _ _ (eq_trans (forallb_utf8_clone v lease now) Hu) Hp). by rewrite Hi.
Qed.

(** ** Renew *)

(** Read at [tick 0], write at [tick 1]: the outcome of the renewal. *)
Lemma renew_run tick d r now req l v p :
  tick O <= tick 1%nat -> refines (tick O) d r -> revision r + 1 < lua_max ->
  let x := lease_id (ren_ServiceName req) (ren_InstanceId req) in
  held (tick O) r x = Some l -> unmarshal (l_payload l) = Ok v ->
  let lease := leaseDuration (ren_LeaseSeconds req) in
  marshal (renewed v now lease) = Ok p ->
  let a := AUpdate (ServiceName v) (InstanceId v) p (hashToken (ren_LeaseToken req))
             (milliseconds lease) in
  computes_ticks tick (service_Renew now req) d
    (res_map (fun revision => {| ir_Instance := renewed v now lease; ir_Revision := revision |})
       (act (tick 1%nat) a r).1) (tick 1%nat) (act (tick 1%nat) a r).2.
Proof.
  intros Ht HR Hn x Hh Hu lease Hp a. unfold service_Renew, gbind at 1.
  apply (get_then tick _ _ _ _ r); [done|]. intros d' HR'. fold x. rewrite Hh.
  cbn [read_lease]. rewrite Hu. fold lease.
  unfold store_Update. rewrite Hp.
  apply (computes_ticks_map (fun n => tick (S n)) _ (fun r => script_result (as_uint64 r))
    (fun revision => {| ir_Instance := renewed v now lease; ir_Revision := revision |})).
  apply (computes_ticks_single (fun n => tick (S n)) _ (fun r => script_result (as_uint64 r))).
  apply performs_computes, update_call_performs; [|done]. by apply (refines_later (tick O)).
Qed.

Lemma renew_missing tick d r now req :
  refines (tick O) d r ->
  held (tick O) r (lease_id (ren_ServiceName req) (ren_InstanceId req)) = None ->
  computes_ticks tick (service_Renew now req) d (Err ErrNotFound) (tick O) r.
Proof.
  intros HR Hh. unfold service_Renew, gbind at 1.
  apply (get_then tick _ _ _ _ r); [done|]. intros d' HR'. rewrite Hh. by exists d'.
Qed.

(** C12: the owner of a lease renews it: the response carries the stored instance
    with its two timestamps moved, every other field unchanged, and the lease is
    then held, by the same token, for the clamped duration from the time of the
    write. *)
Theorem service_Renew_owner tick (d : db) r now req l v p :
  tick O <= tick 1%nat -> refines (tick O) d r -> revision r + 1 < lua_max ->
  0 <= ren_LeaseSeconds req <= max_uint32 ->
  let x := lease_id (ren_ServiceName req) (ren_InstanceId req) in
  held (tick 1%nat) r x = Some l -> l_hash l = hashToken (ren_LeaseToken req) ->
  unmarshal (l_payload l) = Ok v -> lease_id (ServiceName v) (InstanceId v) = x ->
  let lease := leaseDuration (ren_LeaseSeconds req) in
  marshal (renewed v now lease) = Ok p ->
  updated_from v (renewed v now lease) (Status v) now (Some (now + lease)) /\
  exists d' r',
    run_ticks tick (service_Renew now req) d =
      (Ok {| ir_Instance := renewed v now lease; ir_Revision := revision r + 1 |}, d') /\
    refines (tick 1%nat) d' r' /\
    r_leases r' =
      <[x := Lease p (hashToken (ren_LeaseToken req)) (tick 1%nat + milliseconds lease)]> (r_leases r) /\
    r_log r' = r_log r ++ [Event (ServiceName v) (InstanceId v) (Upsert p)] /\
    r_index r' = r_index r.
Proof.
  intros Ht HR Hn Hs x Hh Hl Hu Hx lease Hp. pose proof (leaseDuration_ms _ Hs) as Hms.
  assert (held (tick O) r x = Some l) as H0h.
  { by apply (held_earlier (tick O) (tick 1%nat)). }
  destruct (renew_run tick d r now req l v p Ht HR Hn H0h Hu Hp) as (d' & E & HR').
  fold lease in E, HR', Hms.
  rewrite (act_update_owned _ _ _ _ _ _ _ l) in E, HR' by (rewrite ?Hx; done || lia).
  split; [by repeat split|]. eexists d', _. split_and!; [exact E|exact HR'|simpl; by rewrite Hx|done|done].
Qed.

(** ** SetStatus *)

Lemma set_status_run tick d r wall now req l v p :
  tick O <= tick 1%nat -> refines (tick O) d r -> revision r + 1 < lua_max ->
  sst_Status req = STATUS_HEALTHY \/ sst_Status req = STATUS_DRAINING ->
  let x := lease_id (sst_ServiceName req) (sst_InstanceId req) in
  held (tick O) r x = Some l -> unmarshal (l_payload l) = Ok v ->
  let remaining := time_until (lease_expires v) wall in
  0 < remaining ->
  marshal (with_status v (sst_Status req) now) = Ok p ->
  let a := AUpdate (ServiceName v) (InstanceId v) p (hashToken (sst_LeaseToken req))
             (milliseconds remaining) in
  computes_ticks tick (service_SetStatus wall now req) d
    (res_map (fun revision => {| ir_Instance := with_status v (sst_Status req) now;
                                 ir_Revision := revision |})
       (act (tick 1%nat) a r).1) (tick 1%nat) (act (tick 1%nat) a r).2.
Proof.
  intros Ht HR Hn Hst x Hh Hu remaining Hrem Hp a. unfold service_SetStatus.
  replace (negb _ && negb _) with false by (by destruct Hst as [-> | ->]).
  unfold gbind at 1. apply (get_then tick _ _ _ _ r); [done|]. intros d' HR'. fold x. rewrite Hh.
  cbn [read_lease]. rewrite Hu. fold remaining. rewrite (proj2 (Z.leb_gt _ _)) by lia.
  unfold store_Update. rewrite Hp.
  apply (computes_ticks_map (fun n => tick (S n)) _ (fun r => script_result (as_uint64 r))
    (fun revision => {| ir_Instance := with_status v (sst_Status req) now;
                        ir_Revision := revision |})).
  apply (computes_ticks_single (fun n => tick (S n)) _ (fun r => script_result (as_uint64 r))).
  apply performs_computes, update_call_performs; [|done]. by apply (refines_later (tick O)).
Qed.

Lemma set_status_missing tick d r wall now req :
  refines (tick O) d r ->
  sst_Status req = STATUS_HEALTHY \/ sst_Status req = STATUS_DRAINING ->
  held (tick O) r (lease_id (sst_ServiceName req) (sst_InstanceId req)) = None ->
  computes_ticks tick (service_SetStatus wall now req) d (Err ErrNotFound) (tick O) r.
Proof.
  intros HR Hst Hh. unfold service_SetStatus.
  replace (negb _ && negb _) with false by (by destruct Hst as [-> | ->]).
  unfold gbind at 1. apply (get_then tick _ _ _ _ r); [done|]. intros d' HR'.
  rewrite Hh. by exists d'.
Qed.

(** The recorded end of the lease has passed. *)
Lemma set_status_late tick d r wall now req l v :
  refines (tick O) d r ->
  sst_Status req = STATUS_HEALTHY \/ sst_Status req = STATUS_DRAINING ->
  held (tick O) r (lease_id (sst_ServiceName req) (sst_InstanceId req)) = Some l ->
  unmarshal (l_payload l) = Ok v -> time_until (lease_expires v) wall <= 0 ->
  computes_ticks tick (service_SetStatus wall now req) d (Err ErrNotFound) (tick O) r.
Proof.
  intros HR Hst Hh Hu Hle. unfold service_SetStatus.
  replace (negb _ && negb _) with false by (by destruct Hst as [-> | ->]).
  unfold gbind at 1. apply (get_then tick _ _ _ _ r); [done|]. intros d' HR'.
  rewrite Hh. cbn [read_lease]. rewrite Hu, (proj2 (Z.leb_le _ _)) by done. by exists d'.
Qed.

(** Truncation to milliseconds never lengthens the time left. *)
Lemma milliseconds_le d : 0 <= d -> milliseconds d * millisecond <= d.
Proof.
  intros Hd. unfold milliseconds, millisecond. rewrite Z.quot_div_nonneg by lia.
  pose proof (Z.mul_div_le d 1000000). lia.
Qed.

(** C13: the owner of a lease changes its status: only the status and the update
    time of the instance change, the token keeps the lease, and the lease is not
    prolonged: if the server clock at the write is at most [skew] ahead of the
    wall clock the service read, the new end is at most [skew] after the recorded
    one.  With less than a millisecond left the write is refused and nothing
    changes. *)
Theorem service_SetStatus_owner tick (d : db) r wall now req l v p :
  tick O <= tick 1%nat -> refines (tick O) d r -> revision r + 1 < lua_max ->
  sst_Status req = STATUS_HEALTHY \/ sst_Status req = STATUS_DRAINING ->
  let x := lease_id (sst_ServiceName req) (sst_InstanceId req) in
  held (tick 1%nat) r x = Some l -> l_hash l = hashToken (sst_LeaseToken req) ->
  unmarshal (l_payload l) = Ok v -> lease_id (ServiceName v) (InstanceId v) = x ->
  let inst := with_status v (sst_Status req) now in
  marshal inst = Ok p ->
  let remaining := time_until (lease_expires v) wall in
  0 < remaining ->
  updated_from v inst (sst_Status req) now (LeaseExpiresAt v) /\
  exists d' r',
    refines (tick 1%nat) d' r' /\
    if remaining <? millisecond then
      run_ticks tick (service_SetStatus wall now req) d = (Err invalid_expire, d') /\ r' = r
    else
      run_ticks tick (service_SetStatus wall now req) d =
        (Ok {| ir_Instance := inst; ir_Revision := revision r + 1 |}, d') /\
      exists deadline,
        r_leases r' = <[x := Lease p (l_hash l) deadline]> (r_leases r) /\
        r_log r' = r_log r ++ [Event (ServiceName v) (InstanceId v) (Upsert p)] /\
        forall skew, tick 1%nat * millisecond <= wall + skew ->
          deadline * millisecond <= lease_expires v + skew.
Proof.
  intros Ht HR Hn Hst x Hh Hl Hu Hx inst Hp remaining Hrem.
  split; [by repeat split|]. assert (held (tick O) r x = Some l) as H0h.
  { by apply (held_earlier (tick O) (tick 1%nat)). }
  destruct (set_status_run tick d r wall now req l v p Ht HR Hn Hst H0h Hu Hrem Hp)
    as (d' & E & HR'). fold remaining in E, HR'.
  destruct (Z.ltb_spec remaining millisecond) as [Hms|Hms].
  - assert (milliseconds remaining = 0) as Ez.
    { unfold milliseconds. by rewrite Z.quot_small by lia. }
    cbn [act] in E, HR'. rewrite Hx, Hh, bool_decide_eq_true_2, Ez in E, HR' by done.
    exists d', r. by split.
  - assert (0 < milliseconds remaining) as Hpos.
    { unfold milliseconds, millisecond in *. rewrite Z.quot_div_nonneg by lia.
      apply Z.div_str_pos. lia. }
    rewrite (act_update_owned _ _ _ _ _ _ _ l) in E, HR' by (rewrite ?Hx; done).
    eexists d', _. split; [exact HR'|]. split; [exact E|].
    exists (tick 1%nat + milliseconds remaining). simpl. rewrite Hx, Hl. split_and!; [done..|].
    intros skew Hsk. pose proof (milliseconds_le remaining ltac:(lia)).
    unfold remaining, time_until, min_int64, max_int64 in *. lia.
Qed.

(** ** Deregister *)

Lemma deregister_run t d r req :
  refines t d r -> revision r + 1 < lua_max ->
  let a := ADelete (der_ServiceName req) (der_InstanceId req) (hashToken (der_LeaseToken req)) in
  computes t (service_Deregister req) d (act t a r).1 (act t a r).2.
Proof. intros HR Hn a. by apply store_Deregister_run. Qed.

(** C14: the owner's deregistration returns the next revision and changes exactly this:
    the lease is gone, the index of its service loses the instance, and the deletion is
    logged; every other lease, the indexes of the other services and the set of services
    stay as they were.  The instance is not found afterwards, at any later time. *)
Theorem service_Deregister_owner t (d : db) r req l :
  refines t d r -> revision r + 1 < lua_max ->
  let s := der_ServiceName req in
  let i := der_InstanceId req in
  held t r (lease_id s i) = Some l -> l_hash l = hashToken (der_LeaseToken req) ->
  exists d',
    run_at t (service_Deregister req) d = (Ok (revision r + 1), d') /\
    refines t d' (Registry (delete (lease_id s i) (r_leases r)) (<[s := members r s ∖ {[i]}]> (r_index r))
      (r_services r) (r_log r ++ [Event s i Delete])) /\
    forall t', t <= t' -> (run_at t' (store_Get s i) d').1 = Err ErrNotFound.
Proof.
  intros HR Hn s i Hh Hl. destruct (deregister_run t d r req HR Hn) as (d' & E & HR').
  cbn [act] in E, HR'. fold s i in E, HR'. rewrite Hh, bool_decide_eq_true_2 in E, HR' by done.
  cbn [negb] in E, HR'. rewrite revision_logged in E. exists d'. split; [exact E|].
  assert (list_to_set [i] =@{gset string} {[i]}) as Ei by set_solver.
  cbn [snd] in HR'. unfold logged, unlisted in HR'. cbn [r_leases r_index r_services r_log dropped] in HR'.
  rewrite Ei in HR'. split; [exact HR'|]. intros t' Ht'. pose proof (refines_later t t' _ _ Ht' HR') as HR2.
  destruct (store_Get_run t' d' _ s i HR2) as (d'' & -> & _). simpl.
  unfold held. simpl. by rewrite lookup_delete_eq.
Qed.

(** ** Requests that do not own the lease *)

(** C3: while a lease is held, a caller whose token does not hash to the stored
    hash gets an error from [Renew], [SetStatus] and [Deregister], and a valid
    [Register] of the same instance is refused: the registry stays the same. *)
Theorem lease_protected tick (d : db) r l v now wall (s i token : string) seconds status p1 p2 :
  tick O <= tick 1%nat -> refines (tick O) d r -> revision r + 1 < lua_max ->
  status = STATUS_HEALTHY \/ status = STATUS_DRAINING ->
  held (tick 1%nat) r (lease_id s i) = Some l -> l_hash l <> hashToken token ->
  unmarshal (l_payload l) = Ok v -> lease_id (ServiceName v) (InstanceId v) = lease_id s i ->
  marshal (renewed v now (leaseDuration seconds)) = Ok p1 ->
  marshal (with_status v status now) = Ok p2 ->
  (exists d', run_ticks tick (service_Renew now {| ren_ServiceName := s; ren_InstanceId := i;
      ren_LeaseToken := token; ren_LeaseSeconds := seconds |}) d = (Err ErrLeaseNotOwned, d') /\
    refines (tick 1%nat) d' r) /\
  (exists e d', run_ticks tick (service_SetStatus wall now {| sst_ServiceName := s;
      sst_InstanceId := i; sst_LeaseToken := token; sst_Status := status |}) d = (Err e, d') /\
    e = (if time_until (lease_expires v) wall <=? 0 then ErrNotFound else ErrLeaseNotOwned) /\
    refines (tick 1%nat) d' r) /\
  (exists d', run_at (tick O) (service_Deregister {| der_ServiceName := s; der_InstanceId := i;
      der_LeaseToken := token |}) d = (Err ErrLeaseNotOwned, d') /\ refines (tick O) d' r) /\
  (forall input lease bytes p, ServiceName input = s -> InstanceId input = i ->
    marshal input = Ok p ->
    exists d', run_at (tick O) (store_Register input (base64_raw_url bytes) lease) d =
      (Err ErrAlreadyRegistered, d') /\ refines (tick O) d' r).
Proof.
  intros Ht HR Hn Hst Hh Hl Hu Hx Hp1 Hp2.
  assert (held (tick O) r (lease_id s i) = Some l) as H0h.
  { by apply (held_earlier (tick O) (tick 1%nat)). }
  assert (forall px p, act (tick 1%nat) (AUpdate (ServiceName v) (InstanceId v) p (hashToken token) px) r
    = (Err ErrLeaseNotOwned, r)) as Hact.
  { intros px p. eapply (act_not_owned _ _ _ _ _ _ _ l); [by rewrite Hx|done]. }
  split_and!.
  - destruct (renew_run tick d r now {| ren_ServiceName := s; ren_InstanceId := i;
      ren_LeaseToken := token; ren_LeaseSeconds := seconds |} l v p1 Ht HR Hn H0h Hu Hp1)
      as (d' & E & HR'). rewrite Hact in E, HR'. by exists d'.
  - destruct (Z.leb_spec (time_until (lease_expires v) wall) 0) as [Hle|Hgt].
    + destruct (set_status_late tick d r wall now {| sst_ServiceName := s; sst_InstanceId := i;
        sst_LeaseToken := token; sst_Status := status |} l v HR Hst H0h Hu Hle)
        as (d' & E & HR'). exists ErrNotFound, d'. split_and!; [done..|].
      by apply (refines_later (tick O)).
    + exists ErrLeaseNotOwned.
      destruct (set_status_run tick d r wall now {| sst_ServiceName := s; sst_InstanceId := i;
        sst_LeaseToken := token; sst_Status := status |} l v p2 Ht HR Hn Hst H0h Hu Hgt Hp2)
        as (d' & E & HR'). rewrite Hact in E, HR'. by exists d'.
  - destruct (deregister_run (tick O) d r {| der_ServiceName := s; der_InstanceId := i;
      der_LeaseToken := token |} HR Hn) as (d' & E & HR').
    cbn [der_ServiceName der_InstanceId der_LeaseToken] in E, HR'.
    rewrite (proj2 (act_not_owned _ _ _ _ _ 0 EmptyString l H0h Hl)) in E, HR'. by exists d'.
  - intros input lease bytes p <- <- Hp.
    destruct (store_Register_run (tick O) d r input p (base64_raw_url bytes) lease HR Hn Hp)
      as (d' & E & HR'). cbn [act] in E, HR'. rewrite H0h in E, HR'. by exists d'.
Qed.

(** C15: an unknown instance, or one whose lease has ended, is reported as not
    found by [Get], [Renew], [SetStatus] and [Deregister], and nothing changes. *)
Theorem missing_not_found tick (d : db) r now wall (s i token : string) seconds status :
  refines (tick O) d r -> revision r + 1 < lua_max ->
  status = STATUS_HEALTHY \/ status = STATUS_DRAINING ->
  held (tick O) r (lease_id s i) = None ->
  (exists d', run_at (tick O) (store_Get s i) d = (Err ErrNotFound, d') /\
    refines (tick O) d' r) /\
  (exists d', run_ticks tick (service_Renew now {| ren_ServiceName := s; ren_InstanceId := i;
      ren_LeaseToken := token; ren_LeaseSeconds := seconds |}) d = (Err ErrNotFound, d') /\
    refines (tick O) d' r) /\
  (exists d', run_ticks tick (service_SetStatus wall now {| sst_ServiceName := s;
      sst_InstanceId := i; sst_LeaseToken := token; sst_Status := status |}) d =
      (Err ErrNotFound, d') /\ refines (tick O) d' r) /\
  (exists d', run_at (tick O) (service_Deregister {| der_ServiceName := s; der_InstanceId := i;
      der_LeaseToken := token |}) d = (Err ErrNotFound, d') /\ refines (tick O) d' r).
Proof.
  intros HR Hn Hst Hh. split_and!.
  - pose proof (store_Get_run (tick O) d r s i HR) as HG. by rewrite Hh in HG.
  - by apply renew_missing.
  - by apply set_status_missing.
  - destruct (deregister_run (tick O) d r {| der_ServiceName := s; der_InstanceId := i;
      der_LeaseToken := token |} HR Hn) as (d' & E & HR').
    cbn [der_ServiceName der_InstanceId der_LeaseToken] in E, HR'.
    rewrite (proj2 (act_not_held _ _ _ _ _ 0 EmptyString Hh)) in E, HR'. by exists d'.
Qed.

End service.

(** ** Witnesses: orders/a registered at time 0 for ten seconds *)

Definition sample_lease : Z := leaseDuration 10.
Definition sample_stored : ServiceInstance :=
  prepareInstance (sample_instance "orders" "a") sample_lease 0.
Definition payload_of (v : ServiceInstance) : string :=
  match marshal v with Ok p => p | Err _ => EmptyString end.
Definition sample_action : action :=
  ARegister "orders" "a" (payload_of sample_stored) (hashToken (sample_token 1)) 10000.
Definition sample_registry : registry := (act 0 sample_action empty_registry).2.
Definition sample_db : memdb :=
  (run_at 0 (store_Register sample_stored (sample_token 1) sample_lease) ∅).2.

Lemma sample_refines t : 0 <= t -> refines t sample_db sample_registry.
Proof.
  intros Ht. apply (refines_later 0); [done|].
  destruct (store_Register_run 0 ∅ empty_registry sample_stored (payload_of sample_stored)
    (sample_token 1) sample_lease (refines_empty 0)) as (d' & E & HR); [done..|].
  unfold sample_db. rewrite E. exact HR.
Qed.

Definition sample_held : lease :=
  Lease (payload_of sample_stored) (hashToken (sample_token 1)) 10000.

(** Discharge a hypothesis of a theorem at the sample data. *)
Ltac sample_goal :=
  lazymatch goal with
  | |- refines _ ∅ _ => apply refines_empty
  | |- refines _ _ _ => apply sample_refines; discriminate
  | |- _ \/ _ => right; reflexivity
  | |- _ <= _ <= _ => split; vm_compute; discriminate
  | |- _ <= _ => vm_compute; discriminate
  | |- _ <> _ => vm_compute; discriminate
  | |- _ < _ => vm_compute; reflexivity
  | |- _ = _ => vm_compute; reflexivity
  | |- _ => idtac
  end.

Lemma service_Register_spec_witness :
  exists d', run_at 0 (service_Register 0 (Ok (sample_bytes 1)) (sample_register "orders" "a" 10))
    (∅ : memdb) = (Ok {| regr_Instance := sample_stored; regr_LeaseToken := sample_token 1;
                         regr_Revision := 1 |}, d').
Proof.
  destruct (service_Register_spec 0 ∅ empty_registry 0 (Ok (sample_bytes 1))
    (sample_register "orders" "a" 10)) as (result & d' & r' & E & _ & Hres); sample_goal.
  exists d'. rewrite E. f_equal.
  change (validateInstance (reg_Instance (sample_register "orders" "a" 10)))
    with (Ok (sample_instance "orders" "a")) in Hres.
  destruct Hres as (_ & _ & Hres). destruct Hres as [Hres _]. exact Hres.
Defined.

Lemma register_get_roundtrip_witness :
  exists resp d', run_at 0 (service_Register 0 (Ok (sample_bytes 1))
      (sample_register "orders" "a" 10)) (∅ : memdb) = (Ok resp, d') /\
    (run_at 9999 (service_Get "orders" "a") d').1 = Ok (regr_Instance resp).
Proof.
  apply (register_get_roundtrip 0 ∅ empty_registry 0 (sample_bytes 1)
    (sample_register "orders" "a" 10) (sample_instance "orders" "a") (payload_of sample_stored) 9999); sample_goal.
Defined.

(** The calls of the witnesses reach the server one second and two seconds after
    the registration. *)
Definition sample_tick (n : nat) : Z := 1000 + 1000 * Z.of_nat n.

Lemma service_Renew_owner_witness :
  exists d' r', run_ticks sample_tick (service_Renew 7 {| ren_ServiceName := "orders";
      ren_InstanceId := "a"; ren_LeaseToken := sample_token 1; ren_LeaseSeconds := 60 |}) sample_db =
    (Ok {| ir_Instance := renewed sample_stored 7 (leaseDuration 60); ir_Revision := 2 |}, d') /\
    refines 2000 d' r'.
Proof.
  destruct (service_Renew_owner sample_tick sample_db sample_registry 7
    {| ren_ServiceName := "orders"; ren_InstanceId := "a"; ren_LeaseToken := sample_token 1;
       ren_LeaseSeconds := 60 |} sample_held sample_stored
    (payload_of (renewed sample_stored 7 (leaseDuration 60)))) as (_ & d' & r' & E & HR & _); sample_goal.
  exists d', r'. exact (conj E HR).
Defined.

Lemma service_SetStatus_owner_witness :
  exists d' r', refines 2000 d' r' /\
    run_ticks sample_tick (service_SetStatus (second + 5) 7 {| sst_ServiceName := "orders";
      sst_InstanceId := "a"; sst_LeaseToken := sample_token 1; sst_Status := STATUS_DRAINING |})
      sample_db =
    (Ok {| ir_Instance := with_status sample_stored STATUS_DRAINING 7; ir_Revision := 2 |}, d').
Proof.
  destruct (service_SetStatus_owner sample_tick sample_db sample_registry (second + 5) 7
    {| sst_ServiceName := "orders"; sst_InstanceId := "a"; sst_LeaseToken := sample_token 1;
       sst_Status := STATUS_DRAINING |} sample_held sample_stored
    (payload_of (with_status sample_stored STATUS_DRAINING 7))) as (_ & d' & r' & HR & E & _); sample_goal.
  exists d', r'. exact (conj HR E).
Defined.

Lemma service_Deregister_owner_witness :
  exists d' r', run_at 1000 (service_Deregister {| der_ServiceName := "orders";
      der_InstanceId := "a"; der_LeaseToken := sample_token 1 |}) sample_db = (Ok 2, d') /\
    refines 1000 d' r' /\ r_leases r' !! "orders:a" = None /\ members r' "orders" = ∅.
Proof.
  destruct (service_Deregister_owner 1000 sample_db sample_registry {| der_ServiceName := "orders";
      der_InstanceId := "a"; der_LeaseToken := sample_token 1 |} sample_held)
    as (d' & E & HR & _); sample_goal.
  eexists d', _. split_and!; [exact E|exact HR|reflexivity|vm_compute; reflexivity].
Defined.

Lemma lease_protected_witness :
  exists d', run_ticks sample_tick (service_Renew 7 {| ren_ServiceName := "orders";
      ren_InstanceId := "a"; ren_LeaseToken := "stolen"; ren_LeaseSeconds := 60 |}) sample_db =
    (Err ErrLeaseNotOwned, d') /\ refines 2000 d' sample_registry.
Proof.
  apply (lease_protected sample_tick sample_db sample_registry sample_held sample_stored 7 (second + 5)
    "orders" "a" "stolen" 60 STATUS_DRAINING
    (payload_of (renewed sample_stored 7 (leaseDuration 60)))
    (payload_of (with_status sample_stored STATUS_DRAINING 7))); sample_goal.
Defined.

Lemma missing_not_found_witness :
  exists d', run_ticks (fun _ => 10000) (service_Renew 7 {| ren_ServiceName := "orders";
      ren_InstanceId := "a"; ren_LeaseToken := sample_token 1; ren_LeaseSeconds := 60 |}) sample_db =
    (Err ErrNotFound, d') /\ refines 10000 d' sample_registry.
Proof.
  apply (missing_not_found (fun _ => 10000) sample_db sample_registry 7 0 "orders" "a"
    (sample_token 1) 60 STATUS_DRAINING); sample_goal.
Defined.
