(* ===== verification/Listing.v ===== *)
(** * Listing instances and services

    [Store.List], [Service.list] and [Service.listServices] run alone with the
    server clock at [t]: they return exactly the instances whose leases are held,
    filtered, sorted and paged, and the only trace they leave is that index
    entries without a lease are removed ([pruned]). *)

From S2P Require Import Prelude GoText Redis RedisMem Proto RefCodec Store Service LeaseSpec StoreRefine CallRefine StoreRun Paging Validation Samples ServiceRun.

Local Open Scope Z_scope.

(** ** What a listing may change *)

(** Only index entries without a held lease disappear. *)
Record pruned (t : Z) (r r' : registry) : Prop := {
  pr_leases : r_leases r' = r_leases r;
  pr_services : r_services r' = r_services r;
  pr_log : r_log r' = r_log r;
  pr_sub s i : i ∈ members r' s -> i ∈ members r s;
  pr_keep s i : i ∈ members r s -> is_Some (held t r (lease_id s i)) -> i ∈ members r' s;
}.

Lemma pruned_held t r r' x : pruned t r r' -> held t r' x = held t r x.
Proof. intros Hp. unfold held. by rewrite (pr_leases _ _ _ Hp). Qed.

#[global] Instance pruned_preorder t : PreOrder (pruned t).
Proof.
  split.
  - intros r. by constructor.
  - intros r1 r2 r3 H1 H2. pose proof (pruned_held t r1 r2) as Hh.
    destruct H1 as [a1 b1 c1 d1 e1], H2 as [a2 b2 c2 d2 e2].
    constructor; [congruence..|auto|]. intros s i Hi Hs. apply e2; [by apply e1|].
    rewrite Hh; [done|by constructor].
Qed.

Lemma pruned_revision t r r' : pruned t r r' -> revision r' = revision r.
Proof. intros Hp. unfold revision. by rewrite (pr_log _ _ _ Hp). Qed.

Lemma pruned_unlisted t r s ids :
  (forall i, i ∈ ids -> held t r (lease_id s i) = None) -> pruned t r (unlisted r s ids).
Proof.
  intros Hids. constructor; try done; unfold members, unlisted; simpl; intros s' i;
    rewrite lookup_insert; case_decide; subst; simpl; try done.
  - unfold members. set_solver.
  - intros Hi [l Hl]. apply elem_of_difference. split; [done|].
    rewrite elem_of_list_to_set. intros Hin. by rewrite Hids in Hl.
Qed.

Section listing.
Context `{InstanceCodec}.

(** The instance behind an index entry, when its lease is held. *)
Definition live_value (t : Z) (r : registry) (s i : string) : option ServiceInstance :=
  match read_lease (held t r (lease_id s i)) with Ok v => Some v | Err _ => None end.

(** The registered instances of a service whose leases are held. *)
Definition live_list (t : Z) (r : registry) (s : string) : list ServiceInstance :=
  omap (live_value t r s) (elements (members r s)).

(** Every held lease decodes. *)
Definition decodes (t : Z) (r : registry) : Prop :=
  forall x l, held t r x = Some l -> is_ok (unmarshal (l_payload l)) = true.

Lemma well_stored_decodes t r : well_stored r -> decodes t r.
Proof.
  intros Hw x l Hl. by destruct (held_stored t r x l Hw Hl) as (v & -> & _).
Qed.

(** The id of a listed instance is the index entry it was found under. *)
Lemma live_value_id t r s i v :
  well_stored r -> name_ok s = true -> live_value t r s i = Some v ->
  InstanceId v = i /\ ServiceName v = s.
Proof.
  intros Hw Hs. unfold live_value. destruct (held t r (lease_id s i)) as [l|] eqn:Hh; [|done].
  destruct (held_stored t r _ l Hw Hh) as (v' & Hu & Hx & Hn). cbn [read_lease]. rewrite Hu.
  intros [= ->]. destruct (lease_id_inj _ _ _ _ Hn Hs Hx). done.
Qed.

Lemma live_list_ids t r s :
  well_stored r -> name_ok s = true -> NoDup (InstanceId <$> live_list t r s).
Proof.
  intros Hw Hs. unfold live_list. generalize (NoDup_elements (members r s)).
  generalize (elements (members r s)) as l. induction 1 as [|i l Hi Hl IH]; [constructor|].
  cbn [omap list_omap]. destruct (live_value t r s i) as [v|] eqn:E; [|done].
  cbn. constructor; [|done]. rewrite list_elem_of_fmap. intros (w & Ew & Hw').
  apply list_elem_of_omap in Hw' as (j & Hj & Ej).
  apply live_value_id in E as [Ei _]; [|done..]. apply live_value_id in Ej as [E' _]; [|done..].
  congruence.
Qed.

Lemma pruned_decodes t r r' : pruned t r r' -> decodes t r -> decodes t r'.
Proof. intros Hp Hd x l. rewrite (pruned_held t r r' x Hp). apply Hd. Qed.

Lemma live_value_pruned t r r' s i : pruned t r r' -> live_value t r' s i = live_value t r s i.
Proof. intros Hp. unfold live_value. by rewrite (pruned_held t r r' _ Hp). Qed.

Lemma live_value_held t r s i : is_Some (live_value t r s i) -> is_Some (held t r (lease_id s i)).
Proof.
  unfold live_value. destruct (held t r (lease_id s i)); simpl; [eauto|]. by intros [? ?].
Qed.

(** Pruning changes no listing. *)
Lemma live_list_pruned t r r' s : pruned t r r' -> live_list t r' s ≡ₚ live_list t r s.
Proof.
  intros Hp. unfold live_list.
  rewrite (list_omap_ext (live_value t r' s) (live_value t r s) _ _)
    by (apply Forall2_same_length_lookup_2; [done|]; intros; simplify_eq; by apply live_value_pruned).
  apply omap_filter_perm; [apply NoDup_elements..|]. intros i Hi%live_value_held.
  rewrite !elem_of_elements. split; [apply (pr_sub _ _ _ Hp)|].
  intros Hm. by apply (pr_keep _ _ _ Hp).
Qed.

End listing.

(** ** [Store.List] and [Store.Services] *)

Section run.
Context {db : Type} `{RedisLaws db} `{CodecLaws}.

(** The ids without a held lease. *)
Definition stale_ids (t : Z) (r : registry) (s : string) (ids : list string) : list string :=
  filter (fun i => held t r (lease_id s i) = None) ids.

Lemma list_loop_run t d r s ids vs st :
  refines t d r -> decodes t r ->
  computes t (list_loop s ids vs st) d
    (Ok (vs ++ omap (live_value t r s) ids, st ++ stale_ids t r s ids)) r.
Proof.
  intros HR Hd. revert d vs st HR. induction ids as [|i ids IH]; intros d vs st HR;
    cbn [list_loop omap list_omap].
  { rewrite !app_nil_r. by apply computes_ret. }
  eapply computes_bind; [by apply store_Get_run|]. intros d' HR'.
  unfold stale_ids, live_value. rewrite filter_cons.
  destruct (held t r (lease_id s i)) as [l|] eqn:Hh.
  - rewrite decide_False by done. cbn [read_lease].
    pose proof (Hd _ _ Hh) as Hok. destruct (unmarshal (l_payload l)) as [v|]; [|done].
    pose proof (IH d' (vs ++ [v]) st HR') as IH'. by rewrite <- app_assoc in IH'.
  - rewrite decide_True by done. cbn [read_lease].
    pose proof (IH d' vs (st ++ [i]) HR') as IH'. rewrite <- app_assoc in IH'. exact IH'.
Qed.

Lemma srem_stale_run t d r s ids :
  refines t d r ->
  exists rep r', computes t (drop_stale s ids) d rep r' /\
    (r' = r \/ r' = unlisted r s ids).
Proof.
  intros HR. destruct ids as [|i ids].
  - exists RNil, r. split; [by apply computes_ret|by left].
  - pose proof (srem_call_refines t d r s (i :: ids) HR) as HS.
    destruct (exec_call t (CCmd (SREM (serviceKey s) (i :: ids))) d) as [rep d'] eqn:E.
    exists rep, (unlisted r s (i :: ids)). split; [|by right].
    exists d'. split; [|exact HS]. unfold run_at. cbn [drop_stale call prun]. by rewrite E.
Qed.

Lemma store_List_run t d r s :
  refines t d r -> revision r < lua_max -> decodes t r ->
  exists vs r', computes t (store_List s) d (Ok (vs, revision r)) r' /\ pruned t r r' /\
    vs ≡ₚ live_list t r s.
Proof.
  intros HR Hn Hd. unfold store_List.
  destruct (smembers_service_call t d r s HR) as (ids & d1 & E1 & HR1 & Hnd & Hids).
  destruct (list_loop_run t d1 r s ids [] [] HR1 Hd) as (d2 & E2 & HR2).
  destruct (srem_stale_run t d2 r s (stale_ids t r s ids) HR2) as (rep & r' & (d3 & E3 & HR3) & Hr').
  assert (pruned t r r') as Hp.
  { destruct Hr' as [->| ->]; [done|]. apply pruned_unlisted.
    intros i Hi. by apply list_elem_of_filter in Hi as [? _]. }
  destruct (read_revision_call t d3 r' HR3) as (d4 & E4 & HR4).
  { by rewrite (pruned_revision t r r'). }
  exists (omap (live_value t r s) ids), r'. split_and!; [|done|].
  - exists d4. split; [|done]. unfold run_at in *. cbn [pbind call prun]. rewrite E1.
    cbn [as_strings]. unfold gbind. rewrite prun_bind, E2. cbn [app]. cbv beta iota. rewrite prun_bind, E3.
    rewrite prun_bind, E4, (pruned_revision t r r') by done. done.
  - apply omap_filter_perm; [done|apply NoDup_elements|]. intros i _.
    by rewrite Hids, elem_of_elements.
Qed.

Lemma store_Services_run t d r :
  refines t d r -> revision r < lua_max ->
  exists names, computes t store_Services d (Ok (names, revision r)) r /\
    names ≡ₚ elements (r_services r).
Proof.
  intros HR Hn. unfold store_Services.
  destruct (smembers_services_call t d r HR) as (names & d1 & E1 & HR1 & Hnd & Hs).
  destruct (read_revision_call t d1 r HR1 Hn) as (d2 & E2 & HR2).
  exists names. split.
  - exists d2. split; [|done]. unfold run_at in *. cbn [pbind call prun]. rewrite E1.
    cbn [as_strings]. unfold gbind. by rewrite prun_bind, E2.
  - apply NoDup_Permutation; [done|apply NoDup_elements|]. intros x.
    by rewrite Hs, elem_of_elements.
Qed.

(** ** [Service.list] *)

Lemma collect_run t d r names vs rev :
  refines t d r -> revision r < lua_max -> decodes t r ->
  exists out r', computes t (collect names vs rev) d
      (Ok (vs ++ out, if names is [] then rev else Z.max rev (revision r))) r' /\
    pruned t r r' /\ out ≡ₚ names ≫= live_list t r.
Proof.
  intros HR Hn Hd. revert d r vs rev HR Hn Hd.
  induction names as [|s names IH]; intros d r vs rev HR Hn Hd; simpl.
  { exists [], r. rewrite app_nil_r. split_and!; [by apply computes_ret|done|done]. }
  destruct (store_List_run t d r s HR Hn Hd) as (vs1 & r1 & (d1 & E1 & HR1) & Hp1 & Hperm1).
  assert (revision r1 = revision r) as Hrev by by apply (pruned_revision t).
  destruct (IH d1 r1 (vs ++ vs1) (if rev <? revision r then revision r else rev) HR1)
    as (out & r2 & Hc & Hp2 & Hperm2); [lia|by apply (pruned_decodes t r)|].
  exists (vs1 ++ out), r2. split_and!.
  - eapply computes_gbind_at; [exact E1|]. cbv beta iota.
    rewrite <- app_assoc in Hc. replace (Z.max rev (revision r)) with
      (if names is [] then (if rev <? revision r then revision r else rev)
       else Z.max (if rev <? revision r then revision r else rev) (revision r1)); [exact Hc|].
    destruct names, (Z.ltb_spec rev (revision r)); lia.
  - by transitivity r1.
  - rewrite Hperm1, Hperm2. f_equiv. clear -Hp1. induction names as [|s' names IH]; simpl; [done|].
    by rewrite IH, (live_list_pruned t r r1).
Qed.

Context `{SliceSortLaws}.

(** The services a request looks into. *)
Definition list_targets (r : registry) (req : ListInstancesRequest) : list string :=
  if bool_decide (lst_ServiceName req = EmptyString) then elements (r_services r)
  else [lst_ServiceName req].

Definition request_ok (req : ListInstancesRequest) : Prop :=
  if bool_decide (lst_ServiceName req = EmptyString) then lst_Selector req <> ∅
  else name_ok (lst_ServiceName req) = true.

(** The instances a request asks for: registered, with a held lease, matching. *)
Definition wanted (t : Z) (r : registry) (req : ListInstancesRequest) : list ServiceInstance :=
  List.filter (fun v => matches v (lst_Selector req) (lst_IncludeDraining req))
    (list_targets r req ≫= live_list t r).

Definition cut_page {A} (l : list A) (page pageSize : Z) : list A :=
  if (0 <? page) && (0 <? pageSize) then page_of l (Z.to_nat page) (Z.to_nat pageSize) else l.

Lemma pageValues_cut {A} (l : list A) page pageSize :
  in_int64 page -> in_int64 pageSize -> Z.of_nat (length l) < 2 ^ 62 ->
  pageValues l page pageSize = Some (cut_page l page pageSize).
Proof.
  unfold in_int64, cut_page. intros Hp Hs Hl.
  destruct (Z.ltb_spec 0 page), (Z.ltb_spec 0 pageSize); cbn [andb];
    first [apply pageValues_page_of; lia | apply pageValues_unpaged; lia].
Qed.

Lemma list_names_run t d r req :
  refines t d r -> revision r < lua_max ->
  exists names rev, computes t
      (if bool_decide (lst_ServiceName req = EmptyString) then store_Services
       else Ret (Ok ([lst_ServiceName req], 0))) d (Ok (names, rev)) r /\
    names ≡ₚ list_targets r req /\
    (if names is [] then rev else Z.max rev (revision r)) = revision r.
Proof.
  intros HR Hn. unfold list_targets. case_bool_decide.
  - destruct (store_Services_run t d r HR Hn) as (names & Hc & Hp).
    exists names, (revision r). split_and!; [done..|]. destruct names; lia.
  - exists [lst_ServiceName req], 0. split_and!; [by apply computes_ret|done|].
    unfold revision. lia.
Qed.

Lemma list_run t d r req page pageSize :
  refines t d r -> revision r < lua_max -> decodes t r -> request_ok req ->
  in_int64 page -> in_int64 pageSize -> Z.of_nat (length (wanted t r req)) < 2 ^ 62 ->
  exists sorted r',
    computes t (service_list req page pageSize) d
      (Ok ({| lstr_Instances := cut_page sorted page pageSize; lstr_Revision := revision r |},
           Z.of_nat (length sorted))) r' /\
    sorted ≡ₚ wanted t r req /\
    StronglySorted (fun a b => instance_less b a = false) sorted /\ pruned t r r'.
Proof.
  intros HR Hn Hd Hok Hp Hs Hlen. unfold service_list.
  replace (_ && bool_decide (lst_Selector req = ∅)) with false.
  2: { unfold request_ok in Hok. case_bool_decide; [|done]. by rewrite bool_decide_eq_false_2. }
  replace (negb _ && negb _) with false.
  2: { unfold request_ok in Hok. case_bool_decide; [done|]. by rewrite Hok. }
  destruct (list_names_run t d r req HR Hn) as (names & rev & (d1 & E1 & HR1) & Hnames & Hrev).
  destruct (collect_run t d1 r names [] rev HR1 Hn Hd) as (out & r' & (d2 & E2 & HR2) & Hpr & Hout).
  rewrite Hrev in E2. cbn [app] in E2.
  set (sorted := sort_slice instance_less (List.filter (fun v =>
    matches v (lst_Selector req) (lst_IncludeDraining req)) out)).
  assert (sorted ≡ₚ wanted t r req) as Hperm.
  { unfold sorted. rewrite sort_perm. apply filter_perm_bool. by rewrite Hout, Hnames. }
  exists sorted, r'. split_and!; [|done|apply sort_sorted, (strict_weak_key InstanceId)|done].
  eapply computes_gbind_at; [exact E1|]. eapply computes_gbind_at; [exact E2|].
  unfold select_instances. fold sorted. rewrite pageValues_cut; [by apply computes_ret|done|done|].
  by rewrite Hperm.
Qed.

(** C10: [ListPage] (and [List], which is page 0) returns a page of a list that
    holds exactly the instances asked for, each registered, with a held lease and
    matching, in ascending order of instance id; the total is the length of that
    list, the revision is the current one, and the registry only loses index
    entries that have no lease. *)
Theorem service_ListPage_exact t (d : db) r req page pageSize :
  refines t d r -> revision r < lua_max -> well_stored r -> request_ok req ->
  in_int64 page -> in_int64 pageSize -> Z.of_nat (length (wanted t r req)) < 2 ^ 62 ->
  exists sorted d' r',
    run_at t (service_ListPage req page pageSize) d =
      (Ok ({| lstr_Instances := cut_page sorted page pageSize; lstr_Revision := revision r |},
           Z.of_nat (length sorted)), d') /\
    sorted ≡ₚ wanted t r req /\
    StronglySorted (fun a b => instance_less b a = false) sorted /\
    refines t d' r' /\ pruned t r r'.
Proof.
  intros HR Hn Hw Hok Hp Hs Hlen.
  destruct (list_run t d r req page pageSize HR Hn (well_stored_decodes t r Hw) Hok Hp Hs Hlen)
    as (sorted & r' & (d' & E & HR') & Hperm & Hsort & Hpr).
  exists sorted, d', r'. done.
Qed.

Lemma wanted_named_ids t r req :
  well_stored r -> request_ok req -> lst_ServiceName req <> EmptyString ->
  NoDup (InstanceId <$> wanted t r req).
Proof.
  intros Hw Hok Hne. unfold wanted, list_targets. unfold request_ok in Hok.
  rewrite bool_decide_eq_false_2 in Hok |- * by done. cbn [mbind list_bind]. rewrite app_nil_r.
  pose proof (live_list_ids t r _ Hw Hok) as Hnd. revert Hnd.
  generalize (live_list t r (lst_ServiceName req)) as l.
  induction l as [|v l IH]; [done|]. cbn [fmap list_fmap List.filter].
  intros [Hv Hl]%NoDup_cons. destruct (matches _ _ _); [|auto].
  cbn. constructor; [|auto]. intros Hin. apply Hv.
  apply list_elem_of_fmap in Hin as (w & -> & Hw'%list_elem_of_In).
  apply filter_In in Hw' as [Hw' _]. by apply list_elem_of_fmap_2, list_elem_of_In.
Qed.

(** For a named service the response does not depend on the order in which
    Redis returns the ids nor on the sort: it is the page of the reference sort of
    the instances asked for, so consecutive pages of an unchanged registry never
    repeat or skip an instance. *)
Lemma service_ListPage_named t (d : db) r req page pageSize :
  refines t d r -> revision r < lua_max -> well_stored r -> request_ok req ->
  lst_ServiceName req <> EmptyString ->
  in_int64 page -> in_int64 pageSize -> Z.of_nat (length (wanted t r req)) < 2 ^ 62 ->
  (run_at t (service_ListPage req page pageSize) d).1 =
    Ok ({| lstr_Instances :=
             cut_page (insertion_sort instance_less (wanted t r req)) page pageSize;
           lstr_Revision := revision r |}, Z.of_nat (length (wanted t r req))).
Proof.
  intros HR Hn Hw Hok Hne Hp Hs Hlen.
  destruct (list_run t d r req page pageSize HR Hn (well_stored_decodes t r Hw) Hok Hp Hs Hlen)
    as (sorted & r' & (d' & E & HR') & Hperm & Hsort & Hpr).
  unfold service_ListPage. rewrite E. cbn [fst].
  replace sorted with (insertion_sort instance_less (wanted t r req)).
  - by rewrite (Permutation_length (insertion_sort_perm instance_less (wanted t r req))).
  - apply (sorted_by_key_unique InstanceId).
    + rewrite insertion_sort_perm. by apply wanted_named_ids.
    + by rewrite insertion_sort_perm.
    + apply insertion_sort_sorted, (strict_weak_key InstanceId).
    + exact Hsort.
Qed.

(** ** [Service.listServices] *)

Definition has_status (st : InstanceStatus) (v : ServiceInstance) : bool :=
  bool_decide (Status v = st).

Definition counted (st : InstanceStatus) (l : list ServiceInstance) : Z :=
  Z.of_nat (length (List.filter (has_status st) l)).

(** The summary of a service, from its live instances. *)
Definition summary_spec (t : Z) (r : registry) (name : string) : ServiceSummary := {|
  sum_ServiceName := name;
  sum_HealthyInstances := counted STATUS_HEALTHY (live_list t r name);
  sum_DrainingInstances := counted STATUS_DRAINING (live_list t r name);
|}.

(** The services with the prefix that have a healthy or draining instance. *)
Definition services_spec (t : Z) (r : registry) (prefix : string) : list ServiceSummary :=
  List.filter (fun s => 0 <? sum_HealthyInstances s + sum_DrainingInstances s)
    (summary_spec t r <$> List.filter (fun n => has_prefix prefix n) (elements (r_services r))).

Lemma counted_cons st v l :
  counted st (v :: l) = (if has_status st v then 1 else 0) + counted st l.
Proof. unfold counted. simpl. destruct (has_status st v); simpl; lia. Qed.

Lemma summarize_counts name l h dr :
  0 <= h -> 0 <= dr -> Z.max h dr + Z.of_nat (length l) <= max_uint32 ->
  foldl count_status {| sum_ServiceName := name; sum_HealthyInstances := h;
                        sum_DrainingInstances := dr |} l =
  {| sum_ServiceName := name; sum_HealthyInstances := h + counted STATUS_HEALTHY l;
     sum_DrainingInstances := dr + counted STATUS_DRAINING l |}.
Proof.
  revert h dr. induction l as [|v l IH]; intros h dr Hh Hdr Hb.
  { unfold counted. simpl. by rewrite !Z.add_0_r. }
  cbn [foldl length] in *. rewrite !counted_cons. unfold has_status, count_status.
  destruct (Status v) eqn:E; cbn [sum_ServiceName sum_HealthyInstances sum_DrainingInstances];
    repeat (rewrite wrapu32_id by (unfold max_uint32 in *; lia)); rewrite IH by lia; simpl;
    f_equal; lia.
Qed.

Lemma counted_perm st l1 l2 : l1 ≡ₚ l2 -> counted st l1 = counted st l2.
Proof. intros HP. unfold counted. by rewrite (filter_perm_bool _ l1 l2 HP). Qed.

Lemma counted_le st l : 0 <= counted st l <= Z.of_nat (length l).
Proof. unfold counted. pose proof (List.filter_length_le (has_status st) l). lia. Qed.

Lemma counted_both l :
  counted STATUS_HEALTHY l + counted STATUS_DRAINING l <= Z.of_nat (length l).
Proof.
  induction l as [|v l IH]; [done|]. rewrite !counted_cons. cbn [length].
  unfold has_status. destruct (Status v); simpl; lia.
Qed.

Lemma summarize_live t r r' name vs :
  pruned t r r' -> vs ≡ₚ live_list t r name ->
  Z.of_nat (length (live_list t r name)) <= max_uint32 ->
  summarize name vs = summary_spec t r name /\
  wrapu32 (sum_HealthyInstances (summarize name vs) + sum_DrainingInstances (summarize name vs)) =
    sum_HealthyInstances (summary_spec t r name) + sum_DrainingInstances (summary_spec t r name).
Proof.
  intros Hp HP Hb. unfold summarize, summary_spec.
  rewrite summarize_counts by (rewrite ?HP; lia). cbn. rewrite !(counted_perm _ _ _ HP).
  split; [done|]. apply wrapu32_id.
  pose proof (counted_both (live_list t r name)).
  pose proof (counted_le STATUS_HEALTHY (live_list t r name)).
  pose proof (counted_le STATUS_DRAINING (live_list t r name)). lia.
Qed.

Lemma prefix_guard prefix name :
  negb (bool_decide (prefix = EmptyString)) && negb (has_prefix prefix name) =
  negb (has_prefix prefix name).
Proof. case_bool_decide; subst; [by destruct name|done]. Qed.

Lemma summaries_run t d r0 r names prefix acc :
  refines t d r -> revision r < lua_max -> decodes t r -> pruned t r0 r ->
  (forall n, n ∈ names -> Z.of_nat (length (live_list t r0 n)) <= max_uint32) ->
  exists r', computes t (summaries names prefix acc) d
      (Ok (acc ++ List.filter (fun s => 0 <? sum_HealthyInstances s + sum_DrainingInstances s)
        (summary_spec t r0 <$> List.filter (fun n => has_prefix prefix n) names))) r' /\
    pruned t r0 r'.
Proof.
  intros HR Hn Hd Hp Hb. revert d r acc HR Hn Hd Hp.
  induction names as [|name names IH]; intros d r acc HR Hn Hd Hp; cbn [summaries].
  { exists r. rewrite app_nil_r. split; [by apply computes_ret|done]. }
  rewrite prefix_guard. cbn [List.filter]. destruct (has_prefix prefix name); cbn [negb].
  2: { apply (IH ltac:(set_solver) d r); done. }
  destruct (store_List_run t d r name HR Hn Hd) as (vs & r1 & (d1 & E1 & HR1) & Hp1 & Hperm).
  assert (pruned t r0 r1) as Hp01 by by transitivity r.
  rewrite (live_list_pruned t r0 r) in Hperm by done.
  destruct (summarize_live t r0 r name vs Hp Hperm (Hb name ltac:(set_solver))) as [Hsum Hw].
  destruct (IH ltac:(set_solver) d1 r1 (if 0 <? sum_HealthyInstances (summary_spec t r0 name) +
      sum_DrainingInstances (summary_spec t r0 name) then acc ++ [summary_spec t r0 name] else acc))
    as (r2 & Hc & Hp2); [done|by rewrite (pruned_revision t r r1)|by apply (pruned_decodes t r)|done|].
  exists r2. split; [|done]. eapply computes_gbind_at; [exact E1|]. cbv beta iota zeta.
  rewrite Hw, Hsum. cbn [fmap list_fmap List.filter].
  destruct (0 <? _); [by rewrite <- app_assoc in Hc|done].
Qed.

Lemma services_spec_names t r prefix : NoDup (sum_ServiceName <$> services_spec t r prefix).
Proof.
  unfold services_spec. generalize (NoDup_elements (r_services r)).
  generalize (elements (r_services r)) as l. induction 1 as [|n l Hn Hl IH]; [constructor|].
  cbn [List.filter]. destruct (has_prefix prefix n); [|done]. cbn [fmap list_fmap List.filter].
  destruct (0 <? _); [|done]. cbn. constructor; [|done].
  rewrite list_elem_of_fmap. intros (s & Es & Hs%list_elem_of_In). apply filter_In in Hs as [Hs _].
  apply list_elem_of_In, list_elem_of_fmap in Hs as (m & -> & Hm%list_elem_of_In).
  apply filter_In in Hm as [Hm%list_elem_of_In _]. cbn in Es. by subst.
Qed.

(** [ListServicesPage] (and [ListServices]) returns, in ascending order of
    name, exactly the services with the prefix that have a live healthy or
    draining instance, each with its exact counts (the uint32 counters do not wrap
    below 2^32 instances), whatever order Redis returns and whatever sort is
    used. *)
Lemma service_ListServicesPage_exact t (d : db) r prefix page pageSize :
  refines t d r -> revision r < lua_max -> well_stored r ->
  (forall n, n ∈ r_services r -> Z.of_nat (length (live_list t r n)) <= max_uint32) ->
  in_int64 page -> in_int64 pageSize ->
  Z.of_nat (length (services_spec t r prefix)) < 2 ^ 62 ->
  (run_at t (service_ListServicesPage prefix page pageSize) d).1 =
    Ok ({| lsvr_Services :=
             cut_page (insertion_sort summary_less (services_spec t r prefix)) page pageSize;
           lsvr_Revision := revision r |}, Z.of_nat (length (services_spec t r prefix))).
Proof.
  intros HR Hn Hw Hb Hp Hs Hlen. unfold service_ListServicesPage, service_listServices.
  destruct (store_Services_run t d r HR Hn) as (names & (d1 & E1 & HR1) & Hnames).
  destruct (summaries_run t d1 r r names prefix [] HR1 Hn (well_stored_decodes t r Hw))
    as (r' & (d2 & E2 & HR2) & Hpr); [done| |].
  { intros n Hin. apply Hb. rewrite Hnames in Hin. by apply elem_of_elements. }
  unfold run_at in *. unfold gbind. rewrite prun_bind, E1. cbv beta iota. rewrite prun_bind, E2.
  cbv beta iota zeta. cbn [app prun fst]. set (sorted := sort_slice summary_less _).
  assert (sorted = insertion_sort summary_less (services_spec t r prefix)) as ->.
  { apply (sorted_by_key_unique sum_ServiceName).
    - unfold sorted. rewrite sort_perm, Hnames. apply services_spec_names.
    - unfold sorted. rewrite sort_perm, insertion_sort_perm. unfold services_spec.
      apply filter_perm_bool. by apply fmap_Permutation, filter_perm_bool.
    - apply sort_sorted, (strict_weak_key sum_ServiceName).
    - apply insertion_sort_sorted, (strict_weak_key sum_ServiceName). }
  rewrite pageValues_cut, (Permutation_length (insertion_sort_perm summary_less _)); try done.
  by rewrite (Permutation_length (insertion_sort_perm summary_less _)).
Qed.

End run.

(** ** Witnesses *)

Lemma sample_well_stored : well_stored sample_registry.
Proof.
  intros x l Hl.
  change (r_leases sample_registry) with (<[lease_id "orders" "a" := sample_held]> (∅ : gmap string lease)) in Hl.
  apply lookup_insert_Some in Hl as [[<- <-]|[_ Hl]]; [|by rewrite lookup_empty in Hl].
  exists sample_stored. split_and!; vm_compute; reflexivity.
Qed.

Definition sample_list : ListInstancesRequest :=
  {| lst_ServiceName := "orders"; lst_Selector := {["zone" := "a"]}; lst_IncludeDraining := false |}.

Lemma service_ListPage_exact_witness :
  exists sorted d' r',
    run_at 1000 (service_ListPage sample_list 1 10) sample_db =
      (Ok ({| lstr_Instances := cut_page sorted 1 10; lstr_Revision := 1 |},
           Z.of_nat (length sorted)), d') /\
    sorted ≡ₚ [sample_stored] /\ refines 1000 d' r'.
Proof.
  destruct (service_ListPage_exact 1000 sample_db sample_registry sample_list 1 10)
    as (sorted & d' & r' & E & HP & _ & HR & _);
    [apply sample_refines; discriminate|vm_compute; reflexivity|apply sample_well_stored
    |vm_compute; reflexivity|split; vm_compute; discriminate..|vm_compute; reflexivity|].
  exists sorted, d', r'. split_and!; [exact E|exact HP|exact HR].
Defined.

Lemma service_ListPage_named_witness :
  (run_at 1000 (service_ListPage sample_list 1 10) sample_db).1 =
    Ok ({| lstr_Instances := [sample_stored]; lstr_Revision := 1 |}, 1).
Proof.
  rewrite (service_ListPage_named 1000 sample_db sample_registry sample_list 1 10);
    [vm_compute; reflexivity|apply sample_refines; discriminate|vm_compute; reflexivity
    |apply sample_well_stored|vm_compute; reflexivity|discriminate
    |split; vm_compute; discriminate..|vm_compute; reflexivity].
Defined.

Lemma service_ListServicesPage_exact_witness :
  (run_at 1000 (service_ListServicesPage "or" 1 10) sample_db).1 =
    Ok ({| lsvr_Services := [ {| sum_ServiceName := "orders"; sum_HealthyInstances := 1;
                                 sum_DrainingInstances := 0 |} ]; lsvr_Revision := 1 |}, 1).
Proof.
  rewrite (service_ListServicesPage_exact 1000 sample_db sample_registry "or" 1 10);
    [vm_compute; reflexivity|apply sample_refines; discriminate|vm_compute; reflexivity
    |apply sample_well_stored| |split; vm_compute; discriminate..|vm_compute; reflexivity].
  intros n Hn. change (r_services sample_registry) with ({["orders"]} ∪ (∅ : gset string)) in Hn.
  assert (n = "orders") as -> by set_solver. vm_compute. discriminate.
Defined.
