(* ===== verification/GrpcRegistry.v ===== *)
(** * The gRPC registry server (internal/transport/grpc/registry.go)

    The handlers translate the service's errors to status codes; [WatchService]
    sends a snapshot and then the changes it reads from the stream.  A handler is
    a program over effects: a Redis call, a message sent on the
    stream, and a look at the stream's context; the interceptors around it also
    count calls and ask the platform's store. *)

From S2P Require Import Prelude GoText Redis Proto Store Service.

Local Open Scope Z_scope.
Local Open Scope go_scope.

(** ** Status codes *)

Inductive grpc_code : Type :=
  | AlreadyExists | NotFound | PermissionDenied | InvalidArgument
  | Unauthenticated | Internal | Canceled | DeadlineExceeded | Unknown
  | GUnavailable | ResourceExhausted.

#[global] Instance grpc_code_eq_dec : EqDecision grpc_code.
Proof. solve_decision. Defined.

(** [status.Error(code, msg)]. *)
Record grpc_status : Type := GStatus { st_code : grpc_code; st_msg : string }.

Definition registryError (err : goerr) : grpc_status :=
  if errors_is err ErrAlreadyRegistered then GStatus AlreadyExists (error_text err)
  else if errors_is err ErrNotFound then GStatus NotFound (error_text err)
  else if errors_is err ErrLeaseNotOwned then GStatus PermissionDenied (error_text err)
  else GStatus InvalidArgument (error_text err).

(** [return response, registryError(err)]. *)
Definition grpc_result {A} (r : res A) : A + grpc_status :=
  match r with Ok a => inl a | Err e => inr (registryError e) end.

(** ** Effects of a handler *)

Inductive InstanceChangeType : Type := CHANGE_SNAPSHOT | CHANGE_UPSERT | CHANGE_DELETE.

Record InstanceChange : Type := {
  ic_Type : InstanceChangeType;
  ic_Instance : option ServiceInstance;
  ic_ServiceName : string;
  ic_InstanceId : string;
}.
Record WatchServiceResponse : Type := {
  wr_Revision : Z;
  wr_Changes : list InstanceChange;
}.

Inductive effect : Type :=
  | ERedis (c : rcall)
  | ESend (m : WatchServiceResponse)
  | ECtxErr
  | ECount (method code : string)
  | EPlatform (c : rcall).

(** [EReply] answers a Redis call; [EError] is the error value of [stream.Send]
    or of [stream.Context().Err()], nil when absent; counting a call, an effect of
    the metrics interceptors, has none.  [EPlatform] is a call of the platform's
    idempotency manager to its own store. *)
Inductive outcome : Type :=
  | EReply (r : reply)
  | EError (e : option grpc_status).

(** The outcomes of the effects other than the registry's calls to Redis. *)
Definition answers (e : effect) (o : outcome) : Prop :=
  match e, o with
  | EPlatform _, EReply _ => True
  | ESend _, EError _ | ECtxErr, EError _ | ECount _ _, EError _ => True
  | _, _ => False
  end.

Definition handler (A : Type) : Type := prog effect outcome A.

(** Code that only talks to Redis, inside a handler. *)
Fixpoint lift {A} (p : gprog A) : handler A :=
  match p with
  | Ret a => Ret a
  | Do c k => Do (ERedis c) (fun o =>
      match o with
      | EReply r => lift (k r)
      | EError _ => lift (k (RFail "no reply"))
      end)
  end.

(** [stream.Send(m)] and [stream.Context().Err()]. *)
Definition effect_error (o : outcome) : option grpc_status :=
  match o with EError e => e | EReply _ => None end.
Definition send (m : WatchServiceResponse) : handler (option grpc_status) :=
  Do (ESend m) (fun o => Ret (effect_error o)).
Definition ctx_err : handler (option grpc_status) := Do ECtxErr (fun o => Ret (effect_error o)).

(** ** Handlers *)

Section handlers.
Context {db : Type} `{RedisOps db} `{InstanceCodec} `{SliceSort}.

Definition unary {A} (p : gprog (res A)) : handler (A + grpc_status) :=
  let* r := lift p in Ret (grpc_result r).

Definition RegisterInstance (now : Z) (rnd : res (list ascii)) (request : RegisterInstanceRequest) :
    handler (RegisterInstanceResponse + grpc_status) := unary (service_Register now rnd request).
Definition RenewLease (now : Z) (request : RenewLeaseRequest) :
    handler (InstanceRevision + grpc_status) := unary (service_Renew now request).
Definition DeregisterInstance (request : DeregisterInstanceRequest) : handler (Z + grpc_status) :=
  unary (service_Deregister request).
Definition SetInstanceStatus (wall now : Z) (request : SetInstanceStatusRequest) :
    handler (InstanceRevision + grpc_status) := unary (service_SetStatus wall now request).
Definition GetInstance (serviceName instanceID : string) :
    handler (ServiceInstance + grpc_status) := unary (service_Get serviceName instanceID).
Definition ListInstances (request : ListInstancesRequest) :
    handler (ListInstancesResponse + grpc_status) := unary (service_List request).
Definition ListServices (prefix : string) : handler (ListServicesResponse + grpc_status) :=
  unary (service_ListServices prefix).

(** ** WatchService *)

Definition registryMatches (value : ServiceInstance) (selector : Selector) (includeDraining : bool) :
    bool :=
  if bool_decide (Status value = STATUS_DRAINING) && negb includeDraining then false
  else forallb (fun kv => bool_decide (default EmptyString (Metadata value !! kv.1) = kv.2))
         (map_to_list selector).

Definition snapshot_change (instance : ServiceInstance) : InstanceChange := {|
  ic_Type := CHANGE_SNAPSHOT; ic_Instance := Some instance;
  ic_ServiceName := ServiceName instance; ic_InstanceId := InstanceId instance |}.

(** The message for one change; [None] when it is of another service. *)
Definition watch_change (request : ListInstancesRequest) (value : Change) : option InstanceChange :=
  if negb (bool_decide (lst_ServiceName request = EmptyString)) &&
     negb (bool_decide (ch_Service value = lst_ServiceName request)) then None
  else
    let change ty inst := Some {| ic_Type := ty; ic_Instance := inst;
      ic_ServiceName := ch_Service value; ic_InstanceId := ch_Instance value |} in
    if bool_decide (ch_Type value = "delete") then change CHANGE_DELETE (ch_Value value)
    else
      match ch_Value value with
      | None => change CHANGE_DELETE None
      | Some v =>
          if negb (registryMatches v (lst_Selector request) (lst_IncludeDraining request))
          then change CHANGE_DELETE None
          else change CHANGE_UPSERT (ch_Value value)
      end.

(** The loop over the values of one read: the revision reached, or the error of
    [stream.Send]. *)
Fixpoint watch_values (request : ListInstancesRequest) (values : list Change) (revision : Z) :
    handler (Z + grpc_status) :=
  match values with
  | [] => Ret (inl revision)
  | value :: rest =>
      let revision := ch_Revision value in
      match watch_change request value with
      | None => watch_values request rest revision
      | Some change =>
          let* err := send {| wr_Revision := revision; wr_Changes := [change] |} in
          match err with
          | Some e => Ret (inr e)
          | None => watch_values request rest revision
          end
      end
  end.

(** The infinite loop, unrolled [rounds] times: [inl revision] is a watch still
    running at that revision. *)
Fixpoint watch_loop (rounds : nat) (request : ListInstancesRequest) (revision : Z) :
    handler (Z + grpc_status) :=
  match rounds with
  | O => Ret (inl revision)
  | S rounds' =>
      let* r := lift (store_Changes revision) in
      match r with
      | Err e => Ret (inr (registryError e))
      | Ok values =>
          let* out := watch_values request values revision in
          match out with
          | inr e => Ret (inr e)
          | inl revision =>
              let* err := ctx_err in
              match err with
              | Some e => Ret (inr e)
              | None => watch_loop rounds' request revision
              end
          end
      end
  end.

Definition WatchService (rounds : nat) (request : ListInstancesRequest) :
    handler (Z + grpc_status) :=
  let* r := lift (service_List request) in
  match r with
  | Err e => Ret (inr (registryError e))
  | Ok initial =>
      let changes := snapshot_change <$> lstr_Instances initial in
      let* err := send {| wr_Revision := lstr_Revision initial; wr_Changes := changes |} in
      match err with
      | Some e => Ret (inr e)
      | None => watch_loop rounds request (lstr_Revision initial)
      end
  end.

End handlers.

(** ** Running a handler alone *)

(** A stream that accepts every message and is not cancelled; the messages sent
    are kept in order. *)
Definition stream_handler {db} `{RedisOps db} (t : Z) (e : effect)
    (s : db * list WatchServiceResponse) : outcome * (db * list WatchServiceResponse) :=
  match e with
  | ERedis c => let (r, d') := exec_call t c s.1 in (EReply r, (d', s.2))
  | ESend m => (EError None, (s.1, s.2 ++ [m]))
  | ECtxErr | ECount _ _ => (EError None, s)
  | EPlatform _ => (EReply RNil, s)
  end.
