(* ===== verification/Watch.v ===== *)
(** * Watching a service

    The changes a reader of the stream decodes are exactly the events of the
    abstract log, in order, without gaps; [WatchService] sends a snapshot and
    then, for each such event, the message the request calls for. *)

From S2P Require Import Prelude GoText Redis RedisMem Proto RefCodec Store Service LeaseSpec StoreRefine CallRefine StoreRun Paging Validation Samples ServiceRun Listing GrpcRegistry.

Local Open Scope Z_scope.

(** ** Decoding the stream *)

(** [XREAD] after revision [n] skips the first [n] entries. *)
Lemma filter_after (log : list event) n :
  filter (fun e => sid_ltb (N.of_nat n, 0%N) (se_id e) = true) (encode_log log) =
  drop n (encode_log log).
Proof.
  induction log as [|e log IH] using rev_ind; [by destruct n|].
  rewrite encode_log_snoc, filter_app, IH.
  assert (length (encode_log log) = length log) as El by apply length_imap.
  rewrite filter_cons, filter_nil. unfold event_entry at 1. unfold sid_ltb. simpl se_id. simpl fst. simpl snd.
  rewrite andb_false_r, orb_false_r.
  destruct (N.ltb_spec (N.of_nat n) (N.of_nat (S (length log)))).
  - rewrite decide_True by done. by rewrite drop_app_le by lia.
  - rewrite decide_False by done. rewrite app_nil_r, !drop_ge; [done|rewrite length_app; simpl; lia|lia].
Qed.

Section watch.
Context {db : Type} `{RedisLaws db} `{CodecLaws}.

Definition event_value (e : event) : option ServiceInstance :=
  match ev_kind e with
  | Upsert p => match unmarshal p with Ok v => Some v | Err _ => None end
  | Delete => None
  end.

(** The change a reader sees for the event with index [n]. *)
Definition change_of (n : nat) (e : event) : Change := {|
  ch_Revision := Z.of_nat (S n);
  ch_Type := match ev_kind e with Upsert _ => "upsert" | Delete => "delete" end;
  ch_Service := ev_service e;
  ch_Instance := ev_instance e;
  ch_Value := event_value e;
|}.

Definition changes_of (log : list event) : list Change := imap change_of log.

(** The payloads in the log are JSON objects (marshalled instances). *)
Definition log_objects (log : list event) : Prop :=
  Forall (fun e => match ev_kind e with Upsert p => has_prefix "{" p = true | Delete => True end) log.

Ltac lookup_field :=
  unfold sprint_field; cbn [reverse rev_append rev' app];
  repeat first [ rewrite lookup_insert_eq | rewrite lookup_insert_ne by discriminate
               | rewrite lookup_empty ];
  try reflexivity.

Lemma sprint_upsert n s i p name :
  sprint_field (event_fields n (Event s i (Upsert p))) name =
  if bool_decide (name = "payload") then p else if bool_decide (name = "instance") then i
  else if bool_decide (name = "service") then s else if bool_decide (name = "type") then "upsert"
  else if bool_decide (name = "revision") then format_uint n else "<nil>".
Proof.
  unfold sprint_field, event_fields. cbn [ev_kind ev_service ev_instance].
  change (reverse _) with [("payload", p); ("instance", i); ("service", s); ("type", "upsert");
    ("revision", format_uint n)]. cbn [list_to_map foldr fst snd].
  repeat (case_bool_decide; [subst; by lookup_field|]).
  rewrite !lookup_insert_ne by congruence. by rewrite lookup_empty.
Qed.

Lemma sprint_delete n s i name :
  sprint_field (event_fields n (Event s i Delete)) name =
  if bool_decide (name = "instance") then i
  else if bool_decide (name = "service") then s else if bool_decide (name = "type") then "delete"
  else if bool_decide (name = "revision") then format_uint n else "<nil>".
Proof.
  unfold sprint_field, event_fields. cbn [ev_kind ev_service ev_instance].
  change (reverse _) with [("instance", i); ("service", s); ("type", "delete");
    ("revision", format_uint n)]. cbn [list_to_map foldr fst snd].
  repeat (case_bool_decide; [subst; by lookup_field|]).
  rewrite !lookup_insert_ne by congruence. by rewrite lookup_empty.
Qed.

(** Decoding a message gives back the event it was written for. *)
Lemma decode_event n e :
  Z.of_nat (S n) < 2 ^ 64 ->
  (match ev_kind e with Upsert p => has_prefix "{" p = true | Delete => True end) ->
  decode_change (sid_text (se_id (event_entry n e)), se_fields (event_entry n e)) =
  Some (change_of n e).
Proof.
  intros Hn Hp. unfold decode_change, event_entry. cbn [se_id se_fields fst snd].
  unfold sid_text. cbn [fst snd]. rewrite split_first_app by auto with registry.
  rewrite parse_format_uint by lia. cbv zeta. rewrite nat_N_Z. destruct e as [s i [p|]]; cbn [ev_kind] in Hp.
  - rewrite !sprint_upsert. cbn [bool_decide]. unfold change_of. cbn [ev_kind ev_service ev_instance event_value].
    assert (p <> "<nil>" /\ p <> EmptyString) as [H1' H2'] by (split; intros ->; discriminate Hp).
    simpl. by rewrite !bool_decide_eq_false_2 by done.
  - rewrite !sprint_delete. done.
Qed.

Lemma decode_log log :
  Z.of_nat (length log) < 2 ^ 64 -> log_objects log ->
  Forall2 (fun e c => decode_change (sid_text (se_id e), se_fields e) = Some c)
    (encode_log log) (changes_of log).
Proof.
  intros Hn Hlog. apply Forall2_same_length_lookup.
  unfold encode_log, changes_of. split; [by rewrite !length_imap|].
  intros i x y Hx Hy. rewrite list_lookup_imap in Hx. rewrite list_lookup_imap in Hy.
  destruct (log !! i) as [e|] eqn:E; [|done]. injection Hx as <-. injection Hy as <-.
  apply decode_event.
  - apply lookup_lt_Some in E. lia.
  - unfold log_objects in Hlog. by eapply Forall_lookup_1 in Hlog.
Qed.

(** What [Store.Changes] makes of the reply to its read. *)
Lemma decode_xread log (n : nat) :
  Z.of_nat (length log) < 2 ^ 64 -> log_objects log ->
  match as_messages (xread_reply (encode_log log) (N.of_nat n, 0%N) changes_count) with
  | Err e => if errors_is e redisNil then Ok [] else Err (EWrap "read registry changes" e)
  | Ok messages => Ok (omap decode_change messages)
  end = Ok (take changes_count (drop n (changes_of log))).
Proof.
  intros Hn Hlog.
  assert (Forall2 (fun e c => decode_change (sid_text (se_id e), se_fields e) = Some c)
    (take changes_count (drop n (encode_log log))) (take changes_count (drop n (changes_of log)))) as HF.
  { by apply Forall2_take, Forall2_drop, decode_log. }
  unfold xread_reply. rewrite filter_after.
  destruct (take changes_count (drop n (encode_log log))) as [|x l].
  { by inversion HF. }
  cbn [as_messages]. f_equal. rewrite list_omap_fmap. by apply omap_all_some.
Qed.

Lemma store_Changes_run t d r (n : nat) :
  refines t d r -> Z.of_nat n < 2 ^ 64 -> revision r < 2 ^ 64 -> log_objects (r_log r) ->
  computes t (store_Changes (Z.of_nat n)) d
    (Ok (take changes_count (drop n (changes_of (r_log r))))) r.
Proof.
  intros HR Hn Hrev Hlog. unfold store_Changes. rewrite <- nat_N_Z, N2Z.id.
  destruct (xread_call t d r (N.of_nat n) changes_count HR ltac:(lia)) as (d' & E & HR').
  exists d'. split; [|done]. unfold run_at. cbn [pbind call prun]. rewrite E. f_equal.
  by apply decode_xread.
Qed.

(** ** Running the watch loop on a stream that accepts every message *)

Definition watch_message (request : ListInstancesRequest) (c : Change) :
    option WatchServiceResponse :=
  (fun ch => {| wr_Revision := ch_Revision c; wr_Changes := [ch] |}) <$> watch_change request c.

(** The handler [h] finishes with [a] after sending [out], and the database still
    represents [r]. *)
Definition serves {A} (t : Z) (h : handler A) (d : db) (a : A) (out : list WatchServiceResponse)
    (r' : registry) : Prop :=
  forall sent, exists d', prun (stream_handler t) h (d, sent) = (a, (d', sent ++ out)) /\
    refines t d' r'.

Lemma serves_ret {A} t (a : A) d r : refines t d r -> serves t (Ret a) d a [] r.
Proof. intros HR sent. exists d. by rewrite app_nil_r. Qed.

Lemma prun_lift {A} t (p : gprog A) (d : db) sent :
  prun (stream_handler t) (lift p) (d, sent) =
  let (a, d') := run_at t p d in (a, (d', sent)).
Proof.
  unfold run_at. revert d. induction p as [a|c k IH]; intros d; simpl; [done|].
  destruct (exec_call t c d). apply IH.
Qed.

Lemma serves_lift {A B} t (p : gprog A) (f : A -> handler B) d a b out r r' :
  computes t p d a r -> (forall d', refines t d' r -> serves t (f a) d' b out r') ->
  serves t (pbind (lift p) f) d b out r'.
Proof.
  intros (d1 & E & HR) Hf sent. destruct (Hf d1 HR sent) as (d2 & E2 & HR2).
  exists d2. by rewrite prun_bind, prun_lift, E.
Qed.

Lemma serves_send {B} t m (f : option grpc_status -> handler B) d b out r' :
  serves t (f None) d b out r' -> serves t (pbind (send m) f) d b (m :: out) r'.
Proof.
  intros Hf sent. destruct (Hf (sent ++ [m])) as (d2 & E2 & HR2). exists d2. split; [|done].
  cbn [send pbind prun stream_handler fst snd effect_error]. rewrite E2.
  by rewrite <- app_assoc.
Qed.

Lemma serves_bind {A B} t (h : handler A) (f : A -> handler B) d a b out1 out2 r r' :
  serves t h d a out1 r -> (forall d', refines t d' r -> serves t (f a) d' b out2 r') ->
  serves t (pbind h f) d b (out1 ++ out2) r'.
Proof.
  intros Hh Hf sent. destruct (Hh sent) as (d1 & E1 & HR1).
  destruct (Hf d1 HR1 (sent ++ out1)) as (d2 & E2 & HR2). exists d2. split; [|done].
  by rewrite prun_bind, E1, app_assoc.
Qed.

(** The revision after a list of changes. *)
Definition reached (rev : Z) (cs : list Change) : Z := default rev (ch_Revision <$> last cs).

Lemma watch_values_serves t request cs rev d r :
  refines t d r ->
  serves t (watch_values request cs rev) d (inl (reached rev cs))
    (omap (watch_message request) cs) r.
Proof.
  intros HR. revert rev. induction cs as [|c cs IH]; intros rev; cbn [watch_values omap list_omap].
  { by apply serves_ret. }
  assert (reached rev (c :: cs) = reached (ch_Revision c) cs) as ->.
  { unfold reached. destruct cs as [|c' cs _] using rev_ind; [done|].
    change (c :: cs ++ [c']) with ((c :: cs) ++ [c']). by rewrite !last_snoc. }
  unfold watch_message at 1. destruct (watch_change request c) as [ch|]; cbn [fmap option_fmap option_map].
  - by apply serves_send.
  - apply IH.
Qed.

Lemma reached_drop log n :
  reached (Z.of_nat n) (take changes_count (drop n (changes_of log))) =
  Z.of_nat (if decide (n < length log)%nat then Nat.min (n + changes_count) (length log) else n).
Proof.
  unfold reached. set (l := changes_of log).
  assert (length l = length log) as El by apply length_imap.
  destruct (decide (n < length log)%nat) as [Hlt|Hge].
  - set (m := Nat.min (n + changes_count) (length log)).
    assert (last (take changes_count (drop n l)) = l !! (m - 1)%nat) as ->.
    { rewrite last_lookup, length_take, length_drop, El.
      rewrite lookup_take_lt by (unfold m, changes_count in *; lia).
      rewrite lookup_drop. f_equal. unfold m, changes_count in *. lia. }
    unfold l, changes_of. rewrite list_lookup_imap.
    destruct (lookup_lt_is_Some_2 log (m - 1)%nat) as [e ->]; [unfold m, changes_count in *; lia|].
    simpl. unfold m, changes_count. lia.
  - by rewrite drop_ge, take_nil by lia.
Qed.

Lemma take_take_drop_app {A} (l : list A) n k m :
  take k (drop n l) ++ take m (drop (n + k) l) = take (k + m) (drop n l).
Proof. rewrite <- drop_drop. apply take_take_drop. Qed.

(** From revision [n], [rounds] reads deliver the next [128 * rounds] events. *)
Lemma watch_loop_serves t request rounds d r (n : nat) :
  refines t d r -> revision r < 2 ^ 64 -> log_objects (r_log r) ->
  (n <= length (r_log r))%nat ->
  serves t (watch_loop rounds request (Z.of_nat n)) d
    (inl (Z.of_nat (Nat.min (n + rounds * changes_count) (length (r_log r)))))
    (omap (watch_message request) (take (rounds * changes_count) (drop n (changes_of (r_log r))))) r.
Proof.
  intros HR Hrev Hlog. revert d n HR. induction rounds as [|rounds IH]; intros d n HR Hn.
  { cbn [watch_loop]. replace (Nat.min _ _) with n by lia. by apply serves_ret. }
  cbn [watch_loop]. eapply serves_lift.
  { apply store_Changes_run; try done. unfold revision in Hrev. lia. }
  intros d1 HR1. set (m := (if decide (n < length (r_log r))%nat
    then Nat.min (n + changes_count) (length (r_log r)) else n)).
  pose proof (watch_values_serves t request (take changes_count (drop n (changes_of (r_log r))))
    (Z.of_nat n) d1 r HR1) as HV.
  rewrite reached_drop in HV. fold m in HV.
  assert (m <= length (r_log r))%nat as Hm by (unfold m; case_decide; lia).
  assert (omap (watch_message request) (take (S rounds * changes_count) (drop n (changes_of (r_log r)))) =
    omap (watch_message request) (take changes_count (drop n (changes_of (r_log r)))) ++
    omap (watch_message request) (take (rounds * changes_count) (drop m (changes_of (r_log r))))) as ->.
  { rewrite <- omap_app. f_equal. cbn [Nat.mul]. rewrite <- take_take_drop_app. f_equal.
    assert (length (changes_of (r_log r)) = length (r_log r)) as El by apply length_imap.
    unfold m. case_decide; [|by rewrite !drop_ge by lia].
    destruct (Nat.min_spec (n + changes_count) (length (r_log r))) as [[? ->]|[? ->]]; [done|].
    by rewrite !drop_ge by lia. }
  eapply serves_bind; [exact HV|]. intros d2 HR2. cbv beta iota.
  replace (Nat.min (n + S rounds * changes_count) (length (r_log r)))
    with (Nat.min (m + rounds * changes_count) (length (r_log r)))
    by (unfold m; case_decide; unfold changes_count; lia).
  exact (IH d2 m HR2 Hm).
Qed.

(** [Store.Changes] after revision n returns the next 128 events of the log,
    each decoded back to the service, instance, kind and value it was published
    with, in order and under consecutive revisions. *)
Lemma changes_exact t (d : db) r (n : nat) :
  refines t d r -> Z.of_nat n < 2 ^ 64 -> revision r < 2 ^ 64 -> log_objects (r_log r) ->
  exists d', run_at t (store_Changes (Z.of_nat n)) d =
      (Ok (take 128 (drop n (imap change_of (r_log r)))), d') /\ refines t d' r.
Proof. intros HR Hn Hrev Hlog. by apply store_Changes_run. Qed.

(** What a watcher is told of the event with index [n]: nothing when it is of a
    service the request does not name; the instance when it was written and passes
    the filter of the request; else that it is gone. *)
Definition event_message (request : ListInstancesRequest) (n : nat) (e : event) :
    option WatchServiceResponse :=
  if bool_decide (lst_ServiceName request = EmptyString \/ ev_service e = lst_ServiceName request) then
    let shown := v ← event_value e;
      if registryMatches v (lst_Selector request) (lst_IncludeDraining request) then Some v else None in
    Some {| wr_Revision := Z.of_nat n + 1;
            wr_Changes := [ {| ic_Type := match shown with Some _ => CHANGE_UPSERT | None => CHANGE_DELETE end;
                               ic_Instance := shown; ic_ServiceName := ev_service e;
                               ic_InstanceId := ev_instance e |} ] |}
  else None.

Lemma watch_message_event request n e :
  watch_message request (change_of n e) = event_message request n e.
Proof.
  unfold watch_message, watch_change, event_message, change_of.
  cbn [ch_Service ch_Type ch_Value ch_Revision ch_Instance].
  replace (Z.of_nat (S n)) with (Z.of_nat n + 1) by lia.
  destruct (decide (lst_ServiceName request = EmptyString)) as [E1|E1];
    [rewrite (bool_decide_eq_true_2 _ E1)|rewrite (bool_decide_eq_false_2 _ E1)];
    (destruct (decide (ev_service e = lst_ServiceName request)) as [E2|E2];
     [rewrite (bool_decide_eq_true_2 _ E2)|rewrite (bool_decide_eq_false_2 _ E2)]); cbn [negb andb].
  4: { rewrite bool_decide_eq_false_2 by tauto. done. }
  all: rewrite (bool_decide_eq_true_2 (_ \/ _)) by tauto; unfold event_value;
    destruct (ev_kind e) as [q|]; [|done]; destruct (unmarshal q) as [v|]; [|done];
    cbn [mbind option_bind]; by destruct (registryMatches v _ _).
Qed.

Lemma event_messages request log :
  imap (event_message request) log = watch_message request <$> changes_of log.
Proof. unfold changes_of. rewrite fmap_imap. apply imap_ext. intros. symmetry. apply watch_message_event. Qed.

Lemma messages_of_log request n log :
  omap (watch_message request) (drop n (changes_of log)) =
  omap (fun o => o) (drop n (imap (event_message request) log)).
Proof. by rewrite event_messages, <- fmap_drop, list_omap_fmap. Qed.

Lemma some_messages_of_log request k n log :
  omap (watch_message request) (take k (drop n (changes_of log))) =
  omap (fun o => o) (take k (drop n (imap (event_message request) log))).
Proof. by rewrite event_messages, <- fmap_drop, <- fmap_take, list_omap_fmap. Qed.

(** C9: from the revision n of its snapshot on, a watch whose stream accepts its
    messages sends, in order of revision, exactly one message for each logged
    event the request concerns: none is skipped, repeated or reordered, and the
    watch ends up at the current revision as soon as it has read 128 entries per
    round often enough. *)
Theorem watch_delivers_log t request rounds (d : db) r (n : nat) :
  refines t d r -> revision r < 2 ^ 64 -> log_objects (r_log r) ->
  (n <= length (r_log r))%nat -> (length (r_log r) <= n + rounds * changes_count)%nat ->
  forall sent, exists d',
    prun (stream_handler t) (watch_loop rounds request (Z.of_nat n)) (d, sent) =
      (inl (revision r),
       (d', sent ++ omap (fun o => o) (drop n (imap (event_message request) (r_log r))))) /\
    refines t d' r.
Proof.
  intros HR Hrev Hlog Hn Hr sent. rewrite <- messages_of_log.
  destruct (watch_loop_serves t request rounds d r n HR Hrev Hlog Hn sent) as (d' & E & HR').
  exists d'. split; [|done]. rewrite E.
  assert (length (changes_of (r_log r)) = length (r_log r)) as El by apply length_imap.
  rewrite take_ge by (rewrite length_drop; lia). unfold revision. repeat f_equal. lia.
Qed.

Context `{SliceSortLaws}.

(** A watch begins with one message that holds exactly the instances a
    listing of the same request returns at the current revision, in the same
    order; with nothing happening it then stays silent. *)
Lemma watch_snapshot t request rounds (d : db) r :
  refines t d r -> revision r < lua_max -> well_stored r -> log_objects (r_log r) ->
  request_ok request -> Z.of_nat (length (wanted t r request)) < 2 ^ 62 ->
  exists sorted,
    sorted ≡ₚ wanted t r request /\
    StronglySorted (fun a b => instance_less b a = false) sorted /\
    forall sent, exists d',
      prun (stream_handler t) (WatchService rounds request) (d, sent) =
        (inl (revision r),
         (d', sent ++ [{| wr_Revision := revision r; wr_Changes := snapshot_change <$> sorted |}])).
Proof.
  intros HR Hrev Hw Hlog Hok Hlen.
  destruct (list_run t d r request 0 0 HR Hrev (well_stored_decodes t r Hw) Hok)
    as (sorted & r' & (d1 & E1 & HR1) & Hperm & Hsort & Hpr); [split; vm_compute; discriminate..|done|].
  exists sorted. split_and!; [done..|]. intros sent.
  assert (computes t (service_List request) d
    (Ok {| lstr_Instances := sorted; lstr_Revision := revision r |}) r') as HL.
  { eapply computes_gbind_at; [exact E1|]. by apply computes_ret. }
  assert (serves t (WatchService rounds request) d (inl (revision r))
    [{| wr_Revision := revision r; wr_Changes := snapshot_change <$> sorted |}] r') as HS.
  { eapply serves_lift; [exact HL|]. intros d2 HR2. cbn [lstr_Instances lstr_Revision].
    apply serves_send. rewrite <- (pruned_revision t r r' Hpr).
    pose proof (watch_loop_serves t request rounds d2 r' (length (r_log r')) HR2) as HW.
    rewrite drop_ge, take_nil, Nat.min_r in HW by (try (unfold changes_of; rewrite length_imap); lia).
    apply HW; [|by rewrite (pr_log _ _ _ Hpr)|done].
    rewrite (pruned_revision t r r' Hpr). unfold lua_max in Hrev. lia. }
  destruct (HS sent) as (d' & E & _). by exists d'.
Qed.

End watch.

(** ** Witnesses *)

Lemma sample_log_objects : log_objects (r_log sample_registry).
Proof. by repeat constructor. Qed.

Lemma changes_exact_witness :
  exists d', run_at 1000 (store_Changes 0) sample_db =
    (Ok [change_of 0 (Event "orders" "a" (Upsert (payload_of sample_stored)))], d') /\
    refines 1000 d' sample_registry.
Proof.
  apply (changes_exact 1000 sample_db sample_registry 0);
    [apply sample_refines; discriminate|reflexivity|reflexivity|apply sample_log_objects].
Defined.

Lemma watch_delivers_log_witness :
  exists d', prun (stream_handler 1000) (watch_loop 1 sample_list 0) (sample_db, []) =
    (inl 1, (d', [ {| wr_Revision := 1; wr_Changes := [ {| ic_Type := CHANGE_UPSERT;
      ic_Instance := Some sample_stored; ic_ServiceName := "orders"; ic_InstanceId := "a" |} ] |} ])) /\
    refines 1000 d' sample_registry.
Proof.
  destruct (watch_delivers_log 1000 sample_list 1 sample_db sample_registry 0) with (sent := @nil WatchServiceResponse)
    as (d' & E & HR);
    [apply sample_refines; discriminate|reflexivity|apply sample_log_objects
    |vm_compute; lia|vm_compute; lia|].
  exists d'. exact (conj E HR).
Defined.

Lemma watch_snapshot_witness :
  exists sorted, sorted ≡ₚ [sample_stored] /\
    forall sent, exists d',
      prun (stream_handler 1000) (WatchService 2 sample_list) (sample_db, sent) =
        (inl 1, (d', sent ++ [{| wr_Revision := 1; wr_Changes := snapshot_change <$> sorted |}])).
Proof.
  destruct (watch_snapshot 1000 sample_list 2 sample_db sample_registry)
    as (sorted & HP & _ & HS); [apply sample_refines; discriminate|vm_compute; reflexivity
    |apply sample_well_stored|apply sample_log_objects|vm_compute; reflexivity|vm_compute; reflexivity|].
  exists sorted. exact (conj HP HS).
Defined.
