(* ===== verification/System.v ===== *)
(** * The whole registry: concurrent requests against one Redis

    Any number of handlers run at once; between two effects of one handler the
    others make theirs, the clock moves, requests and replies get lost and
    handlers die.  [reach] is reachability in this system; its invariant is that
    the database represents an abstract registry that LeaseSpec.v can reach, with
    well-formed payloads. *)

From S2P Require Import Prelude GoText Regex Redis RedisMem Proto RefCodec Store Service LeaseSpec StoreRefine CallRefine StoreRun Paging Validation Samples ServiceRun Listing GrpcRegistry Watch.

Local Open Scope Z_scope.
Local Open Scope go_scope.

(** ** The calls the handlers make *)

Section calls.
Context {db : Type} `{RedisLaws db} `{CodecLaws} `{SliceSort}.

(** An instance that may be written: valid text, valid service name. *)
Definition writable (v : ServiceInstance) (p : string) : Prop :=
  marshal v = Ok p /\ utf8_instance v = true /\ name_ok (ServiceName v) = true.

Inductive registry_call : rcall -> Prop :=
  | rc_register v p token lease : writable v p ->
      registry_call (registerCall (ServiceName v) (InstanceId v) p token lease)
  | rc_update v p token lease : writable v p ->
      registry_call (updateCall (ServiceName v) (InstanceId v) p token lease)
  | rc_delete s i token : registry_call (deleteCall s i token)
  | rc_srem s ids : registry_call (CCmd (SREM (serviceKey s) ids))
  | rc_get k : registry_call (CCmd (GET k))
  | rc_members s : registry_call (CCmd (SMEMBERS (serviceKey s)))
  | rc_services : registry_call (CCmd (SMEMBERS servicesKey))
  | rc_xread n count : (n < 2 ^ 64)%N ->
      registry_call (CCmd (XREAD streamKey (format_uint n +:+ "-0") count)).

(** What the server guarantees about its replies: a payload key holds a payload
    of its own instance. *)
Definition honest (c : rcall) (r : reply) : Prop :=
  match c, r with
  | CCmd (GET k), RBulk p => forall s i, k = instanceKey s i -> stored_as (lease_id s i) p
  | _, _ => True
  end.

(** The same for the effects of a handler. *)
Definition registry_effect (e : effect) : Prop :=
  match e with ERedis c => registry_call c | _ => True end.
Definition honest_outcome (e : effect) (o : outcome) : Prop :=
  match e, o with ERedis c, EReply r => honest c r | _, _ => True end.

Abbreviation good p := (issues registry_call honest p).
Abbreviation good_handler h := (issues registry_effect honest_outcome h).

(** An instance read back from the store. *)
Definition read_back (v : ServiceInstance) : Prop :=
  utf8_instance v = true /\ name_ok (ServiceName v) = true.

Lemma good_register v token lease :
  utf8_instance v = true -> name_ok (ServiceName v) = true -> good (store_Register v token lease).
Proof.
  intros Hu Hn. unfold store_Register. destruct (marshal v) as [p|e] eqn:E; [|done].
  split; [|done]. by apply rc_register.
Qed.

Lemma good_update v token lease :
  utf8_instance v = true -> name_ok (ServiceName v) = true -> good (store_Update v token lease).
Proof.
  intros Hu Hn. unfold store_Update. destruct (marshal v) as [p|e] eqn:E; [|done].
  split; [|done]. by apply rc_update.
Qed.

Lemma good_get s i : good (store_Get s i).
Proof. split; [apply rc_get|done]. Qed.

Lemma get_reads_back s i : returns_ok honest read_back (store_Get s i).
Proof.
  intros r Hr. cbn. destruct r; cbn; try done; try (by case_match). 
  specialize (Hr s i eq_refl) as (v & Hu & _ & Hn). rewrite Hu.
  split; [by apply (codec_valid _ _ Hu)|done].
Qed.

Lemma good_revision : good read_revision.
Proof. split; [apply rc_get|done]. Qed.

Definition uint64 (z : Z) : Prop := 0 <= z < 2 ^ 64.

Lemma revision_uint64 : returns_ok honest uint64 read_revision.
Proof.
  intros r _. cbn. destruct r; cbn; try done.
  destruct (parse_uint s) as [n|] eqn:E; [|done]. apply parse_uint_bound in E.
  unfold uint64. lia.
Qed.

Lemma good_list_loop s ids vs st : good (list_loop s ids vs st).
Proof.
  revert vs st. induction ids as [|i ids IH]; intros vs st; [done|].
  cbn [list_loop]. apply issues_seq; [apply good_get|].
  intros [v|e]; [apply IH|]. destruct (errors_is e ErrNotFound); [apply IH|done].
Qed.

Lemma good_list s : good (store_List s).
Proof.
  split; [apply rc_members|]. intros r _. cbn [pbind]. destruct (as_strings r) as [ids|e]; [|exact I].
  apply issues_gseq; [apply good_list_loop|]. intros [vs st].
  apply issues_seq; [destruct st; [done|split; [apply rc_srem|done]]|]. intros _.
  apply issues_gseq; [apply good_revision|done].
Qed.

(** The revision of a listing is one that was read, or zero: what replies [G] make
    true of every revision read, they make true of it. *)
Section revisions.
Context (G : rcall -> reply -> Prop) (U : Z -> Prop).
Hypothesis read_U : returns_ok G U read_revision.
Hypothesis zero_U : U 0.

Lemma list_revision s : returns_ok G (fun x => U x.2) (store_List s).
Proof.
  intros r _. cbn [pbind]. destruct (as_strings r) as [ids|e]; [|exact I].
  eapply returns_gbind; [apply returns_gtrue|]. intros [vs st] _.
  eapply returns_bind; [apply returns_true|]. intros _ _.
  eapply returns_gbind; [apply read_U|]. done.
Qed.

Lemma services_revision_read : returns_ok G (fun x => U x.2) store_Services.
Proof.
  intros r _. cbn [pbind]. destruct (as_strings r) as [names|e]; [|exact I].
  eapply returns_gbind; [apply read_U|]. done.
Qed.

Lemma collect_revision names vs rev :
  U rev -> returns_ok G (fun x => U x.2) (collect names vs rev).
Proof.
  revert vs rev. induction names as [|s names IH]; intros vs rev Hr; [exact Hr|].
  cbn [collect]. eapply returns_gbind; [apply list_revision|]. intros [l cur] Hc.
  apply IH. by destruct (rev <? cur).
Qed.

Lemma service_List_revision req :
  returns_ok G (fun x => U (lstr_Revision x)) (service_List req).
Proof.
  eapply (returns_gbind _ (fun x => U (lstr_Revision x.1))); [|by intros [resp n] Hr].
  unfold service_list. destruct (_ && bool_decide (lst_Selector req = ∅)); [exact I|].
  destruct (negb _ && negb _); [exact I|].
  eapply (returns_gbind _ (fun x => U x.2)).
  { case_bool_decide; [apply services_revision_read|exact zero_U]. }
  intros [names rev] Hr. eapply returns_gbind; [by apply collect_revision|].
  intros [vs rev'] Hr'. cbn. by destruct (select_instances req vs 0 0) as [[? ?]|].
Qed.

End revisions.

Lemma good_services : good store_Services.
Proof.
  split; [apply rc_services|]. intros r _. cbn [pbind]. destruct (as_strings r) as [names|e]; [|exact I].
  apply issues_gseq; [apply good_revision|done].
Qed.

Lemma good_changes after : uint64 after -> good (store_Changes after).
Proof. intros Ha. split; [|done]. apply rc_xread. unfold uint64 in Ha. lia. Qed.

Lemma changes_uint64 after :
  returns_ok honest (Forall (fun c => uint64 (ch_Revision c))) (store_Changes after).
Proof.
  intros r _. cbn. destruct (as_messages r) as [ms|e]; [|destruct (errors_is e redisNil); [constructor|exact I]].
  apply Forall_forall. intros c Hc. apply list_elem_of_omap in Hc as (m & _ & Hm).
  unfold decode_change in Hm. destruct (parse_uint _) as [n|] eqn:E; [|done].
  apply parse_uint_bound in E. injection Hm as <-. unfold uint64. simpl. lia.
Qed.

(** *** The service *)

Lemma good_service_Register now rnd req :
  (forall v, reg_Instance req = Some v -> utf8_instance v = true) ->
  good (service_Register now rnd req).
Proof.
  intros Hu. unfold service_Register.
  destruct (validateInstance (reg_Instance req)) as [v|e] eqn:E; [|exact I].
  apply validateInstance_ok in E as (E & Hn & _). destruct rnd as [bytes|e]; [|exact I].
  apply issues_gseq; [|intros; exact I]. apply good_register; [|done].
  by rewrite forallb_utf8_clone, Hu.
Qed.

Lemma good_service_Renew now req : good (service_Renew now req).
Proof.
  eapply issues_gbind; [apply good_get|apply get_reads_back|]. intros v [Hu Hn].
  apply issues_gseq; [|intros; exact I]. by apply good_update.
Qed.

Lemma good_service_SetStatus wall now req : good (service_SetStatus wall now req).
Proof.
  unfold service_SetStatus. destruct (negb _ && negb _); [exact I|].
  eapply issues_gbind; [apply good_get|apply get_reads_back|]. intros v [Hu Hn].
  destruct (_ <=? 0); [exact I|]. apply issues_gseq; [|intros; exact I]. by apply good_update.
Qed.

Lemma good_service_Deregister req : good (service_Deregister req).
Proof. split; [apply rc_delete|done]. Qed.

Lemma good_service_Get s i : good (service_Get s i).
Proof. unfold service_Get. destruct (_ || _); [exact I|apply good_get]. Qed.

Lemma good_collect names vs rev : good (collect names vs rev).
Proof.
  revert vs rev. induction names as [|s names IH]; intros vs rev; [exact I|].
  cbn [collect]. apply issues_gseq; [apply good_list|]. intros [l cur]. apply IH.
Qed.

Lemma good_service_list req page size : good (service_list req page size).
Proof.
  unfold service_list. destruct (_ && bool_decide (lst_Selector req = ∅)); [exact I|].
  destruct (negb _ && negb _); [exact I|].
  apply issues_gseq; [case_bool_decide; [apply good_services|exact I]|]. intros [names rev].
  apply issues_gseq; [apply good_collect|]. intros [vs rev']. exact I.
Qed.

Lemma good_service_List req : good (service_List req).
Proof. apply issues_gseq; [apply good_service_list|]. intros [resp n]. exact I. Qed.

Lemma good_summaries names prefix acc : good (summaries names prefix acc).
Proof.
  revert acc. induction names as [|s names IH]; intros acc; [exact I|].
  cbn [summaries]. destruct (negb _ && negb _); [apply IH|].
  apply issues_gseq; [apply good_list|]. intros [l cur]. apply IH.
Qed.

Lemma good_service_listServices prefix page size : good (service_listServices prefix page size).
Proof.
  apply issues_gseq; [apply good_services|]. intros [names rev].
  apply issues_gseq; [apply good_summaries|]. intros l. exact I.
Qed.

Lemma good_service_ListServices prefix : good (service_ListServices prefix).
Proof. apply issues_gseq; [apply good_service_listServices|]. intros [resp n]. exact I. Qed.

(** *** The handlers *)

Lemma good_lift {A} (p : gprog A) : good p -> good_handler (lift p).
Proof.
  induction p as [a|c k IH]; [done|]. intros [Hc Hk]. split; [done|].
  intros [r|e] Ho; cbn in *; apply IH, Hk; [done|]. by destruct c as [[]|].
Qed.

Lemma returns_lift {A} (V : A -> Prop) (p : gprog A) :
  returns honest V p -> returns honest_outcome V (lift p).
Proof.
  induction p as [a|c k IH]; [done|]. intros Hk [r|e] Ho; cbn in *; apply IH, Hk; [done|].
  by destruct c as [[]|].
Qed.

Lemma good_unary {A} (p : gprog (res A)) : good p -> good_handler (unary p).
Proof. intros Hp. apply issues_seq; [by apply good_lift|]. intros; exact I. Qed.

Lemma good_watch_values request values rev : good_handler (watch_values request values rev).
Proof.
  revert rev. induction values as [|c values IH]; intros rev; [exact I|].
  cbn [watch_values]. destruct (watch_change request c); [|apply IH].
  split; [exact I|]. intros o _. cbn. destruct (effect_error o); [exact I|apply IH].
Qed.

Lemma watch_values_uint64 request values rev :
  Forall (fun c => uint64 (ch_Revision c)) values -> uint64 rev ->
  returns honest_outcome (fun x => match x with inl rev => uint64 rev | inr _ => True end)
    (watch_values request values rev).
Proof.
  intros HF. revert rev. induction HF as [|c values Hc HF IH]; intros rev Hr; [exact Hr|].
  cbn [watch_values]. destruct (watch_change request c); [|by apply IH].
  intros o _. cbn. destruct (effect_error o); [exact I|by apply IH].
Qed.

Lemma good_watch_loop rounds request rev :
  uint64 rev -> good_handler (watch_loop rounds request rev).
Proof.
  revert rev. induction rounds as [|rounds IH]; intros rev Hr; [exact I|]. cbn [watch_loop].
  eapply issues_bind; [by apply good_lift, good_changes|apply returns_lift, changes_uint64|].
  intros [values|e] Hv; [|exact I].
  eapply issues_bind; [apply good_watch_values|by apply watch_values_uint64|].
  intros [rev'|e] Hr'; [|exact I]. split; [exact I|]. intros o _. cbn.
  destruct (effect_error o); [exact I|by apply IH].
Qed.

Lemma good_WatchService rounds request : good_handler (WatchService rounds request).
Proof.
  eapply issues_bind; [apply good_lift, good_service_List
    |apply returns_lift, (service_List_revision honest uint64); [apply revision_uint64|done]|].
  intros [resp|e] Hr; [|exact I]. split; [exact I|]. intros o _. cbn.
  destruct (effect_error o); [exact I|by apply good_watch_loop].
Qed.

End calls.

(** ** One call, as an action of the abstract registry *)

Section action.
Context {db : Type} `{RedisLaws db} `{CodecLaws}.

Inductive call_action : rcall -> action -> Prop :=
  | ca_register s i p token lease :
      call_action (registerCall s i p token lease)
        (ARegister s i p (hashToken token) (milliseconds lease))
  | ca_update s i p token lease :
      call_action (updateCall s i p token lease)
        (AUpdate s i p (hashToken token) (milliseconds lease))
  | ca_delete s i token : call_action (deleteCall s i token) (ADelete s i (hashToken token))
  | ca_srem s ids : call_action (CCmd (SREM (serviceKey s) ids)) (AUnlist s ids)
  | ca_get k : call_action (CCmd (GET k)) ARead
  | ca_smembers k : call_action (CCmd (SMEMBERS k)) ARead
  | ca_xread k start count : call_action (CCmd (XREAD k start count)) ARead.

(** The payload an action writes is well formed. *)
Definition payload_ok (x p : string) : Prop := stored_as x p /\ has_prefix "{" p = true.

Definition action_ok (a : action) : Prop :=
  match a with
  | ARegister s i p _ _ | AUpdate s i p _ _ => payload_ok (lease_id s i) p
  | _ => True
  end.

Lemma writable_payload v p :
  writable v p -> payload_ok (lease_id (ServiceName v) (InstanceId v)) p.
Proof.
  intros (Hm & Hu & Hn). split; [|by apply (codec_object v)].
  exists v. split_and!; [by apply codec_roundtrip|done|done].
Qed.

(** What the database must represent for a call to be safe. *)
Definition consistent (t : Z) (d : db) (r : registry) : Prop :=
  refines t d r /\ well_stored r /\ log_objects (r_log r).

Lemma well_stored_act t a r : action_ok a -> well_stored r -> well_stored (act t a r).2.
Proof.
  intros Ha Hw. destruct a as [s i p h px|s i p h px|s i h|s ids|]; cbn [act action_ok] in *; try done;
    destruct (held t r (lease_id s i)); try done; try (destruct (negb _); [done|]);
    try (destruct (px <=? 0); [done|]); intros x l'; cbn.
  - rewrite lookup_insert_Some. intros [[<- <-]|[_ Hl]]; [apply Ha|by apply Hw].
  - rewrite lookup_insert_Some. intros [[<- <-]|[_ Hl]]; [apply Ha|by apply Hw].
  - rewrite lookup_delete_Some. intros [_ Hl]. by apply Hw.
Qed.

Lemma log_objects_act t a r :
  action_ok a -> log_objects (r_log r) -> log_objects (r_log (act t a r).2).
Proof.
  intros Ha Hl. destruct a as [s i p h px|s i p h px|s i h|s ids|]; cbn [act action_ok] in *; try done;
    destruct (held t r (lease_id s i)); try done; try (destruct (negb _); [done|]);
    try (destruct (px <=? 0); [done|]); cbn; apply Forall_app; split; try done;
    repeat constructor; apply Ha.
Qed.

(** A registry call performs an action with a well-formed payload, and its reply
    is honest. *)
Lemma registry_call_acts t d r c :
  consistent t d r -> revision r + 1 < lua_max -> registry_call c ->
  exists a, call_action c a /\ consistent t (exec_call t c d).2 (act t a r).2 /\
    honest c (exec_call t c d).1.
Proof.
  intros (HR & Hw & Hl) Hn Hc.
  assert (exists a, call_action c a /\ action_ok a /\ refines t (exec_call t c d).2 (act t a r).2 /\
    honest c (exec_call t c d).1) as (a & Hca & Hok & HR' & Hh).
  { destruct Hc as [v p token lease Hwr|v p token lease Hwr|s i token|s ids|k|s| |n count Hlt].
    - eexists. split_and!; [constructor|by apply writable_payload|by apply register_call_performs|done].
    - eexists. split_and!; [constructor|by apply writable_payload|by apply update_call_performs|done].
    - eexists. split_and!; [constructor|done|by apply delete_call_performs|done].
    - eexists. split_and!; [constructor|done|by apply srem_call_refines|done].
    - exists ARead. destruct (read_refines t d (GET k) _ r (law_get d t k) HR) as (d' & E & HR').
      rewrite E. split_and!; [constructor|done|done|]. cbn. destruct (get_reply _) eqn:Er; try done.
      intros s' i' ->. rewrite instanceKey_id, (ref_instance _ _ _ HR) in Er.
      destruct (held t r (lease_id s' i')) as [l|] eqn:Hh; [|done]. cbn in Er. injection Er as <-.
      by apply (held_stored t r).
    - exists ARead. destruct (smembers_service_call t d r s HR) as (l & d' & E & HR' & _).
      rewrite E. split_and!; [constructor|done|done|done].
    - exists ARead. destruct (smembers_services_call t d r HR) as (l & d' & E & HR' & _).
      rewrite E. split_and!; [constructor|done|done|done].
    - exists ARead. destruct (xread_call t d r n count HR Hlt) as (d' & E & HR').
      rewrite E. split_and!; [constructor|done|done|done]. }
  exists a. split; [done|]. split; [|done].
  split; [done|]. split; [by apply well_stored_act|by apply log_objects_act].
Qed.

End action.

(** A call that changes a held lease presents a token with its hash. *)
Section frame.
Context {db : Type} `{RedisLaws db} `{CodecLaws}.

Lemma act_frame t a r x l :
  held t r x = Some l ->
  held t (act t a r).2 x = Some l \/
  (exists s i, lease_id s i = x /\
    (a = ADelete s i (l_hash l) \/ exists p px, a = AUpdate s i p (l_hash l) px)).
Proof.
  intros Hx. destruct a as [s i p h px|s i p h px|s i h|s ids|]; cbn [act]; try (by left).
  - destruct (held t r (lease_id s i)) eqn:Hh; [by left|].
    destruct (Z.leb_spec px 0); [by left|]. left. cbn.
    change (held t (with_lease r (lease_id s i) (Lease p h (t + px))) x = Some l).
    rewrite held_with_lease by (simpl; lia). rewrite decide_False; [done|]. intros E. rewrite E in Hh. congruence.
  - destruct (held t r (lease_id s i)) as [l'|] eqn:Hh; [|by left].
    destruct (bool_decide (l_hash l' = h)) eqn:E; cbn [negb]; [|by left].
    destruct (Z.leb_spec px 0); [by left|]. apply bool_decide_eq_true in E.
    destruct (decide (lease_id s i = x)) as [<-|Hne].
    + right. exists s, i. split; [done|]. right. rewrite Hh in Hx. injection Hx as ->. subst. eauto.
    + left. change (held t (with_lease r (lease_id s i) (Lease p h (t + px))) x = Some l).
      rewrite held_with_lease by (simpl; lia). by rewrite decide_False.
  - destruct (held t r (lease_id s i)) as [l'|] eqn:Hh; [|by left].
    destruct (bool_decide (l_hash l' = h)) eqn:E; cbn [negb]; [|by left].
    apply bool_decide_eq_true in E. destruct (decide (lease_id s i = x)) as [<-|Hne].
    + right. exists s, i. split; [done|]. left. rewrite Hh in Hx. injection Hx as ->. by subst.
    + left. change (held t (dropped r (lease_id s i)) x = Some l).
      rewrite held_dropped. by rewrite decide_False.
Qed.

(** An action publishes no event and changes no lease, or publishes the event of the one
    lease it changes. *)
Lemma act_changes t a r :
  let r' := (act t a r).2 in
  (r_log r' = r_log r /\ forall x, held t r' x = held t r x) \/
  exists e, r_log r' = r_log r ++ [e] /\ (forall x, x <> ev_id e -> held t r' x = held t r x) /\
    match ev_kind e with
    | Upsert p => exists l, held t r' (ev_id e) = Some l /\ l_payload l = p
    | Delete => held t r' (ev_id e) = None
    end.
Proof.
  assert (forall s i p h px, 0 < px ->
    let r' := with_lease r (lease_id s i) (Lease p h (t + px)) in
    (forall x, x <> lease_id s i -> held t r' x = held t r x) /\
    exists l, held t r' (lease_id s i) = Some l /\ l_payload l = p) as Hput.
  { intros s i p h px Hpx r'. unfold r'. split.
    - intros x Hx. rewrite held_with_lease by (simpl; lia). by rewrite decide_False.
    - eexists. rewrite held_with_lease by (simpl; lia). by rewrite decide_True. }
  intros r'. unfold r'. destruct a as [s i p h px|s i p h px|s i h|s ids|]; cbn [act]; try by left.
  - destruct (held t r (lease_id s i)); [by left|]. destruct (Z.leb_spec px 0); [by left|]. right.
    exists (Event s i (Upsert p)). split; [done|]. by apply (Hput s i p h px).
  - destruct (held t r (lease_id s i)); [|by left]. destruct (negb _); [by left|].
    destruct (Z.leb_spec px 0); [by left|]. right.
    exists (Event s i (Upsert p)). split; [done|]. by apply (Hput s i p h px).
  - destruct (held t r (lease_id s i)); [|by left]. destruct (negb _); [by left|]. right.
    exists (Event s i Delete). split; [done|]. cbn [snd ev_kind]. split.
    + intros x Hx. change (held t (dropped r (lease_id s i)) x = held t r x).
      rewrite held_dropped. rewrite decide_False; [done|]. intros E. by apply Hx.
    + change (held t (dropped r (lease_id s i)) (lease_id s i) = None).
      rewrite held_dropped. by rewrite decide_True.
Qed.

(** What an action leaves of the keys of a held lease. *)
Lemma frame_keys t (d d' : db) a r x h e :
  refines t d r -> refines t d' (act t a r).2 ->
  look d t (tokKey x) = Some (Entry (VStr h) e) ->
  (look d' t (tokKey x) = Some (Entry (VStr h) e) /\ look d' t (instKey x) = look d t (instKey x)) \/
  (exists s i, lease_id s i = x /\ (a = ADelete s i h \/ exists p px, a = AUpdate s i p h px)).
Proof.
  intros HR HR' Htok. rewrite (ref_token _ _ _ HR) in Htok.
  destruct (held t r x) as [l|] eqn:Hh; [|done]. cbn in Htok. injection Htok as Hhash He.
  destruct (act_frame t a r x l Hh) as [Hh'|Ha]; [left|right; by rewrite <- Hhash].
  rewrite (ref_token _ _ _ HR'), !(ref_instance _ _ _ HR'), (ref_instance _ _ _ HR), Hh', Hh.
  cbn. unfold tok_entry. by rewrite Hhash, He.
Qed.

Lemma call_action_inv c a s i h :
  call_action c a -> (a = ADelete s i h \/ exists p px, a = AUpdate s i p h px) ->
  exists token, hashToken token = h /\
    (c = deleteCall s i token \/ exists p lease, c = updateCall s i p token lease).
Proof. intros Hc [->|(p & px & ->)]; inversion Hc; subst; eauto 8. Qed.

End frame.

(** ** The system *)

Section system.
Context {db : Type} `{RedisLaws db} `{CodecLaws} `{SliceSort}.

(** The requests of the two transports. *)
Inductive rpc : Type :=
  | RpcRegister (now : Z) (rnd : res (list ascii)) (req : RegisterInstanceRequest)
  | RpcRenew (now : Z) (req : RenewLeaseRequest)
  | RpcDeregister (req : DeregisterInstanceRequest)
  | RpcSetStatus (wall now : Z) (req : SetInstanceStatusRequest)
  | RpcGet (s i : string)
  | RpcList (req : ListInstancesRequest)
  | RpcListPage (req : ListInstancesRequest) (page size : Z)
  | RpcListServices (prefix : string)
  | RpcListServicesPage (prefix : string) (page size : Z)
  | RpcWatch (rounds : nat) (req : ListInstancesRequest).

Definition forget {A} (h : handler A) : handler unit := let* _ := h in Ret tt.

Definition serve (q : rpc) : handler unit :=
  match q with
  | RpcRegister now rnd req => forget (RegisterInstance now rnd req)
  | RpcRenew now req => forget (RenewLease now req)
  | RpcDeregister req => forget (DeregisterInstance req)
  | RpcSetStatus wall now req => forget (SetInstanceStatus wall now req)
  | RpcGet s i => forget (GetInstance s i)
  | RpcList req => forget (ListInstances req)
  | RpcListPage req page size => forget (lift (service_ListPage req page size))
  | RpcListServices prefix => forget (ListServices prefix)
  | RpcListServicesPage prefix page size => forget (lift (service_ListServicesPage prefix page size))
  | RpcWatch rounds req => forget (WatchService rounds req)
  end.

(** The strings of a decoded proto3 message are valid UTF-8. *)
Definition rpc_ok (q : rpc) : Prop :=
  match q with
  | RpcRegister _ _ req => forall v, reg_Instance req = Some v -> utf8_instance v = true
  | _ => True
  end.

Record system : Type := Sys {
  sys_time : Z;
  sys_db : db;
  sys_threads : list (handler unit);
}.

(** The revision counter has not reached the numbers Lua prints in scientific
    notation (10^14 changes). *)
Definition counter_ok (t : Z) (d : db) : Prop :=
  forall n x, look d t revisionKey = Some (Entry (VStr (format_uint n)) x) ->
    Z.of_N n + 1 < lua_max.

Lemma good_forget {A} (h : handler A) :
  issues registry_effect honest_outcome h -> issues registry_effect honest_outcome (forget h).
Proof. intros Hh. apply issues_seq; [done|]. intros; exact I. Qed.

Lemma good_serve q : rpc_ok q -> issues registry_effect honest_outcome (serve q).
Proof.
  intros Hq. destruct q; apply good_forget;
    first [ apply good_unary | apply good_lift | apply good_WatchService ];
    auto using good_service_Register, good_service_Renew, good_service_Deregister,
      good_service_SetStatus, good_service_Get, good_service_List, good_service_list,
      good_service_listServices, good_service_ListServices.
Qed.

(** The programs that requests start. *)
Context (entry : handler unit -> Prop).

Inductive sys_step : system -> system -> Prop :=
  (** a request arrives *)
  | step_spawn t d ths p : entry p -> sys_step (Sys t d ths) (Sys t d (ths ++ [p]))
  (** time passes *)
  | step_tick t d ths t' : t <= t' -> sys_step (Sys t d ths) (Sys t' d ths)
  (** a call is executed and its reply delivered *)
  | step_redis t d ths j c k : ths !! j = Some (Do (ERedis c) k) -> counter_ok t d ->
      sys_step (Sys t d ths)
        (Sys t (exec_call t c d).2 (<[j := k (EReply (exec_call t c d).1)]> ths))
  (** a call is executed, its reply lost: the handler sees an error *)
  | step_lost_reply t d ths j c k m : ths !! j = Some (Do (ERedis c) k) -> counter_ok t d ->
      sys_step (Sys t d ths) (Sys t (exec_call t c d).2 (<[j := k (EReply (RFail m))]> ths))
  (** a call never reaches the server *)
  | step_lost_call t d ths j c k m : ths !! j = Some (Do (ERedis c) k) ->
      sys_step (Sys t d ths) (Sys t d (<[j := k (EReply (RFail m))]> ths))
  (** a message is sent, or fails; the context is read; a call is counted; the
      platform asks its store *)
  | step_stream t d ths j e k o : ths !! j = Some (Do e k) ->
      answers e o -> sys_step (Sys t d ths) (Sys t d (<[j := k o]> ths))
  (** a handler dies *)
  | step_die t d ths j : sys_step (Sys t d ths) (Sys t d (<[j := Ret tt]> ths)).

(** Reachable from an empty Redis. *)
Inductive reach (d0 : db) : system -> Prop :=
  | reach_init t : reach d0 (Sys t d0 [])
  | reach_step s s' : reach d0 s -> sys_step s s' -> reach d0 s'.

Definition inv (s : system) : Prop :=
  exists r, consistent (sys_time s) (sys_db s) r /\ abs_reach (sys_time s, r) /\
    Forall (issues registry_effect honest_outcome) (sys_threads s).

Lemma counter_revision t d r : refines t d r -> counter_ok t d -> revision r + 1 < lua_max.
Proof.
  intros HR Hc. pose proof (ref_revision _ _ _ HR) as Hr. unfold revision.
  destruct (length (r_log r)) as [|n]; [reflexivity|]. specialize (Hc _ _ Hr). lia.
Qed.

Lemma honest_fail c m : honest c (RFail m).
Proof. by destruct c as [[]|]. Qed.

(** A handler that goes on with an honest outcome keeps to registry calls. *)
Lemma threads_advance (ths : list (handler unit)) j e k o :
  Forall (issues registry_effect honest_outcome) ths -> ths !! j = Some (Do e k) ->
  honest_outcome e o -> Forall (issues registry_effect honest_outcome) (<[j := k o]> ths).
Proof.
  intros HF Hj Ho. apply Forall_insert; [done|].
  pose proof (Forall_lookup_1 _ _ _ _ HF Hj) as [_ Hk]. by apply Hk.
Qed.

Lemma threads_call (ths : list (handler unit)) j c k :
  Forall (issues registry_effect honest_outcome) ths -> ths !! j = Some (Do (ERedis c) k) ->
  registry_call c.
Proof. intros HF Hj. by pose proof (Forall_lookup_1 _ _ _ _ HF Hj) as [Hc _]. Qed.

Lemma call_touches t d c r x h e :
  consistent t d r -> counter_ok t d -> registry_call c ->
  look d t (tokKey x) = Some (Entry (VStr h) e) ->
  (look (exec_call t c d).2 t (tokKey x) = Some (Entry (VStr h) e) /\
   look (exec_call t c d).2 t (instKey x) = look d t (instKey x)) \/
  exists svc inst token, lease_id svc inst = x /\ hashToken token = h /\
    (c = deleteCall svc inst token \/ exists p lease, c = updateCall svc inst p token lease).
Proof.
  intros HC Hn Hc Htok. pose proof (counter_revision t d r (proj1 HC) Hn) as Hrev.
  destruct (registry_call_acts t d r c HC Hrev Hc) as (a & Hca & (HR' & _) & _).
  destruct (frame_keys t d _ a r x h e (proj1 HC) HR' Htok) as [Hl|(s & i & Hx & Ha)]; [by left|right].
  destruct (call_action_inv c a s i h Hca Ha) as (token & Ht & Hcc). by exists s, i, token.
Qed.

Lemma consistent_later t t' d r : t <= t' -> consistent t d r -> consistent t' d r.
Proof. intros Ht (HR & Hw & Hl). split; [by apply (refines_later t)|done]. Qed.

Hypothesis entry_good : forall p, entry p -> issues registry_effect honest_outcome p.

Lemma inv_step s s' : inv s -> sys_step s s' -> inv s'.
Proof.
  intros (r & HC & Ha & HF) Hstep.
  destruct Hstep as [t d ths p Hp|t d ths t' Ht|t d ths j c k Hj Hn|t d ths j c k m Hj Hn
    |t d ths j c k m Hj|t d ths j e k o Hj He|t d ths j]; cbn [sys_time sys_db sys_threads] in *.
  - exists r. split_and!; [apply HC..|done|]. apply Forall_app. split; [done|].
    repeat constructor. by apply entry_good.
  - exists r. split_and!; [by apply (consistent_later t)..| |done].
    change r with (act t' ARead r).2. by eapply abs_next, abs_act.
  - destruct (registry_call_acts t d r c HC (counter_revision t d r (proj1 HC) Hn)
      (threads_call _ _ _ _ HF Hj)) as (a & _ & HC' & Hh).
    exists (act t a r).2. split_and!; [apply HC'..| |by eapply threads_advance].
    by eapply abs_next, abs_act.
  - destruct (registry_call_acts t d r c HC (counter_revision t d r (proj1 HC) Hn)
      (threads_call _ _ _ _ HF Hj)) as (a & _ & HC' & Hh).
    exists (act t a r).2. split_and!; [apply HC'..| |eapply threads_advance; [done..|apply honest_fail]].
    by eapply abs_next, abs_act.
  - exists r. split_and!; [apply HC..|done|]. eapply threads_advance; [done..|apply honest_fail].
  - exists r. split_and!; [apply HC..|done|]. eapply threads_advance; [done..|]. by destruct e.
  - exists r. split_and!; [apply HC..|done|]. by apply Forall_insert.
Qed.

Lemma inv_reach d0 s : (forall t, refines t d0 empty_registry) -> reach d0 s -> inv s.
Proof.
  intros H0r. induction 1 as [t|s s' Hr IH Hs]; [|by eapply inv_step].
  exists empty_registry. split; [|split; constructor].
  split; [apply H0r|]. split; [|constructor]. intros x l Hl. cbn in Hl. by rewrite lookup_empty in Hl.
Qed.

End system.

(** ** What holds in every reachable state *)

Section reachable.
Context {db : Type} `{RedisLaws db} `{CodecLaws} `{SliceSort}.

(** The handlers of the two transports, each on its own request. *)
Definition served (p : handler unit) : Prop := exists q, rpc_ok q /\ p = serve q.

Lemma served_good p : served p -> issues registry_effect honest_outcome p.
Proof. intros (q & Hq & ->). by apply good_serve. Qed.

Context (d0 : db).
Hypothesis d0_empty : forall t, refines t d0 empty_registry.

(** C1: every state the concurrent system can reach, whatever the interleaving of
    the calls of its handlers, the time that passes, the requests and replies lost
    and the handlers that die, represents a registry that the lease specification
    can reach by atomic register, update, delete and unlist actions; every lease
    decodes to the instance it is kept for. *)
Theorem system_refines_spec s :
  reach served d0 s ->
  exists r, refines (sys_time s) (sys_db s) r /\ abs_reach (sys_time s, r) /\ well_stored r.
Proof.
  intros Hr. destruct (inv_reach served served_good d0 s d0_empty Hr) as (r & (HR & Hw & _) & Ha & _). eauto.
Qed.

(** C6: in every reachable state the payload key of an instance exists exactly
    when its token key does, and both expire at the same time: no crash, lost
    reply or race leaves a lease without its owner or a token without a lease. *)
Theorem keys_paired sys s i :
  reach served d0 sys ->
  let t := sys_time sys in
  match look (sys_db sys) t (instanceKey s i), look (sys_db sys) t (tokenKey s i) with
  | None, None => True
  | Some (Entry (VStr p) x), Some (Entry (VStr h) y) =>
      x = y /\ (exists deadline, x = Some deadline /\ t < deadline) /\ stored_as (lease_id s i) p
  | _, _ => False
  end.
Proof.
  intros Hr t. destruct (inv_reach served served_good d0 sys d0_empty Hr) as (r & (HR & Hw & _) & _ & _).
  fold t in HR. rewrite instanceKey_id, tokenKey_id, (ref_instance _ _ _ HR), (ref_token _ _ _ HR).
  destruct (held t r (lease_id s i)) as [l|] eqn:Hh; [|done]. cbn.
  split_and!; [done| |by apply (held_stored t r)].
  exists (l_deadline l). split; [done|]. by apply (held_deadline t r (lease_id s i)).
Qed.

(** What the stream and the payload keys show of one step: nothing happens to either, or one
    event is added and exactly the payload key it names changes, as it says. *)
Definition step_logged (t : Z) (d d' : db) (log : list event) : Prop :=
  (look d' t streamKey = stream_entry log /\ look d' t revisionKey = counter_entry (length log) /\
   forall x, look d' t (instKey x) = look d t (instKey x)) \/
  exists e, look d' t streamKey = stream_entry (log ++ [e]) /\
    look d' t revisionKey = counter_entry (S (length log)) /\
    (forall x, x <> ev_id e -> look d' t (instKey x) = look d t (instKey x)) /\
    match ev_kind e with
    | Upsert p => exists deadline, t < deadline /\
        look d' t (instKey (ev_id e)) = Some (Entry (VStr p) (Some deadline))
    | Delete => look d' t (instKey (ev_id e)) = None
    end.

Lemma act_step_logged t (d d' : db) a r :
  refines t d r -> refines t d' (act t a r).2 -> step_logged t d d' (r_log r).
Proof.
  intros HR HR'. pose proof (ref_stream _ _ _ HR') as Hs. pose proof (ref_revision _ _ _ HR') as Hn.
  destruct (act_changes t a r) as [[Hl Hx]|(e & Hl & Hx & He)]; rewrite Hl in Hs, Hn; [left|right; exists e].
  - split_and!; [done..|]. intros x. by rewrite (ref_instance _ _ _ HR'), (ref_instance _ _ _ HR), Hx.
  - rewrite length_app, Nat.add_comm in Hn. split_and!; [done..| |].
    + intros x Hne. by rewrite (ref_instance _ _ _ HR'), (ref_instance _ _ _ HR), Hx.
    + destruct (ev_kind e) as [p|].
      * destruct He as (l & Hh & <-). exists (l_deadline l). split; [by eapply held_deadline|].
        by rewrite (ref_instance _ _ _ HR'), Hh.
      * by rewrite (ref_instance _ _ _ HR'), He.
Qed.

(** C5: in every reachable state the revision counter is the number of entries of
    the stream, and entry k has the id k-0 and carries revision k, so the stream has
    no gap and no duplicate; every payload key holds what replaying the stream gives for
    it; and whatever the next step is, either it changes no payload key, other than
    by the time that passes, and adds nothing to the stream, or it adds exactly one
    event and changes exactly the payload key of that event, to the payload of an
    upsert or to nothing for a deletion. *)
Theorem stream_is_the_log s s' :
  reach served d0 s -> sys_step served s s' ->
  exists log,
    look (sys_db s) (sys_time s) streamKey = stream_entry log /\
    look (sys_db s) (sys_time s) revisionKey = counter_entry (length log) /\
    (forall x p e, look (sys_db s) (sys_time s) (instKey x) = Some (Entry (VStr p) e) ->
       replay log !! x = Some p) /\
    step_logged (sys_time s') (sys_db s) (sys_db s') log.
Proof.
  intros Hr Hstep. destruct (inv_reach served served_good d0 s d0_empty Hr) as (r & HC & Ha & HF).
  pose proof HC as (HR & _). exists (r_log r). split_and!; [apply HR|apply HR| |].
  { intros x p e Hx. rewrite (ref_instance _ _ _ HR) in Hx. unfold held in Hx.
    rewrite (abs_reach_coherent _ Ha), lookup_fmap. cbn [snd].
    destruct (r_leases r !! x) as [l|]; [|done]. destruct (_ <? _); [|done]. by injection Hx as <- _. }
  assert (forall t d (ths : list (handler unit)) j c k, consistent t d r -> counter_ok t d -> Forall (issues registry_effect honest_outcome) ths ->
    ths !! j = Some (Do (ERedis c) k) -> step_logged t d (exec_call t c d).2 (r_log r)) as Hcall.
  { intros t d ths j c k HCt Hn HFt Hj.
    destruct (registry_call_acts t d r c HCt (counter_revision t d r (proj1 HCt) Hn)
      (threads_call _ _ _ _ HFt Hj)) as (a & _ & (HR' & _) & _). eapply act_step_logged; [apply HCt|exact HR']. }
  assert (forall t, sys_time s <= t -> step_logged t (sys_db s) (sys_db s) (r_log r)) as Hsame.
  { intros t Ht. pose proof (refines_later _ t _ _ Ht HR) as HRt. left. by split_and!; [apply HRt..|]. }
  destruct Hstep; cbn [sys_time sys_db sys_threads] in *; eauto; try (apply Hsame; lia).
Qed.

(** A lease that is held can be touched by one kind of step only: a call that
    presents a token with the stored hash, for that very instance.  Every other
    step of every handler leaves both of its keys as they are. *)
Lemma ownership_step s s' x h e :
  reach served d0 s -> sys_step served s s' ->
  look (sys_db s) (sys_time s') (tokKey x) = Some (Entry (VStr h) e) ->
  (look (sys_db s') (sys_time s') (tokKey x) = Some (Entry (VStr h) e) /\
   look (sys_db s') (sys_time s') (instKey x) = look (sys_db s) (sys_time s') (instKey x)) \/
  (exists j c k svc inst token,
    sys_threads s !! j = Some (Do (ERedis c) k) /\ lease_id svc inst = x /\ hashToken token = h /\
    (c = deleteCall svc inst token \/ exists p lease, c = updateCall svc inst p token lease)).
Proof.
  intros Hr Hstep Ht. destruct (inv_reach served served_good d0 s d0_empty Hr) as (r & HC & _ & HF).
  assert (forall t d c, consistent t d r -> counter_ok t d -> registry_call c ->
    look d t (tokKey x) = Some (Entry (VStr h) e) ->
    (look (exec_call t c d).2 t (tokKey x) = Some (Entry (VStr h) e) /\
     look (exec_call t c d).2 t (instKey x) = look d t (instKey x)) \/
    exists svc inst token, lease_id svc inst = x /\ hashToken token = h /\
      (c = deleteCall svc inst token \/ exists p lease, c = updateCall svc inst p token lease)) as Hcall.
  { intros t d c HCt Hn Hc Htok. by eapply call_touches. }
  destruct Hstep as [t d ths p Hp|t d ths t' Htt|t d ths j c k Hj Hn|t d ths j c k m Hj Hn
    |t d ths j c k m Hj|t d ths j ef k o Hj He|t d ths j]; cbn [sys_time sys_db sys_threads] in *;
    try (by left).
  - destruct (Hcall t d c HC Hn (threads_call _ _ _ _ HF Hj) Ht)
      as [Hl|(svc & inst & token & ?)]; [by left|right]. by exists j, c, k, svc, inst, token.
  - destruct (Hcall t d c HC Hn (threads_call _ _ _ _ HF Hj) Ht)
      as [Hl|(svc & inst & token & ?)]; [by left|right]. by exists j, c, k, svc, inst, token.
Qed.

End reachable.

(** ** Witnesses: a handler that registers orders/a, then time passes *)

Definition sample_rpc : rpc := RpcRegister 0 (Ok (sample_bytes 1)) (sample_register "orders" "a" 10).

Definition sample_call : rcall :=
  registerCall (db := memdb) "orders" "a" (payload_of sample_stored) (sample_token 1) sample_lease.

Definition sample_sys (t : Z) : system :=
  Sys t (exec_call (db := memdb) 0 sample_call ∅).2 [Ret tt].

Lemma sample_first : exists k, serve (db := memdb) sample_rpc = Do (ERedis sample_call) k.
Proof.
  unfold sample_rpc. cbn [serve]. unfold forget, RegisterInstance, unary, service_Register.
  assert (validateInstance (reg_Instance (sample_register "orders" "a" 10)) =
    Ok (sample_instance "orders" "a")) as -> by (vm_compute; reflexivity).
  cbn [reg_LeaseSeconds sample_register]. unfold store_Register.
  change (marshal _) with (Ok (payload_of sample_stored)).
  eexists. cbn [call pbind gbind lift]. reflexivity.
Qed.

Lemma sample_reach t : 0 <= t -> reach served (∅ : memdb) (sample_sys t).
Proof.
  intros Ht. destruct sample_first as [k Hk].
  eapply (reach_step _ _ (Sys 0 (exec_call (db := memdb) 0 sample_call ∅).2 [Ret tt]));
    [|by apply step_tick].
  eapply reach_step; [|apply (step_die served 0 _ [k (EReply (exec_call (db := memdb) 0 sample_call ∅).1)] 0)].
  eapply reach_step; [|apply (step_redis served 0 ∅ [serve sample_rpc] 0 sample_call k)].
  - eapply reach_step; [apply reach_init|]. apply (step_spawn served 0 ∅ [] (serve sample_rpc)).
    exists sample_rpc. split; [|done]. intros v [= <-]. vm_compute. reflexivity.
  - by rewrite Hk.
  - intros n x Hl. discriminate Hl.
Qed.

Lemma system_refines_spec_witness :
  exists r, refines 1000 (sys_db (sample_sys 1000)) r /\ abs_reach (1000, r) /\ well_stored r.
Proof.
  apply (system_refines_spec ∅ refines_empty (sample_sys 1000)). apply sample_reach. discriminate.
Defined.

Lemma keys_paired_witness :
  match look (sys_db (sample_sys 1000)) 1000 (instanceKey "orders" "a"),
        look (sys_db (sample_sys 1000)) 1000 (tokenKey "orders" "a") with
  | None, None => True
  | Some (Entry (VStr p) x), Some (Entry (VStr h) y) =>
      x = y /\ (exists deadline, x = Some deadline /\ 1000 < deadline) /\
      stored_as (lease_id "orders" "a") p
  | _, _ => False
  end.
Proof.
  apply (keys_paired ∅ refines_empty (sample_sys 1000) "orders" "a").
  apply sample_reach. discriminate.
Defined.

Lemma stream_is_the_log_witness :
  exists log, look (sys_db (sample_sys 1000)) 1000 streamKey = stream_entry log /\
    step_logged 2000 (sys_db (sample_sys 1000)) (sys_db (sample_sys 2000)) log.
Proof.
  destruct (stream_is_the_log ∅ refines_empty (sample_sys 1000) (sample_sys 2000)) as (log & Hs & _ & _ & Hl);
    [apply sample_reach; discriminate|apply step_tick; discriminate|]. exists log. exact (conj Hs Hl).
Defined.

Lemma ownership_step_witness :
  let h := hashToken (sample_token 1) in
  look (sys_db (sample_sys 2000)) 2000 (tokKey "orders:a") = Some (Entry (VStr h) (Some 10000)) \/
  exists j c k, sys_threads (sample_sys 1000) !! j = Some (Do (ERedis c) k).
Proof.
  intros h.
  destruct (ownership_step ∅ refines_empty (sample_sys 1000) (sample_sys 2000) "orders:a" h (Some 10000))
    as [[Hl _]|(j & c & k & _ & _ & _ & Hj & _)];
    [apply sample_reach; discriminate|apply step_tick; discriminate|vm_compute; reflexivity|left; exact Hl|].
  right. exists j, c, k. exact Hj.
Defined.
