(* ===== verification/Races.v ===== *)
(** * Interleavings the code does not protect against

    Every single call is atomic (System.v), but [Renew], [SetStatus], [List] and the
    snapshot of [WatchService] are several calls.  The theorems here say, for every
    database and every request of a kind, what an operation does that was partway when
    another one was acknowledged. *)

From S2P Require Import Prelude GoText Redis RedisMem Proto RefCodec Store Service LeaseSpec StoreRefine CallRefine StoreRun Samples ServiceRun Listing GrpcRegistry Validation Watch.

Local Open Scope Z_scope.
Local Open Scope go_scope.

(** ** A program partway *)

(** Some effects of [p], handled by [h], lead from the state [s] to [s'], with [q] left to do. *)
Inductive partway {C R S A} (h : C -> S -> R * S) : prog C R A -> S -> prog C R A -> S -> Prop :=
  | partway_here p s : partway h p s p s
  | partway_call c k s r s1 q s' :
      h c s = (r, s1) -> partway h (k r) s1 q s' -> partway h (Do c k) s q s'.

Section partway.
Context {C R S : Type} (h : C -> S -> R * S).

Lemma partway_trans {A} (p q w : prog C R A) s s1 s2 :
  partway h p s q s1 -> partway h q s1 w s2 -> partway h p s w s2.
Proof. induction 1; [done|]. intros Hw. econstructor; eauto. Qed.

(** What is left leads to the result of the whole. *)
Lemma partway_run {A} (p q : prog C R A) s s' : partway h p s q s' -> prun h p s = prun h q s'.
Proof. induction 1 as [|c k s r s1 q s' E _ IH]; [done|]. cbn [prun]. by rewrite E. Qed.

Lemma partway_bind {A B} (p q : prog C R A) (f : A -> prog C R B) s s' :
  partway h p s q s' -> partway h (pbind p f) s (pbind q f) s'.
Proof. induction 1 as [|c k s r s1 q s' E _ IH]; [constructor|]. cbn [pbind]. econstructor; eauto. Qed.

Lemma partway_done {A} (p : prog C R A) s a s' : prun h p s = (a, s') -> partway h p s (Ret a) s'.
Proof.
  revert s. induction p as [b|c k IH]; intros s E; cbn [prun] in E.
  - injection E as -> ->. constructor.
  - destruct (h c s) as [r s1] eqn:Ec. econstructor; eauto.
Qed.

(** The first of two programs is done. *)
Lemma partway_first {A B} (p : prog C R A) (f : A -> prog C R B) s a s' :
  prun h p s = (a, s') -> partway h (pbind p f) s (f a) s'.
Proof. intros E. by apply partway_done, (partway_bind _ _ f) in E. Qed.

End partway.

Section races.
Context {db : Type} `{RedisLaws db} `{CodecLaws} `{SliceSortLaws}.

Lemma partway_lift {A} t (p q : gprog A) (d d' : db) sent :
  partway (exec_call t) p d q d' -> partway (stream_handler t) (lift p) (d, sent) (lift q) (d', sent).
Proof.
  induction 1 as [|c k s r s1 q s' E _ IH]; [constructor|]. cbn [lift].
  apply (partway_call _ _ _ _ (EReply r) (s1, sent)); [|exact IH].
  cbn [stream_handler fst snd]. by rewrite E.
Qed.

(** ** Renew overwrites a concurrent SetStatus *)

(** After its read, [Renew] writes back the instance it has read. *)
Lemma renew_partway t (d : db) r now req l v :
  refines t d r -> held t r (lease_id (ren_ServiceName req) (ren_InstanceId req)) = Some l ->
  unmarshal (l_payload l) = Ok v ->
  let lease := leaseDuration (ren_LeaseSeconds req) in
  exists d1, refines t d1 r /\
    partway (exec_call t) (service_Renew now req) d
      (let! revision := store_Update (renewed v now lease) (ren_LeaseToken req) lease in
       Ret (Ok {| ir_Instance := renewed v now lease; ir_Revision := revision |})) d1.
Proof.
  intros HR Hh Hu lease.
  destruct (store_Get_run t d r (ren_ServiceName req) (ren_InstanceId req) HR) as (d1 & E & HR1).
  rewrite Hh in E. cbn [read_lease] in E. rewrite Hu in E. exists d1. split; [done|].
  unfold service_Renew, gbind at 1. exact (partway_first _ _ _ _ _ _ E).
Qed.

Lemma milliseconds_pos x : 0 < milliseconds x -> 0 < x.
Proof. unfold milliseconds, millisecond. intros Hx. destruct (Z_lt_le_dec 0 x) as [?|Hle]; [done|].
  pose proof (Z.quot_le_mono x 0 1000000 ltac:(lia) Hle) as Hq. rewrite Z.quot_0_l in Hq by lia. lia.
Qed.

(** C37: a change of status that is acknowledged while a [Renew] of the same owner has read
    but not yet written is lost, whatever the database holds otherwise and whenever the
    calls arrive: both calls succeed, and for as long as the renewed lease lasts [Get]
    returns the instance as the [Renew] had read it, with its old status. *)
Theorem renew_loses_status t tick t3 t' (d : db) r now wall now' seconds status (s i token : string) l v p p' :
  t <= tick O -> tick O <= tick 1%nat -> tick 1%nat <= t3 -> t3 <= t' ->
  refines t d r -> revision r + 2 < lua_max -> 0 <= seconds <= max_uint32 ->
  status = STATUS_HEALTHY \/ status = STATUS_DRAINING ->
  held (tick 1%nat) r (lease_id s i) = Some l -> l_hash l = hashToken token ->
  unmarshal (l_payload l) = Ok v -> lease_id (ServiceName v) (InstanceId v) = lease_id s i ->
  name_ok s = true -> i <> EmptyString ->
  marshal (with_status v status now') = Ok p -> marshal (renewed v now (leaseDuration seconds)) = Ok p' ->
  let remaining := milliseconds (time_until (lease_expires v) wall) in
  0 < remaining -> t3 < tick 1%nat + remaining -> t' < t3 + milliseconds (leaseDuration seconds) ->
  exists renew d1 d2 d3 rev,
    partway (exec_call t) (service_Renew now {| ren_ServiceName := s; ren_InstanceId := i;
      ren_LeaseToken := token; ren_LeaseSeconds := seconds |}) d renew d1 /\
    run_ticks tick (service_SetStatus wall now' {| sst_ServiceName := s; sst_InstanceId := i;
      sst_LeaseToken := token; sst_Status := status |}) d1 =
      (Ok {| ir_Instance := with_status v status now'; ir_Revision := rev |}, d2) /\
    run_at t3 renew d2 =
      (Ok {| ir_Instance := renewed v now (leaseDuration seconds); ir_Revision := rev + 1 |}, d3) /\
    (run_at t' (service_Get s i) d3).1 = Ok (renewed v now (leaseDuration seconds)) /\
    Status (renewed v now (leaseDuration seconds)) = Status v.
Proof.
  intros Ht0 Ht1 Ht3 Ht' HR Hn Hs Hst Hh Hl Hu Hx Hname Hi Hp Hp' remaining Hrem Hlt Hlt'.
  set (lease := leaseDuration seconds) in *. pose proof (leaseDuration_ms _ Hs) as Hms. fold lease in Hms.
  destruct (renew_partway t d r now {| ren_ServiceName := s; ren_InstanceId := i; ren_LeaseToken := token;
    ren_LeaseSeconds := seconds |} l v HR) as (d1 & HR1 & Hpart); [by eapply held_earlier; [|exact Hh]; lia|done|].
  cbn [ren_LeaseSeconds ren_LeaseToken] in Hpart. fold lease in Hpart.
  destruct (set_status_run tick d1 r wall now' {| sst_ServiceName := s; sst_InstanceId := i;
    sst_LeaseToken := token; sst_Status := status |} l v p) as (d2 & E2 & HR2); cbn [sst_Status sst_ServiceName
    sst_InstanceId]; [done|by apply (refines_later t)|lia|done|by eapply held_earlier; [|exact Hh]|done
    |by apply milliseconds_pos|done|].
  cbn [sst_Status sst_LeaseToken] in E2, HR2. fold remaining in E2, HR2.
  rewrite (act_update_owned _ _ _ _ _ _ _ l) in E2, HR2 by (rewrite ?Hx; done). cbn [fst snd res_map] in E2, HR2.
  set (r2 := logged _ _) in HR2. assert (revision r2 = revision r + 1) as Hrev by (unfold r2; by rewrite revision_logged).
  assert (held t3 r2 (lease_id s i) = Some (Lease p (hashToken token) (tick 1%nat + remaining))) as Hh2.
  { unfold held, r2. cbn [logged with_lease r_leases]. rewrite Hx, lookup_insert_eq. cbn [l_deadline].
    by rewrite (proj2 (Z.ltb_lt _ _)) by lia. }
  destruct (store_Update_run t3 d2 r2 (renewed v now lease) p' token lease) as (d3 & E3 & HR3);
    [by apply (refines_later (tick 1%nat))|lia|done|].
  cbn [ServiceName InstanceId renewed] in E3, HR3.
  rewrite (act_update_owned _ _ _ _ _ _ _ _) in E3, HR3 by first [rewrite Hx; exact Hh2|done|lia].
  cbn [fst snd] in E3, HR3. eexists _, d1, d2, d3, (revision r + 1). split_and!; [exact Hpart|exact E2| | |done].
  - unfold gbind. rewrite run_at_bind, E3. cbn. by rewrite Hrev.
  - unfold service_Get. rewrite Hname, bool_decide_eq_false_2 by done. cbn [negb orb].
    destruct (store_Get_run t' d3 _ s i (refines_later t3 t' _ _ Ht' HR3)) as (d4 & -> & _). cbn [fst].
    unfold held. cbn [logged with_lease r_leases]. rewrite Hx, lookup_insert_eq. cbn [l_deadline].
    rewrite (proj2 (Z.ltb_lt _ _)) by lia. cbn [read_lease l_payload].
    by rewrite (codec_roundtrip (renewed v now lease) p' (codec_valid _ _ Hu) Hp').
Qed.

(** ** A listing partway *)

(** What is left of [List] when it has read the ids and all instances. *)
Definition list_rest (s : string) (stale : list string) (vs : list ServiceInstance) :
    gprog (res (list ServiceInstance * Z)) :=
  let* _ := drop_stale s stale in
  let! revision := read_revision in
  Ret (Ok (vs, revision)).

Lemma list_partway t (d : db) r s :
  refines t d r -> decodes t r ->
  exists ids d1, NoDup ids /\ (forall i, i ∈ ids <-> i ∈ members r s) /\ refines t d1 r /\
    partway (exec_call t) (store_List s) d
      (list_rest s (stale_ids t r s ids) (omap (live_value t r s) ids)) d1.
Proof.
  intros HR Hd. destruct (smembers_service_call t d r s HR) as (ids & d1 & E1 & HR1 & Hnd & Hids).
  destruct (list_loop_run t d1 r s ids [] [] HR1 Hd) as (d2 & E2 & HR2).
  exists ids, d2. split_and!; [done..|]. unfold store_List. cbn [call pbind].
  econstructor; [exact E1|]. cbn [as_strings]. unfold gbind at 1.
  exact (partway_first _ _ _ _ _ _ E2).
Qed.

(** The registry after the ids in [stale] were taken out of the index. *)
Definition pruned_of (r : registry) (s : string) (stale : list string) : registry :=
  match stale with [] => r | _ => unlisted r s stale end.

Lemma list_rest_run t (d : db) r s stale vs :
  refines t d r -> revision r < lua_max ->
  computes t (list_rest s stale vs) d (Ok (vs, revision r)) (pruned_of r s stale).
Proof.
  intros HR Hn. assert (exists rep, computes t (drop_stale s stale) d rep (pruned_of r s stale)) as (rep & Hc).
  { destruct stale as [|i stale]; [by exists RNil; apply computes_ret|].
    pose proof (srem_call_refines t d r s (i :: stale) HR) as HS.
    destruct (exec_call t (CCmd (SREM (serviceKey s) (i :: stale))) d) as [rep d'] eqn:E.
    exists rep, d'. split; [|exact HS]. unfold run_at. cbn [drop_stale call prun]. by rewrite E. }
  eapply computes_bind; [exact Hc|]. intros d1 HR1.
  assert (revision (pruned_of r s stale) = revision r) as Hrev by by destruct stale.
  destruct (read_revision_call t d1 _ HR1) as (d2 & E2 & HR2); [by rewrite Hrev|].
  exists d2. split; [|done]. unfold gbind. rewrite run_at_bind, E2. cbn. by rewrite Hrev.
Qed.

(** ** List removes a fresh registration from the index *)

(** Only a registration lists an instance, and that of a held lease is refused. *)
Lemma relisted_by_register t a r s i :
  i ∉ members r s -> held t r (lease_id s i) <> None -> i ∉ members (act t a r).2 s.
Proof.
  intros Hi Hh. destruct a as [s' i' p h px|s' i' p h px|s' i' h|s' ids|]; cbn [act]; try done.
  - destruct (held t r (lease_id s' i')) eqn:E; [done|]. destruct (px <=? 0); [done|].
    unfold members. cbn [snd logged indexed with_lease r_index]. rewrite lookup_insert. case_decide as Hs; [|done].
    subst s'. simpl. rewrite elem_of_union, elem_of_singleton. intros [->|Hm]; [by rewrite E in Hh|done].
  - destruct (held t r (lease_id s' i')); [|done]. destruct (negb _); [done|]. by destruct (px <=? 0).
  - destruct (held t r (lease_id s' i')); [|done]. destruct (negb _); [done|].
    unfold members. cbn [snd logged unlisted dropped r_index]. rewrite lookup_insert. case_decide as Hs; [|done].
    subst s'. simpl. unfold members. set_solver.
  - unfold members. cbn [snd unlisted r_index]. rewrite lookup_insert. case_decide as Hs; [|done].
    subst s'. simpl. unfold members. set_solver.
Qed.

Lemma listed_members t r s i :
  well_stored r -> name_ok s = true -> i ∉ members r s -> i ∉ InstanceId <$> live_list t r s.
Proof.
  intros Hw Hs Hi Hin. apply list_elem_of_fmap in Hin as (v & -> & Hv).
  apply list_elem_of_omap in Hv as (j & Hj & Ej). apply live_value_id in Ej as [<- _]; [|done..].
  by apply elem_of_elements in Hj.
Qed.

(** C38: a listing that found the lease of an indexed instance ended removes the instance
    from the index even when it has registered again meanwhile.  The instance then
    holds its lease and is found by id, but no listing shows it, and no call lists it
    again while the lease is held: neither a renewal nor another registration, which is
    refused. *)
Theorem list_unlists_fresh_registration t t1 t2 t' (d : db) r now bytes req v p :
  t <= t1 -> t1 <= t2 -> t2 <= t' ->
  refines t d r -> well_stored r -> revision r + 1 < lua_max ->
  0 <= reg_LeaseSeconds req <= max_uint32 ->
  validateInstance (reg_Instance req) = Ok v -> utf8_instance v = true ->
  let s := ServiceName v in
  let i := InstanceId v in
  let lease := leaseDuration (reg_LeaseSeconds req) in
  let inst := prepareInstance v lease now in
  marshal inst = Ok p ->
  i ∈ members r s -> held t r (lease_id s i) = None -> t' < t1 + milliseconds lease ->
  exists listing d1 resp d2 result d3 r3,
    partway (exec_call t) (store_List s) d listing d1 /\
    run_at t1 (service_Register now (Ok bytes) req) d1 = (Ok resp, d2) /\
    run_at t2 listing d2 = (result, d3) /\ refines t2 d3 r3 /\
    (run_at t' (service_Get s i) d3).1 = Ok inst /\
    (exists vs rev, (run_at t' (store_List s) d3).1 = Ok (vs, rev) /\ i ∉ InstanceId <$> vs) /\
    (forall t'' a, held t'' r3 (lease_id s i) <> None -> i ∉ members (act t'' a r3).2 s).
Proof.
  intros Ht1 Ht2 Ht' HR Hw Hn Hs Hv Hu s i lease inst Hp Hi Hh Hlt.
  pose proof (leaseDuration_ms _ Hs) as Hms. fold lease in Hms.
  destruct (validateInstance_ok _ _ Hv) as (_ & Hname & Hid).
  assert (utf8_instance inst = true) as Hu' by (unfold inst; by rewrite forallb_utf8_clone).
  destruct (list_partway t d r s HR (well_stored_decodes t r Hw)) as (ids & d1 & _ & Hids & HR1 & Hpart).
  assert (held t1 r (lease_id s i) = None) as Hh1.
  { destruct (held t1 r (lease_id s i)) eqn:E; [|done]. apply (held_earlier t) in E; [congruence|done]. }
  destruct (register_run t1 d1 r now bytes req v p (refines_later t t1 _ _ Ht1 HR1) Hn Hs Hv Hp) as (d2 & E2 & HR2).
  fold lease s i in E2, HR2. rewrite Hh1 in E2. rewrite act_register_free in HR2 by (done || lia).
  set (l := Lease p _ _) in HR2. set (r2 := logged _ _) in HR2. cbn [snd] in HR2. fold r2 in HR2.
  assert (revision r2 = revision r + 1) as Hrev by (unfold r2; by rewrite revision_logged).
  set (stale := stale_ids t r s ids) in Hpart.
  destruct (list_rest_run t2 d2 r2 s stale (omap (live_value t r s) ids)) as (d3 & E3 & HR3);
    [by apply (refines_later t1)|lia|].
  set (r3 := pruned_of r2 s stale) in HR3.
  assert (i ∈ stale) as Hstale by (apply list_elem_of_filter; split; [done|by apply Hids]).
  assert (r_leases r3 = <[lease_id s i := l]> (r_leases r)) as Hl3 by (unfold r3; by destruct stale).
  assert (i ∉ members r3 s) as Hm3.
  { unfold r3, pruned_of. destruct stale as [|j stale']; [by apply not_elem_of_nil in Hstale|].
    unfold members at 1. cbn [unlisted r_index]. rewrite lookup_insert_eq. simpl. set_solver. }
  assert (well_stored r3) as Hw3.
  { intros x l'. rewrite Hl3. intros [[<- <-]|[_ Hx]]%lookup_insert_Some; [|by apply Hw].
    exists inst. split_and!; [by apply codec_roundtrip|done|done]. }
  exists (list_rest s stale (omap (live_value t r s) ids)), d1. eexists _, d2, _, d3, r3.
  split_and!; [exact Hpart|exact E2|exact E3|exact HR3| | |].
  - unfold service_Get. fold s i in Hname, Hid. rewrite Hname, bool_decide_eq_false_2 by done. cbn [negb orb].
    destruct (store_Get_run t' d3 r3 s i (refines_later t2 t' _ _ Ht' HR3)) as (d4 & -> & _). cbn [fst].
    unfold held. rewrite Hl3, lookup_insert_eq. unfold l. cbn [l_deadline].
    rewrite (proj2 (Z.ltb_lt _ _)) by lia. cbn [read_lease l_payload].
    by rewrite (codec_roundtrip inst p Hu' Hp).
  - destruct (store_List_run t' d3 r3 s (refines_later t2 t' _ _ Ht' HR3)) as (vs & r4 & (d4 & E4 & _) & _ & Hperm);
      [unfold r3; by destruct stale; unfold pruned_of, revision in *; cbn [unlisted r_log]; lia
      |by apply well_stored_decodes|].
    exists vs, (revision r3). rewrite E4. split; [done|]. rewrite Hperm. by apply listed_members.
  - intros t'' a Hh''. by apply relisted_by_register.
Qed.

(** ** A watch misses a deregistration *)

(** What is left of a watch of one service when its listing has read the instances. *)
Lemma watch_partway t (d : db) r request rounds :
  refines t d r -> decodes t r -> name_ok (lst_ServiceName request) = true ->
  exists ids d1, NoDup ids /\ (forall i, i ∈ ids <-> i ∈ members r (lst_ServiceName request)) /\ refines t d1 r /\
    forall sent, exists watch,
      partway (stream_handler t) (WatchService rounds request) (d, sent) watch (d1, sent) /\
      forall t2 (d2 d3 : db) vs rev, let s := lst_ServiceName request in
        vs = omap (live_value t r s) ids ->
        run_at t2 (list_rest s (stale_ids t r s ids) vs) d2 = (Ok (vs, rev), d3) ->
        0 <= rev -> Z.of_nat (length vs) < 2 ^ 62 ->
        exists sorted,
          sorted ≡ₚ List.filter (fun v => matches v (lst_Selector request) (lst_IncludeDraining request)) vs /\
          forall sent', partway (stream_handler t2) watch (d2, sent') (watch_loop rounds request rev)
            (d3, sent' ++ [{| wr_Revision := rev; wr_Changes := snapshot_change <$> sorted |}]).
Proof.
  intros HR Hd Hname. set (s := lst_ServiceName request) in *.
  destruct (list_partway t d r s HR Hd) as (ids & d1 & Hnd & Hids & HR1 & Hpart).
  exists ids, d1. split_and!; [done..|]. intros sent.
  assert (s <> EmptyString) as Hs by (intros E; by rewrite E in Hname).
  eexists. split.
  - unfold WatchService, service_List, service_list. fold s. rewrite bool_decide_eq_false_2 by done.
    cbn [andb negb]. rewrite Hname. cbn [negb]. unfold gbind. cbn [pbind collect]. unfold gbind.
    apply partway_bind, partway_lift, partway_bind, partway_bind, partway_bind. exact Hpart.
  - intros t2 d2 d3 vs rev s' Hvs E Hrev Hlen. fold s in s'. unfold s' in *. clear s'. rewrite <- Hvs.
    set (sorted := sort_slice instance_less (List.filter (fun v =>
      matches v (lst_Selector request) (lst_IncludeDraining request)) vs)).
    exists sorted. split; [apply sort_perm|]. intros sent'.
    assert (Z.of_nat (length sorted) < 2 ^ 62) as Hlen'.
    { unfold sorted. rewrite sort_perm.
      pose proof (List.filter_length_le (fun v => matches v (lst_Selector request) (lst_IncludeDraining request)) vs). lia. }
    eapply partway_trans.
    + apply partway_bind, partway_lift, partway_done. rewrite !prun_bind. unfold run_at in E. rewrite E.
      cbn [prun]. unfold select_instances. cbn [app]. fold sorted.
      rewrite pageValues_cut by (done || (split; vm_compute; discriminate)). cbn [cut_page prun]. reflexivity.
    + cbn [lift pbind send lstr_Instances lstr_Revision]. eapply partway_call; [reflexivity|]. cbn [effect_error].
      replace (if 0 <? rev then rev else 0) with rev by (destruct (Z.ltb_spec 0 rev); lia). constructor.
Qed.

Lemma omap_length {A B} (f : A -> option B) l : (length (omap f l) <= length l)%nat.
Proof. induction l as [|x l IH]; [done|]. cbn. destruct (f x); cbn; lia. Qed.

(** Messages for the events after the first [n] have later revisions. *)
Lemma later_messages request k n log :
  Forall (fun m => Z.of_nat n < wr_Revision m)
    (omap (watch_message request) (take k (drop n (changes_of log)))).
Proof.
  apply Forall_forall. intros m (c & Hc & Em)%list_elem_of_omap.
  apply elem_of_take in Hc as (j & Hj & _). rewrite lookup_drop in Hj. unfold changes_of in Hj.
  rewrite list_lookup_imap in Hj. destruct (log !! (n + j)%nat) as [e|]; [|done]. injection Hj as <-.
  unfold watch_message in Em. destruct (watch_change request _); [|done]. injection Em as <-. cbn. lia.
Qed.

(** C39: an instance that its owner deregisters while a watch of its service takes its
    snapshot is reported present, under a revision that already includes the deletion;
    and whatever happens later, everything the watch sends from then on has a later
    revision, so that it is never told of the deletion. *)
Theorem watch_misses_deregistration t t1 t2 (d : db) r request rounds i token l v :
  t <= t1 -> t1 <= t2 ->
  refines t d r -> revision r + 1 < lua_max -> well_stored r ->
  let s := lst_ServiceName request in
  name_ok s = true -> i ∈ members r s -> Z.of_nat (size (members r s)) < 2 ^ 62 ->
  held t1 r (lease_id s i) = Some l -> l_hash l = hashToken token -> unmarshal (l_payload l) = Ok v ->
  matches v (lst_Selector request) (lst_IncludeDraining request) = true ->
  exists watch d1 d2 d3 r3 snapshot,
    partway (stream_handler t) (WatchService rounds request) (d, []) watch (d1, []) /\
    run_at t1 (service_Deregister {| der_ServiceName := s; der_InstanceId := i; der_LeaseToken := token |}) d1 =
      (Ok (revision r + 1), d2) /\
    partway (stream_handler t2) watch (d2, []) (watch_loop rounds request (revision r + 1)) (d3, [snapshot]) /\
    wr_Revision snapshot = revision r + 1 /\ snapshot_change v ∈ wr_Changes snapshot /\
    refines t2 d3 r3 /\ r_log r3 = r_log r ++ [Event s i Delete] /\
    forall t3 (d4 : db) r4 later sent, refines t3 d4 r4 -> r_log r4 = r_log r3 ++ later ->
      revision r4 < 2 ^ 64 -> log_objects (r_log r4) ->
      exists result d5 messages,
        prun (stream_handler t3) (watch_loop rounds request (revision r + 1)) (d4, sent) =
          (result, (d5, sent ++ messages)) /\
        Forall (fun m => revision r + 1 < wr_Revision m) messages.
Proof.
  intros Ht1 Ht2 HR Hn Hw s Hname Hi Hsize Hh Hl Hu Hm.
  destruct (watch_partway t d r request rounds HR (well_stored_decodes t r Hw) Hname)
    as (ids & d1 & Hnd & Hids & HR1 & Hwatch). fold s in Hids, Hwatch.
  destruct (Hwatch []) as (watch & Hpart & Hrest). clear Hwatch.
  destruct (deregister_run t1 d1 r {| der_ServiceName := s; der_InstanceId := i; der_LeaseToken := token |}
    (refines_later t t1 _ _ Ht1 HR1) Hn) as (d2 & E2 & HR2).
  cbn [der_ServiceName der_InstanceId der_LeaseToken act] in E2, HR2.
  rewrite Hh, bool_decide_eq_true_2 in E2, HR2 by done. cbn [negb fst snd] in E2, HR2.
  set (r2 := logged _ _) in E2, HR2. assert (revision r2 = revision r + 1) as Hrev by (unfold r2; by rewrite revision_logged).
  set (vs := omap (live_value t r s) ids) in *.
  destruct (list_rest_run t2 d2 r2 s (stale_ids t r s ids) vs) as (d3 & E3 & HR3);
    [by apply (refines_later t1)|lia|].
  assert (ids ≡ₚ elements (members r s)) as Hperm.
  { apply NoDup_Permutation; [done|apply NoDup_elements|]. intros x. by rewrite Hids, elem_of_elements. }
  assert (Z.of_nat (length vs) < 2 ^ 62) as Hlen.
  { pose proof (omap_length (live_value t r s) ids) as Ho. pose proof (Permutation_length Hperm) as Hpl.
    change (size (members r s)) with (length (elements (members r s))) in Hsize. fold vs in Ho. lia. }
  destruct (Hrest t2 d2 d3 vs (revision r2) eq_refl E3) as (sorted & Hsorted & Hsend); [unfold revision; lia|done|].
  assert (r_log (pruned_of r2 s (stale_ids t r s ids)) = r_log r ++ [Event s i Delete]) as Hlog
    by (by destruct (stale_ids t r s ids)).
  eexists watch, d1, d2, d3, _, _. rewrite Hrev in Hsend, E2.
  split_and!; [exact Hpart|exact E2|exact (Hsend [])|done| |exact HR3|done|].
  - cbn [wr_Changes]. apply list_elem_of_fmap. exists v. split; [done|]. rewrite Hsorted.
    apply list_elem_of_In, filter_In. split; [|done]. apply list_elem_of_In, list_elem_of_omap.
    exists i. split; [by apply Hids|]. unfold live_value.
    rewrite (held_earlier t t1 r _ l Ht1 Hh). cbn [read_lease]. by rewrite Hu.
  - intros t3 d4 r4 later sent HR4 Hlog4 Hrev4 Hobj. rewrite Hlog in Hlog4.
    assert (length (r_log r) + 1 <= length (r_log r4))%nat as Hle by (rewrite Hlog4, !length_app; cbn; lia).
    pose proof (watch_loop_serves t3 request rounds d4 r4 _ HR4 Hrev4 Hobj Hle sent) as (d5 & E & _).
    replace (Z.of_nat (length (r_log r) + 1)) with (revision r + 1) in E by (unfold revision; lia).
    eexists _, d5, _. split; [exact E|].
    replace (revision r + 1) with (Z.of_nat (length (r_log r) + 1)) by (unfold revision; lia). apply later_messages.
Qed.

(** ** Names that are not validated *)

(** C40: [Deregister] does not validate the service name, so the owner of an instance
    with a colon in its id can name it in another way: for every service a and instance b:c, the
    request for service a:b and instance c, with the token of the lease, removes the lease of a/b:c.
    The index of a still lists it, and the deletion is logged for the service a:b, so
    no watch of a is told of it. *)
Theorem deregister_alias t (d : db) r (a b c token : string) l :
  refines t d r -> revision r + 1 < lua_max ->
  name_ok a = true -> held t r (lease_id a (b +:+ ":" +:+ c)) = Some l -> l_hash l = hashToken token ->
  let wrong := a +:+ ":" +:+ b in
  exists d',
    run_at t (service_Deregister {| der_ServiceName := wrong; der_InstanceId := c; der_LeaseToken := token |}) d =
      (Ok (revision r + 1), d') /\
    refines t d' (Registry (delete (lease_id a (b +:+ ":" +:+ c)) (r_leases r))
      (<[wrong := members r wrong ∖ {[c]}]> (r_index r)) (r_services r) (r_log r ++ [Event wrong c Delete])) /\
    wrong <> a /\ name_ok wrong = false /\
    (forall request n, lst_ServiceName request = a -> event_message request n (Event wrong c Delete) = None).
Proof.
  intros HR Hn Ha Hh Hl wrong.
  assert (lease_id wrong c = lease_id a (b +:+ ":" +:+ c)) as Hx.
  { unfold lease_id, wrong. by rewrite !str_app_assoc. }
  assert (name_ok wrong = false) as Hw.
  { destruct (name_ok wrong) eqn:E; [|done]. exfalso.
    apply name_no_colon in E. unfold wrong in E. rewrite !str_forallb_app in E. cbn in E.
    by rewrite andb_false_r in E. }
  assert (wrong <> a) as Hne by (intros ->; congruence).
  destruct (deregister_run t d r {| der_ServiceName := wrong; der_InstanceId := c; der_LeaseToken := token |} HR Hn)
    as (d' & E & HR').
  cbn [der_ServiceName der_InstanceId der_LeaseToken act] in E, HR'.
  rewrite Hx, Hh, bool_decide_eq_true_2 in E, HR' by done. cbn [negb fst snd] in E, HR'.
  rewrite revision_logged in E. exists d'. split_and!; [exact E| |done..|].
  - unfold logged, unlisted in HR'. cbn [r_leases r_index r_services r_log dropped] in HR'.
    assert (list_to_set [c] =@{gset string} {[c]}) as Ec by set_solver. by rewrite Ec in HR'.
  - intros request n <-. unfold event_message. rewrite bool_decide_eq_false_2; [done|]. intros [E'|E']; [|done].
    by rewrite E' in Ha.
Qed.

End races.

(** Run the first [n] effects of a program. *)
Fixpoint steps {C R S A} (n : nat) (h : C -> S -> R * S) (p : prog C R A) (s : S) :
    prog C R A * S :=
  match n, p with
  | S n', Do c k => let (r, s') := h c s in steps n' h (k r) s'
  | _, _ => (p, s)
  end.

Definition get_status (t : Z) (d : memdb) (s i : string) : option InstanceStatus :=
  match (run_at t (service_Get s i) d).1 with Ok v => Some (Status v) | Err _ => None end.

Definition watch_request : ListInstancesRequest :=
  {| lst_ServiceName := "orders"; lst_Selector := ∅; lst_IncludeDraining := true |}.

(** ** Expiry is not a change *)

(** When a lease ends without a deregistration the stream gets no entry: a
    watch that started while it was held stays silent about it. *)
Lemma expiry_is_silent :
  let watch := steps 5 (stream_handler 1000) (WatchService 3 watch_request) (sample_db, []) in
  let final := prun (stream_handler 20000) watch.1 watch.2 in
  (wr_Revision <$> final.2.2, get_status 20000 final.2.1 "orders" "a") = ([1], None).
Proof. vm_compute. reflexivity. Qed.

(** ** Paging across services *)

(** Another sort that meets the contract of [sort.Slice]. *)
Definition reversed_sort : SliceSort := fun A less l => insertion_sort less (reverse l).

Lemma reversed_sort_laws : @SliceSortLaws reversed_sort.
Proof.
  constructor; unfold sort_slice, reversed_sort; intros.
  - by rewrite insertion_sort_perm, reverse_Permutation.
  - by apply insertion_sort_sorted.
Qed.

(** orders/a and payments/a. *)
Definition two_services : memdb :=
  (run_at 0 (service_Register 0 (Ok (sample_bytes 2)) (sample_register "payments" "a" 60))
    (run_at 0 (service_Register 0 (Ok (sample_bytes 1)) (sample_register "orders" "a" 60))
      (∅ : memdb)).2).2.

Definition selector_page (sort : SliceSort) (page : Z) : res (list string) :=
  res_map (fun r => ServiceName <$> lstr_Instances r.1)
    (run_at 0 (@service_ListPage _ sort {| lst_ServiceName := EmptyString;
       lst_Selector := {["zone" := "a"]}; lst_IncludeDraining := true |} page 1) two_services).1.

(** Across services the instance id does not order the instances: two lawful
    sorts of the same two instances give pages 1 and 2 that both hold the same
    one, so a client that pages through sees one twice and the other never. *)
Lemma selector_pages_unstable :
  exists first second : SliceSort,
    @SliceSortLaws first /\ @SliceSortLaws second /\
    selector_page first 1 = Ok ["orders"] /\ selector_page first 2 = Ok ["payments"] /\
    selector_page second 1 = Ok ["payments"] /\ selector_page second 2 = Ok ["orders"].
Proof.
  exists ref_sort, reversed_sort.
  split_and!; [apply ref_sort_laws|apply reversed_sort_laws|vm_compute; reflexivity..].
Qed.

(** ** Two notions of matching *)

(** A listing accepts exactly the instances the filter of the watch accepts
    and whose status is healthy or draining.  So the two agree on those statuses,
    and an instance with another status is never listed but is pushed to the
    watchers whose selector it meets. *)
Lemma watch_filter_agrees v selector includeDraining :
  matches v selector includeDraining =
  (bool_decide (Status v = STATUS_HEALTHY) || bool_decide (Status v = STATUS_DRAINING)) &&
  registryMatches v selector includeDraining.
Proof.
  unfold registryMatches, matches. by destruct (Status v), includeDraining.
Qed.

(** ** Witnesses *)

Lemma renew_loses_status_witness :
  exists renew d1 d2 d3 rev,
    partway (exec_call 1000) (service_Renew 7 {| ren_ServiceName := "orders"; ren_InstanceId := "a";
      ren_LeaseToken := sample_token 1; ren_LeaseSeconds := 60 |}) sample_db renew d1 /\
    run_ticks sample_tick (service_SetStatus (second + 5) 7 {| sst_ServiceName := "orders";
      sst_InstanceId := "a"; sst_LeaseToken := sample_token 1; sst_Status := STATUS_DRAINING |}) d1 =
      (Ok {| ir_Instance := with_status sample_stored STATUS_DRAINING 7; ir_Revision := rev |}, d2) /\
    (run_at 2500 renew d2).2 = d3 /\
    res_map Status (run_at 3000 (service_Get "orders" "a") d3).1 = Ok STATUS_HEALTHY.
Proof.
  destruct (renew_loses_status 1000 sample_tick 2500 3000 sample_db sample_registry 7 (second + 5) 7 60
    STATUS_DRAINING "orders" "a" (sample_token 1) sample_held sample_stored
    (payload_of (with_status sample_stored STATUS_DRAINING 7))
    (payload_of (renewed sample_stored 7 (leaseDuration 60))))
    as (renew & d1 & d2 & d3 & rev & Hp & E2 & E3 & E4 & _); sample_goal.
  exists renew, d1, d2, d3, rev. rewrite E3, E4. split_and!; [exact Hp|exact E2|reflexivity|vm_compute; reflexivity].
Defined.

Lemma list_unlists_fresh_registration_witness :
  exists listing d1 resp d2 result d3,
    partway (exec_call 20000) (store_List "orders") sample_db listing d1 /\
    run_at 20000 (service_Register 9 (Ok (sample_bytes 2)) (sample_register "orders" "a" 60)) d1 = (Ok resp, d2) /\
    run_at 20000 listing d2 = (result, d3) /\
    exists vs rev, (run_at 21000 (store_List "orders") d3).1 = Ok (vs, rev) /\ "a" ∉ InstanceId <$> vs.
Proof.
  destruct (list_unlists_fresh_registration 20000 20000 20000 21000 sample_db sample_registry 9 (sample_bytes 2)
    (sample_register "orders" "a" 60) (sample_instance "orders" "a")
    (payload_of (prepareInstance (sample_instance "orders" "a") (leaseDuration 60) 9)))
    as (listing & d1 & resp & d2 & result & d3 & r3 & Hp & E2 & E3 & _ & _ & Hl & _); sample_goal.
  - apply sample_well_stored.
  - vm_compute. set_solver.
  - exists listing, d1, resp, d2, result, d3. split_and!; [exact Hp|exact E2|exact E3|exact Hl].
Defined.

Lemma watch_misses_deregistration_witness :
  exists watch d1 d2 d3 snapshot,
    partway (stream_handler 1000) (WatchService 3 watch_request) (sample_db, []) watch (d1, []) /\
    run_at 1000 (service_Deregister {| der_ServiceName := "orders"; der_InstanceId := "a";
      der_LeaseToken := sample_token 1 |}) d1 = (Ok 2, d2) /\
    partway (stream_handler 1000) watch (d2, []) (watch_loop 3 watch_request 2) (d3, [snapshot]) /\
    wr_Revision snapshot = 2 /\ snapshot_change sample_stored ∈ wr_Changes snapshot.
Proof.
  destruct (watch_misses_deregistration 1000 1000 1000 sample_db sample_registry watch_request 3 "a"
    (sample_token 1) sample_held sample_stored)
    as (watch & d1 & d2 & d3 & r3 & snapshot & Hp & E2 & Hs & Hr & Hin & _); sample_goal.
  - apply sample_well_stored.
  - vm_compute. set_solver.
  - exists watch, d1, d2, d3, snapshot. split_and!; [exact Hp|exact E2|exact Hs|exact Hr|exact Hin].
Defined.

(** orders/[b:c], registered at time 0. *)
Definition alias_stored : ServiceInstance := prepareInstance (sample_instance "orders" "b:c") sample_lease 0.
Definition alias_registry : registry :=
  (act 0 (ARegister "orders" "b:c" (payload_of alias_stored) (hashToken (sample_token 1)) 10000) empty_registry).2.
Definition alias_db : memdb := (run_at 0 (store_Register alias_stored (sample_token 1) sample_lease) ∅).2.

Lemma alias_refines : refines 1000 alias_db alias_registry.
Proof.
  apply (refines_later 0); [done|].
  destruct (store_Register_run 0 ∅ empty_registry alias_stored (payload_of alias_stored)
    (sample_token 1) sample_lease (refines_empty 0)) as (d' & E & HR); [done..|].
  unfold alias_db. rewrite E. exact HR.
Qed.

Lemma deregister_alias_witness :
  exists d', run_at 1000 (service_Deregister {| der_ServiceName := "orders:b"; der_InstanceId := "c";
      der_LeaseToken := sample_token 1 |}) alias_db = (Ok 2, d').
Proof.
  destruct (deregister_alias 1000 alias_db alias_registry "orders" "b" "c" (sample_token 1)
    (Lease (payload_of alias_stored) (hashToken (sample_token 1)) 10000)) as (d' & E & _);
    [apply alias_refines|vm_compute; reflexivity..|].
  exists d'. exact E.
Defined.
