(* ===== verification/PathMatch.v ===== *)
(** * [path.Match] and [auth.MatchesAny]

    Route patterns are matched with the standard library's [path.Match], on bytes
    with UTF-8 runes in classes.  A pattern can be malformed; that is a property
    of the pattern alone, so the startup check of config.go against one probe
    name decides it for every name. *)

From S2P Require Import Prelude GoText Utf8.

Local Open Scope Z_scope.

(** ** The matcher; [None] is [path.ErrBadPattern] *)

Definition b_slash : Z := 47.
Definition b_star : Z := 42.
Definition b_question : Z := 63.
Definition b_backslash : Z := 92.
Definition b_open : Z := 91.
Definition b_close : Z := 93.
Definition b_caret : Z := 94.
Definition b_dash : Z := 45.

(** [getEsc]: one character of a class. *)
Definition getEsc (chunk : list Z) : option (Z * list Z) :=
  match chunk with
  | [] => None
  | c :: chunk' =>
      if (c =? b_dash) || (c =? b_close) then None
      else
        let body := if c =? b_backslash then chunk' else chunk in
        match body with
        | [] => None
        | _ =>
            let '(r, w, ok) := decode_rune body in
            let nchunk := drop w body in
            if (r =? rune_error) && Nat.eqb w 1 then None
            else match nchunk with [] => None | _ => Some (r, nchunk) end
        end
  end.

(** The ranges of a class up to its closing bracket: whether [r] is in one of
    them, and what follows. *)
Fixpoint class_ranges (n : nat) (chunk : list Z) (r : Z) (found first : bool) :
    option (bool * list Z) :=
  match n with
  | O => None
  | S n' =>
      match chunk with
      | c :: rest =>
          if (c =? b_close) && negb first then Some (found, rest)
          else
            match getEsc chunk with
            | None => None
            | Some (lo, chunk1) =>
                match chunk1 with
                | d :: chunk2 =>
                    if d =? b_dash then
                      match getEsc chunk2 with
                      | None => None
                      | Some (hi, chunk3) =>
                          class_ranges n' chunk3 r (found || ((lo <=? r) && (r <=? hi))) false
                      end
                    else class_ranges n' chunk1 r (found || (lo =? r)) false
                | [] => None
                end
            end
      | [] => None
      end
  end.

(** [matchChunk]: the rest of [s] when the chunk matches a prefix of it. *)
Fixpoint matchChunk (n : nat) (chunk s : list Z) (failed : bool) : option (option (list Z)) :=
  match n, chunk with
  | _, [] => Some (if failed then None else Some s)
  | O, _ => None
  | S n', c :: chunk' =>
      let failed := failed || bool_decide (s = []) in
      let literal l rest :=
        if failed then matchChunk n' rest s true
        else matchChunk n' rest (drop 1 s) (negb (bool_decide (head s = Some l))) in
      if c =? b_open then
        let '(r, w, _) := decode_rune s in
        let s' := if failed then s else drop w s in
        let negated := bool_decide (head chunk' = Some b_caret) in
        let body := if negated then drop 1 chunk' else chunk' in
        match class_ranges n' body (if failed then 0 else r) false true with
        | None => None
        | Some (found, rest) => matchChunk n' rest s' (failed || Bool.eqb found negated)
        end
      else if c =? b_question then
        if failed then matchChunk n' chunk' s true
        else matchChunk n' chunk' (drop (decode_rune s).1.2 s) (bool_decide (head s = Some b_slash))
      else if c =? b_backslash then
        match chunk' with
        | [] => None
        | l :: rest => literal l rest
        end
      else literal c chunk'
  end.

Definition match_chunk (chunk s : list Z) : option (option (list Z)) :=
  matchChunk (length chunk) chunk s false.

(** The part of [scanChunk] after the stars: the chunk up to the next star that
    is not inside a class. *)
Fixpoint scan_body (pattern : list Z) (inrange : bool) : list Z * list Z :=
  match pattern with
  | [] => ([], [])
  | c :: rest =>
      if c =? b_backslash then
        match rest with
        | e :: rest' => let (chunk, tail) := scan_body rest' inrange in (c :: e :: chunk, tail)
        | [] => ([c], [])
        end
      else if (c =? b_star) && negb inrange then ([], pattern)
      else
        let inrange := if c =? b_open then true else if c =? b_close then false else inrange in
        let (chunk, tail) := scan_body rest inrange in (c :: chunk, tail)
  end.

Fixpoint scanChunk (pattern : list Z) : bool * list Z * list Z :=
  match pattern with
  | c :: rest =>
      if c =? b_star then let '(_, chunk, tail) := scanChunk rest in (true, chunk, tail)
      else let (chunk, tail) := scan_body pattern false in (false, chunk, tail)
  | [] => (false, [], [])
  end.

(** The loop that skips bytes for a star; it cannot skip a slash. *)
Fixpoint star_skip (chunk : list Z) (last : bool) (name : list Z) : option (option (list Z)) :=
  match name with
  | [] => Some None
  | b :: name' =>
      if b =? b_slash then Some None
      else
        match match_chunk chunk name' with
        | None => None
        | Some (Some t) =>
            if last && negb (bool_decide (t = [])) then star_skip chunk last name' else Some (Some t)
        | Some None => star_skip chunk last name'
        end
  end.

(** The rest of the pattern is only checked for syntax. *)
Fixpoint check_rest (n : nat) (pattern : list Z) : option bool :=
  match n, pattern with
  | _, [] => Some false
  | O, _ => Some false
  | S n', _ =>
      let '(_, chunk, rest) := scanChunk pattern in
      match match_chunk chunk [] with
      | None => None
      | Some _ => check_rest n' rest
      end
  end.

Fixpoint match_from (n : nat) (pattern name : list Z) : option bool :=
  match n, pattern with
  | _, [] => Some (bool_decide (name = []))
  | O, _ => Some false
  | S n', _ =>
      let '(star, chunk, rest) := scanChunk pattern in
      if star && bool_decide (chunk = []) then Some (negb (existsb (Z.eqb b_slash) name))
      else
        match match_chunk chunk name with
        | None => None
        | Some found =>
            let last := bool_decide (rest = []) in
            let direct :=
              match found with
              | Some t => if bool_decide (t = []) || negb last then Some t else None
              | None => None
              end in
            match direct with
            | Some t => match_from n' rest t
            | None =>
                match (if star then star_skip chunk last name else Some None) with
                | None => None
                | Some (Some t) => match_from n' rest t
                | Some None => check_rest n' rest
                end
            end
        end
  end.

Definition path_Match (pattern name : string) : option bool :=
  match_from (length (byte_vals pattern)) (byte_vals pattern) (byte_vals name).

(** [auth.MatchesAny]. *)
Fixpoint MatchesAny (value : string) (patterns : list string) : bool :=
  match patterns with
  | [] => false
  | pattern :: rest =>
      match path_Match pattern value with
      | Some true => true
      | _ => MatchesAny value rest
      end
  end.

Example path_match_examples :
  path_Match "/api/*" "/api/users" = Some true /\
  path_Match "/api/*" "/api/users/7" = Some false /\
  path_Match "/grpc.health.v1.Health/*" "/grpc.health.v1.Health/Check" = Some true /\
  path_Match "/a?c/[x-z]\*" "/abc/y*" = Some true /\
  path_Match "/api/[]a]" "/api/]" = None /\
  path_Match "/api/[^a-c]*d" "/api/xyzd" = Some true /\
  path_Match "a[" "zzz" = None /\
  path_Match "*x*y" "axbxcy" = Some true /\
  path_Match "*[" "/" = None.
Proof. vm_compute. repeat split; reflexivity. Qed.

(** ** Enough fuel: every loop consumes the pattern *)

Lemma drop_rune_shorter s : s <> [] -> (length (drop (decode_rune s).1.2 s) < length s)%nat.
Proof.
  intros Hs. pose proof (decode_rune_width s Hs). rewrite length_drop.
  destruct s; [done|]. simpl in *. lia.
Qed.

Lemma getEsc_shorter chunk r rest : getEsc chunk = Some (r, rest) -> (length rest < length chunk)%nat.
Proof.
  unfold getEsc. destruct chunk as [|c chunk']; [done|]. destruct (_ || _); [done|].
  set (body := if c =? b_backslash then chunk' else c :: chunk').
  assert (length body <= length (c :: chunk'))%nat as Hb.
  { unfold body. destruct (c =? b_backslash); simpl; lia. }
  destruct body as [|b body'] eqn:E; [done|].
  pose proof (drop_rune_shorter (b :: body') ltac:(done)) as Hd.
  destruct (decode_rune (b :: body')) as [[r' w] ok]. cbn [fst snd] in Hd.
  destruct (_ && _); [done|]. destruct (drop w (b :: body')) eqn:Ed; [done|].
  intros [= _ <-]. lia.
Qed.

Lemma class_ranges_shorter n chunk r f first found rest :
  class_ranges n chunk r f first = Some (found, rest) -> (length rest < length chunk)%nat.
Proof.
  revert chunk f first. induction n as [|n IH]; intros chunk f first; [done|].
  cbn [class_ranges]. destruct chunk as [|c chunk']; [done|].
  destruct (_ && _); [intros [= _ <-]; simpl; lia|].
  destruct (getEsc (c :: chunk')) as [[lo chunk1]|] eqn:E1; [|done].
  apply getEsc_shorter in E1. destruct chunk1 as [|d chunk2]; [done|].
  destruct (d =? b_dash).
  - destruct (getEsc chunk2) as [[hi chunk3]|] eqn:E2; [|done]. apply getEsc_shorter in E2.
    intros H%IH. simpl in *. lia.
  - intros H%IH. simpl in *. lia.
Qed.

Lemma class_ranges_fuel n m chunk r f first :
  (length chunk <= n)%nat -> (length chunk <= m)%nat ->
  class_ranges n chunk r f first = class_ranges m chunk r f first.
Proof.
  revert m chunk f first. induction n as [|n IH]; intros m chunk f first Hn Hm.
  { destruct chunk; simpl in *; [|lia]. by destruct m. }
  destruct m as [|m]; [by destruct chunk; simpl in *; [|lia]|].
  cbn [class_ranges]. destruct chunk as [|c chunk']; [done|]. destruct (_ && _); [done|].
  destruct (getEsc (c :: chunk')) as [[lo chunk1]|] eqn:E1; [|done].
  apply getEsc_shorter in E1. destruct chunk1 as [|d chunk2]; [done|].
  destruct (d =? b_dash); [|apply IH; simpl in *; lia].
  destruct (getEsc chunk2) as [[hi chunk3]|] eqn:E2; [|done]. apply getEsc_shorter in E2.
  apply IH; simpl in *; lia.
Qed.

Lemma matchChunk_fuel n m chunk s f :
  (length chunk <= n)%nat -> (length chunk <= m)%nat ->
  matchChunk n chunk s f = matchChunk m chunk s f.
Proof.
  revert m chunk s f. induction n as [|n IH]; intros m chunk s f Hn Hm.
  { destruct chunk; simpl in *; [|lia]. by destruct m. }
  destruct m as [|m]; [by destruct chunk; simpl in *; [|lia]|].
  destruct chunk as [|c chunk']; [done|]. cbn [matchChunk]. simpl in Hn, Hm.
  destruct (c =? b_open).
  - destruct (decode_rune s) as [[r w] ok].
    set (body := if bool_decide (head chunk' = Some b_caret) then drop 1 chunk' else chunk').
    assert (length body <= length chunk')%nat as Hb.
    { unfold body. case_bool_decide; [rewrite length_drop; lia|done]. }
    rewrite (class_ranges_fuel n m) by lia.
    destruct (class_ranges m body _ _ _) as [[found rest]|] eqn:E; [|done].
    apply class_ranges_shorter in E. apply IH; lia.
  - destruct (c =? b_question); [destruct (f || _); apply IH; lia|].
    destruct (c =? b_backslash); [destruct chunk'; [done|]; simpl in *|];
      destruct (f || _); apply IH; lia.
Qed.

Lemma scan_body_shorter p inr : (length (scan_body p inr).2 <= length p)%nat.
Proof.
  remember (length p) as n eqn:En. revert p inr En.
  induction n as [n IH] using lt_wf_ind. intros p inr ->.
  destruct p as [|c p]; [done|]. cbn [scan_body]. destruct (c =? b_backslash).
  - destruct p as [|e p]; [simpl; lia|].
    pose proof (IH (length p) ltac:(simpl; lia) p inr eq_refl) as H.
    destruct (scan_body p inr). simpl in *. lia.
  - destruct (_ && _); [simpl; lia|].
    set (inr' := if c =? b_open then true else if c =? b_close then false else inr).
    pose proof (IH (length p) ltac:(simpl; lia) p inr' eq_refl) as H.
    destruct (scan_body p inr'). simpl in *. lia.
Qed.

Lemma scanChunk_shorter p : p <> [] -> (length (scanChunk p).2 < length p)%nat.
Proof.
  induction p as [|c p IH]; [done|]. intros _. cbn [scanChunk]. destruct (c =? b_star) eqn:Es.
  - destruct p as [|c' p']; [simpl; lia|]. specialize (IH ltac:(done)).
    destruct (scanChunk (c' :: p')) as [[st ch] tl]. simpl in *. lia.
  - cbn [scan_body]. destruct (c =? b_backslash).
    + destruct p as [|e p]; [simpl; lia|]. pose proof (scan_body_shorter p false).
      destruct (scan_body p false). simpl in *. lia.
    + rewrite Es. cbn [andb].
      set (inr := if c =? b_open then true else if c =? b_close then false else false).
      pose proof (scan_body_shorter p inr). destruct (scan_body p inr). simpl in *. lia.
Qed.

Lemma check_rest_fuel n m p :
  (length p <= n)%nat -> (length p <= m)%nat -> check_rest n p = check_rest m p.
Proof.
  revert m p. induction n as [|n IH]; intros m p Hn Hm.
  { destruct p; simpl in *; [|lia]. by destruct m. }
  destruct m as [|m]; [by destruct p; simpl in *; [|lia]|].
  destruct p as [|c p]; [done|]. pose proof (scanChunk_shorter (c :: p) ltac:(done)) as Hs.
  cbn [check_rest]. destruct (scanChunk (c :: p)) as [[st ch] tl]. simpl in Hs, Hn, Hm.
  destruct (match_chunk ch []); [|done]. apply IH; lia.
Qed.

(** More fuel than the length of the pattern changes nothing. *)
Lemma match_from_fuel n m p name :
  (length p <= n)%nat -> (length p <= m)%nat -> match_from n p name = match_from m p name.
Proof.
  revert m p name. induction n as [|n IH]; intros m p name Hn Hm.
  { destruct p; simpl in *; [|lia]. by destruct m. }
  destruct m as [|m]; [by destruct p; simpl in *; [|lia]|].
  destruct p as [|c p]; [done|]. pose proof (scanChunk_shorter (c :: p) ltac:(done)) as Hs.
  cbn [match_from]. destruct (scanChunk (c :: p)) as [[st ch] tl]. simpl in Hs, Hn, Hm.
  destruct (st && _); [done|]. destruct (match_chunk ch name) as [found|]; [|done].
  destruct (match found with Some t => _ | None => _ end); [apply IH; lia|].
  destruct (if st then _ else _) as [[t|]|]; [apply IH; lia| |done].
  apply check_rest_fuel; lia.
Qed.

(** ** Malformed patterns *)

Lemma class_ranges_rest n chunk r r' f f' first :
  snd <$> class_ranges n chunk r f first = snd <$> class_ranges n chunk r' f' first.
Proof.
  revert chunk f f' first. induction n as [|n IH]; intros chunk f f' first; [done|].
  cbn [class_ranges]. destruct chunk as [|c chunk']; [done|].
  destruct (_ && _); [done|]. destruct (getEsc (c :: chunk')) as [[lo chunk1]|]; [|done].
  destruct chunk1 as [|d chunk2]; [done|]. destruct (d =? b_dash); [|apply IH].
  destruct (getEsc chunk2) as [[hi chunk3]|]; [|done]. apply IH.
Qed.

(** Whether a chunk is malformed does not depend on the name. *)
Lemma matchChunk_bad n chunk s s' f f' :
  matchChunk n chunk s f = None -> matchChunk n chunk s' f' = None.
Proof.
  revert chunk s s' f f'. induction n as [|n IH]; intros chunk s s' f f'.
  { by destruct chunk. }
  destruct chunk as [|c chunk']; [done|]. cbn [matchChunk]. destruct (c =? b_open).
  - destruct (decode_rune s) as [[r w] ok], (decode_rune s') as [[r' w'] ok'].
    set (body := if bool_decide (head chunk' = Some b_caret) then drop 1 chunk' else chunk').
    pose proof (class_ranges_rest n body (if f || bool_decide (s = []) then 0 else r)
      (if f' || bool_decide (s' = []) then 0 else r') false false true) as E.
    destruct (class_ranges n body (if f || _ then 0 else r) false true) as [[m1 rest1]|];
      destruct (class_ranges n body (if f' || _ then 0 else r') false true) as [[m2 rest2]|]; try done.
    injection E as ->. apply IH.
  - destruct (c =? b_question); [destruct (f || _), (f' || _); apply IH|].
    destruct (c =? b_backslash); [destruct chunk'; [done|]|];
      destruct (f || _), (f' || _); apply IH.
Qed.

Lemma match_chunk_bad chunk s s' : match_chunk chunk s = None -> match_chunk chunk s' = None.
Proof. apply matchChunk_bad. Qed.

Lemma star_skip_bad chunk last name : star_skip chunk last name = None -> match_chunk chunk [] = None.
Proof.
  induction name as [|b name IH]; [done|]. cbn [star_skip]. destruct (b =? b_slash); [done|].
  destruct (match_chunk chunk name) as [[t|]|] eqn:E; [| |by intros; apply (match_chunk_bad _ name)].
  - destruct (_ && _); [done|done].
  - done.
Qed.

(** The pattern is malformed: one of its chunks is. *)
Fixpoint malformed (n : nat) (pattern : list Z) : bool :=
  match n, pattern with
  | _, [] => false
  | O, _ => false
  | S n', _ =>
      let '(star, chunk, rest) := scanChunk pattern in
      match match_chunk chunk [] with
      | None => true
      | Some _ => malformed n' rest
      end
  end.

Lemma check_rest_bad n p : check_rest n p = if malformed n p then None else Some false.
Proof.
  revert p. induction n as [|n IH]; intros p; [by destruct p|].
  destruct p as [|c p]; [done|]. cbn [check_rest malformed].
  destruct (scanChunk (c :: p)) as [[st ch] tl]. by destruct (match_chunk ch []).
Qed.

Lemma scan_body_empty p : (scan_body p false).1 = [] -> p = [] \/ head p = Some b_star.
Proof.
  destruct p as [|c p]; [by left|]. cbn [scan_body]. destruct (c =? b_backslash).
  - destruct p; [done|]. by destruct (scan_body p false).
  - destruct (c =? b_star) eqn:E; [right; simpl; f_equal; by apply Z.eqb_eq|]. cbn [andb].
    set (inr := if c =? b_open then true else if c =? b_close then false else false).
    by destruct (scan_body p inr).
Qed.

(** An empty chunk after a star ends the pattern. *)
Lemma scan_empty_chunk p : (scanChunk p).1.2 = [] -> (scanChunk p).2 = [].
Proof.
  induction p as [|c p IH]; [done|]. cbn [scanChunk]. destruct (c =? b_star) eqn:Es.
  - by destruct (scanChunk p) as [[st ch] tl].
  - pose proof (scan_body_empty (c :: p)) as H. destruct (scan_body (c :: p) false) as [ch tl].
    simpl in *. intros ->. destruct (H eq_refl) as [?|[= ->]]; [done|]. by rewrite Z.eqb_refl in Es.
Qed.

Lemma match_from_bad n p name : match_from n p name = None <-> malformed n p = true.
Proof.
  revert p name. induction n as [|n IH]; intros p name; [by destruct p|].
  destruct p as [|c p]; [done|]. cbn [match_from malformed].
  pose proof (scan_empty_chunk (c :: p)) as Hempty.
  destruct (scanChunk (c :: p)) as [[st ch] tl]. cbn [fst snd] in Hempty.
  destruct (st && bool_decide (ch = [])) eqn:Etrail.
  { apply andb_prop in Etrail as [_ E%bool_decide_eq_true]. rewrite (Hempty E), E. by destruct n. }
  destruct (match_chunk ch []) as [o|] eqn:E0.
  2: { by rewrite (match_chunk_bad ch [] name E0). }
  destruct (match_chunk ch name) as [found|] eqn:E1.
  2: { by rewrite (match_chunk_bad ch name [] E1) in E0. }
  destruct (match found with Some t => _ | None => _ end); [apply IH|].
  destruct (if st then star_skip ch (bool_decide (tl = [])) name else Some None) as [[t|]|] eqn:E2.
  - apply IH.
  - rewrite check_rest_bad. by destruct (malformed n tl).
  - destruct st; [|done]. by rewrite (star_skip_bad _ _ _ E2) in E0.
Qed.

(** A pattern is malformed for one name exactly when it is malformed for every
    name, so the startup check with the probe [/validation/target] is complete:
    matching an accepted pattern never fails at run time, and [MatchesAny], which
    ignores the error, never ignores one. *)
Lemma path_Match_error_by_pattern pattern name name' :
  path_Match pattern name = None <-> path_Match pattern name' = None.
Proof. unfold path_Match. by rewrite !match_from_bad. Qed.

(** On well-formed patterns [MatchesAny] is: some pattern matches. *)
Lemma MatchesAny_spec value patterns :
  MatchesAny value patterns = true <-> exists p, p ∈ patterns /\ path_Match p value = Some true.
Proof.
  induction patterns as [|p ps IH]; cbn [MatchesAny]; [set_solver|].
  destruct (path_Match p value) as [[]|] eqn:E.
  - split; [|done]. intros _. exists p. split; [set_solver|done].
  - rewrite IH. split; [intros (q & ? & ?); exists q; split; [set_solver|done]|].
    intros (q & Hq & Eq). apply elem_of_cons in Hq as [->|Hq]; [congruence|eauto].
  - rewrite IH. split; [intros (q & ? & ?); exists q; split; [set_solver|done]|].
    intros (q & Hq & Eq). apply elem_of_cons in Hq as [->|Hq]; [congruence|eauto].
Qed.
