(* ===== verification/Config.v ===== *)
(** * Configuration (internal/config/config.go)

    The configuration structs, the defaults, and [Validate] on every branch.  The
    order in which Go ranges over a map is not specified, so it is a parameter
    ([MapRange]); so is [strconv.Quote] ([%q]), whose output only appears in
    messages.  A float64 is a [spec_float], with its NaN. *)

From Stdlib Require Import SpecFloat.
From S2P Require Import Prelude GoText Utf8 Regex Store PathMatch.

Local Open Scope Z_scope.
Local Open Scope go_scope.

(** ** The structs *)

Record Runtime : Type := {
  runtime_ActiveProfile : string;
  runtime_ConfigFiles : list string;
}.

Record App : Type := {
  app_Name : string;
  app_Schema : string;
  app_Env : string;
  app_ShutdownTimeout : Z;
}.

Record CORS : Type := {
  cors_Enabled : bool;
  cors_AllowedOrigins : list string;
  cors_AllowedHeaders : list string;
  cors_ExposedHeaders : list string;
  cors_MaxAge : Z;
}.

Record HTTP : Type := {
  http_Address : string;
  http_ReadTimeout : Z;
  http_WriteTimeout : Z;
  http_IdleTimeout : Z;
  http_RequestTimeout : Z;
  http_MaxBodyBytes : Z;
  http_TrustedProxies : list string;
  http_CORS : CORS;
}.

Record GRPCTLS : Type := {
  grpctls_Enabled : bool;
  grpctls_CertFile : string;
  grpctls_KeyFile : string;
  grpctls_ClientCAFile : string;
}.

Record GRPC : Type := {
  grpc_Enabled : bool;
  grpc_Address : string;
  grpc_ReflectionEnabled : bool;
  grpc_MaxReceiveBytes : Z;
  grpc_TLS : GRPCTLS;
}.

Record Log : Type := {
  log_Level : string;
  log_Format : string;
  log_File : string;
  log_MaxSizeMB : Z;
  log_MaxBackups : Z;
  log_MaxAgeDays : Z;
  log_Compress : bool;
}.

Record Database : Type := {
  database_Enabled : bool;
  database_Name : string;
  database_Schema : string;
  database_Type : string;
  database_DSN : string;
  database_MaxOpenConns : Z;
  database_MaxIdleConns : Z;
  database_ConnMaxLifetime : Z;
  database_ConnMaxIdleTime : Z;
  database_PingTimeout : Z;
}.

Record Redis : Type := {
  redis_Enabled : bool;
  redis_Address : string;
  redis_Username : string;
  redis_Password : string;
  redis_DB : Z;
  redis_DialTimeout : Z;
  redis_ReadTimeout : Z;
  redis_WriteTimeout : Z;
}.

Record Health : Type := {
  health_DatabaseTimeout : Z;
  health_RedisTimeout : Z;
}.

Record RateLimitRule : Type := {
  ratelimitrule_Rate : Z;
  ratelimitrule_Burst : Z;
  ratelimitrule_Period : Z;
}.

Record RateLimit : Type := {
  ratelimit_Enabled : bool;
  ratelimit_FailOpen : bool;
  ratelimit_IP : RateLimitRule;
  ratelimit_API : RateLimitRule;
  ratelimit_User : RateLimitRule;
  ratelimit_Login : RateLimitRule;
}.

Record Observability : Type := {
  observability_MetricsEnabled : bool;
  observability_TracingEnabled : bool;
  observability_TracingEndpoint : string;
  observability_TracingSampleRatio : spec_float;
  observability_PprofEnabled : bool;
  observability_PprofToken : string;
}.

Record Swagger : Type := {
  swagger_Enabled : bool;
  swagger_RequireAuth : bool;
}.

Record JWT : Type := {
  jwt_Issuer : string;
  jwt_Secret : string;
  jwt_TTL : Z;
}.

Record PSK : Type := {
  psk_Enabled : bool;
  psk_Key : string;
  psk_HTTPPaths : list string;
  psk_GRPCMethods : list string;
}.

Record Auth : Type := {
  auth_ClientID : string;
  auth_ClientSecret : string;
  auth_JWKSURL : string;
  auth_Issuer : string;
  auth_Audience : string;
  auth_SkipHTTPPaths : list string;
  auth_SkipGRPCMethods : list string;
  auth_PSK : PSK;
}.

Record Authorization : Type := {
  authorization_Enabled : bool;
}.

Record Cron : Type := {
  cron_Enabled : bool;
  cron_Timezone : string;
  cron_SampleSpec : string;
}.

Record Migration : Type := {
  migration_AutoUp : bool;
  migration_CreateSchema : bool;
  migration_Path : string;
  migration_DatabaseURL : string;
  migration_Table : string;
  migration_Schema : string;
  migration_DatabaseName : string;
}.

Record User : Type := {
  user_CacheTTL : Z;
  user_LockTTL : Z;
  user_LockRetryDelay : Z;
}.

Record Idempotency : Type := {
  idempotency_Enabled : bool;
  idempotency_HTTPPaths : list string;
  idempotency_GRPCMethods : list string;
  idempotency_ProcessingTTL : Z;
  idempotency_ResultTTL : Z;
  idempotency_FailureTTL : Z;
}.

Record ClientAuth : Type := {
  clientauth_Type : string;
  clientauth_Token : string;
}.

Record Retry : Type := {
  retry_MaxAttempts : Z;
  retry_InitialBackoff : Z;
  retry_MaxBackoff : Z;
  retry_Methods : list string;
}.

Record Breaker : Type := {
  breaker_Enabled : bool;
  breaker_FailureThreshold : Z;
  breaker_OpenTimeout : Z;
}.

Record ClientTLS : Type := {
  clienttls_Enabled : bool;
  clienttls_ServerName : string;
  clienttls_CAFile : string;
  clienttls_CertFile : string;
  clienttls_KeyFile : string;
}.

Record HTTPUpstream : Type := {
  httpupstream_BaseURL : string;
  httpupstream_Timeout : Z;
  httpupstream_Auth : ClientAuth;
  httpupstream_Retry : Retry;
  httpupstream_Breaker : Breaker;
  httpupstream_TLS : ClientTLS;
}.

Record GRPCUpstream : Type := {
  grpcupstream_Target : string;
  grpcupstream_Timeout : Z;
  grpcupstream_Auth : ClientAuth;
  grpcupstream_Retry : Retry;
  grpcupstream_Breaker : Breaker;
  grpcupstream_TLS : ClientTLS;
}.

Record Outbound : Type := {
  outbound_HTTP : gmap string HTTPUpstream;
  outbound_GRPC : gmap string GRPCUpstream;
}.

Record EventBus : Type := {
  eventbus_Enabled : bool;
  eventbus_URLs : list string;
  eventbus_StreamName : string;
  eventbus_Subjects : list string;
  eventbus_Storage : string;
  eventbus_MaxAge : Z;
  eventbus_DuplicateWindow : Z;
  eventbus_ConnectTimeout : Z;
  eventbus_ReconnectWait : Z;
  eventbus_PublishTimeout : Z;
  eventbus_ConsumerAckWait : Z;
  eventbus_ConsumerMaxDeliver : Z;
}.

Record Config : Type := {
  config_Runtime : Runtime;
  config_App : App;
  config_HTTP : HTTP;
  config_GRPC : GRPC;
  config_Log : Log;
  config_Database : Database;
  config_Redis : Redis;
  config_Health : Health;
  config_RateLimit : RateLimit;
  config_Observability : Observability;
  config_Swagger : Swagger;
  config_JWT : JWT;
  config_Auth : Auth;
  config_Authorization : Authorization;
  config_Cron : Cron;
  config_Migration : Migration;
  config_User : User;
  config_Idempotency : Idempotency;
  config_Outbound : Outbound;
  config_EventBus : EventBus;
}.

(** ** Library parameters *)

(** [for k, v := range m]: some order of the entries. *)
Class MapRange : Type := map_range : forall {A : Type}, gmap string A -> list (string * A).
Class MapRangeLaws `{MapRange} : Prop := {
  map_range_perm {A} (m : gmap string A) : map_range m ≡ₚ map_to_list m;
}.

(** [strconv.Quote]. *)
Class Quote : Type := quote : string -> string.

(** ** Patterns *)

(** [^[a-z0-9][a-z0-9_-]*$] *)
Definition validProfile : re := RSeq (RChr lower_alnum) (RStar (RChr lower_alnum_us_dash)).
(** [^[a-z][a-z0-9_]{0,62}$] *)
Definition validMigrationTable : re := RSeq (RChr is_lower) (upto 62 (RChr lower_alnum_us)).

Definition ErrBadPattern : goerr := ESentinel "path.ErrBadPattern" "syntax error in pattern".

(** [strings.TrimSpace(s) == ""]. *)
Definition blank (s : string) : bool := forallb is_space (runes s).

(** [strings.Count(s, "/")]. *)
Definition count_slash (s : string) : Z :=
  Z.of_nat (length (List.filter (Z.eqb b_slash) (byte_vals s))).

Definition len (s : string) : Z := Z.of_nat (String.length s).
Definition empty (s : string) : bool := bool_decide (s = EmptyString).

Definition probe : string := "/validation/target".

Definition isDBType (value : string) : bool :=
  bool_decide (value = "mysql") || bool_decide (value = "postgres") || bool_decide (value = "kingbase").

(** The start of the extension: the last dot after the last slash. *)
Fixpoint ext_rev (rev : string) (acc : string) : string :=
  match rev with
  | EmptyString => EmptyString
  | String "/" _ => EmptyString
  | String "." _ => String "." acc
  | String c rest => ext_rev rest (String c acc)
  end.
(** [filepath.Ext]. *)
Definition Ext (path : string) : string := ext_rev (String.rev path) EmptyString.

(** [strings.TrimSuffix]. *)
Definition TrimSuffix (s suffix : string) : string :=
  let n := (String.length s - String.length suffix)%nat in
  if bool_decide (String.substring n (String.length suffix) s = suffix) &&
     (String.length suffix <=? String.length s)%nat
  then String.substring 0 n s else s.

Definition profileConfigPath (path profile : string) : string :=
  let extension := Ext path in
  let base := TrimSuffix path extension in
  base +:+ "-" +:+ profile +:+ extension.

Example profile_path :
  profileConfigPath "configs/config.yaml" "prod" = "configs/config-prod.yaml" /\
  profileConfigPath "a.b/config" "dev" = "a.b/config-dev".
Proof. split; reflexivity. Qed.

Section validate.
Context `{MapRange} `{Quote}.

(** Check each element; the first failure is the result. *)
Fixpoint each {A} (check : A -> res unit) (l : list A) : res unit :=
  match l with
  | [] => Ok tt
  | x :: l' => try _ := check x in each check l'
  end.

(** [path.Match(pattern, "/validation/target")], only its error. *)
Definition pattern_error (prefix pattern : string) : res unit :=
  match path_Match pattern probe with
  | None => Err (EWrap (prefix +:+ quote pattern) ErrBadPattern)
  | Some _ => Ok tt
  end.

(** One element of the HTTP path lists (skip, PSK, idempotency). *)
Definition check_http_path (setting pattern : string) : res unit :=
  fail_if negb (has_prefix "/api/" pattern)
    with setting +:+ " contains path outside /api " +:+ quote pattern;
  pattern_error (setting +:+ " contains invalid pattern ") pattern.

Definition grpc_method_bad (pattern : string) : bool :=
  negb (has_prefix "/" pattern) || negb (count_slash pattern =? 2).

(** One element of the gRPC method lists. *)
Definition check_grpc_method (setting pattern : string) : res unit :=
  fail_if grpc_method_bad pattern
    with setting +:+ " contains invalid method pattern " +:+ quote pattern;
  pattern_error (setting +:+ " contains invalid pattern ") pattern.

Definition check_rule (entry : string * RateLimitRule) : res unit :=
  let rule := entry.2 in
  fail_if (ratelimitrule_Rate rule <=? 0) || (ratelimitrule_Burst rule <=? 0) ||
          (ratelimitrule_Period rule <=? 0)
    with "rate_limit." +:+ entry.1 +:+ " values must be positive";
  Ok tt.

Definition rate_limit_rules (r : RateLimit) : gmap string RateLimitRule :=
  {["ip" := ratelimit_IP r; "api" := ratelimit_API r; "user" := ratelimit_User r;
    "login" := ratelimit_Login r]}.

Definition check_retry_method (name pattern : string) : res unit :=
  fail_if grpc_method_bad pattern with "outbound " +:+ name +:+ " retry method pattern is invalid";
  match path_Match pattern probe with
  | None => Err (EWrap ("outbound " +:+ name +:+ " retry method pattern is invalid") ErrBadPattern)
  | Some _ => Ok tt
  end.

Definition validateClientPolicy (name : string) (auth : ClientAuth) (retry : Retry)
    (breaker : Breaker) (tls : ClientTLS) : res unit :=
  let ty := clientauth_Type auth in
  fail_if negb (empty ty) && negb (bool_decide (ty = "bearer")) && negb (bool_decide (ty = "psk"))
    with "outbound " +:+ name +:+ " auth.type must be bearer or psk";
  fail_if negb (empty ty) && empty (clientauth_Token auth)
    with "outbound " +:+ name +:+ " auth.token is required";
  fail_if negb (empty ty) && negb (clienttls_Enabled tls)
    with "outbound " +:+ name +:+ " credentials require TLS";
  fail_if (retry_MaxAttempts retry <? 1) || (5 <? retry_MaxAttempts retry) ||
          (retry_InitialBackoff retry <=? 0) || (retry_MaxBackoff retry <? retry_InitialBackoff retry)
    with "outbound " +:+ name +:+ " retry policy is invalid";
  try _ := each (check_retry_method name) (retry_Methods retry) in
  fail_if breaker_Enabled breaker &&
          ((breaker_FailureThreshold breaker =? 0) || (breaker_OpenTimeout breaker <=? 0))
    with "outbound " +:+ name +:+ " breaker policy is invalid";
  fail_if clienttls_Enabled tls &&
          negb (Bool.eqb (empty (clienttls_CertFile tls)) (empty (clienttls_KeyFile tls)))
    with "outbound " +:+ name +:+ " TLS certificate and key must be configured together";
  Ok tt.

Definition check_http_upstream (entry : string * HTTPUpstream) : res unit :=
  let '(name, up) := entry in
  fail_if empty (httpupstream_BaseURL up) || (httpupstream_Timeout up <=? 0)
    with "outbound.http." +:+ name +:+ " requires base_url and positive timeout";
  validateClientPolicy name (httpupstream_Auth up) (httpupstream_Retry up)
    (httpupstream_Breaker up) (httpupstream_TLS up).

Definition check_grpc_upstream (entry : string * GRPCUpstream) : res unit :=
  let '(name, up) := entry in
  fail_if empty (grpcupstream_Target up) || (grpcupstream_Timeout up <=? 0)
    with "outbound.grpc." +:+ name +:+ " requires target and positive timeout";
  validateClientPolicy name (grpcupstream_Auth up) (grpcupstream_Retry up)
    (grpcupstream_Breaker up) (grpcupstream_TLS up).

Definition production (c : Config) : bool := bool_decide (app_Env (config_App c) = "production").

Definition float_zero : spec_float := S754_zero false.
Definition float_one : spec_float := S754_finite false 4503599627370496 (-52).

(** Lines 455-512: servers, stores, limits, observability. *)
Definition validate_servers (c : Config) : res unit :=
  let db := config_Database c in
  let http := config_HTTP c in
  let grpc := config_GRPC c in
  let mig := config_Migration c in
  let redis := config_Redis c in
  let health := config_Health c in
  let rl := config_RateLimit c in
  let obs := config_Observability c in
  fail_if negb (re_match validMigrationTable (database_Name db))
    with "database.name must contain lowercase letters, digits, or underscores and be at most 63 characters";
  fail_if negb (empty (database_Schema db)) && negb (re_match validMigrationTable (database_Schema db))
    with "database.schema must contain lowercase letters, digits, or underscores and be at most 63 characters";
  fail_if empty (http_Address http) with "http.address is required";
  fail_if grpc_Enabled grpc && (empty (grpc_Address grpc) || (grpc_MaxReceiveBytes grpc <=? 0))
    with "enabled grpc requires address and positive max_receive_bytes";
  fail_if grpctls_Enabled (grpc_TLS grpc) &&
          (empty (grpctls_CertFile (grpc_TLS grpc)) || empty (grpctls_KeyFile (grpc_TLS grpc)))
    with "grpc tls requires cert_file and key_file";
  fail_if production c && grpc_Enabled grpc && negb (grpctls_Enabled (grpc_TLS grpc))
    with "grpc tls must be enabled in production";
  fail_if production c && grpc_ReflectionEnabled grpc
    with "grpc reflection must be disabled in production";
  fail_if database_Enabled db && (empty (database_DSN db) || negb (isDBType (database_Type db)))
    with "enabled database requires dsn and type mysql, postgres, or kingbase";
  fail_if migration_AutoUp mig &&
          (negb (database_Enabled db) || empty (migration_Path mig) || empty (migration_DatabaseURL mig) ||
           negb (re_match validMigrationTable (migration_Table mig)))
    with "migration.auto_up requires enabled database, path, database_url, and a valid service-specific table";
  fail_if redis_Enabled redis && empty (redis_Address redis) with "enabled redis requires address";
  fail_if (http_RequestTimeout http <=? 0) || (health_DatabaseTimeout health <=? 0) ||
          (health_RedisTimeout health <=? 0)
    with "http and health timeouts must be positive";
  fail_if ratelimit_Enabled rl && negb (redis_Enabled redis) with "rate_limit requires redis.enabled";
  try _ := (if ratelimit_Enabled rl then each check_rule (map_range (rate_limit_rules rl))
            else Ok tt) in
  fail_if cors_Enabled (http_CORS http) && bool_decide (cors_AllowedOrigins (http_CORS http) = [])
    with "cors.allowed_origins is required when cors is enabled";
  fail_if SFltb (observability_TracingSampleRatio obs) float_zero ||
          SFltb float_one (observability_TracingSampleRatio obs)
    with "observability.tracing_sample_ratio must be between 0 and 1";
  fail_if observability_TracingEnabled obs && empty (observability_TracingEndpoint obs)
    with "observability.tracing_endpoint is required";
  fail_if observability_PprofEnabled obs && (len (observability_PprofToken obs) <? 32)
    with "observability.pprof_token must contain at least 32 bytes";
  fail_if production c && swagger_Enabled (config_Swagger c) && negb (swagger_RequireAuth (config_Swagger c))
    with "swagger.require_auth must be enabled in production";
  Ok tt.

(** Lines 513-561: authentication and authorization. *)
Definition validate_auth (c : Config) : res unit :=
  let auth := config_Auth c in
  let psk := auth_PSK auth in
  fail_if (negb (empty (auth_ClientID auth)) || negb (empty (auth_ClientSecret auth))) &&
          (len (jwt_Secret (config_JWT c)) <? 32)
    with "jwt.secret must contain at least 32 bytes when auth is enabled";
  try _ := each (check_http_path "auth.skip_http_paths") (auth_SkipHTTPPaths auth) in
  fail_if production c &&
          (blank (auth_JWKSURL auth) || blank (auth_Issuer auth) || blank (auth_Audience auth))
    with "production auth requires JWKS URL, issuer, and audience";
  fail_if production c && negb (authorization_Enabled (config_Authorization c))
    with "authorization must be enabled in production";
  fail_if authorization_Enabled (config_Authorization c) &&
          bool_decide (outbound_GRPC (config_Outbound c) !! "authorization" = None)
    with "enabled authorization requires outbound.grpc.authorization";
  try _ := each (check_grpc_method "auth.skip_grpc_methods") (auth_SkipGRPCMethods auth) in
  fail_if psk_Enabled psk &&
          ((len (psk_Key psk) <? 32) ||
           (Z.of_nat (length (psk_HTTPPaths psk)) + Z.of_nat (length (psk_GRPCMethods psk)) =? 0))
    with "enabled auth.psk requires a key of at least 32 bytes and at least one route pattern";
  try _ := each (check_http_path "auth.psk.http_paths") (psk_HTTPPaths psk) in
  each (check_grpc_method "auth.psk.grpc_methods") (psk_GRPCMethods psk).

(** Lines 562-603: caches, idempotency, event bus, upstreams. *)
Definition validate_clients (c : Config) : res unit :=
  let user := config_User c in
  let idem := config_Idempotency c in
  let bus := config_EventBus c in
  fail_if (user_CacheTTL user <=? 0) || (user_LockTTL user <=? 0) || (user_LockRetryDelay user <=? 0)
    with "user cache and lock durations must be positive";
  fail_if idempotency_Enabled idem &&
          (negb (redis_Enabled (config_Redis c)) ||
           (bool_decide (idempotency_HTTPPaths idem = []) && bool_decide (idempotency_GRPCMethods idem = [])) ||
           (idempotency_ProcessingTTL idem <=? 0) || (idempotency_ResultTTL idem <=? 0) ||
           (idempotency_FailureTTL idem <=? 0))
    with "enabled idempotency requires redis, at least one route pattern, and positive TTL values";
  try _ := each (check_http_path "idempotency.http_paths") (idempotency_HTTPPaths idem) in
  try _ := each (check_grpc_method "idempotency.grpc_methods") (idempotency_GRPCMethods idem) in
  fail_if eventbus_Enabled bus &&
          (bool_decide (eventbus_URLs bus = []) || empty (eventbus_StreamName bus) ||
           bool_decide (eventbus_Subjects bus = []) ||
           (negb (bool_decide (eventbus_Storage bus = "file")) &&
            negb (bool_decide (eventbus_Storage bus = "memory"))) ||
           (eventbus_MaxAge bus <=? 0) || (eventbus_DuplicateWindow bus <=? 0) ||
           (eventbus_ConnectTimeout bus <=? 0) || (eventbus_ReconnectWait bus <=? 0) ||
           (eventbus_PublishTimeout bus <=? 0) || (eventbus_ConsumerAckWait bus <=? 0) ||
           (eventbus_ConsumerMaxDeliver bus <=? 0))
    with "enabled event_bus requires URLs, stream, subjects, valid storage, positive timeouts, and max deliveries";
  try _ := each check_http_upstream (map_range (outbound_HTTP (config_Outbound c))) in
  each check_grpc_upstream (map_range (outbound_GRPC (config_Outbound c))).

Definition Validate (c : Config) : res unit :=
  try _ := validate_servers c in
  try _ := validate_auth c in
  validate_clients c.

End validate.

(** ** The defaults ([setDefaults], decoded) *)

Definition minute : Z := 60 * second.
Definition hour : Z := 60 * minute.

(** [setRateLimitDefaults]. *)
Definition default_rule (rate burst : Z) : RateLimitRule :=
  {| ratelimitrule_Rate := rate; ratelimitrule_Burst := burst; ratelimitrule_Period := minute |}.

Definition default_config (env : string) : Config := {|
  config_Runtime := {| runtime_ActiveProfile := EmptyString; runtime_ConfigFiles := [] |};
  config_App := {| app_Name := "service-registry-service"; app_Schema := EmptyString; app_Env := env;
                   app_ShutdownTimeout := 10 * second |};
  config_HTTP := {| http_Address := "127.0.0.1:8080"; http_ReadTimeout := 10 * second;
    http_WriteTimeout := 15 * second; http_IdleTimeout := 60 * second;
    http_RequestTimeout := 10 * second; http_MaxBodyBytes := Z.shiftl 1 20; http_TrustedProxies := [];
    http_CORS := {| cors_Enabled := false; cors_AllowedOrigins := [];
      cors_AllowedHeaders := ["Authorization"; "Content-Type"; "X-Request-ID"];
      cors_ExposedHeaders := ["X-Request-ID"; "X-RateLimit-Limit"; "X-RateLimit-Remaining"; "Retry-After"];
      cors_MaxAge := 12 * hour |} |};
  config_GRPC := {| grpc_Enabled := true; grpc_Address := "127.0.0.1:9090";
    grpc_ReflectionEnabled := true; grpc_MaxReceiveBytes := Z.shiftl 16 20;
    grpc_TLS := {| grpctls_Enabled := false; grpctls_CertFile := EmptyString;
      grpctls_KeyFile := EmptyString; grpctls_ClientCAFile := EmptyString |} |};
  config_Log := {| log_Level := "info"; log_Format := "json"; log_File := "logs/app.log";
    log_MaxSizeMB := 100; log_MaxBackups := 10; log_MaxAgeDays := 30; log_Compress := true |};
  config_Database := {| database_Enabled := false; database_Name := "platform";
    database_Schema := "service_registry"; database_Type := "postgres"; database_DSN := EmptyString;
    database_MaxOpenConns := 25; database_MaxIdleConns := 10; database_ConnMaxLifetime := 5 * minute;
    database_ConnMaxIdleTime := minute; database_PingTimeout := 5 * second |};
  config_Redis := {| redis_Enabled := false; redis_Address := "127.0.0.1:6379";
    redis_Username := EmptyString; redis_Password := EmptyString; redis_DB := 0;
    redis_DialTimeout := 5 * second; redis_ReadTimeout := 3 * second; redis_WriteTimeout := 3 * second |};
  config_Health := {| health_DatabaseTimeout := 2 * second; health_RedisTimeout := 2 * second |};
  config_RateLimit := {| ratelimit_Enabled := false; ratelimit_FailOpen := false;
    ratelimit_IP := default_rule 120 30; ratelimit_API := default_rule 10000 1000;
    ratelimit_User := default_rule 600 100; ratelimit_Login := default_rule 10 3 |};
  config_Observability := {| observability_MetricsEnabled := true; observability_TracingEnabled := false;
    observability_TracingEndpoint := "http://127.0.0.1:4318";
    observability_TracingSampleRatio := S754_finite false 7205759403792794 (-56);
    observability_PprofEnabled := false; observability_PprofToken := EmptyString |};
  config_Swagger := {| swagger_Enabled := true; swagger_RequireAuth := false |};
  config_JWT := {| jwt_Issuer := "service-registry-service"; jwt_Secret := EmptyString; jwt_TTL := 2 * hour |};
  config_Auth := {| auth_ClientID := EmptyString; auth_ClientSecret := EmptyString;
    auth_JWKSURL := EmptyString; auth_Issuer := "identity-service";
    auth_Audience := "service-registry-service"; auth_SkipHTTPPaths := ["/api/v1/version"];
    auth_SkipGRPCMethods := ["/grpc.health.v1.Health/*"];
    auth_PSK := {| psk_Enabled := false; psk_Key := EmptyString; psk_HTTPPaths := []; psk_GRPCMethods := [] |} |};
  config_Authorization := {| authorization_Enabled := false |};
  config_Cron := {| cron_Enabled := true; cron_Timezone := "Asia/Shanghai"; cron_SampleSpec := "0 */5 * * * *" |};
  config_Migration := {| migration_AutoUp := false; migration_CreateSchema := false;
    migration_Path := "migrations/postgres"; migration_DatabaseURL := EmptyString;
    migration_Table := "service_registry_schema_migrations"; migration_Schema := "service_registry";
    migration_DatabaseName := "platform" |};
  config_User := {| user_CacheTTL := 5 * minute; user_LockTTL := 10 * second;
    user_LockRetryDelay := 100 * millisecond |};
  config_Idempotency := {| idempotency_Enabled := false; idempotency_HTTPPaths := [];
    idempotency_GRPCMethods := []; idempotency_ProcessingTTL := 30 * second;
    idempotency_ResultTTL := 24 * hour; idempotency_FailureTTL := 5 * minute |};
  config_Outbound := {| outbound_HTTP := ∅; outbound_GRPC := ∅ |};
  config_EventBus := {| eventbus_Enabled := false; eventbus_URLs := ["nats://127.0.0.1:4222"];
    eventbus_StreamName := "PLATFORM_EVENTS"; eventbus_Subjects := ["platform.>"];
    eventbus_Storage := "file"; eventbus_MaxAge := 168 * hour; eventbus_DuplicateWindow := 10 * minute;
    eventbus_ConnectTimeout := 5 * second; eventbus_ReconnectWait := second;
    eventbus_PublishTimeout := 5 * second; eventbus_ConsumerAckWait := 30 * second;
    eventbus_ConsumerMaxDeliver := 10 |};
|}.
