(* ===== verification/ConfigFacts.v ===== *)
(** * What an accepted configuration guarantees

    The defaults are accepted outside production, an accepted production configuration is
    locked down, and accepted patterns and upstreams are usable.  ConfigSpec.v says
    exactly what is accepted. *)

From Stdlib Require Import SpecFloat.
From S2P Require Import Prelude GoText Utf8 Regex PathMatch Config.

Local Open Scope Z_scope.

(** ** Guards as conjunctions *)

Lemma fail_if_ok (b : bool) (m : string) (k : res unit) :
  (if b then Err (ENew m) else k) = Ok tt <-> b = false /\ k = Ok tt.
Proof. destruct b; naive_solver. Qed.

Lemma then_ok (r k : res unit) : res_bind r (fun _ => k) = Ok tt <-> r = Ok tt /\ k = Ok tt.
Proof. destruct r as [[]|]; simpl; naive_solver. Qed.

Lemma each_ok {A} (check : A -> res unit) l :
  each check l = Ok tt <-> Forall (fun x => check x = Ok tt) l.
Proof.
  induction l as [|x l IH]; cbn [each]; [by split; [constructor|]|].
  rewrite then_ok, IH, Forall_cons. done.
Qed.

Definition well_formed (pattern : string) : Prop := path_Match pattern probe <> None.

Lemma well_formed_everywhere p name : well_formed p -> path_Match p name <> None.
Proof. unfold well_formed, path_Match. by rewrite !match_from_bad. Qed.

(** Map order by key, and the other way round. *)
Definition key_order : MapRange := fun A m => map_to_list m.
Definition key_order_rev : MapRange := fun A m => reverse (map_to_list m).

Lemma key_order_laws : @MapRangeLaws key_order.
Proof. by constructor. Qed.
Lemma key_order_rev_laws : @MapRangeLaws key_order_rev.
Proof. constructor. intros A m. apply reverse_Permutation. Qed.

(** ** Production *)

(** Peel a chain of guards off an acceptance. *)
Ltac peel H :=
  repeat first [ let G := fresh "G" in apply fail_if_ok in H as [G H]
               | let G := fresh "G" in apply then_ok in H as [G H] ].

Lemma guard_off (a b : bool) : a && b = false -> a = true -> b = false.
Proof. by intros ? ->. Qed.

(** A check of every entry of a map, in whatever order. *)
Lemma each_map_ok `{MapRangeLaws} {A} (check : string * A -> res unit) (m : gmap string A) :
  each check (map_range m) = Ok tt <-> map_Forall (fun k x => check (k, x) = Ok tt) m.
Proof.
  rewrite each_ok, map_range_perm, map_Forall_to_list.
  apply Forall_iff. by intros [k x].
Qed.

Section facts.
Context `{MapRangeLaws} `{Quote}.

Lemma check_http_path_ok setting p :
  check_http_path setting p = Ok tt -> has_prefix "/api/" p = true /\ well_formed p.
Proof.
  unfold check_http_path, pattern_error, well_formed. rewrite fail_if_ok, negb_false_iff.
  intros [Hp Hm]. split; [done|]. by destruct (path_Match p probe).
Qed.

Lemma check_grpc_method_ok setting p :
  check_grpc_method setting p = Ok tt -> grpc_method_bad p = false /\ well_formed p.
Proof.
  unfold check_grpc_method, pattern_error, well_formed. rewrite fail_if_ok.
  intros [Hp Hm]. split; [done|]. by destruct (path_Match p probe).
Qed.

(** What the production profile requires: gRPC only over TLS with a certificate and
    key, without reflection, authentication against a configured JWKS endpoint,
    issuer and audience, authorization enabled with its upstream, and Swagger only
    behind authentication. *)
Definition locked_down (c : Config) : Prop :=
  (grpc_Enabled (config_GRPC c) = true ->
     grpctls_Enabled (grpc_TLS (config_GRPC c)) = true /\
     grpctls_CertFile (grpc_TLS (config_GRPC c)) <> EmptyString /\
     grpctls_KeyFile (grpc_TLS (config_GRPC c)) <> EmptyString) /\
  grpc_ReflectionEnabled (config_GRPC c) = false /\
  blank (auth_JWKSURL (config_Auth c)) = false /\ blank (auth_Issuer (config_Auth c)) = false /\
  blank (auth_Audience (config_Auth c)) = false /\
  authorization_Enabled (config_Authorization c) = true /\
  is_Some (outbound_GRPC (config_Outbound c) !! "authorization") /\
  (swagger_Enabled (config_Swagger c) = true -> swagger_RequireAuth (config_Swagger c) = true).

Lemma production_locked c :
  Validate c = Ok tt -> app_Env (config_App c) = "production" -> locked_down c.
Proof.
  intros HV Hprod. unfold locked_down. assert (production c = true) as Hp by by apply bool_decide_eq_true_2.
  apply then_ok in HV as [HS HV]. apply then_ok in HV as [HA _].
  unfold validate_servers in HS. unfold validate_auth in HA. cbv zeta in HS, HA. rewrite Hp in HS, HA.
  cbn [andb] in HS, HA. peel HS. peel HA. split_and!.
  - intros Hg.
    assert (grpctls_Enabled (grpc_TLS (config_GRPC c)) = true) as Ht.
    { match goal with G : grpc_Enabled _ && negb _ = false |- _ =>
        by apply guard_off, negb_false_iff in G end. }
    match goal with G : grpctls_Enabled _ && _ = false |- _ =>
      apply guard_off in G; [|exact Ht]; apply orb_false_iff in G as [Hc Hk] end.
    split_and!; [done|by apply bool_decide_eq_false in Hc|by apply bool_decide_eq_false in Hk].
  - done.
  - by repeat match goal with G : _ || _ = false |- _ => apply orb_false_iff in G as [? ?] end.
  - by repeat match goal with G : _ || _ = false |- _ => apply orb_false_iff in G as [? ?] end.
  - by repeat match goal with G : _ || _ = false |- _ => apply orb_false_iff in G as [? ?] end.
  - by apply negb_false_iff.
  - match goal with G : authorization_Enabled _ && _ = false |- _ =>
      apply guard_off, bool_decide_eq_false in G; [by apply not_eq_None_Some|by apply negb_false_iff] end.
  - intros Hs. match goal with G : swagger_Enabled _ && _ = false |- _ =>
      by apply guard_off, negb_false_iff in G end.
Qed.

Lemma each_http_paths setting l :
  each (check_http_path setting) l = Ok tt ->
  Forall (fun p => has_prefix "/api/" p = true /\ well_formed p) l.
Proof.
  rewrite each_ok. intros HF. eapply Forall_impl; [exact HF|].
  intros p Hp. by apply check_http_path_ok in Hp.
Qed.

Lemma each_grpc_methods setting l :
  each (check_grpc_method setting) l = Ok tt -> Forall well_formed l.
Proof.
  rewrite each_ok. intros HF. eapply Forall_impl; [exact HF|].
  intros p Hp. by apply check_grpc_method_ok in Hp as [_ ?].
Qed.

(** In an accepted configuration every route pattern of the authentication,
    PSK and idempotency settings is well formed: matching it against any path or
    method succeeds with a verdict, and the HTTP ones stay under /api/. *)
Lemma accepted_patterns c name :
  Validate c = Ok tt ->
  let auth := config_Auth c in
  let idem := config_Idempotency c in
  Forall (fun p => has_prefix "/api/" p = true /\ path_Match p name <> None)
    (auth_SkipHTTPPaths auth ++ psk_HTTPPaths (auth_PSK auth) ++ idempotency_HTTPPaths idem) /\
  Forall (fun p => path_Match p name <> None)
    (auth_SkipGRPCMethods auth ++ psk_GRPCMethods (auth_PSK auth) ++ idempotency_GRPCMethods idem).
Proof.
  intros HV auth idem. apply then_ok in HV as [_ HV]. apply then_ok in HV as [HA HC].
  unfold validate_auth in HA. unfold validate_clients in HC. cbv zeta in HA, HC.
  fold auth in HA. fold idem in HC. peel HA. peel HC.
  assert (forall setting l, each (check_http_path setting) l = Ok tt ->
    Forall (fun p => has_prefix "/api/" p = true /\ path_Match p name <> None) l) as Hh.
  { intros setting l Hl%each_http_paths. eapply Forall_impl; [exact Hl|].
    intros p [? ?]. eauto using well_formed_everywhere. }
  assert (forall setting l, each (check_grpc_method setting) l = Ok tt ->
    Forall (fun p => path_Match p name <> None) l) as Hg.
  { intros setting l Hl%each_grpc_methods. eapply Forall_impl; [exact Hl|].
    intros p ?. eauto using well_formed_everywhere. }
  rewrite !Forall_app. split_and!; eauto.
Qed.

Lemma client_policy_ok name auth retry breaker tls :
  validateClientPolicy name auth retry breaker tls = Ok tt ->
  1 <= retry_MaxAttempts retry <= 5 /\
  0 < retry_InitialBackoff retry <= retry_MaxBackoff retry /\
  (clientauth_Type auth <> EmptyString ->
     clientauth_Token auth <> EmptyString /\ clienttls_Enabled tls = true).
Proof.
  unfold validateClientPolicy. cbv zeta. intros HP. peel HP.
  repeat match goal with G : _ || _ = false |- _ => apply orb_false_iff in G as [? ?] end.
  repeat match goal with
    | G : (_ <? _) = false |- _ => apply Z.ltb_ge in G
    | G : (_ <=? _) = false |- _ => apply Z.leb_gt in G end.
  split_and!; try lia. intros Ht. unfold empty in *. rewrite (bool_decide_eq_false_2 _ Ht) in *.
  cbn [negb andb] in *. split; [by eapply bool_decide_eq_false|by apply negb_false_iff].
Qed.

(** In an accepted configuration every upstream has between 1 and 5 attempts,
    a positive backoff that does not exceed its maximum, and sends credentials
    only over TLS and only with a token. *)
Lemma accepted_upstreams c :
  Validate c = Ok tt ->
  let sound auth retry tls :=
    1 <= retry_MaxAttempts retry <= 5 /\
    0 < retry_InitialBackoff retry <= retry_MaxBackoff retry /\
    (clientauth_Type auth <> EmptyString ->
       clientauth_Token auth <> EmptyString /\ clienttls_Enabled tls = true) in
  map_Forall (fun _ up => 0 < httpupstream_Timeout up /\
    sound (httpupstream_Auth up) (httpupstream_Retry up) (httpupstream_TLS up))
    (outbound_HTTP (config_Outbound c)) /\
  map_Forall (fun _ up => 0 < grpcupstream_Timeout up /\
    sound (grpcupstream_Auth up) (grpcupstream_Retry up) (grpcupstream_TLS up))
    (outbound_GRPC (config_Outbound c)).
Proof.
  intros HV sound. apply then_ok in HV as [_ HV]. apply then_ok in HV as [_ HC].
  unfold validate_clients in HC. cbv zeta in HC. peel HC.
  split; intros name up Hup.
  - match goal with G : each check_http_upstream _ = Ok tt |- _ =>
      rewrite each_map_ok in G; specialize (G _ _ Hup); unfold check_http_upstream in G;
      apply fail_if_ok in G as [G1' G2']; apply orb_false_iff in G1' as [_ ?%Z.leb_gt];
      apply client_policy_ok in G2' end. by split.
  - rewrite each_map_ok in HC. specialize (HC _ _ Hup). unfold check_grpc_upstream in HC.
    apply fail_if_ok in HC as [G1' G2']. apply orb_false_iff in G1' as [_ ?%Z.leb_gt].
    apply client_policy_ok in G2'. by split.
Qed.

(** The defaults alone are an accepted configuration in every profile but
    production, and are refused there. *)
Lemma defaults_accepted env :
  Validate (default_config env) =
  if bool_decide (env = "production") then Err (ENew "grpc tls must be enabled in production")
  else Ok tt.
Proof.
  unfold Validate, validate_servers, validate_auth, validate_clients. cbv zeta.
  assert (production (default_config env) = bool_decide (env = "production")) as -> by done.
  assert (forall A, map_range (∅ : gmap string A) = []) as Hm.
  { intros A. apply Permutation_nil_r. by rewrite map_range_perm, map_to_list_empty. }
  cbn [config_Outbound default_config outbound_HTTP outbound_GRPC]. rewrite !Hm.
  destruct (bool_decide (env = "production")); vm_compute; reflexivity.
Qed.

End facts.

(** ** Witnesses: a production configuration *)

Definition authz_upstream : GRPCUpstream := {|
  grpcupstream_Target := "authorization:9090"; grpcupstream_Timeout := 1000000000;
  grpcupstream_Auth := {| clientauth_Type := "bearer"; clientauth_Token := "secret" |};
  grpcupstream_Retry := {| retry_MaxAttempts := 3; retry_InitialBackoff := 1000000;
    retry_MaxBackoff := 2000000; retry_Methods := ["/authorization.v1.Authorization/*"] |};
  grpcupstream_Breaker := {| breaker_Enabled := true; breaker_FailureThreshold := 5;
    breaker_OpenTimeout := 1000000000 |};
  grpcupstream_TLS := {| clienttls_Enabled := true; clienttls_ServerName := EmptyString;
    clienttls_CAFile := EmptyString; clienttls_CertFile := EmptyString; clienttls_KeyFile := EmptyString |};
|}.

Definition production_config : Config :=
  let d := default_config "production" in {|
  config_Runtime := config_Runtime d; config_App := config_App d; config_HTTP := config_HTTP d;
  config_GRPC := {| grpc_Enabled := true; grpc_Address := "0.0.0.0:9090";
    grpc_ReflectionEnabled := false; grpc_MaxReceiveBytes := 1048576;
    grpc_TLS := {| grpctls_Enabled := true; grpctls_CertFile := "tls.crt"; grpctls_KeyFile := "tls.key";
      grpctls_ClientCAFile := EmptyString |} |};
  config_Log := config_Log d; config_Database := config_Database d; config_Redis := config_Redis d;
  config_Health := config_Health d; config_RateLimit := config_RateLimit d;
  config_Observability := config_Observability d;
  config_Swagger := {| swagger_Enabled := false; swagger_RequireAuth := false |};
  config_JWT := config_JWT d;
  config_Auth := {| auth_ClientID := EmptyString; auth_ClientSecret := EmptyString;
    auth_JWKSURL := "https://identity/jwks"; auth_Issuer := "identity-service";
    auth_Audience := "service-registry-service"; auth_SkipHTTPPaths := ["/api/v1/version"];
    auth_SkipGRPCMethods := ["/grpc.health.v1.Health/*"]; auth_PSK := auth_PSK (config_Auth d) |};
  config_Authorization := {| authorization_Enabled := true |};
  config_Cron := config_Cron d; config_Migration := config_Migration d; config_User := config_User d;
  config_Idempotency := config_Idempotency d;
  config_Outbound := {| outbound_HTTP := ∅; outbound_GRPC := {["authorization" := authz_upstream]} |};
  config_EventBus := config_EventBus d;
|}.

Lemma accepted_patterns_witness :
  Forall (fun p => path_Match p "/grpc.health.v1.Health/Check" <> None)
    (auth_SkipGRPCMethods (config_Auth production_config) ++ [] ++ []).
Proof.
  apply (@accepted_patterns key_order (fun s => s) production_config
    "/grpc.health.v1.Health/Check"). vm_compute. reflexivity.
Defined.

Lemma accepted_upstreams_witness :
  1 <= retry_MaxAttempts (grpcupstream_Retry authz_upstream) <= 5 /\
  clienttls_Enabled (grpcupstream_TLS authz_upstream) = true.
Proof.
  destruct (@accepted_upstreams key_order key_order_laws (fun s => s) production_config) as [_ HG];
    [vm_compute; reflexivity|].
  destruct (HG "authorization" authz_upstream eq_refl) as (_ & Hr & _ & Ht).
  split; [exact Hr|]. apply Ht. discriminate.
Defined.

Lemma defaults_accepted_witness :
  @Validate key_order (fun s => s) (default_config "development") = Ok tt /\
  @Validate key_order_rev (fun s => s) (default_config "production") =
    Err (ENew "grpc tls must be enabled in production").
Proof.
  split.
  - apply (@defaults_accepted key_order key_order_laws (fun s => s) "development").
  - apply (@defaults_accepted key_order_rev key_order_rev_laws (fun s => s) "production").
Defined.
