(* ===== verification/ConfigSpec.v ===== *)
(** * Which configurations are accepted

    What each section of a configuration has to satisfy, setting by setting, and that
    [Validate] accepts exactly the configurations that do, in whatever order Go ranges
    over the maps. *)

From Stdlib Require Import SpecFloat.
From S2P Require Import Prelude GoText Utf8 Regex PathMatch Config ConfigFacts.

Local Open Scope Z_scope.

(** ** The settings *)

(** A name of a database, schema or table: a lower-case letter and up to 62 lower-case
    letters, digits and underscores. *)
Definition table_name (s : string) : Prop :=
  exists c s', s = String c s' /\ is_lower c = true /\ (String.length s' <= 62)%nat /\
    str_forallb lower_alnum_us s' = true.

(** Patterns of routes: below /api/; with a service and a method. *)
Definition http_pattern (p : string) : Prop := has_prefix "/api/" p = true /\ well_formed p.
Definition grpc_pattern (p : string) : Prop :=
  has_prefix "/" p = true /\ count_slash p = 2 /\ well_formed p.

Definition in_production (c : Config) : Prop := app_Env (config_App c) = "production".

Definition valid_http (h : HTTP) : Prop :=
  http_Address h <> EmptyString /\ 0 < http_RequestTimeout h /\
  (cors_Enabled (http_CORS h) = true -> cors_AllowedOrigins (http_CORS h) <> []).

Definition valid_grpc (prod : Prop) (g : GRPC) : Prop :=
  (grpc_Enabled g = true -> grpc_Address g <> EmptyString /\ 0 < grpc_MaxReceiveBytes g) /\
  (grpctls_Enabled (grpc_TLS g) = true ->
     grpctls_CertFile (grpc_TLS g) <> EmptyString /\ grpctls_KeyFile (grpc_TLS g) <> EmptyString) /\
  (prod -> grpc_Enabled g = true -> grpctls_Enabled (grpc_TLS g) = true) /\
  (prod -> grpc_ReflectionEnabled g = false).

Definition valid_storage (d : Database) (m : Migration) (r : Redis) : Prop :=
  table_name (database_Name d) /\
  (database_Schema d <> EmptyString -> table_name (database_Schema d)) /\
  (database_Enabled d = true -> database_DSN d <> EmptyString /\
     (database_Type d = "mysql" \/ database_Type d = "postgres" \/ database_Type d = "kingbase")) /\
  (migration_AutoUp m = true -> database_Enabled d = true /\ migration_Path m <> EmptyString /\
     migration_DatabaseURL m <> EmptyString /\ table_name (migration_Table m)) /\
  (redis_Enabled r = true -> redis_Address r <> EmptyString).

Definition positive_rule (r : RateLimitRule) : Prop :=
  0 < ratelimitrule_Rate r /\ 0 < ratelimitrule_Burst r /\ 0 < ratelimitrule_Period r.

Definition valid_limits (l : RateLimit) (r : Redis) : Prop :=
  ratelimit_Enabled l = true -> redis_Enabled r = true /\
    positive_rule (ratelimit_IP l) /\ positive_rule (ratelimit_API l) /\
    positive_rule (ratelimit_User l) /\ positive_rule (ratelimit_Login l).

(** The sample ratio is not below 0 and not above 1; not-a-number is neither. *)
Definition valid_observability (o : Observability) : Prop :=
  SFltb (observability_TracingSampleRatio o) float_zero = false /\
  SFltb float_one (observability_TracingSampleRatio o) = false /\
  (observability_TracingEnabled o = true -> observability_TracingEndpoint o <> EmptyString) /\
  (observability_PprofEnabled o = true -> 32 <= len (observability_PprofToken o)).

Definition valid_auth (prod : Prop) (a : Auth) (j : JWT) : Prop :=
  (auth_ClientID a <> EmptyString \/ auth_ClientSecret a <> EmptyString -> 32 <= len (jwt_Secret j)) /\
  Forall http_pattern (auth_SkipHTTPPaths a) /\ Forall grpc_pattern (auth_SkipGRPCMethods a) /\
  (prod -> blank (auth_JWKSURL a) = false /\ blank (auth_Issuer a) = false /\ blank (auth_Audience a) = false) /\
  (psk_Enabled (auth_PSK a) = true -> 32 <= len (psk_Key (auth_PSK a)) /\
     (psk_HTTPPaths (auth_PSK a) <> [] \/ psk_GRPCMethods (auth_PSK a) <> [])) /\
  Forall http_pattern (psk_HTTPPaths (auth_PSK a)) /\ Forall grpc_pattern (psk_GRPCMethods (auth_PSK a)).

Definition valid_idempotency (i : Idempotency) (r : Redis) : Prop :=
  (idempotency_Enabled i = true -> redis_Enabled r = true /\
     (idempotency_HTTPPaths i <> [] \/ idempotency_GRPCMethods i <> []) /\
     0 < idempotency_ProcessingTTL i /\ 0 < idempotency_ResultTTL i /\ 0 < idempotency_FailureTTL i) /\
  Forall http_pattern (idempotency_HTTPPaths i) /\ Forall grpc_pattern (idempotency_GRPCMethods i).

Definition valid_bus (b : EventBus) : Prop :=
  eventbus_Enabled b = true ->
    eventbus_URLs b <> [] /\ eventbus_StreamName b <> EmptyString /\ eventbus_Subjects b <> [] /\
    (eventbus_Storage b = "file" \/ eventbus_Storage b = "memory") /\
    0 < eventbus_MaxAge b /\ 0 < eventbus_DuplicateWindow b /\ 0 < eventbus_ConnectTimeout b /\
    0 < eventbus_ReconnectWait b /\ 0 < eventbus_PublishTimeout b /\ 0 < eventbus_ConsumerAckWait b /\
    0 < eventbus_ConsumerMaxDeliver b.

(** An upstream: where it is, how long a call may take, and the policy of the client.
    Credentials are of a known kind, not empty, and go over TLS. *)
Definition valid_policy (auth : ClientAuth) (retry : Retry) (breaker : Breaker) (tls : ClientTLS) : Prop :=
  (clientauth_Type auth <> EmptyString ->
     (clientauth_Type auth = "bearer" \/ clientauth_Type auth = "psk") /\
     clientauth_Token auth <> EmptyString /\ clienttls_Enabled tls = true) /\
  1 <= retry_MaxAttempts retry <= 5 /\ 0 < retry_InitialBackoff retry <= retry_MaxBackoff retry /\
  Forall grpc_pattern (retry_Methods retry) /\
  (breaker_Enabled breaker = true -> breaker_FailureThreshold breaker <> 0 /\ 0 < breaker_OpenTimeout breaker) /\
  (clienttls_Enabled tls = true ->
     (clienttls_CertFile tls = EmptyString <-> clienttls_KeyFile tls = EmptyString)).

Definition valid_upstream (address : string) (timeout : Z) (policy : Prop) : Prop :=
  address <> EmptyString /\ 0 < timeout /\ policy.

Definition valid_outbound (o : Outbound) : Prop :=
  map_Forall (fun _ up => valid_upstream (httpupstream_BaseURL up) (httpupstream_Timeout up)
    (valid_policy (httpupstream_Auth up) (httpupstream_Retry up) (httpupstream_Breaker up)
       (httpupstream_TLS up))) (outbound_HTTP o) /\
  map_Forall (fun _ up => valid_upstream (grpcupstream_Target up) (grpcupstream_Timeout up)
    (valid_policy (grpcupstream_Auth up) (grpcupstream_Retry up) (grpcupstream_Breaker up)
       (grpcupstream_TLS up))) (outbound_GRPC o).

Record valid_config (c : Config) : Prop := {
  vc_http : valid_http (config_HTTP c);
  vc_grpc : valid_grpc (in_production c) (config_GRPC c);
  vc_storage : valid_storage (config_Database c) (config_Migration c) (config_Redis c);
  vc_health : 0 < health_DatabaseTimeout (config_Health c) /\ 0 < health_RedisTimeout (config_Health c);
  vc_limits : valid_limits (config_RateLimit c) (config_Redis c);
  vc_observability : valid_observability (config_Observability c);
  vc_swagger : in_production c -> swagger_Enabled (config_Swagger c) = true ->
    swagger_RequireAuth (config_Swagger c) = true;
  vc_auth : valid_auth (in_production c) (config_Auth c) (config_JWT c);
  vc_authorization :
    (in_production c -> authorization_Enabled (config_Authorization c) = true) /\
    (authorization_Enabled (config_Authorization c) = true ->
       outbound_GRPC (config_Outbound c) !! "authorization" <> None);
  vc_user : 0 < user_CacheTTL (config_User c) /\ 0 < user_LockTTL (config_User c) /\
    0 < user_LockRetryDelay (config_User c);
  vc_idempotency : valid_idempotency (config_Idempotency c) (config_Redis c);
  vc_bus : valid_bus (config_EventBus c);
  vc_outbound : valid_outbound (config_Outbound c);
}.

(** ** Guards as propositions *)

Lemma guard_iff a b : a && b = false <-> (a = true -> b = false).
Proof. destruct a, b; naive_solver. Qed.
Lemma empty_false s : empty s = false <-> s <> EmptyString.
Proof. apply bool_decide_eq_false. Qed.
Lemma empty_true s : empty s = true <-> s = EmptyString.
Proof. apply bool_decide_eq_true. Qed.

Lemma table_name_iff s : re_match validMigrationTable s = true <-> table_name s.
Proof.
  rewrite re_match_correct. unfold validMigrationTable. rewrite lang_seq_iff. split.
  - intros (a & b & E & Ha & Hb). apply lang_chr_iff in Ha as (c & -> & Hc).
    apply upto_chr_lang in Hb as [Hl Hb]. destruct s as [|c' s']; [done|].
    change (bytes_of_string (String c' s')) with (c' :: bytes_of_string s') in E.
    injection E as -> E. exists c, s'. split_and!; [done..| |].
    + rewrite <- E, bytes_length in Hl. lia.
    + apply str_forallb_bytes. by rewrite E.
  - intros (c & s' & -> & Hc & Hl & Hb). exists [c], (bytes_of_string s'). split_and!; [done| |].
    + apply lang_chr_iff. by exists c.
    + apply upto_chr_lang. rewrite bytes_length. split; [lia|by apply bytes_forallb].
Qed.

(** ** Checks of parts *)

Section exact.
Context `{MapRangeLaws} `{Quote}.

Lemma pattern_error_iff prefix p : pattern_error prefix p = Ok tt <-> well_formed p.
Proof. unfold pattern_error, well_formed. destruct (path_Match p probe); naive_solver. Qed.

Lemma check_http_path_iff setting p : check_http_path setting p = Ok tt <-> http_pattern p.
Proof. unfold check_http_path. by rewrite fail_if_ok, negb_false_iff, pattern_error_iff. Qed.

Lemma grpc_method_iff p : grpc_method_bad p = false <-> has_prefix "/" p = true /\ count_slash p = 2.
Proof. unfold grpc_method_bad. by rewrite orb_false_iff, !negb_false_iff, Z.eqb_eq. Qed.

Lemma check_grpc_method_iff setting p : check_grpc_method setting p = Ok tt <-> grpc_pattern p.
Proof.
  unfold check_grpc_method, grpc_pattern. rewrite fail_if_ok, grpc_method_iff, pattern_error_iff. tauto.
Qed.

Lemma check_retry_method_iff name p : check_retry_method name p = Ok tt <-> grpc_pattern p.
Proof.
  unfold check_retry_method, grpc_pattern, well_formed. rewrite fail_if_ok, grpc_method_iff.
  destruct (path_Match p probe); naive_solver.
Qed.

Lemma each_http_paths_iff setting l : each (check_http_path setting) l = Ok tt <-> Forall http_pattern l.
Proof. rewrite each_ok. apply Forall_iff. intros p. apply check_http_path_iff. Qed.

Lemma each_grpc_methods_iff setting l : each (check_grpc_method setting) l = Ok tt <-> Forall grpc_pattern l.
Proof. rewrite each_ok. apply Forall_iff. intros p. apply check_grpc_method_iff. Qed.

Lemma each_retry_methods_iff name l : each (check_retry_method name) l = Ok tt <-> Forall grpc_pattern l.
Proof. rewrite each_ok. apply Forall_iff. intros p. apply check_retry_method_iff. Qed.

Lemma check_rule_iff entry : check_rule entry = Ok tt <-> positive_rule entry.2.
Proof. unfold check_rule, positive_rule. rewrite fail_if_ok, !orb_false_iff, !Z.leb_gt. tauto. Qed.

Lemma rules_iff l :
  each check_rule (map_range (rate_limit_rules l)) = Ok tt <->
  positive_rule (ratelimit_IP l) /\ positive_rule (ratelimit_API l) /\
  positive_rule (ratelimit_User l) /\ positive_rule (ratelimit_Login l).
Proof.
  rewrite each_map_ok. unfold rate_limit_rules.
  rewrite !map_Forall_insert, map_Forall_singleton by (by rewrite ?lookup_insert_ne, ?lookup_singleton_ne).
  by rewrite !check_rule_iff.
Qed.

Lemma both_or_neither a b : negb (Bool.eqb (empty a) (empty b)) = false <-> (a = EmptyString <-> b = EmptyString).
Proof.
  rewrite negb_false_iff, Bool.eqb_true_iff, <- (empty_true a), <- (empty_true b).
  destruct (empty a), (empty b); naive_solver.
Qed.

Lemma kind_iff ty :
  negb (empty ty) && negb (bool_decide (ty = "bearer")) && negb (bool_decide (ty = "psk")) = false <->
  (ty <> EmptyString -> ty = "bearer" \/ ty = "psk").
Proof. unfold empty. repeat case_bool_decide; naive_solver. Qed.

Lemma validateClientPolicy_iff name auth retry breaker tls :
  validateClientPolicy name auth retry breaker tls = Ok tt <-> valid_policy auth retry breaker tls.
Proof.
  unfold validateClientPolicy, valid_policy. cbv zeta.
  rewrite !fail_if_ok, then_ok, !fail_if_ok, each_retry_methods_iff, kind_iff, !guard_iff, both_or_neither, !orb_false_iff, !negb_true_iff, negb_false_iff, !empty_false, !Z.ltb_ge, !Z.leb_gt, Z.eqb_neq.
  intuition lia.
Qed.

Lemma upstream_iff m address timeout k P :
  (k = Ok tt <-> P) ->
  ((if empty address || (timeout <=? 0) then Err (ENew m) else k) = Ok tt <-> valid_upstream address timeout P).
Proof.
  intros Hk. unfold valid_upstream. rewrite fail_if_ok, orb_false_iff, empty_false, Z.leb_gt, Hk. tauto.
Qed.

Lemma outbound_iff o :
  each check_http_upstream (map_range (outbound_HTTP o)) = Ok tt /\
  each check_grpc_upstream (map_range (outbound_GRPC o)) = Ok tt <-> valid_outbound o.
Proof.
  rewrite !each_map_ok. unfold valid_outbound.
  split; intros [Hh Hg]; (split; intros name up Hup); [specialize (Hh _ _ Hup)|specialize (Hg _ _ Hup)
    |specialize (Hh _ _ Hup)|specialize (Hg _ _ Hup)]; revert Hh Hg; cbn beta;
    unfold check_http_upstream, check_grpc_upstream;
    rewrite ?(upstream_iff _ _ _ _ _ (validateClientPolicy_iff _ _ _ _ _)); naive_solver.
Qed.

(** ** The three parts of [Validate] *)

Lemma production_iff c : production c = true <-> in_production c.
Proof. apply bool_decide_eq_true. Qed.

Lemma storage_type_iff t :
  negb (isDBType t) = false <-> t = "mysql" \/ t = "postgres" \/ t = "kingbase".
Proof. unfold isDBType. repeat case_bool_decide; naive_solver. Qed.

Lemma limits_iff l r :
  (ratelimit_Enabled l = true -> redis_Enabled r = true) /\
  (if ratelimit_Enabled l then each check_rule (map_range (rate_limit_rules l)) else Ok tt) = Ok tt <->
  valid_limits l r.
Proof. unfold valid_limits. destruct (ratelimit_Enabled l); rewrite ?rules_iff; naive_solver. Qed.

Lemma validate_servers_iff c :
  validate_servers c = Ok tt <->
  valid_http (config_HTTP c) /\ valid_grpc (in_production c) (config_GRPC c) /\
  valid_storage (config_Database c) (config_Migration c) (config_Redis c) /\
  (0 < health_DatabaseTimeout (config_Health c) /\ 0 < health_RedisTimeout (config_Health c)) /\
  valid_limits (config_RateLimit c) (config_Redis c) /\ valid_observability (config_Observability c) /\
  (in_production c -> swagger_Enabled (config_Swagger c) = true -> swagger_RequireAuth (config_Swagger c) = true).
Proof.
  rewrite <- limits_iff.
  unfold validate_servers, valid_http, valid_grpc, valid_storage, valid_observability. cbv zeta.
  rewrite !fail_if_ok, then_ok, !fail_if_ok, !guard_iff, !orb_false_iff, !andb_true_iff, !negb_true_iff,
    storage_type_iff, !negb_false_iff, !table_name_iff, !empty_false, !Z.leb_gt, Z.ltb_ge, bool_decide_eq_false,
    production_iff.
  tauto.
Qed.

Lemma routes_iff (h g : list string) :
  (Z.of_nat (length h) + Z.of_nat (length g) =? 0) = false <-> h <> [] \/ g <> [].
Proof. rewrite Z.eqb_neq. destruct h, g; cbn [length]; naive_solver lia. Qed.

Lemma credentials_iff a b :
  negb (empty a) || negb (empty b) = true <-> a <> EmptyString \/ b <> EmptyString.
Proof. by rewrite orb_true_iff, !negb_true_iff, !empty_false. Qed.

Lemma validate_auth_iff c :
  validate_auth c = Ok tt <->
  valid_auth (in_production c) (config_Auth c) (config_JWT c) /\
  (in_production c -> authorization_Enabled (config_Authorization c) = true) /\
  (authorization_Enabled (config_Authorization c) = true ->
     outbound_GRPC (config_Outbound c) !! "authorization" <> None).
Proof.
  unfold validate_auth, valid_auth. cbv zeta.
  rewrite !fail_if_ok, then_ok, !fail_if_ok, then_ok, !fail_if_ok, then_ok, !each_http_paths_iff,
    !each_grpc_methods_iff, !guard_iff, credentials_iff, !orb_false_iff, routes_iff, !Z.ltb_ge, negb_false_iff,
    bool_decide_eq_false, production_iff.
  tauto.
Qed.

Lemma some_route_iff (h g : list string) :
  bool_decide (h = []) && bool_decide (g = []) = false <-> h <> [] \/ g <> [].
Proof. repeat case_bool_decide; naive_solver. Qed.

Lemma bus_storage_iff s :
  negb (bool_decide (s = "file")) && negb (bool_decide (s = "memory")) = false <-> s = "file" \/ s = "memory".
Proof. repeat case_bool_decide; naive_solver. Qed.

Lemma validate_clients_iff c :
  validate_clients c = Ok tt <->
  (0 < user_CacheTTL (config_User c) /\ 0 < user_LockTTL (config_User c) /\
   0 < user_LockRetryDelay (config_User c)) /\
  valid_idempotency (config_Idempotency c) (config_Redis c) /\ valid_bus (config_EventBus c) /\
  valid_outbound (config_Outbound c).
Proof.
  rewrite <- outbound_iff. unfold validate_clients, valid_idempotency, valid_bus. cbv zeta.
  rewrite !fail_if_ok, !then_ok, !fail_if_ok, then_ok, !each_http_paths_iff, !each_grpc_methods_iff,
    !orb_false_iff, (guard_iff (idempotency_Enabled _)), (guard_iff (eventbus_Enabled _)), !orb_false_iff,
    some_route_iff, bus_storage_iff, negb_false_iff, !bool_decide_eq_false, empty_false, !Z.leb_gt.
  tauto.
Qed.

(** C34: [Validate] accepts a configuration exactly when every section satisfies its
    conditions, each as its settings, the profile and the other settings it depends on
    require; the order in which Go ranges over the upstreams and the rate limits is of
    no consequence (only which error comes first depends on it). *)
Theorem Validate_exact c : Validate c = Ok tt <-> valid_config c.
Proof.
  unfold Validate. rewrite !then_ok, validate_servers_iff, validate_auth_iff, validate_clients_iff.
  split.
  - intros ((? & ? & ? & ? & ? & ? & ?) & (? & ?) & ? & ? & ? & ?). by constructor.
  - intros []. done.
Qed.

End exact.

(** ** A configuration with entries in its maps *)

Definition rate_limited (upstream : GRPCUpstream) : Config :=
  let d := production_config in {|
  config_Runtime := config_Runtime d; config_App := config_App d; config_HTTP := config_HTTP d;
  config_GRPC := config_GRPC d; config_Log := config_Log d; config_Database := config_Database d;
  config_Redis := {| redis_Enabled := true; redis_Address := "redis:6379"; redis_Username := EmptyString;
    redis_Password := EmptyString; redis_DB := 0; redis_DialTimeout := minute; redis_ReadTimeout := minute;
    redis_WriteTimeout := minute |};
  config_Health := config_Health d;
  config_RateLimit := {| ratelimit_Enabled := true; ratelimit_FailOpen := false;
    ratelimit_IP := default_rule 120 30; ratelimit_API := default_rule 10000 1000;
    ratelimit_User := default_rule 600 100; ratelimit_Login := default_rule 10 3 |};
  config_Observability := config_Observability d; config_Swagger := config_Swagger d;
  config_JWT := config_JWT d; config_Auth := config_Auth d; config_Authorization := config_Authorization d;
  config_Cron := config_Cron d; config_Migration := config_Migration d; config_User := config_User d;
  config_Idempotency := config_Idempotency d;
  config_Outbound := {| outbound_HTTP := ∅;
    outbound_GRPC := {["authorization" := authz_upstream; "inventory" := upstream]} |};
  config_EventBus := config_EventBus d |}.

Definition careless_upstream : GRPCUpstream := {|
  grpcupstream_Target := "inventory:9090"; grpcupstream_Timeout := 1000000000;
  grpcupstream_Auth := {| clientauth_Type := "bearer"; clientauth_Token := "secret" |};
  grpcupstream_Retry := grpcupstream_Retry authz_upstream; grpcupstream_Breaker := grpcupstream_Breaker authz_upstream;
  grpcupstream_TLS := {| clienttls_Enabled := false; clienttls_ServerName := EmptyString;
    clienttls_CAFile := EmptyString; clienttls_CertFile := EmptyString; clienttls_KeyFile := EmptyString |} |}.

(** Rate limits and two upstreams: valid, in either order, and not when one of the
    upstreams sends its credentials without TLS. *)
Lemma Validate_exact_witness :
  valid_config (rate_limited authz_upstream) /\
  @Validate key_order_rev (fun s => s) (rate_limited authz_upstream) = Ok tt /\
  ~ valid_config (rate_limited careless_upstream).
Proof.
  assert (valid_config (rate_limited authz_upstream)) as Hv.
  { apply (@Validate_exact key_order key_order_laws (fun s => s)). vm_compute. reflexivity. }
  split; [exact Hv|]. split; [by apply (@Validate_exact key_order_rev key_order_rev_laws (fun s => s))|].
  intros Hc. apply (@Validate_exact key_order key_order_laws (fun s => s)) in Hc.
  vm_compute in Hc. discriminate Hc.
Defined.
