(* ===== verification/Database.v ===== *)
(** * Databases and transactions

    internal/database: [Open] and [driverName], and the [Transactor], whose
    [Within] runs a function inside a SQL transaction.  database/sql is an
    interface: a state with the transactions committed so far and at most one open
    transaction of the connection, and the documented effect of Begin, Exec, Commit
    and Rollback ([SqlLaws]); any of them can fail, and at any of them the context of
    the transaction can turn out to be cancelled, which rolls it back. *)

From S2P Require Import Prelude GoText Config.

Local Open Scope Z_scope.
Local Open Scope go_scope.

(** ** Transactions of database/sql *)

Inductive sql_call : Type :=
  | SqlBegin
  | SqlExec (stmt : string) (args : list string)
  | SqlCommit
  | SqlRollback.

(** The error of a call, nil as [None]. *)
Abbreviation sql A := (prog sql_call (option goerr) A).

(** What a database promises.  [S] is the state of the connection: [committed] are the
    transactions that were committed on it, each with its statements, and [working] is
    the transaction that is open, if one is.  [transactional] are the statements that
    run inside a transaction: not those that end one (COMMIT) or commit
    implicitly (DDL of MySQL). *)
Abbreviation stmts := (list (string * list string)).

Class SqlOps (S : Type) : Type := {
  committed : S -> list stmts;
  working : S -> option stmts;
  transactional : string -> Prop;
  sql_handle : sql_call -> S -> option goerr * S;
}.

(** A cancelled context rolls the transaction back at any time: that shows at the next
    call, and every call after it fails.  A failed statement did nothing, or has
    aborted the transaction; a failed commit may or may not have been done; a
    transaction is over after Commit or Rollback, whatever they return. *)
Class SqlLaws (S : Type) `{SqlOps S} : Prop := {
  begin_law s : working s = None ->
    let '(e, s') := sql_handle SqlBegin s in
    committed s' = committed s /\
    working s' = match e with None => Some [] | Some _ => None end;
  exec_law stmt args s : transactional stmt ->
    let '(e, s') := sql_handle (SqlExec stmt args) s in
    committed s' = committed s /\
    match working s with
    | None => e <> None /\ working s' = None
    | Some w =>
        working s' = None \/
        working s' = Some (match e with None => w ++ [(stmt, args)] | Some _ => w end)
    end;
  commit_law s :
    let '(e, s') := sql_handle SqlCommit s in
    working s' = None /\
    match working s, e with
    | None, _ => e <> None /\ committed s' = committed s
    | Some w, None => committed s' = committed s ++ [w]
    | Some w, Some _ => committed s' = committed s \/ committed s' = committed s ++ [w]
    end;
  rollback_law s :
    let '(_, s') := sql_handle SqlRollback s in
    committed s' = committed s /\ working s' = None;
}.

(** ** The transactor *)

(** How a call of a Go function ends: with an error value, or with a panic. *)
Inductive ending : Type :=
  | Returned (err : option goerr)
  | Panicked.

(** [t.Available()]; [db] is whether [t.db] is not nil. *)
Definition Available (db : bool) : bool := db.

(** [t.Within(ctx, opts, fn)].  A panic of [fn] passes through. *)
Definition Within (db : bool) (fn : sql ending) : sql ending :=
  if negb (Available db) then Ret (Returned (Some (ENew "begin transaction: database is disabled")))
  else
    let* err := call SqlBegin in
    match err with
    | Some e => Ret (Returned (Some (EWrap "begin transaction" e)))
    | None =>
        let* res := fn in
        match res with
        | Panicked => Ret Panicked
        | Returned (Some e) =>
            let* rollbackErr := call SqlRollback in
            match rollbackErr with
            | Some r => Ret (Returned (Some (EWrap ("rollback transaction after " +:+ error_text e) r)))
            | None => Ret (Returned (Some e))
            end
        | Returned None =>
            let* err := call SqlCommit in
            match err with
            | Some e => Ret (Returned (Some (EWrap "commit transaction" e)))
            | None => Ret (Returned None)
            end
        end
    end.

Section transactions.
Context {S : Type} `{SqlLaws S}.

Abbreviation run p s := (prun sql_handle p s).

(** The function runs statements of transactions; beginning, committing and rolling back
    is not its business. *)
Definition is_exec (c : sql_call) : Prop :=
  match c with SqlExec stmt _ => transactional stmt | _ => False end.
Definition only_execs {A} (p : sql A) : Prop := issues is_exec (fun _ _ => True) p.

(** The statements of the function that were executed, in order. *)
Fixpoint executed {A} (p : sql A) (s : S) : stmts :=
  match p with
  | Ret _ => []
  | Do c k =>
      let (e, s') := sql_handle c s in
      match c, e with
      | SqlExec stmt args, None => (stmt, args) :: executed (k e) s'
      | _, _ => executed (k e) s'
      end
  end.

(** While statements run, nothing is committed; the transaction holds what was executed,
    unless it has been rolled back. *)
Lemma execs_keep {A} (p : sql A) s :
  only_execs p ->
  committed (run p s).2 = committed s /\
  match working s with
  | None => working (run p s).2 = None
  | Some w => working (run p s).2 = None \/ working (run p s).2 = Some (w ++ executed p s)
  end.
Proof.
  revert s. induction p as [a|c k IH]; intros s Hp; cbn [prun executed].
  { cbn. split; [done|]. destruct (working s) as [w|]; [right; by rewrite app_nil_r|done]. }
  destruct Hp as [Hc Hk]. destruct c as [|stmt args| |]; try done.
  pose proof (exec_law stmt args s Hc) as Hl.
  destruct (sql_handle (SqlExec stmt args) s) as [e s']. destruct Hl as [Hd Hw].
  destruct (IH e s' (Hk e I)) as [Hd' Hw']. split; [congruence|].
  destruct (working s) as [w|].
  - destruct Hw as [Hw|Hw]; rewrite Hw in Hw'; [by left|].
    destruct Hw' as [Hw'|Hw']; [by left|right]. rewrite Hw'. destruct e; [done|]. by rewrite <- app_assoc.
  - destruct Hw as [_ Hw]. by rewrite Hw in Hw'.
Qed.

(** The outcome of [Within] in terms of what is committed. *)
Definition within_result (db : bool) (s : S) (fn : sql ending) (out : ending) (s' : S) : Prop :=
  match out with
  | Returned None =>
      working s' = None /\
      exists s1 s2, sql_handle SqlBegin s = (None, s1) /\ run fn s1 = (Returned None, s2) /\
        committed s' = committed s ++ [executed fn s1]
  | Returned (Some e) =>
      working s' = None /\
      ((db = false /\ s' = s) \/
       (exists be, sql_handle SqlBegin s = (Some be, s') /\ committed s' = committed s /\
          e = EWrap "begin transaction" be) \/
       (exists s1 s2 fe, sql_handle SqlBegin s = (None, s1) /\ run fn s1 = (Returned (Some fe), s2) /\
          committed s' = committed s /\
          (e = fe \/ exists re, e = EWrap ("rollback transaction after " +:+ error_text fe) re)) \/
       (exists s1 s2 ce, sql_handle SqlBegin s = (None, s1) /\ run fn s1 = (Returned None, s2) /\
          e = EWrap "commit transaction" ce /\
          (committed s' = committed s \/ committed s' = committed s ++ [executed fn s1])))
  | Panicked =>
      committed s' = committed s /\
      exists s1, sql_handle SqlBegin s = (None, s1) /\ run fn s1 = (Panicked, s')
  end.

Lemma within_result_holds db fn s out s' :
  only_execs fn -> working s = None -> run (Within db fn) s = (out, s') ->
  within_result db s fn out s'.
Proof.
  intros Hfn Hs E. unfold Within, Available in E. destruct db; cbn [negb] in E; cycle 1.
  { injection E as <- <-. split; [done|by left]. }
  rewrite prun_bind in E. cbn [call prun] in E. pose proof (begin_law s Hs) as Hb.
  destruct (sql_handle SqlBegin s) as [be s1] eqn:Eb. destruct Hb as [Hb1 Hb2].
  destruct be as [be|]. { injection E as <- <-. split; [done|]. right; left. by exists be. }
  rewrite prun_bind in E. pose proof (execs_keep fn s1 Hfn) as [Hd Hw]. rewrite Hb2 in Hw.
  destruct (run fn s1) as [[[e|]|] s2] eqn:Ef; cbn [fst snd] in *.
  - rewrite prun_bind in E. cbn [call prun] in E. pose proof (rollback_law s2) as Hr.
    destruct (sql_handle SqlRollback s2) as [re s3]; destruct Hr as [Hr1 Hr2].
    destruct re as [re|]; injection E as <- <-; (split; [done|]); right; right; left;
      exists s1, s2, e; (split_and!; [done..|congruence|]); [right; by exists re|by left].
  - rewrite prun_bind in E. cbn [call prun] in E. pose proof (commit_law s2) as Hc.
    destruct (sql_handle SqlCommit s2) as [ce s3]; destruct Hc as [Hc1 Hc2].
    destruct Hw as [Hw|Hw]; rewrite Hw in Hc2.
    + destruct Hc2 as [Hne Hc2]. destruct ce as [ce|]; [|done]. injection E as <- <-. split; [done|].
      do 3 right. exists s1, s2, ce. split_and!; [done..|]. left. congruence.
    + destruct ce as [ce|]; injection E as <- <-; (split; [done|]).
      * do 3 right. exists s1, s2, ce. split_and!; [done..|]. rewrite <- Hb1, <- Hd. exact Hc2.
      * exists s1, s2. split_and!; [done..|]. by rewrite <- Hb1, <- Hd.
  - injection E as <- <-. split; [congruence|]. by exists s1.
Qed.

End transactions.

(** ** A database in memory *)

(** It keeps the statements it took; "bad" is refused, during "slow" the context is
    cancelled, and "COMMIT" commits. *)
Record mem_sql : Type := {
  mem_data : list stmts;
  mem_work : option stmts;
}.

Definition mem_done : option goerr := Some (ENew "sql: transaction has already been committed or rolled back").

Definition mem_sql_handle (c : sql_call) (s : mem_sql) : option goerr * mem_sql :=
  match c, mem_work s with
  | SqlBegin, None => (None, {| mem_data := mem_data s; mem_work := Some [] |})
  | SqlBegin, Some _ => (Some (ENew "busy"), s)
  | SqlExec stmt args, Some w =>
      if bool_decide (stmt = "bad") then (Some (ENew "syntax error"), s)
      else if bool_decide (stmt = "slow") then
        (Some (ENew "context canceled"), {| mem_data := mem_data s; mem_work := None |})
      else if bool_decide (stmt = "COMMIT") then
        (None, {| mem_data := mem_data s ++ [w]; mem_work := None |})
      else (None, {| mem_data := mem_data s; mem_work := Some (w ++ [(stmt, args)]) |})
  | SqlExec _ _, None => (mem_done, s)
  | SqlCommit, Some w => (None, {| mem_data := mem_data s ++ [w]; mem_work := None |})
  | SqlCommit, None => (mem_done, s)
  | SqlRollback, Some _ => (None, {| mem_data := mem_data s; mem_work := None |})
  | SqlRollback, None => (mem_done, s)
  end.

#[global] Instance mem_sql_ops : SqlOps mem_sql := {|
  committed := mem_data;
  working := mem_work;
  transactional := fun stmt => stmt <> "COMMIT";
  sql_handle := mem_sql_handle;
|}.

#[global] Instance mem_sql_laws : SqlLaws mem_sql.
Proof.
  constructor; cbn; unfold mem_sql_handle.
  - intros s ->. done.
  - intros stmt args s Hne. destruct (mem_work s) as [w|] eqn:E; [|by rewrite E].
    repeat case_bool_decide; cbn; rewrite ?E; auto. done.
  - intros s. destruct (mem_work s) eqn:E; cbn; by rewrite ?E.
  - intros s. destruct (mem_work s) eqn:E; cbn; by rewrite ?E.
Qed.

(** ** Opening a database *)

Record PgxConfig : Type := {
  pgx_Database : string;
  pgx_RuntimeParams : gmap string string;
  pgx_rest : string;
}.

Record MySQLConfig : Type := {
  my_DBName : string;
  my_ParseTime : bool;
  my_Loc : string;
  my_rest : string;
}.

(** The drivers' DSN parsers and printer, and [time.LoadLocation]. *)
Class DbDrivers : Type := {
  pgx_ParseConfig : string -> res PgxConfig;
  mysql_ParseDSN : string -> res MySQLConfig;
  mysql_FormatDSN : MySQLConfig -> string;
  LoadLocation : string -> res string;
}.

Inductive db_target : Type :=
  | ByConfig (cfg : PgxConfig)
  | ByDSN (driver dsn : string).

Inductive db_call : Type :=
  | DbOpen (t : db_target)
  | DbLimits (maxOpen maxIdle lifetime idleTime : Z)
  | DbPing (timeout : Z)
  | DbClose.

Abbreviation dbprog A := (prog db_call (option goerr) A).

Definition driverName `{Quote} (dbType : string) : res string :=
  if bool_decide (dbType = "mysql") then Ok "mysql"
  else if bool_decide (dbType = "postgres") || bool_decide (dbType = "kingbase") then Ok "pgx"
  else Err (ENew ("unsupported database type " +:+ quote dbType)).

Section opening.
Context `{DbDrivers} `{Quote}.

(** The connection configuration of PostgreSQL and Kingbase. *)
Definition pgx_config (cfg : Database) (c : PgxConfig) : PgxConfig :=
  let params := if bool_decide (database_Schema cfg = EmptyString) then pgx_RuntimeParams c
                else <["search_path" := database_Schema cfg]> (pgx_RuntimeParams c) in
  {| pgx_Database := if bool_decide (database_Name cfg = EmptyString) then pgx_Database c
                     else database_Name cfg;
     pgx_RuntimeParams := <["timezone" := "Asia/Shanghai"]> params;
     pgx_rest := pgx_rest c |}.

Definition mysql_config (cfg : Database) (c : MySQLConfig) (location : string) : MySQLConfig :=
  {| my_DBName := if bool_decide (database_Name cfg = EmptyString) then my_DBName c
                  else database_Name cfg;
     my_ParseTime := true; my_Loc := location; my_rest := my_rest c |}.

(** [sqlx.Open(driver, dsn)]. *)
Definition sqlx_Open (driver dsn : string) : dbprog (res unit) :=
  let* err := call (DbOpen (ByDSN driver dsn)) in
  Ret (match err with Some e => Err (EWrap "open database" e) | None => Ok tt end).

(** The switch of [Open] on the driver. *)
Definition connect (cfg : Database) (driver : string) : dbprog (res unit) :=
  if bool_decide (driver = "pgx") then
    match pgx_ParseConfig (database_DSN cfg) with
    | Err e => Ret (Err (EWrap "parse database dsn" e))
    | Ok c => let* _ := call (DbOpen (ByConfig (pgx_config cfg c))) in Ret (Ok tt)
    end
  else if bool_decide (driver = "mysql") then
    match mysql_ParseDSN (database_DSN cfg) with
    | Err e => Ret (Err (EWrap "parse database dsn" e))
    | Ok c =>
        match LoadLocation "Asia/Shanghai" with
        | Err e => Ret (Err (EWrap "load database timezone" e))
        | Ok location => sqlx_Open driver (mysql_FormatDSN (mysql_config cfg c location))
        end
    end
  else sqlx_Open driver (database_DSN cfg).

Definition Open (cfg : Database) : dbprog (res unit) :=
  match driverName (database_Type cfg) with
  | Err e => Ret (Err e)
  | Ok driver =>
      let! _ := connect cfg driver in
      let* _ := call (DbLimits (database_MaxOpenConns cfg) (database_MaxIdleConns cfg)
                        (database_ConnMaxLifetime cfg) (database_ConnMaxIdleTime cfg)) in
      let* err := call (DbPing (database_PingTimeout cfg)) in
      match err with
      | Some e =>
          let* _ := call DbClose in
          Ret (Err (EWrap "ping database" e))
      | None => Ret (Ok tt)
      end
  end.

(** What was opened by an exchange: a target whose open did not fail. *)
Definition opened (tr : list (db_call * option goerr)) : list db_target :=
  omap (fun '(c, r) => match c, r with
                       | DbOpen (ByConfig cfg), _ => Some (ByConfig cfg)
                       | DbOpen t, None => Some t
                       | _, _ => None
                       end) tr.

Definition closes (tr : list (db_call * option goerr)) : nat :=
  length (List.filter (fun '(c, _) => match c with DbClose => true | _ => false end) tr).

(** The sessions an opened database may use: the schema and the time zone asked for. *)
Definition session_of (cfg : Database) (t : db_target) : Prop :=
  match t with
  | ByConfig c =>
      pgx_RuntimeParams c !! "timezone" = Some "Asia/Shanghai" /\
      (database_Schema cfg <> EmptyString ->
       pgx_RuntimeParams c !! "search_path" = Some (database_Schema cfg)) /\
      (database_Name cfg <> EmptyString -> pgx_Database c = database_Name cfg)
  | ByDSN driver dsn =>
      driver = "mysql" /\
      exists c, dsn = mysql_FormatDSN c /\ my_ParseTime c = true /\
                LoadLocation "Asia/Shanghai" = Ok (my_Loc c) /\
                (database_Name cfg <> EmptyString -> my_DBName c = database_Name cfg)
  end.

Lemma driverName_cases t driver : driverName t = Ok driver -> driver = "mysql" \/ driver = "pgx".
Proof. unfold driverName. repeat case_bool_decide; naive_solver. Qed.

Lemma pgx_config_session cfg c : session_of cfg (ByConfig (pgx_config cfg c)).
Proof.
  cbn. split_and!.
  - by rewrite lookup_insert_eq.
  - intros Hs. rewrite lookup_insert_ne by done. rewrite bool_decide_eq_false_2 by done.
    by rewrite lookup_insert_eq.
  - intros Hn. by rewrite bool_decide_eq_false_2.
Qed.

Lemma mysql_config_session cfg c location :
  LoadLocation "Asia/Shanghai" = Ok location ->
  session_of cfg (ByDSN "mysql" (mysql_FormatDSN (mysql_config cfg c location))).
Proof.
  intros Hl. split; [done|]. eexists. split; [done|]. split_and!; [done|done|].
  cbn. intros Hn. by rewrite bool_decide_eq_false_2.
Qed.

Lemma connect_emits cfg driver tr r :
  driver = "mysql" \/ driver = "pgx" -> emits (connect cfg driver) tr r ->
  match r with
  | Ok _ => exists t, opened tr = [t] /\ session_of cfg t
  | Err _ => opened tr = []
  end /\ closes tr = 0%nat.
Proof.
  intros [->| ->] Htr; unfold connect in Htr; decide_in Htr.
  - destruct (mysql_ParseDSN _) as [c|e]; [|by emits_inv Htr].
    destruct (LoadLocation _) as [l|e] eqn:El; [|by emits_inv Htr].
    unfold sqlx_Open in Htr. emits_inv Htr. emits_inv Htr.
    destruct r0; cbn; [done|]. split; [|done]. eexists. split; [done|].
    by apply mysql_config_session.
  - destruct (pgx_ParseConfig _) as [c|e]; [|by emits_inv Htr].
    emits_inv Htr. emits_inv Htr. split; [|done].
    eexists. split; [by destruct r0|]. apply pgx_config_session.
Qed.

End opening.

Lemma opened_app t1 t2 : opened (t1 ++ t2) = opened t1 ++ opened t2.
Proof. apply omap_app. Qed.

Lemma closes_app t1 t2 : closes (t1 ++ t2) = (closes t1 + closes t2)%nat.
Proof. unfold closes. by rewrite List.filter_app, length_app. Qed.

(** A successful [Open] has opened exactly one database, on the configured
    name, schema and time zone, has set its limits, has had an answer to its ping
    and leaves it open; a failed one leaves nothing open: it opened nothing, or
    closed the one it opened. *)
Lemma Open_exact `{DbDrivers} `{Quote} (cfg : Database) tr r :
  emits (Open cfg) tr r ->
  match r with
  | Ok _ =>
      (exists t, opened tr = [t] /\ session_of cfg t) /\ closes tr = 0%nat /\
      (DbLimits (database_MaxOpenConns cfg) (database_MaxIdleConns cfg)
         (database_ConnMaxLifetime cfg) (database_ConnMaxIdleTime cfg)) ∈ tr.*1 /\
      (DbPing (database_PingTimeout cfg), None) ∈ tr
  | Err _ => length (opened tr) = closes tr
  end.
Proof.
  unfold Open. intros Htr. destruct (driverName _) as [driver|e] eqn:Ed; [|by emits_inv Htr].
  apply driverName_cases in Ed.
  apply emits_gbind in Htr as [(e & -> & Hc)|(t1 & [] & t2 & -> & Hc & Htr)];
    apply (connect_emits cfg driver _ _ Ed) in Hc as [Hc Hn].
  - by rewrite Hc, Hn.
  - emits_inv Htr. emits_inv Htr.
    destruct r1 as [pe|]; emits_inv Htr; [emits_inv Htr|]; rewrite opened_app, closes_app, Hn;
      destruct Hc as (t & -> & Ht); [done|].
    split_and!; [by exists t|done|..].
    + rewrite fmap_app. apply elem_of_app. right. constructor.
    + apply elem_of_app. right. repeat constructor.
Qed.

(** Drivers that keep the DSN as the name of the database. *)
Definition sample_drivers : DbDrivers := {|
  pgx_ParseConfig dsn := Ok {| pgx_Database := dsn; pgx_RuntimeParams := ∅; pgx_rest := EmptyString |};
  mysql_ParseDSN dsn :=
    Ok {| my_DBName := dsn; my_ParseTime := false; my_Loc := "UTC"; my_rest := EmptyString |};
  mysql_FormatDSN c := my_DBName c;
  LoadLocation name := Ok name;
|}.

Definition sample_database : Database := {|
  database_Enabled := true; database_Name := "registry"; database_Schema := "service_registry";
  database_Type := "postgres"; database_DSN := "postgres://h/x"; database_MaxOpenConns := 10;
  database_MaxIdleConns := 5; database_ConnMaxLifetime := 60; database_ConnMaxIdleTime := 30;
  database_PingTimeout := 5;
|}.

Lemma Open_exact_witness :
  exists tr, emits (@Open sample_drivers (fun s => s) sample_database) tr (Ok tt) /\ closes tr = 0%nat.
Proof.
  destruct (prun (fun c (s : unit) => (None, s)) (@Open sample_drivers (fun s => s) sample_database) tt)
    as [r s] eqn:E.
  assert (r = Ok tt) as -> by (vm_compute in E; by injection E as <- _).
  destruct (prun_emits _ _ _ _ _ E) as [tr Htr]. exists tr. split; [exact Htr|].
  exact (proj1 (proj2 (@Open_exact sample_drivers (fun s => s) sample_database tr (Ok tt) Htr))).
Defined.

(** C22: [Within] is all or nothing, for every database that keeps the laws and every
    function that only runs statements of transactions, also when its context is
    cancelled on the way.  It returns nil only when the transaction of exactly the
    statements the function executed is committed.  When it returns an error nothing is
    committed, and the error is that of Begin, or that of the function, or that of the
    rollback with that of the function in it; only when the error is that of Commit is
    the outcome unknown.  The transaction is over in all of these cases.  A panic of the function
    commits nothing and passes through as it is, with no rollback: the transaction is as the
    function left it. *)
Theorem Within_atomic {S} `{SqlLaws S} (db : bool) (fn : sql ending) (s : S) out s' :
  only_execs fn -> working s = None ->
  prun sql_handle (Within db fn) s = (out, s') -> within_result db s fn out s'.
Proof. apply within_result_holds. Qed.

Definition sample_work (last : string) : sql ending :=
  let* e := call (SqlExec "INSERT INTO t VALUES ($1)" ["1"]) in
  match e with
  | Some e => Ret (Returned (Some e))
  | None => let* e := call (SqlExec last []) in Ret (Returned e)
  end.

(** One whose second statement is taken, and one during whose second the context is
    cancelled. *)
Lemma Within_atomic_witness :
  let s := {| mem_data := []; mem_work := None |} in
  let s' := {| mem_data := [[("INSERT INTO t VALUES ($1)", ["1"]); ("DELETE FROM u", [])]]; mem_work := None |} in
  prun sql_handle (Within true (sample_work "DELETE FROM u")) s = (Returned None, s') /\
  within_result true s (sample_work "DELETE FROM u") (Returned None) s' /\
  exists e, prun sql_handle (Within true (sample_work "slow")) s = (Returned (Some e), s) /\
    within_result true s (sample_work "slow") (Returned (Some e)) s.
Proof.
  cbv zeta. split; [reflexivity|]. split.
  - apply (Within_atomic true (sample_work "DELETE FROM u")); [|reflexivity..].
    split; [discriminate|]. intros [e|] _; [exact I|]. split; [discriminate|]. intros; exact I.
  - eexists. split; [vm_compute; reflexivity|].
    apply (Within_atomic true (sample_work "slow")); [|reflexivity|vm_compute; reflexivity].
    split; [discriminate|]. intros [e|] _; [exact I|]. split; [discriminate|]. intros; exact I.
Defined.
