(* ===== verification/Migration.v ===== *)
(** * Database migrations

    internal/migration/migration.go: the rewriting of the migration URL
    ([withMigrationOptions]), the creation of the schema inside a transaction
    ([ensureSchema], [createSchema]) and [Run].  The SQL connection and
    golang-migrate's [Migrate] are effects; [filepath.Abs] is an argument. *)

From S2P Require Import Prelude GoText Regex GoURL GoQuery UrlFacts Config Database.

Local Open Scope Z_scope.
Local Open Scope go_scope.

(** ** The URL *)

Definition mysql_prefix : string := "mysql://".
Definition table_param : string := "x-migrations-table".
Definition schema_param : string := "search_path".

(** The branch of [withMigrationOptions] for MySQL, on the text of the URL. *)
Definition mysql_options (databaseURL databaseName table : string) : res string :=
  try databaseURL :=
    (if str_empty databaseName then Ok databaseURL
     else
       let '(path, after, found) := cut "?"%char databaseURL in
       let rest := if found then String "?" after else EmptyString in
       match cut_last "/"%char path with
       | None => Err (ENew "mysql migration URL is missing database path")
       | Some (before, _) => Ok (before +:+ "/" +:+ databaseName +:+ rest)
       end) in
  if str_empty table then Ok databaseURL
  else
    let separator := if contains "?" databaseURL then "&" else "?" in
    Ok (databaseURL +:+ separator +:+ "x-migrations-table=" +:+ QueryEscape table).

(** The URL with another path and query. *)
Definition with_target (u : URL) (path query : string) : URL :=
  {| url_Scheme := url_Scheme u; url_Opaque := url_Opaque u; url_User := url_User u;
     url_Host := url_Host u; url_Path := path; url_RawPath := url_RawPath u;
     url_OmitHost := url_OmitHost u; url_ForceQuery := url_ForceQuery u; url_RawQuery := query;
     url_Fragment := url_Fragment u; url_RawFragment := url_RawFragment u |}.

Definition withMigrationOptions (databaseURL databaseName table schema : string) : res string :=
  if str_empty databaseName && str_empty table && str_empty schema then Ok databaseURL
  else if has_prefix mysql_prefix databaseURL then mysql_options databaseURL databaseName table
  else
    match url_Parse databaseURL with
    | Err e => Err (EWrap "parse migration database URL" e)
    | Ok parsed =>
        let query := ParseQuery (url_RawQuery parsed) in
        let path := if str_empty databaseName then url_Path parsed else "/" +:+ databaseName in
        let query := if str_empty table then query else Values_Set table_param table query in
        let query := if str_empty schema then query else Values_Set schema_param schema query in
        Ok (url_String (with_target parsed path (Values_Encode query)))
    end.

(** ** Effects *)

Inductive mig_call : Type :=
  | MOpen (dsn : string)
  | MSql (c : sql_call)
  | MDBClose
  | MNew (source databaseURL : string)
  | MSteps (n : Z)
  | MDown
  | MUp
  | MClose.

(** The error of a call; [m.Close()] returns two, of the source and the database. *)
Record mig_reply : Type := { first_err : option goerr; second_err : option goerr }.

Abbreviation mig A := (prog mig_call mig_reply A).

(** [err] of a call with one error. *)
Definition mcall (c : mig_call) : mig (option goerr) :=
  let* r := call c in Ret (first_err r).

(** ** Creating the schema *)

Definition lock_statement : string := "SELECT pg_advisory_xact_lock(hashtext($1))".
Definition create_statement (schema : string) : string :=
  "CREATE SCHEMA IF NOT EXISTS " +:+ String (ascii_of_nat 34) (schema +:+ String (ascii_of_nat 34) EmptyString).

(** The body of [createSchema] after Begin. *)
Definition createSchema_body (schema : string) : sql (option goerr) :=
  let* err := call (SqlExec lock_statement ["service-registry-service:schema:" +:+ schema]) in
  match err with
  | Some e => Ret (Some (EWrap "lock schema creation" e))
  | None =>
      let* err := call (SqlExec (create_statement schema) []) in
      match err with
      | Some e => Ret (Some (EWrap "execute schema creation" e))
      | None =>
          let* err := call SqlCommit in
          Ret (match err with Some e => Some (EWrap "commit schema creation" e) | None => None end)
      end
  end.

(** [createSchema(db, schema)]; the deferred function rolls back on an error. *)
Definition createSchema (schema : string) : sql (option goerr) :=
  let* err := call SqlBegin in
  match err with
  | Some e => Ret (Some (EWrap "begin schema creation" e))
  | None =>
      let* err := createSchema_body schema in
      match err with
      | Some e => let* _ := call SqlRollback in Ret (Some e)
      | None => Ret None
      end
  end.

(** [^[a-z][a-z0-9_]{0,62}$]. *)
Definition migration_schema_re : re := RSeq (RChr is_lower) (upto 62 (RChr lower_alnum_us)).

Definition ensureSchema `{Quote} (cfg : Migration) (databaseURL : string) : mig (option goerr) :=
  let schema := migration_Schema cfg in
  if negb (migration_CreateSchema cfg) || str_empty schema ||
     has_prefix mysql_prefix (migration_DatabaseURL cfg) then Ret None
  else if negb (re_match migration_schema_re schema) then Ret (Some (ENew "invalid migration schema"))
  else
    match url_Parse databaseURL with
    | Err e => Ret (Some (EWrap "parse database URL for schema creation" e))
    | Ok parsed =>
        let query := Values_Del table_param (ParseQuery (url_RawQuery parsed)) in
        let dsn := url_String (with_target parsed (url_Path parsed) (Values_Encode query)) in
        let* err := mcall (MOpen dsn) in
        match err with
        | Some e => Ret (Some (EWrap "open database to create schema" e))
        | None =>
            let* err := plift MSql first_err (createSchema schema) in
            let* _ := call MDBClose in
            Ret (match err with
                 | Some e => Some (EWrap ("create migration schema " +:+ quote schema) e)
                 | None => None
                 end)
        end
    end.

(** ** Running the migrations *)

(** [migrate.ErrNoChange]. *)
Definition ErrNoChange : goerr := ESentinel "migrate.ErrNoChange" "no change".

(** [errors.Join(runErr, err)]; a join of one error is that error. *)
Definition join_err (runErr : option goerr) (err : goerr) : option goerr :=
  Some (match runErr with Some r => EJoin r err | None => err end).

(** The deferred close: its errors are joined to the result. *)
Definition close_migrator (runErr : option goerr) : mig (option goerr) :=
  let* r := call MClose in
  let runErr := match first_err r with
                | Some e => join_err runErr (EWrap "close migration source" e)
                | None => runErr
                end in
  Ret (match second_err r with
       | Some e => join_err runErr (EWrap "close migration database" e)
       | None => runErr
       end).

Definition migrate_call (direction : string) (steps : Z) : mig_call :=
  if negb (steps =? 0) then MSteps steps
  else if bool_decide (direction = "down") then MDown else MUp.

(** [&url.URL{Scheme: "file", Path: path}]. *)
Definition file_url (path : string) : URL :=
  {| url_Scheme := "file"; url_Opaque := EmptyString; url_User := None; url_Host := EmptyString;
     url_Path := path; url_RawPath := EmptyString; url_OmitHost := false; url_ForceQuery := false;
     url_RawQuery := EmptyString; url_Fragment := EmptyString; url_RawFragment := EmptyString |}.

(** [Run(cfg, direction, steps)]; [abs] is [filepath.Abs]. *)
Definition Run `{Quote} (abs : string -> res string) (cfg : Migration) (direction : string) (steps : Z) :
    mig (option goerr) :=
  if str_empty (migration_DatabaseURL cfg) then
    Ret (Some (ENew "migration.database_url is required"))
  else
    match abs (migration_Path cfg) with
    | Err e => Ret (Some (EWrap "resolve migration path" e))
    | Ok absPath =>
        let source := url_String (file_url absPath) in
        match withMigrationOptions (migration_DatabaseURL cfg) (migration_DatabaseName cfg)
                (migration_Table cfg) (migration_Schema cfg) with
        | Err e => Ret (Some e)
        | Ok databaseURL =>
            let* err := ensureSchema cfg databaseURL in
            match err with
            | Some e => Ret (Some e)
            | None =>
                let* err := mcall (MNew source databaseURL) in
                match err with
                | Some e => Ret (Some (EWrap "create migrator" e))
                | None =>
                    let* err := mcall (migrate_call direction steps) in
                    close_migrator
                      (match err with
                       | Some e => if errors_is e ErrNoChange then None
                                   else Some (EWrap "run migration" e)
                       | None => None
                       end)
                end
            end
        end
    end.

Example options_ex :
  withMigrationOptions "postgres://u:p@h:5432/old?sslmode=disable" "registry" "t" "service_registry" =
    Ok "postgres://u:p@h:5432/registry?search_path=service_registry&sslmode=disable&x-migrations-table=t" /\
  withMigrationOptions "mysql://u:p@tcp(h:3306)/old?a=1" "registry" "t b" "" =
    Ok "mysql://u:p@tcp(h:3306)/registry?a=1&x-migrations-table=t+b" /\
  withMigrationOptions "mysql://u:p@tcp(h:3306)/old" "" "t" "" =
    Ok "mysql://u:p@tcp(h:3306)/old?x-migrations-table=t".
Proof. repeat split; vm_compute; reflexivity. Qed.
