(* ===== verification/Locking.v ===== *)
(** * The distributed lock and the scheduled job

    internal/cache/redis.go: [Locker] and [Lock] over redsync, whose operations are
    effects; internal/scheduler/scheduler.go: the sample job, which runs under the
    lock, and the constructor of the scheduler with its hooks.  Log lines are effects too: the
    job's work is its log line. *)

From S2P Require Import Prelude GoText GoTime Redis Config Database.

Local Open Scope Z_scope.
Local Open Scope go_scope.

(** ** Mutexes *)

(** A [redsync.Mutex] and the options the code sets. *)
Record Mutex : Type := {
  mx_name : string;
  mx_expiry : Z;
  mx_tries : option Z;
  mx_retryDelay : option Z;
}.

Inductive lock_call : Type :=
  | LAcquire (m : Mutex) (once : bool)
  | LExtend (m : Mutex)
  | LRelease (m : Mutex)
  | LCtxErr
  | LLog (msg : string).

(** The flag and the error of a call; [TryLock] and [Lock] return the error only, and the
    mutex then tells until when the lock is valid ([Until]). *)
Record lock_reply : Type := { lr_ok : bool; lr_err : option goerr; lr_until : Z }.

Abbreviation lockp A := (prog lock_call lock_reply A).

Definition lockKeyPrefix : string := "lock:".

(** [redsync.ErrFailed]. *)
Definition ErrFailed : goerr := ESentinel "redsync.ErrFailed" "redsync: failed to acquire lock".

(** [errors.As(err, &taken)] for [*redsync.ErrTaken]; values of the type carry its
    name. *)
Fixpoint as_taken (e : goerr) : bool :=
  match e with
  | ESentinel name _ => bool_decide (name = "redsync.ErrTaken")
  | ENew _ => false
  | EWrap _ e' => as_taken e'
  | EJoin e1 e2 => as_taken e1 || as_taken e2
  end.

Definition isContention (err : goerr) : bool :=
  if errors_is err ErrFailed then true else as_taken err.

Definition newMutex (key : string) (ttl : Z) (tries retryDelay : option Z) : res Mutex :=
  fail_if bool_decide (key = EmptyString) with "lock key must not be empty";
  fail_if ttl <=? 0 with "lock ttl must be positive";
  Ok {| mx_name := lockKeyPrefix +:+ key; mx_expiry := ttl; mx_tries := tries;
        mx_retryDelay := retryDelay |}.

Section locker.
Context `{Quote}.

(** [l.TryLock(ctx, key, ttl)]; [Ok None] is (nil, false, nil). *)
Definition TryLock (key : string) (ttl : Z) : lockp (res (option Mutex)) :=
  match newMutex key ttl (Some 1) None with
  | Err e => Ret (Err e)
  | Ok mutex =>
      let* r := call (LAcquire mutex true) in
      match lr_err r with
      | Some e =>
          Ret (if isContention e then Ok None else Err (EWrap ("try redis lock " +:+ quote key) e))
      | None => Ret (Ok (Some mutex))
      end
  end.

(** [l.Lock(ctx, key, ttl, retryDelay)]. *)
Definition Lock (key : string) (ttl retryDelay : Z) : lockp (res Mutex) :=
  if retryDelay <=? 0 then Ret (Err (ENew "lock retry delay must be positive"))
  else
    match newMutex key ttl None (Some retryDelay) with
    | Err e => Ret (Err e)
    | Ok mutex =>
        let* r := call (LAcquire mutex false) in
        match lr_err r with
        | Some e =>
            let* c := call LCtxErr in
            Ret (Err (match lr_err c with
                      | Some ctxErr => EWrap ("wait for redis lock " +:+ quote key) ctxErr
                      | None => EWrap ("acquire redis lock " +:+ quote key) e
                      end))
        | None => Ret (Ok mutex)
        end
    end.

(** The common end of [Extend] and [Unlock]. *)
Definition owned (what : string) (m : Mutex) (r : lock_reply) : option goerr :=
  match lr_err r with
  | Some e => Some (EWrap (what +:+ quote (mx_name m)) e)
  | None =>
      if lr_ok r then None
      else Some (ENew (what +:+ quote (mx_name m) +:+ ": lock is no longer owned"))
  end.

Definition Extend (m : Mutex) : lockp (option goerr) :=
  let* r := call (LExtend m) in Ret (owned "extend redis lock " m r).

Definition Unlock (m : Mutex) : lockp (option goerr) :=
  let* r := call (LRelease m) in Ret (owned "release redis lock " m r).

(** ** The scheduled job *)

Definition log (msg : string) : lockp unit := let* _ := call (LLog msg) in Ret tt.

Definition job_done : string := "sample scheduled job executed".
Definition job_skipped : string := "sample scheduled job skipped".

(** What follows a successful [TryLock]: the job, then the deferred unlock. *)
Definition locked_job (lock : Mutex) : lockp (option goerr) :=
  let* _ := log job_done in
  let* err := Unlock lock in
  match err with
  | Some _ => let* _ := log "scheduled job unlock failed" in Ret None
  | None => Ret None
  end.

(** [runSample(locker, logger)]; [locker] is whether there is one. *)
Definition runSample (locker : bool) : lockp (option goerr) :=
  if negb locker then let* _ := log job_done in Ret None
  else
    let* r := TryLock "cron:sample" minute in
    match r with
    | Err e => let* _ := log "scheduled job lock failed" in Ret (Some e)
    | Ok None => let* _ := log job_skipped in Ret None
    | Ok (Some lock) => locked_job lock
    end.

(** The function the scheduler calls: the status [metrics.ObserveCron] is given. *)
Definition tick (locker : bool) : lockp string :=
  let* err := runSample locker in
  Ret (match err with Some _ => "error" | None => "success" end).

End locker.

(** [New]: the scheduler with its jobs, and whether its start hook runs it.
    [LoadLocation] and the parser of the cron library are arguments. *)
Record Scheduler : Type := { sched_location : string; sched_jobs : list string; sched_starts : bool }.

Definition scheduler_New (load : string -> res string) (parse : string -> option goerr) (cfg : Cron) :
    res Scheduler :=
  try location := load (cron_Timezone cfg) in
  try jobs := (if bool_decide (cron_SampleSpec cfg = EmptyString) then Ok []
               else match parse (cron_SampleSpec cfg) with
                    | Some e => Err e
                    | None => Ok [cron_SampleSpec cfg]
                    end) in
  Ok {| sched_location := location; sched_jobs := jobs; sched_starts := cron_Enabled cfg |}.

(** The hooks of [New]: the cron library runs or stops its jobs, and waiting ends with
    the running jobs or with the stop context, whose error is then the answer. *)
Inductive cron_call : Type := KStart | KStop | KWait | KLog (msg : string).

Abbreviation cronprog A := (prog cron_call (option goerr) A).

Definition sched_start (s : Scheduler) : cronprog (option goerr) :=
  if sched_starts s then
    let* _ := call KStart in
    let* _ := call (KLog "scheduler started") in
    Ret None
  else Ret None.

Definition sched_stop : cronprog (option goerr) :=
  let* _ := call KStop in
  call KWait.
