(* ===== verification/LockFacts.v ===== *)
(** * What the lock guarantees

    The exchanges of the scheduled job, and mutual exclusion: any number of replicas,
    with a locker or without, run the job against one lock service, their calls
    interleaved and time passing, and no two of those with a locker are in the job while
    the lock of the first is valid. *)

From S2P Require Import Prelude GoText Config Database Locking.

Local Open Scope Z_scope.
Local Open Scope go_scope.

Definition sample_mutex : Mutex :=
  {| mx_name := "lock:cron:sample"; mx_expiry := minute; mx_tries := Some 1; mx_retryDelay := None |}.

(** The exchanges of a tick with a locker: contention, failure, or the job between
    the acquisition and one release. *)
Inductive sample_exchange `{Quote} : list (lock_call * lock_reply) -> option goerr -> Prop :=
  | exchange_contended r e l :
      lr_err r = Some e -> isContention e = true ->
      sample_exchange [(LAcquire sample_mutex true, r); (LLog job_skipped, l)] None
  | exchange_failed r e l :
      lr_err r = Some e -> isContention e = false ->
      sample_exchange [(LAcquire sample_mutex true, r); (LLog "scheduled job lock failed", l)]
        (Some (EWrap ("try redis lock " +:+ quote "cron:sample") e))
  | exchange_ran r l u :
      lr_err r = None -> lr_err u = None -> lr_ok u = true ->
      sample_exchange [(LAcquire sample_mutex true, r); (LLog job_done, l);
                       (LRelease sample_mutex, u)] None
  | exchange_expired r l u f :
      lr_err r = None -> (is_Some (lr_err u) \/ lr_ok u = false) ->
      sample_exchange [(LAcquire sample_mutex true, r); (LLog job_done, l);
                       (LRelease sample_mutex, u); (LLog "scheduled job unlock failed", f)] None.

Lemma locked_job_emits `{Quote} tr r :
  emits (locked_job sample_mutex) tr r ->
  r = None /\
  exists l u, (tr = [(LLog job_done, l); (LRelease sample_mutex, u)] /\
               lr_err u = None /\ lr_ok u = true) \/
              (exists f, tr = [(LLog job_done, l); (LRelease sample_mutex, u);
                               (LLog "scheduled job unlock failed", f)] /\
                         (is_Some (lr_err u) \/ lr_ok u = false)).
Proof.
  unfold locked_job, log, Unlock. intros Htr. emits_inv Htr. emits_inv Htr. cbn [pbind] in Htr.
  unfold owned in Htr. destruct (lr_err r1) as [e|] eqn:E1.
  - emits_inv Htr. emits_inv Htr. split; [done|]. exists r0, r1. right. eauto.
  - destruct (lr_ok r1) eqn:E2.
    + emits_inv Htr. split; [done|]. exists r0, r1. auto.
    + emits_inv Htr. emits_inv Htr. split; [done|]. exists r0, r1. right. eauto.
Qed.

(** With a locker, the job runs only between a successful acquisition of its
    lock for a minute and exactly one release; when another replica holds the lock
    the tick skips the job and reports success; any other failure to take the lock
    is reported and runs nothing. *)
Lemma runSample_exchanges `{Quote} tr r : emits (runSample true) tr r -> sample_exchange tr r.
Proof.
  unfold runSample, TryLock. cbn [negb]. intros Htr.
  change (newMutex "cron:sample" minute (Some 1) None) with (Ok sample_mutex) in Htr.
  cbv iota in Htr. emits_inv Htr. cbn [pbind] in Htr. destruct (lr_err r0) as [e|] eqn:Er.
  - destruct (isContention e) eqn:Ec; unfold log in Htr; emits_inv Htr; emits_inv Htr.
    + by eapply exchange_contended.
    + by eapply exchange_failed.
  - cbn [pbind] in Htr. apply locked_job_emits in Htr as [-> (l & u & [(-> & Hu & Ho)|(f & -> & Hu)])].
    + by apply exchange_ran.
    + by apply exchange_expired.
Qed.

Lemma runSample_exchanges_witness :
  exists tr, emits (@runSample (fun s => s) true) tr None /\
             @sample_exchange (fun s => s) tr None /\ (length tr = 3)%nat.
Proof.
  set (ok := {| lr_ok := true; lr_err := None; lr_until := 0 |}).
  exists [(LAcquire sample_mutex true, ok); (LLog job_done, ok); (LRelease sample_mutex, ok)].
  assert (emits (@runSample (fun s => s) true)
    [(LAcquire sample_mutex true, ok); (LLog job_done, ok); (LRelease sample_mutex, ok)] None) as Htr
    by (repeat constructor).
  split; [exact Htr|]. split; [exact (@runSample_exchanges (fun s => s) _ _ Htr)|reflexivity].
Defined.

(** ** Mutual exclusion *)

(** What redsync promises about one lock: [holder s t name] is the owner whose key
    is in the servers at time [t] if nothing else happens.  An acquisition succeeds
    only when there is none; then the caller is the holder until the validity deadline
    the mutex tells, which is at most the expiry away (the library subtracts the time the
    acquisition took and the drift of clocks); a release removes the
    caller's own key at most; log lines and context errors change nothing. *)
Class LockService (S : Type) : Type := {
  holder : S -> Z -> string -> option nat;
  lock_handle : nat -> Z -> lock_call -> S -> lock_reply * S;
}.

Class LockLaws (S : Type) `{LockService S} : Prop := {
  acquire_law me now m once s s' r :
    lock_handle me now (LAcquire m once) s = (r, s') -> lr_err r = None ->
    holder s now (mx_name m) = None /\ lr_until r <= now + mx_expiry m /\
    forall t, now <= t < lr_until r -> holder s' t (mx_name m) = Some me;
  others_law me now c s s' r other t name :
    lock_handle me now c s = (r, s') -> other <> me -> now <= t ->
    holder s t name = Some other -> holder s' t name = Some other;
  own_law me now c s s' r t name :
    lock_handle me now c s = (r, s') -> (forall m, c <> LRelease m) -> now <= t ->
    holder s t name = Some me -> holder s' t name = Some me;
}.

Section cluster.
Context {S : Type} `{LockLaws S} `{Quote}.

(** A replica: whether it has a locker (Redis is enabled on it), the rest of its tick,
    and until when the lock it has taken is valid, if it has taken one. *)
Record replica : Type := {
  rep_locker : bool;
  rep_prog : lockp (option goerr);
  rep_until : option Z;
}.

(** The start of a tick. *)
Definition fresh_tick (locker : bool) : replica :=
  {| rep_locker := locker; rep_prog := runSample locker; rep_until := None |}.

Record cluster : Type := { cl_now : Z; cl_locks : S; cl_replicas : gmap nat replica }.

(** When a call was answered: a granted lock has a deadline, a release ends it. *)
Definition dated (c : lock_call) (r : lock_reply) (until : option Z) : option Z :=
  match c with
  | LAcquire _ _ => match lr_err r with None => Some (lr_until r) | Some _ => until end
  | LRelease _ => None
  | _ => until
  end.

(** One call of one replica, the start of its next tick, or the passing of time. *)
Inductive cl_step : cluster -> cluster -> Prop :=
  | cl_call cl i locker c k until r locks :
      cl_replicas cl !! i = Some {| rep_locker := locker; rep_prog := Do c k; rep_until := until |} ->
      lock_handle i (cl_now cl) c (cl_locks cl) = (r, locks) ->
      cl_step cl {| cl_now := cl_now cl; cl_locks := locks;
                    cl_replicas := <[i := {| rep_locker := locker; rep_prog := k r;
                                             rep_until := dated c r until |}]> (cl_replicas cl) |}
  | cl_start cl i locker a until :
      cl_replicas cl !! i = Some {| rep_locker := locker; rep_prog := Ret a; rep_until := until |} ->
      cl_step cl {| cl_now := cl_now cl; cl_locks := cl_locks cl;
                    cl_replicas := <[i := fresh_tick locker]> (cl_replicas cl) |}
  | cl_time cl t :
      cl_now cl <= t ->
      cl_step cl {| cl_now := t; cl_locks := cl_locks cl; cl_replicas := cl_replicas cl |}.

(** Any number of replicas start, each with a locker or without. *)
Inductive cl_reach (locks : S) : cluster -> Prop :=
  | cl_init now lockers :
      cl_reach locks {| cl_now := now; cl_locks := locks; cl_replicas := fresh_tick <$> lockers |}
  | cl_next cl cl' : cl_reach locks cl -> cl_step cl cl' -> cl_reach locks cl'.

(** The next call of the replica is the job. *)
Definition in_job (p : lockp (option goerr)) : Prop :=
  match p with Do (LLog msg) _ => msg = job_done | _ => False end.

(** The states of a tick: its start, holding the lock before and after the job, and
    past it, with at most a log line left. *)
Inductive phase : bool -> lockp (option goerr) -> option Z -> Prop :=
  | phase_start locker : phase locker (runSample locker) None
  | phase_locked t : phase true (locked_job sample_mutex) (Some t)
  | phase_ran t :
      phase true (let* err := Unlock sample_mutex in
             match err with
             | Some _ => let* _ := log "scheduled job unlock failed" in Ret None
             | None => Ret None
             end) (Some t)
  | phase_last msg a : msg <> job_done -> phase true (Do (LLog msg) (fun _ => Ret a)) None
  | phase_over locker a : phase locker (Ret a) None.

Lemma phase_step locker c k until r :
  phase locker (Do c k) until -> phase locker (k r) (dated c r until).
Proof.
  intros Hp. inversion Hp as [l E1 E2 E3|t E|t E|msg a Hm|]; subst.
  - destruct locker; cbn in E2; injection E2 as <- <-; cbn [dated]; [|apply phase_over].
    cbn [pbind]. destruct (lr_err r) as [e|]; cbn [pbind].
    + destruct (isContention e); cbn; by apply phase_last.
    + apply phase_locked.
  - apply phase_ran.
  - cbn [pbind dated]. destruct (owned _ _ r); [by apply phase_last|apply phase_over].
  - apply phase_over.
Qed.

(** The call of a phase, as far as the lock is concerned. *)
Lemma phase_call locker c k until :
  phase locker (Do c k) until ->
  (c = LAcquire sample_mutex true /\ until = None) \/
  (c = LRelease sample_mutex /\ is_Some until) \/
  (exists msg, c = LLog msg /\ (locker = true -> msg = job_done -> is_Some until)).
Proof.
  intros Hp. inversion Hp as [l E1 E2 E3|t E|t E|msg a Hm|]; subst; eauto 7; [|right; right; by exists msg].
  destruct locker; cbn in E2; injection E2 as <- <-; [by left|right; right]. by eexists.
Qed.

Definition lock_name : string := mx_name sample_mutex.

(** A lock with a deadline is the replica's until then. *)
Definition replica_ok (now : Z) (locks : S) (i : nat) (rep : replica) : Prop :=
  phase (rep_locker rep) (rep_prog rep) (rep_until rep) /\
  forall u, rep_until rep = Some u ->
    forall t, now <= t < u -> holder locks t lock_name = Some i.

Definition cluster_ok (cl : cluster) : Prop :=
  map_Forall (replica_ok (cl_now cl) (cl_locks cl)) (cl_replicas cl).

(** The calls of others keep a replica's lock. *)
Lemma others_keep now locks locks' i j c r rep :
  i <> j -> lock_handle i now c locks = (r, locks') ->
  replica_ok now locks j rep -> replica_ok now locks' j rep.
Proof.
  intros Hij Hh [Hp Ho]. split; [done|]. intros u Hu t Ht.
  eapply others_law; [exact Hh|congruence|lia|by eapply Ho].
Qed.

Lemma own_step now locks locks' i locker c k until r :
  lock_handle i now c locks = (r, locks') ->
  replica_ok now locks i {| rep_locker := locker; rep_prog := Do c k; rep_until := until |} ->
  replica_ok now locks' i {| rep_locker := locker; rep_prog := k r; rep_until := dated c r until |}.
Proof.
  intros Hh [Hp Ho]. cbn [rep_locker rep_prog rep_until] in *. split; [by apply phase_step|].
  cbn [rep_until]. intros u Hu t Ht.
  destruct (phase_call _ _ _ _ Hp) as [[-> ->]|[[-> _]|(msg & -> & _)]]; cbn [dated] in Hu.
  - destruct (lr_err r) eqn:E; [done|]. injection Hu as <-.
    destruct (acquire_law _ _ _ _ _ _ _ Hh E) as (_ & _ & Ha). by apply Ha.
  - done.
  - eapply own_law; [exact Hh|done|lia|by eapply Ho].
Qed.

Lemma cl_step_ok cl cl' : cluster_ok cl -> cl_step cl cl' -> cluster_ok cl'.
Proof.
  intros Hok Hs. destruct Hs as [cl i locker c k until r locks Hi Hh|cl i locker a until Hi|cl t Ht];
    unfold cluster_ok in *; cbn [cl_now cl_locks cl_replicas].
  - intros j rep Hj. destruct (decide (i = j)) as [<-|Hij].
    + rewrite lookup_insert_eq in Hj. injection Hj as <-.
      eapply own_step; [exact Hh|by apply Hok].
    + rewrite lookup_insert_ne in Hj by done. eapply others_keep; [done|exact Hh|by apply Hok].
  - intros j rep Hj. destruct (decide (i = j)) as [<-|Hij].
    + rewrite lookup_insert_eq in Hj. injection Hj as <-. split; [constructor|done].
    + rewrite lookup_insert_ne in Hj by done. by apply Hok.
  - intros j rep Hj. destruct (Hok j rep Hj) as [Hp Ho]. split; [done|].
    intros u Hu t' Ht'. apply (Ho u Hu). lia.
Qed.

Lemma cl_reach_ok locks cl : cl_reach locks cl -> cluster_ok cl.
Proof.
  induction 1 as [now lockers|cl cl' _ IH Hs]; [|by eapply cl_step_ok].
  intros i rep Hi. cbn in Hi. rewrite lookup_fmap in Hi.
  destruct (lockers !! i) as [locker|]; [|done]. injection Hi as <-.
  split; [constructor|done].
Qed.

Lemma in_job_until p until : phase true p until -> in_job p -> is_Some until.
Proof. intros Hp Hj. inversion Hp; subst; cbn in *; eauto; by destruct Hj. Qed.

Lemma replica_holds locks cl i rep :
  cl_reach locks cl -> cl_replicas cl !! i = Some rep -> rep_locker rep = true -> in_job (rep_prog rep) ->
  exists u, rep_until rep = Some u /\
    (cl_now cl < u -> holder (cl_locks cl) (cl_now cl) lock_name = Some i).
Proof.
  intros Hr Hi Hl Hj. destruct (cl_reach_ok _ _ Hr i rep Hi) as [Hp Ho]. rewrite Hl in Hp.
  destruct (in_job_until _ _ Hp Hj) as [u Hu]. exists u. split; [done|].
  intros Hlt. apply (Ho u Hu). lia.
Qed.

(** A replica without a locker never has a lock. *)
Lemma replica_unlocked locks cl i rep :
  cl_reach locks cl -> cl_replicas cl !! i = Some rep -> rep_locker rep = false -> rep_until rep = None.
Proof.
  intros Hr Hi Hl. destruct (cl_reach_ok _ _ Hr i rep Hi) as [Hp _]. rewrite Hl in Hp. by inversion Hp.
Qed.

End cluster.

(** C25: in every reachable state of any number of replicas, of which some have a locker
    and some, with Redis disabled, have none, a replica with a locker that is about to run
    the job has taken the lock; until the deadline the lock was granted for it is the
    holder, and for every other replica with a locker that is in the job too the deadline
    has passed: among the replicas with a locker the job runs on one at a time as long as it
    ends before its deadline.  A replica without a locker runs the job under no lock. *)
Theorem job_exclusive {S} `{LockLaws S} `{Quote} (locks : S) cl i rep :
  cl_reach locks cl -> cl_replicas cl !! i = Some rep -> in_job (rep_prog rep) ->
  if rep_locker rep then
    exists u, rep_until rep = Some u /\
      (cl_now cl < u ->
       holder (cl_locks cl) (cl_now cl) lock_name = Some i /\
       forall j rep', j <> i -> cl_replicas cl !! j = Some rep' -> rep_locker rep' = true ->
         in_job (rep_prog rep') -> exists u', rep_until rep' = Some u' /\ u' <= cl_now cl)
  else rep_until rep = None.
Proof.
  intros Hr Hi Hj. destruct (rep_locker rep) eqn:Hl; [|by eapply replica_unlocked].
  destruct (replica_holds _ _ _ _ Hr Hi Hl Hj) as (u & Hu & Hh).
  exists u. split; [done|]. intros Hlt. specialize (Hh Hlt). split; [done|].
  intros j rep' Hne Hj' Hl' Hjob. destruct (replica_holds _ _ _ _ Hr Hj' Hl' Hjob) as (u' & Hu' & Hh').
  exists u'. split; [done|]. destruct (Z.le_gt_cases u' (cl_now cl)); [done|].
  specialize (Hh' ltac:(lia)). congruence.
Qed.

(** ** A lock service in memory *)

Abbreviation mem_locks := (gmap string (nat * Z)).

Definition mem_holder (s : mem_locks) (t : Z) (name : string) : option nat :=
  match s !! name with
  | Some (i, until) => if t <? until then Some i else None
  | None => None
  end.

Definition granted (until : Z) : lock_reply := {| lr_ok := true; lr_err := None; lr_until := until |}.
Definition refused : lock_reply := {| lr_ok := false; lr_err := Some ErrFailed; lr_until := 0 |}.

(** A hundredth of the expiry is kept back for the drift of clocks. *)
Definition valid_until (now : Z) (m : Mutex) : Z := now + mx_expiry m - Z.abs (mx_expiry m / 100).

Definition mem_lock_handle (me : nat) (now : Z) (c : lock_call) (s : mem_locks) :
    lock_reply * mem_locks :=
  match c with
  | LAcquire m _ =>
      match mem_holder s now (mx_name m) with
      | None => (granted (valid_until now m), <[mx_name m := (me, now + mx_expiry m)]> s)
      | Some _ => (refused, s)
      end
  | LRelease m =>
      if bool_decide (mem_holder s now (mx_name m) = Some me) then (granted 0, delete (mx_name m) s)
      else ({| lr_ok := false; lr_err := None; lr_until := 0 |}, s)
  | _ => (granted 0, s)
  end.

#[global] Instance mem_lock_service : LockService mem_locks :=
  {| holder := mem_holder; lock_handle := mem_lock_handle |}.

Lemma mem_holder_mono s t1 t2 name i :
  t1 <= t2 -> mem_holder s t2 name = Some i -> mem_holder s t1 name = Some i.
Proof.
  unfold mem_holder. intros Ht. destruct (s !! name) as [[j u]|]; [|done].
  destruct (Z.ltb_spec t2 u); [|done]. destruct (Z.ltb_spec t1 u); [done|lia].
Qed.

#[global] Instance mem_lock_laws : LockLaws mem_locks.
Proof.
  constructor; cbn [holder lock_handle mem_lock_service].
  - intros me now m once s s' r Hh Hr. unfold mem_lock_handle in Hh.
    destruct (mem_holder s now (mx_name m)) eqn:E; injection Hh as <- <-; [done|].
    cbn [lr_until granted]. unfold valid_until. split; [done|]. split; [lia|].
    intros t Ht. unfold mem_holder. rewrite lookup_insert_eq.
    destruct (Z.ltb_spec t (now + mx_expiry m)); [done|lia].
  - intros me now c s s' r other t name Hh Hne Ht Ho.
    pose proof (mem_holder_mono s now t name other Ht Ho) as Hn.
    unfold mem_lock_handle in Hh. destruct c as [m once|m|m| |msg]; try (by injection Hh as _ <-).
    + destruct (decide (mx_name m = name)) as [E|E].
      * rewrite E, Hn in Hh. by injection Hh as _ <-.
      * destruct (mem_holder s now (mx_name m)); injection Hh as _ <-; [done|].
        unfold mem_holder in *. by rewrite lookup_insert_ne.
    + case_bool_decide as Hb; injection Hh as _ <-; [|done].
      destruct (decide (mx_name m = name)) as [E|E]; [congruence|].
      unfold mem_holder in *. by rewrite lookup_delete_ne.
  - intros me now c s s' r t name Hh Hc Ht Ho.
    pose proof (mem_holder_mono s now t name me Ht Ho) as Hn.
    unfold mem_lock_handle in Hh. destruct c as [m once|m|m| |msg]; try (by injection Hh as _ <-);
      [|by destruct (Hc m)].
    destruct (decide (mx_name m = name)) as [E|E].
    + rewrite E, Hn in Hh. by injection Hh as _ <-.
    + destruct (mem_holder s now (mx_name m)); injection Hh as _ <-; [done|].
      unfold mem_holder in *. by rewrite lookup_insert_ne.
Qed.

(** Two replicas, the second without a locker. *)
Definition two_replicas : @cluster mem_locks := {|
  cl_now := 0; cl_locks := ∅;
  cl_replicas := @fresh_tick (fun s => s) <$> ({[1%nat := true; 2%nat := false]} : gmap nat bool) |}.

Lemma job_exclusive_witness :
  exists cl rep rep2, @cl_reach mem_locks _ (fun s => s) ∅ cl /\
    cl_replicas cl !! 1%nat = Some rep /\ in_job (rep_prog rep) /\ rep_until rep = Some (minute - minute / 100) /\
    holder (cl_locks cl) (cl_now cl) lock_name = Some 1%nat /\
    cl_replicas cl !! 2%nat = Some rep2 /\ in_job (rep_prog rep2) /\ rep_until rep2 = None.
Proof.
  destruct (lock_handle 1%nat 0 (LAcquire sample_mutex true) (∅ : mem_locks)) as [r locks] eqn:Eh.
  set (rep := {| rep_locker := true; rep_prog := @locked_job (fun s => s) sample_mutex;
                 rep_until := Some (minute - minute / 100) |}).
  set (cl := {| cl_now := 0; cl_locks := locks;
                cl_replicas := <[1%nat := rep]> (cl_replicas two_replicas) |}).
  assert (@cl_reach mem_locks _ (fun s => s) ∅ cl) as Hr.
  { eapply cl_next; [apply (cl_init _ 0 {[1%nat := true; 2%nat := false]})|].
    assert (r = granted (minute - minute / 100)) as ->.
    { cbn [lock_handle mem_lock_service] in Eh. unfold mem_lock_handle, mem_holder in Eh.
      rewrite lookup_empty in Eh. by injection Eh as <- _. }
    refine (cl_call two_replicas 1%nat true (LAcquire sample_mutex true)
      (match @runSample (fun s => s) true with Do _ k => k | Ret a => fun _ => Ret a end)
      None (granted (minute - minute / 100)) locks _ Eh). reflexivity. }
  assert (cl_replicas cl !! 1%nat = Some rep) as Hi by apply lookup_insert_eq.
  assert (cl_replicas cl !! 2%nat = Some (@fresh_tick (fun s => s) false)) as H2 by reflexivity.
  exists cl, rep, (@fresh_tick (fun s => s) false).
  destruct (@job_exclusive mem_locks _ _ (fun s => s) ∅ cl 1%nat rep Hr Hi eq_refl) as (t & Ht & Hh).
  injection Ht as <-.
  split; [exact Hr|]. split; [exact Hi|]. split; [reflexivity|]. split; [reflexivity|].
  split; [exact (proj1 (Hh eq_refl))|]. split; [exact H2|]. split; [reflexivity|].
  exact (@job_exclusive mem_locks _ _ (fun s => s) ∅ cl 2%nat (@fresh_tick (fun s => s) false) Hr H2 eq_refl).
Defined.
