(* ===== verification/Load.v ===== *)
(** * Loading the configuration

    internal/config/config.go, [LoadWithProfile], [setDefaults] and
    [stringToStringSliceHook].
    viper is a parameter: a store that reads files and the environment and decodes
    into [Config]; [os.Stat] too. *)

From Stdlib Require Import SpecFloat.
From S2P Require Import Prelude GoText Regex Utf8 GoURL GoMime Config.

Local Open Scope Z_scope.
Local Open Scope go_scope.

(** ** Strings *)

Definition string_of_vals (l : list Z) : string :=
  string_of_bytes ((fun z => ascii_of_N (Z.to_N z)) <$> l).

(** [strings.TrimSpace], [strings.ToLower]; the latter for texts whose non-ASCII
    letters do not matter, because the profile pattern refuses them. *)
Definition str_TrimSpace (s : string) : string := string_of_vals (TrimSpace (byte_vals s)).
Definition str_ToLower (s : string) : string :=
  string_of_vals (to_lower (length (byte_vals s)) (byte_vals s)).

Definition is_quote (c : ascii) : bool := (byte_val c =? 34) || (byte_val c =? 39).

(** [strings.Trim] with both kinds of quotes as the cutset. *)
Fixpoint trim_quotes_left (s : string) : string :=
  match s with
  | String c s' => if is_quote c then trim_quotes_left s' else s
  | EmptyString => EmptyString
  end.
Fixpoint trim_quotes_right (s : string) : string :=
  match s with
  | EmptyString => EmptyString
  | String c s' =>
      match trim_quotes_right s' with
      | EmptyString => if is_quote c then EmptyString else String c EmptyString
      | t => String c t
      end
  end.
Definition trim_quotes (s : string) : string := trim_quotes_right (trim_quotes_left s).

(** [raw[1:len(raw)-1]] of a text that starts with [[] and ends with []]. *)
Definition in_brackets (raw : string) : option string :=
  if has_prefix "[" raw then
    match cut_last "]"%char (str_drop 1 raw) with
    | Some (body, EmptyString) => Some body
    | _ => None
    end
  else None.

(** [stringToStringSliceHook] on a string that is decoded into a []string. *)
Definition stringToStringSliceHook (data : string) : list string :=
  let raw := str_TrimSpace data in
  let raw := match in_brackets raw with Some body => str_TrimSpace body | None => raw end in
  if empty raw then []
  else (fun v => trim_quotes (str_TrimSpace v)) <$> split_on ","%char raw.

Example hook_ex :
  stringToStringSliceHook " a, 'b' ,c" = ["a"; "b"; "c"] /\
  stringToStringSliceHook "[]" = [] /\ stringToStringSliceHook "[ /x/* ]" = ["/x/*"].
Proof. repeat split; vm_compute; reflexivity. Qed.

(** ** The defaults *)

(** The values the code gives to [SetDefault]. *)
Inductive setting : Type :=
  | VString (s : string)
  | VBool (b : bool)
  | VInt (n : Z)
  | VFloat (f : spec_float)
  | VList (l : list string)
  | VMap.

(** [setRateLimitDefaults(v, key, rate, burst)], as the settings it makes. *)
Definition setRateLimitDefaults (key : string) (rate burst : Z) : list (string * setting) :=
  [ (key +:+ ".rate", VInt rate); (key +:+ ".burst", VInt burst); (key +:+ ".period", VString "1m") ].

(** The settings of [setDefaults], in order. *)
Definition default_settings : list (string * setting) :=
  [
    ("app.name", VString "service-registry-service"); ("app.env", VString "development");
    ("app.shutdown_timeout", VString "10s"); ("http.address", VString "127.0.0.1:8080");
    ("http.read_timeout", VString "10s"); ("http.write_timeout", VString "15s");
    ("http.idle_timeout", VString "60s"); ("http.request_timeout", VString "10s");
    ("http.max_body_bytes", VInt (Z.shiftl 1 20)); ("http.trusted_proxies", VList []);
    ("http.cors.enabled", VBool false); ("http.cors.allowed_origins", VList []);
    ("http.cors.allowed_headers", VList ["Authorization"; "Content-Type"; "X-Request-ID"]);
    ("http.cors.exposed_headers", VList ["X-Request-ID"; "X-RateLimit-Limit"; "X-RateLimit-Remaining"; "Retry-After"]);
    ("http.cors.max_age", VString "12h"); ("grpc.enabled", VBool true);
    ("grpc.address", VString "127.0.0.1:9090"); ("grpc.reflection_enabled", VBool true);
    ("grpc.max_receive_bytes", VInt (Z.shiftl 16 20)); ("grpc.tls.enabled", VBool false);
    ("grpc.tls.cert_file", VString ""); ("grpc.tls.key_file", VString "");
    ("grpc.tls.client_ca_file", VString ""); ("log.level", VString "info"); ("log.format", VString "json");
    ("log.file", VString "logs/app.log"); ("log.max_size_mb", VInt 100); ("log.max_backups", VInt 10);
    ("log.max_age_days", VInt 30); ("log.compress", VBool true); ("database.ping_timeout", VString "5s");
    ("database.max_open_conns", VInt 25); ("database.max_idle_conns", VInt 10);
    ("database.conn_max_lifetime", VString "5m"); ("database.conn_max_idle_time", VString "1m");
    ("database.enabled", VBool false); ("database.name", VString "platform");
    ("database.schema", VString "service_registry"); ("database.type", VString "postgres");
    ("database.dsn", VString ""); ("redis.address", VString "127.0.0.1:6379");
    ("redis.dial_timeout", VString "5s"); ("redis.read_timeout", VString "3s");
    ("redis.write_timeout", VString "3s"); ("redis.enabled", VBool false); ("redis.username", VString "");
    ("redis.password", VString ""); ("redis.db", VInt 0); ("health.database_timeout", VString "2s");
    ("health.redis_timeout", VString "2s"); ("rate_limit.enabled", VBool false);
    ("rate_limit.fail_open", VBool false) ] ++
  setRateLimitDefaults "rate_limit.ip" 120 30 ++
  setRateLimitDefaults "rate_limit.api" 10000 1000 ++
  setRateLimitDefaults "rate_limit.user" 600 100 ++
  setRateLimitDefaults "rate_limit.login" 10 3 ++
  [
    ("observability.metrics_enabled", VBool true); ("observability.tracing_enabled", VBool false);
    ("observability.tracing_endpoint", VString "http://127.0.0.1:4318");
    ("observability.tracing_sample_ratio", VFloat (S754_finite false 7205759403792794 (-56)));
    ("observability.pprof_enabled", VBool false); ("observability.pprof_token", VString "");
    ("swagger.enabled", VBool true); ("swagger.require_auth", VBool false);
    ("jwt.issuer", VString "service-registry-service"); ("jwt.secret", VString "");
    ("jwt.ttl", VString "2h"); ("auth.client_id", VString ""); ("auth.client_secret", VString "");
    ("auth.jwks_url", VString ""); ("auth.issuer", VString "identity-service");
    ("auth.audience", VString "service-registry-service");
    ("auth.skip_http_paths", VList ["/api/v1/version"]);
    ("auth.skip_grpc_methods", VList ["/grpc.health.v1.Health/*"]); ("auth.psk.enabled", VBool false);
    ("auth.psk.key", VString ""); ("auth.psk.http_paths", VList []); ("auth.psk.grpc_methods", VList []);
    ("authorization.enabled", VBool false); ("cron.enabled", VBool true);
    ("cron.timezone", VString "Asia/Shanghai"); ("cron.sample_spec", VString "0 */5 * * * *");
    ("migration.path", VString "migrations/postgres"); ("migration.database_url", VString "");
    ("migration.auto_up", VBool false); ("migration.create_schema", VBool false);
    ("migration.table", VString "service_registry_schema_migrations"); ("user.cache_ttl", VString "5m");
    ("user.lock_ttl", VString "10s"); ("user.lock_retry_delay", VString "100ms");
    ("idempotency.enabled", VBool false); ("idempotency.processing_ttl", VString "30s");
    ("idempotency.result_ttl", VString "24h"); ("idempotency.failure_ttl", VString "5m");
    ("event_bus.enabled", VBool false); ("event_bus.urls", VList ["nats://127.0.0.1:4222"]);
    ("event_bus.stream_name", VString "PLATFORM_EVENTS"); ("event_bus.subjects", VList ["platform.>"]);
    ("event_bus.storage", VString "file"); ("event_bus.max_age", VString "168h");
    ("event_bus.duplicate_window", VString "10m"); ("event_bus.connect_timeout", VString "5s");
    ("event_bus.reconnect_wait", VString "1s"); ("event_bus.publish_timeout", VString "5s");
    ("event_bus.consumer_ack_wait", VString "30s"); ("event_bus.consumer_max_deliver", VInt 10);
    ("outbound.http", VMap); ("outbound.grpc", VMap) ].

(** ** Loading *)

(** viper and the file system. *)
Class Viper : Type := {
  viper : Type;
  viper_New : viper;
  SetConfigFile : string -> viper -> viper;
  (** [SetEnvPrefix], [SetEnvKeyReplacer] of "." by "_", [AutomaticEnv]. *)
  UseEnv : string -> viper -> viper;
  BindEnv : string -> list string -> viper -> res viper;
  SetDefault : string -> setting -> viper -> viper;
  ReadInConfig : viper -> res viper;
  MergeInConfig : viper -> res viper;
  GetString : string -> viper -> string;
  viper_Set : string -> string -> viper -> viper;
  Unmarshal : viper -> res Config;
  (** [errors.As] for [viper.ConfigFileNotFoundError]. *)
  file_not_found : goerr -> bool;
  Stat : string -> option goerr;
}.

(** A value that was [Set] overrides every other source. *)
Class ViperLaws `{Viper} : Prop := {
  set_env_law profile v cfg :
    Unmarshal (viper_Set "app.env" profile v) = Ok cfg -> app_Env (config_App cfg) = profile;
}.

(** [os.ErrNotExist]. *)
Definition ErrNotExist : goerr := ESentinel "os.ErrNotExist" "file does not exist".

Section load.
Context `{Viper} `{MapRange} `{Quote}.

(** [setDefaults(v)]. *)
Definition setDefaults (v : viper) : viper :=
  foldl (fun v x => SetDefault x.1 x.2 v) v default_settings.

Definition wrap {A} (pre : string) (r : res A) : res A :=
  match r with Ok a => Ok a | Err e => Err (EWrap pre e) end.

(** The profile: the explicit one, else the configured one. *)
Definition active_profile (explicitProfile : string) (v : viper) : string :=
  let profile := str_ToLower (str_TrimSpace explicitProfile) in
  if empty profile then str_ToLower (str_TrimSpace (GetString "app.env" v)) else profile.

(** The profile's own file, merged when it exists: the store and the files loaded. *)
Definition merge_profile (path profile : string) (v : viper) : res (viper * list string) :=
  let profilePath := profileConfigPath path profile in
  if bool_decide (profilePath = path) then Ok (v, [path])
  else
    match Stat profilePath with
    | None =>
        try v := wrap ("merge profile config " +:+ quote profilePath)
                   (MergeInConfig (SetConfigFile profilePath v)) in
        Ok (v, [path; profilePath])
    | Some e =>
        if errors_is e ErrNotExist then Ok (v, [path])
        else Err (EWrap ("inspect profile config " +:+ quote profilePath) e)
    end.

(** [cfg.Migration.Schema] and [DatabaseName] from the database settings, and the
    runtime settings. *)
Definition with_migration (c : Config) : Config :=
  let m := config_Migration c in
  {| config_Runtime := config_Runtime c; config_App := config_App c; config_HTTP := config_HTTP c;
     config_GRPC := config_GRPC c; config_Log := config_Log c; config_Database := config_Database c;
     config_Redis := config_Redis c; config_Health := config_Health c;
     config_RateLimit := config_RateLimit c; config_Observability := config_Observability c;
     config_Swagger := config_Swagger c; config_JWT := config_JWT c; config_Auth := config_Auth c;
     config_Authorization := config_Authorization c; config_Cron := config_Cron c;
     config_Migration :=
       {| migration_AutoUp := migration_AutoUp m; migration_CreateSchema := migration_CreateSchema m;
          migration_Path := migration_Path m; migration_DatabaseURL := migration_DatabaseURL m;
          migration_Table := migration_Table m;
          migration_Schema := database_Schema (config_Database c);
          migration_DatabaseName := database_Name (config_Database c) |};
     config_User := config_User c; config_Idempotency := config_Idempotency c;
     config_Outbound := config_Outbound c; config_EventBus := config_EventBus c |}.

Definition with_runtime (c : Config) (r : Runtime) : Config :=
  {| config_Runtime := r; config_App := config_App c; config_HTTP := config_HTTP c;
     config_GRPC := config_GRPC c; config_Log := config_Log c; config_Database := config_Database c;
     config_Redis := config_Redis c; config_Health := config_Health c;
     config_RateLimit := config_RateLimit c; config_Observability := config_Observability c;
     config_Swagger := config_Swagger c; config_JWT := config_JWT c; config_Auth := config_Auth c;
     config_Authorization := config_Authorization c; config_Cron := config_Cron c;
     config_Migration := config_Migration c; config_User := config_User c;
     config_Idempotency := config_Idempotency c; config_Outbound := config_Outbound c;
     config_EventBus := config_EventBus c |}.

Definition LoadWithProfile (path explicitProfile : string) : res Config :=
  let v := UseEnv "APP" (SetConfigFile path viper_New) in
  try v := wrap "bind environment profile" (BindEnv "app.env" ["APP_ENV"; "APP_APP_ENV"] v) in
  try v := wrap "bind authorization target"
             (BindEnv "outbound.grpc.authorization.target"
                ["APP_OUTBOUND_GRPC_AUTHORIZATION_TARGET"] v) in
  let v := setDefaults v in
  try v := (match ReadInConfig v with
            | Ok v' => Ok v'
            | Err e => if negb (empty path) || negb (file_not_found e)
                       then Err (EWrap "read config" e) else Ok v
            end) in
  let profile := active_profile explicitProfile v in
  if negb (re_match validProfile profile)
  then Err (ENew ("invalid environment profile " +:+ quote profile))
  else
    try (v, loadedFiles) := merge_profile path profile v in
    let v := viper_Set "app.env" profile v in
    try cfg := wrap "decode config" (Unmarshal v) in
    let cfg := with_migration cfg in
    try _ := Validate cfg in
    Ok (with_runtime cfg {| runtime_ActiveProfile := profile; runtime_ConfigFiles := loadedFiles |}).

(** [Load(path)]. *)
Definition Load (path : string) : res Config := LoadWithProfile path EmptyString.

End load.
