(* ===== verification/LoadFacts.v ===== *)
(** * What loading guarantees

    A configuration that was loaded passed [Validate], runs under a well-formed
    profile that the explicit argument decides, and takes the migration settings
    from the database's; the list hook reads back the lists it is meant for. *)

From S2P Require Import Prelude GoText Regex Utf8 GoURL GoQuery UrlFacts GoMime Config ConfigFacts Load.

Local Open Scope Z_scope.
Local Open Scope go_scope.

Section loaded.
Context `{ViperLaws} `{MapRange} `{Quote}.

Lemma wrap_ok {A} pre (r : res A) a : wrap pre r = Ok a -> r = Ok a.
Proof. by destruct r. Qed.

Lemma merge_profile_files path profile v v' files :
  merge_profile path profile v = Ok (v', files) ->
  files = [path] \/
  (files = [path; profileConfigPath path profile] /\ Stat (profileConfigPath path profile) = None).
Proof.
  unfold merge_profile. case_bool_decide; [naive_solver|].
  destruct (Stat _) as [e|]; [destruct (errors_is e ErrNotExist); naive_solver|].
  intros (v1 & _ & [= _ <-])%res_bind_ok_inv. auto.
Qed.

(** What a loaded configuration satisfies. *)
Record loaded (path explicitProfile : string) (cfg : Config) : Prop := {
  loaded_valid : Validate cfg = Ok tt;
  loaded_profile : re_match validProfile (runtime_ActiveProfile (config_Runtime cfg)) = true;
  loaded_env : app_Env (config_App cfg) = runtime_ActiveProfile (config_Runtime cfg);
  loaded_explicit :
    str_ToLower (str_TrimSpace explicitProfile) <> EmptyString ->
    runtime_ActiveProfile (config_Runtime cfg) = str_ToLower (str_TrimSpace explicitProfile);
  loaded_migration :
    migration_Schema (config_Migration cfg) = database_Schema (config_Database cfg) /\
    migration_DatabaseName (config_Migration cfg) = database_Name (config_Database cfg);
  loaded_files :
    runtime_ConfigFiles (config_Runtime cfg) = [path] \/
    runtime_ConfigFiles (config_Runtime cfg) =
      [path; profileConfigPath path (runtime_ActiveProfile (config_Runtime cfg))];
}.

Lemma LoadWithProfile_loaded path ex cfg : LoadWithProfile path ex = Ok cfg -> loaded path ex cfg.
Proof.
  unfold LoadWithProfile. cbv zeta.
  intros (v1 & _ & Hl)%res_bind_ok_inv. apply res_bind_ok_inv in Hl as (v2 & _ & Hl).
  apply res_bind_ok_inv in Hl as (v3 & _ & Hl).
  destruct (re_match validProfile (active_profile ex v3)) eqn:Er; [|done]. cbn [negb] in Hl.
  apply res_bind_ok_inv in Hl as ([v4 files] & Hm & Hl).
  apply res_bind_ok_inv in Hl as (c & Hu & Hl). apply wrap_ok in Hu.
  apply res_bind_ok_inv in Hl as ([] & Hv & [= <-]).
  constructor; cbn [config_Runtime runtime_ActiveProfile runtime_ConfigFiles with_runtime].
  - exact Hv.
  - done.
  - by apply set_env_law in Hu.
  - intros Hne. unfold active_profile, empty. by rewrite bool_decide_eq_false_2.
  - done.
  - destruct (merge_profile_files _ _ _ _ _ Hm) as [->|[-> _]]; auto.
Qed.

(** A configuration loaded for the production profile. *)
Lemma loaded_locked path ex cfg :
  loaded path ex cfg -> str_ToLower (str_TrimSpace ex) = "production" -> locked_down cfg.
Proof.
  intros Hl Hex. apply production_locked; [apply (loaded_valid _ _ _ Hl)|].
  rewrite (loaded_env _ _ _ Hl), (loaded_explicit _ _ _ Hl); rewrite Hex; done.
Qed.

End loaded.

(** Whatever files and environment it finds, a configuration that
    [LoadWithProfile] returns has passed [Validate]; its environment is the active
    profile, a well-formed name, which is the explicit profile in lower case and
    without surrounding space whenever one is given; the migration runs on the
    database and schema of the database settings; and the recorded files are the
    given one and at most the profile's own. *)
Lemma LoadWithProfile_exact `{ViperLaws} `{MapRange} `{Quote} path ex cfg :
  LoadWithProfile path ex = Ok cfg -> loaded path ex cfg.
Proof. apply LoadWithProfile_loaded. Qed.

(** A viper whose only setting is the environment, over a fixed configuration. *)
Definition with_env (c : Config) (env : string) : Config :=
  {| config_Runtime := config_Runtime c;
     config_App := {| app_Name := app_Name (config_App c); app_Schema := app_Schema (config_App c);
                      app_Env := env; app_ShutdownTimeout := app_ShutdownTimeout (config_App c) |};
     config_HTTP := config_HTTP c;
     config_GRPC := config_GRPC c; config_Log := config_Log c; config_Database := config_Database c;
     config_Redis := config_Redis c; config_Health := config_Health c;
     config_RateLimit := config_RateLimit c; config_Observability := config_Observability c;
     config_Swagger := config_Swagger c; config_JWT := config_JWT c; config_Auth := config_Auth c;
     config_Authorization := config_Authorization c; config_Cron := config_Cron c;
     config_Migration := config_Migration c; config_User := config_User c;
     config_Idempotency := config_Idempotency c; config_Outbound := config_Outbound c;
     config_EventBus := config_EventBus c |}.

Definition sample_viper : Viper := {|
  viper := string; viper_New := EmptyString;
  SetConfigFile _ v := v; UseEnv _ v := v; BindEnv _ _ v := Ok v;
  SetDefault key value v :=
    match value with VString s => if bool_decide (key = "app.env") then s else v | _ => v end;
  ReadInConfig v := Ok v; MergeInConfig v := Ok v;
  GetString _ v := v; viper_Set _ env _ := env;
  Unmarshal v := Ok (with_env production_config v);
  file_not_found _ := false; Stat _ := Some ErrNotExist;
|}.

Lemma sample_viper_laws : @ViperLaws sample_viper.
Proof. constructor. intros profile v cfg [= <-]. done. Qed.

Definition sample_load : res Config :=
  @LoadWithProfile sample_viper key_order (fun s => s) "config/config.yaml" " Production ".

Lemma sample_load_ok : exists cfg, sample_load = Ok cfg /\ app_Env (config_App cfg) = "production".
Proof. eexists. split; [vm_compute; reflexivity|reflexivity]. Qed.

Lemma LoadWithProfile_exact_witness :
  exists cfg, sample_load = Ok cfg /\
    runtime_ActiveProfile (config_Runtime cfg) = "production" /\
    @Validate key_order (fun s => s) cfg = Ok tt.
Proof.
  destruct sample_load_ok as (cfg & Hl & He). exists cfg. split; [exact Hl|].
  pose proof (@LoadWithProfile_exact sample_viper sample_viper_laws key_order (fun s => s) _ _ _ Hl) as L.
  split; [rewrite <- (loaded_env _ _ _ L); exact He|exact (loaded_valid _ _ _ L)].
Defined.

(** ** The list hook *)

(** The bytes of the entries such lists hold: printable ASCII without space, comma,
    quotes and brackets. *)
Definition entry_byte (c : ascii) : bool :=
  (32 <? byte_val c) && (byte_val c <? 127) && negb (is_quote c) &&
  negb (byte_in c ",[]").

Definition plain_entry (s : string) : bool := negb (empty s) && str_forallb entry_byte s.

Definition ascii_solid (z : Z) : Prop := 0 <= z < 128 /\ is_space z = false.

Lemma trim_right_spec n keep pending s c tail :
  Forall (fun z => 0 <= z < 128) s -> ascii_solid c -> Forall (fun z => z = 32) tail ->
  (length s + 1 + length tail <= n)%nat ->
  trim_right n keep pending (s ++ c :: tail) = keep ++ pending ++ s ++ [c].
Proof.
  intros Hs [Hc Hsp] Ht. revert n keep pending.
  induction Hs as [|z s Hz Hs IH]; intros n keep pending Hn; (destruct n as [|n]; [cbn in Hn; lia|]).
  - cbn [app trim_right decode_rune]. rewrite (proj2 (Z.ltb_lt c 128)) by lia. rewrite Hsp.
    cbn [firstn skipn app]. rewrite take_0, drop_0. clear -Ht.
    generalize (keep ++ pending ++ [c]). intros k.
    assert (forall n pending, trim_right n k pending tail = k) as ->.
    { induction Ht as [|z tail -> Ht IH]; intros [|n'] pend; try done.
      cbn [trim_right decode_rune]. change (32 <? 128) with true. cbn iota.
      change (is_space 32) with true. cbn iota. cbn [skipn]. rewrite drop_0. apply IH. }
    done.
  - cbn [app trim_right decode_rune]. rewrite (proj2 (Z.ltb_lt z 128)) by lia. cbn [take drop].
    cbn [length] in Hn. cbn [firstn skipn]. rewrite take_0, drop_0.
    destruct (is_space z); rewrite IH by lia; by rewrite <- !app_assoc.
Qed.

Lemma trim_left_spaces n pre c s :
  Forall (fun z => z = 32) pre -> ascii_solid c -> (length pre + 1 <= n)%nat ->
  trim_left n (pre ++ c :: s) = c :: s.
Proof.
  intros Hp [Hc Hsp]. revert n. induction Hp as [|z pre -> Hp IH]; intros [|n] Hn; cbn in Hn; try lia.
  - cbn [app trim_left decode_rune]. rewrite (proj2 (Z.ltb_lt c 128)) by lia. by rewrite Hsp.
  - cbn [app trim_left decode_rune]. change (32 <? 128) with true. cbn iota.
    change (is_space 32) with true. cbn iota. cbn [skipn]. rewrite drop_0. apply IH. lia.
Qed.

(** A text that starts and ends in solid ASCII. *)
Inductive solid : list Z -> Prop :=
  | solid_one c : ascii_solid c -> solid [c]
  | solid_many c m d :
      ascii_solid c -> ascii_solid d -> Forall (fun z => 0 <= z < 128) m -> solid (c :: m ++ [d]).

(** Spaces around it go away. *)
Lemma TrimSpace_solid pre l tail :
  Forall (fun z => z = 32) pre -> Forall (fun z => z = 32) tail -> solid l ->
  TrimSpace (pre ++ l ++ tail) = l.
Proof.
  intros Hp Ht Hl. unfold TrimSpace, TrimLeft. destruct Hl as [c Hc|c m d Hc Hd Hm].
  - change ([c] ++ tail) with (c :: tail).
    rewrite trim_left_spaces; [|done|done|rewrite length_app; cbn; lia].
    apply (trim_right_spec _ [] [] [] c tail); [done|done|done|]. cbn. lia.
  - change ((c :: m ++ [d]) ++ tail) with (c :: (m ++ [d]) ++ tail). rewrite <- app_assoc.
    rewrite trim_left_spaces; [|done|done|rewrite length_app; cbn; lia].
    apply (trim_right_spec _ [] [] (c :: m) d tail); [constructor; [apply Hc|done]|done|done|].
    cbn [length]. rewrite length_app. cbn. lia.
Qed.

Lemma solid_ascii l : solid l -> Forall (fun z => 0 <= z < 128) l.
Proof.
  intros [c [Hc _]|c m d [Hc _] [Hd _] Hm]; [by apply Forall_singleton|].
  apply Forall_cons. split; [done|]. apply Forall_app. split; [done|]. by apply Forall_singleton.
Qed.

Lemma solid_join a m b :
  solid a -> solid b -> Forall (fun z => 0 <= z < 128) m -> solid (a ++ m ++ b).
Proof.
  intros Ha Hb Hm.
  assert (exists c a', a = c :: a' /\ ascii_solid c /\ Forall (fun z => 0 <= z < 128) a') as
    (c & a' & -> & Hc & Ha').
  { destruct Ha as [c Hc|c ma d Hc Hd Hma]; [by exists c, []|]. exists c, (ma ++ [d]).
    split_and!; [done|done|]. apply Forall_app. split; [done|]. constructor; [apply Hd|done]. }
  assert (exists b' d, b = b' ++ [d] /\ ascii_solid d /\ Forall (fun z => 0 <= z < 128) b') as
    (b' & d & -> & Hd & Hb').
  { destruct Hb as [d Hd|c' mb d Hc' Hd Hmb]; [by exists [], d|]. exists (c' :: mb), d.
    split_and!; [done|done|]. constructor; [apply Hc'|done]. }
  replace ((c :: a') ++ m ++ b' ++ [d]) with (c :: (a' ++ m ++ b') ++ [d])
    by (cbn; by rewrite <- !app_assoc).
  constructor; [done|done|]. by rewrite !Forall_app.
Qed.

(** *** On strings *)

Lemma byte_vals_app a b : byte_vals (a +:+ b) = byte_vals a ++ byte_vals b.
Proof.
  unfold byte_vals, bytes_of_string. induction a as [|c a IH]; [done|].
  change (String c a +:+ b) with (String c (a +:+ b)). cbn. by rewrite IH.
Qed.

Lemma string_of_byte_vals s : string_of_vals (byte_vals s) = s.
Proof.
  unfold string_of_vals, byte_vals, bytes_of_string, string_of_bytes.
  induction s as [|c s IH]; [done|]. cbn. rewrite IH. f_equal.
  unfold byte_val. rewrite N2Z.id. apply ascii_N_embedding.
Qed.

Definition spaces (n : nat) : string := string_of_bytes (replicate n " "%char).

Lemma spaces_vals n : Forall (fun z => z = 32) (byte_vals (spaces n)).
Proof.
  unfold spaces, byte_vals, bytes_of_string, string_of_bytes.
  rewrite String.list_ascii_of_string_of_list_ascii. induction n as [|n IH]; [done|].
  cbn. by constructor.
Qed.

Lemma str_TrimSpace_solid n s m :
  solid (byte_vals s) -> str_TrimSpace (spaces n +:+ s +:+ spaces m) = s.
Proof.
  intros Hs. unfold str_TrimSpace. rewrite !byte_vals_app.
  rewrite TrimSpace_solid by (done || apply spaces_vals). apply string_of_byte_vals.
Qed.

Lemma str_TrimSpace_id s : solid (byte_vals s) -> str_TrimSpace s = s.
Proof. intros Hs. pose proof (str_TrimSpace_solid 0 s 0 Hs) as E. by rewrite str_app_nil_r in E. Qed.

(** *** Entries *)

(** An entry between quotes, [q] being none, one or several of them. *)
Definition quoted_entry (q e : string) : string := q +:+ e +:+ q.

(** The list as it is written: entries separated by a comma and [n] spaces. *)
Definition written_list (q : string) (n : nat) (l : list string) : string :=
  str_join ("," +:+ spaces n) (quoted_entry q <$> l).

Lemma trim_quotes_left_app q t :
  str_forallb is_quote q = true -> trim_quotes_left (q +:+ t) = trim_quotes_left t.
Proof.
  induction q as [|c q IH]; [done|]. cbn [str_forallb]. intros [Hc Hq]%andb_prop.
  change (String c q +:+ t) with (String c (q +:+ t)). cbn [trim_quotes_left]. rewrite Hc. auto.
Qed.

Lemma trim_quotes_right_app e q :
  str_forallb (fun c => negb (is_quote c)) e = true -> str_forallb is_quote q = true ->
  trim_quotes_right (e +:+ q) = e.
Proof.
  intros He Hq. assert (trim_quotes_right q = EmptyString) as Eq.
  { induction q as [|c q IH]; [done|]. cbn [str_forallb] in Hq. apply andb_prop in Hq as [Hc Hq].
    cbn [trim_quotes_right]. by rewrite IH, Hc. }
  induction e as [|c e IH]; [exact Eq|]. cbn [str_forallb] in He. apply andb_prop in He as [Hc He].
  change (String c e +:+ q) with (String c (e +:+ q)). cbn [trim_quotes_right]. rewrite IH by done.
  apply negb_true_iff in Hc. destruct e; [by rewrite Hc|done].
Qed.

Lemma trim_quotes_entry q e :
  str_forallb is_quote q = true -> plain_entry e = true -> trim_quotes (quoted_entry q e) = e.
Proof.
  intros Hq [Hne He]%andb_prop. unfold trim_quotes, quoted_entry.
  assert (str_forallb (fun c => negb (is_quote c)) e = true) as Hnq by bytes_from He.
  rewrite trim_quotes_left_app by done.
  assert (trim_quotes_left (e +:+ q) = e +:+ q) as ->.
  { destruct e as [|c e]; [done|]. cbn [str_forallb] in Hnq. apply andb_prop in Hnq as [Hc _].
    apply negb_true_iff in Hc. change (String c e +:+ q) with (String c (e +:+ q)).
    cbn [trim_quotes_left]. by rewrite Hc. }
  by apply trim_quotes_right_app.
Qed.

(** Bytes of quoted entries. *)
Definition solid_byte (c : ascii) : bool := is_quote c || entry_byte c.

Lemma quoted_entry_bytes q e :
  str_forallb is_quote q = true -> plain_entry e = true -> str_forallb solid_byte (quoted_entry q e) = true.
Proof.
  intros Hq [_ He]%andb_prop. unfold quoted_entry. rewrite !str_forallb_app.
  assert (str_forallb solid_byte q = true) as -> by bytes_from Hq.
  by assert (str_forallb solid_byte e = true) as -> by bytes_from He.
Qed.

Lemma solid_byte_vals s :
  s <> EmptyString -> str_forallb solid_byte s = true -> solid (byte_vals s).
Proof.
  intros Hne Hs. assert (Forall ascii_solid (byte_vals s)) as HF.
  { unfold byte_vals, bytes_of_string. clear Hne. induction s as [|c s IH]; [constructor|].
    cbn [str_forallb] in Hs. apply andb_prop in Hs as [Hc Hs]. cbn. constructor; [|by apply IH].
    assert (forallb (fun c => implb (solid_byte c) ((byte_val c <? 128) && negb (is_space (byte_val c))))
      all_bytes = true) as Hall by (vm_compute; reflexivity).
    apply (forall_bytes _) with (c := c) in Hall. rewrite Hc in Hall. cbn in Hall.
    apply andb_prop in Hall as [H1%Z.ltb_lt H2%negb_true_iff].
    split; [|done]. pose proof (byte_val_range c). lia. }
  destruct (byte_vals s) as [|c l] eqn:E.
  { destruct s; [done|]. unfold byte_vals, bytes_of_string in E. by cbn in E. }
  inversion_clear HF as [|? ? Hc HF'].
  destruct l as [|d l _] using rev_ind; [by constructor|].
  apply Forall_app in HF' as [Hl Hd]. apply Forall_cons in Hd as [Hd _].
  apply solid_many; [exact Hc|exact Hd|]. eapply Forall_impl; [exact Hl|]. by intros z [Hz _].
Qed.

Lemma quoted_entry_nonempty q e : plain_entry e = true -> quoted_entry q e <> EmptyString.
Proof.
  intros [He _]%andb_prop E. unfold quoted_entry in E. destruct q; [|discriminate E].
  change (EmptyString +:+ e +:+ EmptyString) with (e +:+ EmptyString) in E.
  rewrite str_app_nil_r in E. by rewrite E in He.
Qed.

Lemma split_spaces n s :
  split_on ","%char (spaces n +:+ s) =
  match split_on ","%char s with x :: r => (spaces n +:+ x) :: r | [] => [] end.
Proof.
  unfold spaces, string_of_bytes. induction n as [|k IHk].
  - cbn. change (EmptyString +:+ s) with s. by destruct (split_on _ s).
  - cbn [replicate String.string_of_list_ascii].
    change (String " " (String.string_of_list_ascii (replicate k " "%char)) +:+ s)
      with (String " " (String.string_of_list_ascii (replicate k " "%char) +:+ s)).
    cbn [split_on]. rewrite IHk. by destruct (split_on _ s).
Qed.

Section written_list.
Context (q : string) (n : nat) (Hq : str_forallb is_quote q = true).

Lemma entry_solid e : plain_entry e = true -> solid (byte_vals (quoted_entry q e)).
Proof.
  intros He. apply solid_byte_vals; [by apply quoted_entry_nonempty|by apply quoted_entry_bytes].
Qed.

Lemma written_cons e e' l :
  written_list q n (e :: e' :: l) = quoted_entry q e +:+ ("," +:+ spaces n) +:+ written_list q n (e' :: l).
Proof. done. Qed.

Lemma written_solid l :
  l <> [] -> Forall (fun e => plain_entry e = true) l -> solid (byte_vals (written_list q n l)).
Proof.
  intros Hne Hl. destruct l as [|e l]; [done|]. clear Hne. revert e Hl.
  induction l as [|e' l IH]; intros e Hl; apply Forall_cons in Hl as [He Hl].
  - by apply entry_solid.
  - rewrite written_cons, !byte_vals_app. apply solid_join; [by apply entry_solid|by apply IH|].
    apply Forall_app. split; [by repeat constructor|].
    eapply Forall_impl; [apply spaces_vals|]. intros z ->. lia.
Qed.

(** The comma splits the written list into its entries, all but the first after
    the spaces. *)
Lemma written_split e l :
  Forall (fun e => plain_entry e = true) (e :: l) ->
  split_on ","%char (written_list q n (e :: l)) =
    quoted_entry q e :: ((fun x => spaces n +:+ quoted_entry q x) <$> l).
Proof.
  intros Hl. assert (forall e, plain_entry e = true -> avoids ","%char (quoted_entry q e) = true) as Ha.
  { intros x Hx. bytes_from (quoted_entry_bytes q x Hq Hx). }
  revert e Hl. induction l as [|e' l IH]; intros e Hl; apply Forall_cons in Hl as [He Hl].
  - by apply split_on_avoids, Ha.
  - rewrite written_cons.
    change (("," +:+ spaces n) +:+ written_list q n (e' :: l))
      with (String "," (spaces n +:+ written_list q n (e' :: l))).
    rewrite split_on_app by auto. f_equal.
    rewrite split_spaces.
    by rewrite IH.
Qed.

Lemma written_items e l :
  Forall (fun e => plain_entry e = true) (e :: l) ->
  (fun v => trim_quotes (str_TrimSpace v)) <$> split_on ","%char (written_list q n (e :: l)) = e :: l.
Proof.
  intros Hl. rewrite written_split by done. apply Forall_cons in Hl as [He Hl].
  cbn [fmap list_fmap]. f_equal.
  - rewrite str_TrimSpace_id by (by apply entry_solid). by apply trim_quotes_entry.
  - rewrite <- list_fmap_compose. rewrite <- (list_fmap_id l) at 2.
    apply list_fmap_ext. intros i x Hx. unfold compose, id. cbn beta. apply (Forall_lookup_1 _ _ _ _ Hl) in Hx.
    pose proof (str_TrimSpace_solid n (quoted_entry q x) 0 (entry_solid x Hx)) as E.
    rewrite str_app_nil_r in E. rewrite E. by apply trim_quotes_entry.
Qed.

Lemma written_not_empty e l : plain_entry e = true -> empty (written_list q n (e :: l)) = false.
Proof.
  intros He. apply bool_decide_eq_false. intros E. pose proof (quoted_entry_nonempty q e He) as Hn.
  destruct l; [done|]. rewrite written_cons in E. by destruct (quoted_entry q e).
Qed.

Lemma written_no_bracket e l : plain_entry e = true -> has_prefix "[" (written_list q n (e :: l)) = false.
Proof.
  intros He. pose proof (quoted_entry_bytes q e Hq He) as Hb.
  pose proof (quoted_entry_nonempty q e He) as Hn.
  assert (forall t, has_prefix "[" (quoted_entry q e +:+ t) = false) as Hp.
  { intros t. destruct (quoted_entry q e) as [|c x]; [done|]. cbn [str_forallb] in Hb.
    apply andb_prop in Hb as [Hc _]. change (String c x +:+ t) with (String c (x +:+ t)).
    cbn [has_prefix]. rewrite bool_decide_eq_false_2; [done|]. intros <-. by vm_compute in Hc. }
  destruct l; [|by rewrite written_cons].
  specialize (Hp EmptyString). by rewrite str_app_nil_r in Hp.
Qed.

End written_list.

(** The hook reads back every list of plain entries, in each of the ways such a
    list is written: separated by commas and any number of spaces, with or without
    quotes, alone or inside brackets. *)
Lemma hook_roundtrip q n l :
  str_forallb is_quote q = true -> l <> [] -> Forall (fun e => plain_entry e = true) l ->
  stringToStringSliceHook (written_list q n l) = l /\
  stringToStringSliceHook ("[" +:+ written_list q n l +:+ "]") = l.
Proof.
  intros Hq Hne Hl. pose proof (written_solid q n Hq l Hne Hl) as Hsolid.
  destruct l as [|e l]; [done|]. pose proof Hl as [He _]%Forall_cons.
  unfold stringToStringSliceHook. split.
  - rewrite str_TrimSpace_id by done. unfold in_brackets. rewrite written_no_bracket by done.
    rewrite written_not_empty by done. by apply written_items.
  - rewrite str_TrimSpace_id; cycle 1.
    { rewrite !byte_vals_app. apply (solid_join [91] _ [93]);
        [by repeat constructor..|by apply solid_ascii]. }
    assert (in_brackets ("[" +:+ written_list q n (e :: l) +:+ "]") = Some (written_list q n (e :: l))) as ->.
    { unfold in_brackets. rewrite has_prefix_app.
      assert (forall s, str_drop 1 ("[" +:+ s) = s) as Hd.
      { intros s. unfold str_drop. change ("[" +:+ s) with (String "[" s). cbn [String.substring].
        apply substring_all. cbn [String.length]. lia. }
      rewrite Hd. change ("]") with (String "]" EmptyString). by rewrite cut_last_app. }
    rewrite str_TrimSpace_id by done. rewrite written_not_empty by done. by apply written_items.
Qed.

Lemma hook_roundtrip_witness :
  let l := ["/api/v1/version"; "/grpc.health.v1.Health/*"] in
  let q := String (ascii_of_nat 34) EmptyString in
  stringToStringSliceHook ("[" +:+ written_list q 1 l +:+ "]") = l.
Proof.
  exact (proj2 (hook_roundtrip (String (ascii_of_nat 34) EmptyString) 1
    ["/api/v1/version"; "/grpc.health.v1.Health/*"] eq_refl ltac:(discriminate)
    ltac:(repeat constructor))).
Defined.
