(* ===== verification/Defaults.v ===== *)
(** * The defaults, decoded

    How the settings of [setDefaults] become a [Config]: each field reads the key that
    the mapstructure tags of internal/config/config.go give it.  A service that finds no
    file and no environment runs on [default_config]. *)

From Stdlib Require Import SpecFloat.
From S2P Require Import Prelude GoText Regex Utf8 GoURL GoMime Config ConfigFacts Load LoadFacts.

Local Open Scope Z_scope.
Local Open Scope go_scope.

(** ** Values *)

(** [time.ParseDuration] on an unsigned whole number with one unit, as the defaults
    write durations. *)
Fixpoint leading_number (s : string) (acc : Z) : Z * string :=
  match s with
  | String c s' => if is_digit c then leading_number s' (10 * acc + (byte_val c - 48)) else (acc, s)
  | EmptyString => (acc, EmptyString)
  end.

Definition unit_nanos (u : string) : option Z :=
  if bool_decide (u = "ms") then Some 1000000
  else if bool_decide (u = "s") then Some 1000000000
  else if bool_decide (u = "m") then Some minute
  else if bool_decide (u = "h") then Some hour
  else None.

Definition parse_duration (s : string) : option Z :=
  let (n, u) := leading_number s 0 in Z.mul n <$> unit_nanos u.

Section decode.
Context (get : string -> option setting).

(** A field that nothing sets keeps its zero value. *)
Definition field_string (key : string) : string :=
  match get key with Some (VString s) => s | _ => EmptyString end.
Definition field_bool (key : string) : bool := match get key with Some (VBool b) => b | _ => false end.
Definition field_int (key : string) : Z := match get key with Some (VInt n) => n | _ => 0 end.
Definition field_float (key : string) : spec_float :=
  match get key with Some (VFloat f) => f | _ => S754_zero false end.
Definition field_list (key : string) : list string := match get key with Some (VList l) => l | _ => [] end.
Definition field_duration (key : string) : Z := default 0 (parse_duration (field_string key)).

Definition field_rule (key : string) : RateLimitRule := {|
  ratelimitrule_Rate := field_int (key +:+ ".rate"); ratelimitrule_Burst := field_int (key +:+ ".burst");
  ratelimitrule_Period := field_duration (key +:+ ".period") |}.

(** The sections, by their tags; the two maps of upstreams have no entries here. *)
Definition decode : Config := {|
  config_Runtime := {| runtime_ActiveProfile := EmptyString; runtime_ConfigFiles := [] |};
  config_App := {| app_Name := field_string "app.name"; app_Schema := field_string "app.schema";
    app_Env := field_string "app.env"; app_ShutdownTimeout := field_duration "app.shutdown_timeout" |};
  config_HTTP := {| http_Address := field_string "http.address";
    http_ReadTimeout := field_duration "http.read_timeout"; http_WriteTimeout := field_duration "http.write_timeout";
    http_IdleTimeout := field_duration "http.idle_timeout";
    http_RequestTimeout := field_duration "http.request_timeout";
    http_MaxBodyBytes := field_int "http.max_body_bytes"; http_TrustedProxies := field_list "http.trusted_proxies";
    http_CORS := {| cors_Enabled := field_bool "http.cors.enabled";
      cors_AllowedOrigins := field_list "http.cors.allowed_origins";
      cors_AllowedHeaders := field_list "http.cors.allowed_headers";
      cors_ExposedHeaders := field_list "http.cors.exposed_headers";
      cors_MaxAge := field_duration "http.cors.max_age" |} |};
  config_GRPC := {| grpc_Enabled := field_bool "grpc.enabled"; grpc_Address := field_string "grpc.address";
    grpc_ReflectionEnabled := field_bool "grpc.reflection_enabled";
    grpc_MaxReceiveBytes := field_int "grpc.max_receive_bytes";
    grpc_TLS := {| grpctls_Enabled := field_bool "grpc.tls.enabled";
      grpctls_CertFile := field_string "grpc.tls.cert_file"; grpctls_KeyFile := field_string "grpc.tls.key_file";
      grpctls_ClientCAFile := field_string "grpc.tls.client_ca_file" |} |};
  config_Log := {| log_Level := field_string "log.level"; log_Format := field_string "log.format";
    log_File := field_string "log.file"; log_MaxSizeMB := field_int "log.max_size_mb";
    log_MaxBackups := field_int "log.max_backups"; log_MaxAgeDays := field_int "log.max_age_days";
    log_Compress := field_bool "log.compress" |};
  config_Database := {| database_Enabled := field_bool "database.enabled";
    database_Name := field_string "database.name"; database_Schema := field_string "database.schema";
    database_Type := field_string "database.type"; database_DSN := field_string "database.dsn";
    database_MaxOpenConns := field_int "database.max_open_conns";
    database_MaxIdleConns := field_int "database.max_idle_conns";
    database_ConnMaxLifetime := field_duration "database.conn_max_lifetime";
    database_ConnMaxIdleTime := field_duration "database.conn_max_idle_time";
    database_PingTimeout := field_duration "database.ping_timeout" |};
  config_Redis := {| redis_Enabled := field_bool "redis.enabled"; redis_Address := field_string "redis.address";
    redis_Username := field_string "redis.username"; redis_Password := field_string "redis.password";
    redis_DB := field_int "redis.db"; redis_DialTimeout := field_duration "redis.dial_timeout";
    redis_ReadTimeout := field_duration "redis.read_timeout";
    redis_WriteTimeout := field_duration "redis.write_timeout" |};
  config_Health := {| health_DatabaseTimeout := field_duration "health.database_timeout";
    health_RedisTimeout := field_duration "health.redis_timeout" |};
  config_RateLimit := {| ratelimit_Enabled := field_bool "rate_limit.enabled";
    ratelimit_FailOpen := field_bool "rate_limit.fail_open"; ratelimit_IP := field_rule "rate_limit.ip";
    ratelimit_API := field_rule "rate_limit.api"; ratelimit_User := field_rule "rate_limit.user";
    ratelimit_Login := field_rule "rate_limit.login" |};
  config_Observability := {| observability_MetricsEnabled := field_bool "observability.metrics_enabled";
    observability_TracingEnabled := field_bool "observability.tracing_enabled";
    observability_TracingEndpoint := field_string "observability.tracing_endpoint";
    observability_TracingSampleRatio := field_float "observability.tracing_sample_ratio";
    observability_PprofEnabled := field_bool "observability.pprof_enabled";
    observability_PprofToken := field_string "observability.pprof_token" |};
  config_Swagger := {| swagger_Enabled := field_bool "swagger.enabled";
    swagger_RequireAuth := field_bool "swagger.require_auth" |};
  config_JWT := {| jwt_Issuer := field_string "jwt.issuer"; jwt_Secret := field_string "jwt.secret";
    jwt_TTL := field_duration "jwt.ttl" |};
  config_Auth := {| auth_ClientID := field_string "auth.client_id";
    auth_ClientSecret := field_string "auth.client_secret"; auth_JWKSURL := field_string "auth.jwks_url";
    auth_Issuer := field_string "auth.issuer"; auth_Audience := field_string "auth.audience";
    auth_SkipHTTPPaths := field_list "auth.skip_http_paths";
    auth_SkipGRPCMethods := field_list "auth.skip_grpc_methods";
    auth_PSK := {| psk_Enabled := field_bool "auth.psk.enabled"; psk_Key := field_string "auth.psk.key";
      psk_HTTPPaths := field_list "auth.psk.http_paths"; psk_GRPCMethods := field_list "auth.psk.grpc_methods" |} |};
  config_Authorization := {| authorization_Enabled := field_bool "authorization.enabled" |};
  config_Cron := {| cron_Enabled := field_bool "cron.enabled"; cron_Timezone := field_string "cron.timezone";
    cron_SampleSpec := field_string "cron.sample_spec" |};
  config_Migration := {| migration_AutoUp := field_bool "migration.auto_up";
    migration_CreateSchema := field_bool "migration.create_schema"; migration_Path := field_string "migration.path";
    migration_DatabaseURL := field_string "migration.database_url"; migration_Table := field_string "migration.table";
    migration_Schema := EmptyString; migration_DatabaseName := EmptyString |};
  config_User := {| user_CacheTTL := field_duration "user.cache_ttl"; user_LockTTL := field_duration "user.lock_ttl";
    user_LockRetryDelay := field_duration "user.lock_retry_delay" |};
  config_Idempotency := {| idempotency_Enabled := field_bool "idempotency.enabled";
    idempotency_HTTPPaths := field_list "idempotency.http_paths";
    idempotency_GRPCMethods := field_list "idempotency.grpc_methods";
    idempotency_ProcessingTTL := field_duration "idempotency.processing_ttl";
    idempotency_ResultTTL := field_duration "idempotency.result_ttl";
    idempotency_FailureTTL := field_duration "idempotency.failure_ttl" |};
  config_Outbound := {| outbound_HTTP := ∅; outbound_GRPC := ∅ |};
  config_EventBus := {| eventbus_Enabled := field_bool "event_bus.enabled"; eventbus_URLs := field_list "event_bus.urls";
    eventbus_StreamName := field_string "event_bus.stream_name"; eventbus_Subjects := field_list "event_bus.subjects";
    eventbus_Storage := field_string "event_bus.storage"; eventbus_MaxAge := field_duration "event_bus.max_age";
    eventbus_DuplicateWindow := field_duration "event_bus.duplicate_window";
    eventbus_ConnectTimeout := field_duration "event_bus.connect_timeout";
    eventbus_ReconnectWait := field_duration "event_bus.reconnect_wait";
    eventbus_PublishTimeout := field_duration "event_bus.publish_timeout";
    eventbus_ConsumerAckWait := field_duration "event_bus.consumer_ack_wait";
    eventbus_ConsumerMaxDeliver := field_int "event_bus.consumer_max_deliver" |};
|}.

End decode.

(** ** Loading with nothing but the defaults *)

(** A viper that finds no file and no environment: the value that was set last for a key
    is its value. *)
Definition setting_of (v : list (string * setting)) (key : string) : option setting :=
  snd <$> find (fun x => String.eqb x.1 key) v.

Definition bare_viper : Viper := {|
  viper := list (string * setting); viper_New := [];
  SetConfigFile _ v := v; UseEnv _ v := v; BindEnv _ _ v := Ok v;
  SetDefault key value v := (key, value) :: v;
  ReadInConfig v := Err (ENew "Config File Not Found"); MergeInConfig v := Ok v;
  GetString key v := field_string (setting_of v) key;
  viper_Set key value v := (key, VString value) :: v;
  Unmarshal v := Ok (decode (setting_of v));
  file_not_found _ := true; Stat _ := Some ErrNotExist;
|}.

Lemma bare_viper_laws : @ViperLaws bare_viper.
Proof. constructor. intros profile v cfg [= <-]. done. Qed.

(** Without a file and an environment the service runs on [default_config], with the
    profile it is started with, development if none is given; the production profile is
    refused. *)
Lemma defaults_loaded :
  let load profile := @LoadWithProfile bare_viper key_order (fun s => s) EmptyString profile in
  let on profile := with_runtime (default_config profile)
    {| runtime_ActiveProfile := profile; runtime_ConfigFiles := [EmptyString] |} in
  load EmptyString = Ok (on "development") /\ load " Staging" = Ok (on "staging") /\
  load "production" = Err (ENew "grpc tls must be enabled in production").
Proof. split_and!; vm_compute; reflexivity. Qed.
