(* ===== verification/Startup.v ===== *)
(** * Process start

    internal/app/app.go, internal/cache/redis.go [Open], internal/eventbus,
    internal/logging, internal/observability/tracing.go and the two commands: the
    constructors that acquire what the process holds, the startup migration, and the
    exit codes.  Each constructor is a program of the calls it makes; a stop hook is
    a call too.  The order in which fx runs the constructors is its own. *)

From S2P Require Import Prelude GoText Config Database Migration Locking Load.

Local Open Scope Z_scope.
Local Open Scope go_scope.

(** What [platformeventbus.New] is given. *)
Record BusConfig : Type := { bus_ClientName : string; bus_Settings : EventBus }.

Inductive app_call : Type :=
  | ADb (c : db_call)
  | AMig (c : mig_call)
  | ARedisNew (cfg : Redis)
  | ARedisPing
  | ARedisTrace
  | ARedisClose
  | ABusNew (cfg : BusConfig)
  | ABusPublish (subject envelope : string)
  | ABusClose
  | ATraceNew (endpoint : string) (ratio : SpecFloat.spec_float)
  | AMkdir (dir : string)
  | AHook (resource : option string)
  | ALog (msg : string)
  | ARun (cfg : Config)
  | AStdout (msg : string)
  | AStderr (msg : string).

Abbreviation appprog A := (prog app_call mig_reply A).

Definition acall (c : app_call) : appprog (option goerr) := let* r := call c in Ret (first_err r).

(** [lc.Append(fx.StopHook(...))] that releases a resource. *)
Definition hook (resource : option string) : appprog unit := let* _ := call (AHook resource) in Ret tt.

Definition app_log (msg : string) : appprog unit := let* _ := call (ALog msg) in Ret tt.

(** ** Database and Redis *)

Section resources.
Context `{DbDrivers} `{Quote}.

(** [newDatabase(lc, cfg)]; [Ok false] is a nil database. *)
Definition newDatabase (cfg : Config) : appprog (res bool) :=
  if negb (database_Enabled (config_Database cfg)) then Ret (Ok false)
  else
    let! _ := plift ADb first_err (Open (config_Database cfg)) in
    let* _ := hook (Some "database") in
    Ret (Ok true).

(** [cache.Open(ctx, cfg)]. *)
Definition cache_Open (cfg : Redis) : appprog (res unit) :=
  let* _ := call (ARedisNew cfg) in
  let* err := acall ARedisPing in
  match err with
  | Some e => let* _ := call ARedisClose in Ret (Err (EWrap "ping redis" e))
  | None => Ret (Ok tt)
  end.

(** [newRedis(lc, cfg, tracing)]. *)
Definition newRedis (cfg : Config) (tracing : bool) : appprog (res bool) :=
  if negb (redis_Enabled (config_Redis cfg)) then Ret (Ok false)
  else
    let! _ := cache_Open (config_Redis cfg) in
    let* err := (if tracing then acall ARedisTrace else Ret None) in
    match err with
    | Some e => let* _ := call ARedisClose in Ret (Err (EWrap "instrument redis tracing" e))
    | None => let* _ := hook (Some "redis") in Ret (Ok true)
    end.

(** [newLocker(client)]: whether there is a locker. *)
Definition newLocker (client : bool) : bool := client.

(** ** The event bus *)

Definition bus_config (cfg : Config) : BusConfig :=
  {| bus_ClientName := app_Name (config_App cfg); bus_Settings := config_EventBus cfg |}.

(** [eventbus.New(ctx, cfg)]; [Ok false] is a nil bus. *)
Definition eventbus_New (cfg : Config) : appprog (res bool) :=
  if negb (eventbus_Enabled (config_EventBus cfg)) then Ret (Ok false)
  else
    let* err := acall (ABusNew (bus_config cfg)) in
    Ret (match err with Some e => Err e | None => Ok true end).

(** [eventbus.Publish(ctx, bus, subject, envelope)]. *)
Definition eventbus_Publish (bus : bool) (subject envelope : string) : appprog (option goerr) :=
  if negb bus then Ret (Some (ENew "event bus is disabled"))
  else acall (ABusPublish subject envelope).

(** [eventbus.Close(bus)]. *)
Definition eventbus_Close (bus : bool) : appprog (option goerr) :=
  if negb bus then Ret None else acall ABusClose.

(** [newBus(lifecycle, cfg)]: the hook closes the bus, a nil one too. *)
Definition newBus (cfg : Config) : appprog (res bool) :=
  let! bus := eventbus_New cfg in
  let* _ := hook (if bus then Some "event bus" else None) in
  Ret (Ok bus).

(** ** Logging and tracing *)

(** [logging.New(cfg)]: [dir] is [filepath.Dir], [level] the error of
    [slog.LevelVar.UnmarshalText]; the result is whether the text handler is used. *)
Definition logging_New (dir : string -> string) (level : string -> option goerr) (cfg : Log) :
    appprog (res bool) :=
  let* err := acall (AMkdir (dir (log_File cfg))) in
  match err with
  | Some e => Ret (Err (EWrap "create log directory" e))
  | None =>
      match level (str_ToLower (log_Level cfg)) with
      | Some e => Ret (Err (EWrap "parse log level" e))
      | None => Ret (Ok (bool_decide (log_Format cfg = "text")))
      end
  end.

(** [newLogger(lc, cfg)]: the logger with its service and environment. *)
Definition newLogger (dir : string -> string) (level : string -> option goerr) (cfg : Config) :
    appprog (res (bool * string * string)) :=
  let! text := logging_New dir level (config_Log cfg) in
  let* _ := hook (Some "log file") in
  Ret (Ok (text, app_Name (config_App cfg), runtime_ActiveProfile (config_Runtime cfg))).

(** [observability.NewTracing(lc, cfg)]: whether tracing is enabled. *)
Definition NewTracing (cfg : Config) : appprog (res bool) :=
  let o := config_Observability cfg in
  if negb (observability_TracingEnabled o) then Ret (Ok false)
  else
    let* err := acall (ATraceNew (observability_TracingEndpoint o) (observability_TracingSampleRatio o)) in
    match err with
    | Some e => Ret (Err (EWrap "create OTLP trace exporter" e))
    | None => let* _ := hook (Some "tracer provider") in Ret (Ok true)
    end.

(** ** The startup migration *)

Definition migration_ops : mig_reply -> mig_reply := fun r => r.

(** [runStartupMigration(cfg, logger)]. *)
Definition runStartupMigration (abs : string -> res string) (cfg : Config) : appprog (option goerr) :=
  if negb (migration_AutoUp (config_Migration cfg)) then Ret None
  else
    let* _ := app_log "running startup database migration" in
    let* err := plift AMig migration_ops (Run abs (config_Migration cfg) "up" 0) in
    match err with
    | Some e => Ret (Some (EWrap "startup database migration" e))
    | None => let* _ := app_log "startup database migration completed" in Ret None
    end.

End resources.

(** ** The commands *)

Section commands.
Context `{Viper} `{MapRange} `{Quote}.

(** cmd/api: the exit code; [ARun] is [app.New(cfg).Run()], the first three arguments
    are the variables of internal/buildinfo. *)
Definition api_main (Version Commit BuildTime configPath profile : string) (showVersion : bool) :
    appprog Z :=
  if showVersion then
    let* _ := call (AStdout ("version=" +:+ Version +:+ " commit=" +:+ Commit +:+
                             " build_time=" +:+ BuildTime +:+
                             String (ascii_of_nat 10) EmptyString)) in
    Ret 0
  else
    match LoadWithProfile configPath profile with
    | Err e =>
        let* _ := call (AStderr ("load configuration: " +:+ error_text e)) in Ret 1
    | Ok cfg => let* _ := call (ARun cfg) in Ret 0
    end.

(** cmd/migrate. *)
Definition migrate_main (abs : string -> res string) (configPath profile direction : string)
    (steps : Z) : appprog Z :=
  if negb (bool_decide (direction = "up")) && negb (bool_decide (direction = "down")) then
    let* _ := call (AStderr "direction must be up or down") in Ret 2
  else
    let* err := match LoadWithProfile configPath profile with
                | Err e => Ret (Some e)
                | Ok cfg => plift AMig migration_ops (Run abs (config_Migration cfg) direction steps)
                end in
    match err with
    | Some e => let* _ := call (AStderr ("migration failed: " +:+ error_text e)) in Ret 1
    | None => Ret 0
    end.

End commands.

(** ** Ownership *)

Definition acquires (x : app_call * mig_reply) : bool :=
  match x with
  | (ADb (DbOpen (ByConfig _)), _) => true
  | (ADb (DbOpen _), r) => match first_err r with None => true | Some _ => false end
  | (ARedisNew _, _) => true
  | (ABusNew _, r) => match first_err r with None => true | Some _ => false end
  | _ => false
  end.
Definition releases (x : app_call * mig_reply) : bool :=
  match x with (ADb DbClose, _) | (ARedisClose, _) | (ABusClose, _) => true | _ => false end.
Definition hands_over (x : app_call * mig_reply) : bool :=
  match x with (AHook (Some _), _) => true | _ => false end.

Definition app_count (f : app_call * mig_reply -> bool) (tr : list (app_call * mig_reply)) : nat :=
  length (List.filter f tr).

(** Everything acquired was released or handed to a stop hook; a failed constructor
    handed over nothing. *)
Definition accounted (tr : list (app_call * mig_reply)) (failed : bool) : Prop :=
  app_count acquires tr = (app_count releases tr + app_count hands_over tr)%nat /\
  (failed = true -> app_count hands_over tr = 0%nat).
