(* ===== verification/StartupFacts.v ===== *)
(** * What process start guarantees

    A constructor that fails has released what it acquired, and one that succeeds has
    handed it to a stop hook; what is disabled is not touched; the server starts and
    the migration runs only on a configuration that was loaded and validated, and
    under the production profile only on a locked-down one. *)

From S2P Require Import Prelude GoText Config ConfigFacts Database Migration MigrationFacts Load LoadFacts Startup.

Local Open Scope Z_scope.
Local Open Scope go_scope.

(** ** Resources *)

Lemma app_count_cons f x tr :
  app_count f (x :: tr) = ((if f x then 1 else 0) + app_count f tr)%nat.
Proof. unfold app_count. cbn. by destruct (f x). Qed.

Lemma app_count_app f t1 t2 : app_count f (t1 ++ t2) = (app_count f t1 + app_count f t2)%nat.
Proof. unfold app_count. by rewrite List.filter_app, length_app. Qed.

(** A lifted database program acquires what it opened and releases what it closed. *)
Lemma lifted_db_counts {A} (p : dbprog A) tr a :
  emits (plift ADb first_err p) tr a ->
  exists tr0, emits p tr0 a /\ app_count acquires tr = length (opened tr0) /\
              app_count releases tr = closes tr0 /\ app_count hands_over tr = 0%nat.
Proof.
  revert tr. induction p as [a0|c k IH]; intros tr Htr.
  - emits_inv Htr. exists []. split; [constructor|done].
  - emits_inv Htr. destruct (IH _ _ Htr) as (tr1 & H1 & Ha & Hr & Hh).
    exists ((c, first_err r) :: tr1). split; [by constructor|].
    rewrite !app_count_cons, Ha, Hr, Hh. unfold opened, closes. cbn [List.filter omap list_omap].
    destruct c as [t| | |]; cbn; [|done..].
    destruct t; cbn; [done|]. by destruct (first_err r).
Qed.

Section resources.
Context `{DbDrivers} `{Quote}.

Lemma Open_balance cfg tr r :
  emits (Open cfg) tr r ->
  length (opened tr) = (closes tr + if is_ok r then 1 else 0)%nat.
Proof.
  unfold Open. intros Htr. destruct (driverName _) as [driver|e] eqn:Ed; [|by emits_inv Htr].
  apply driverName_cases in Ed.
  apply emits_gbind in Htr as [(e & -> & Hc)|(t1 & [] & t2 & -> & Hc & Htr)];
    apply (connect_emits cfg driver _ _ Ed) in Hc as [Hc Hn].
  - by rewrite Hc, Hn.
  - emits_inv Htr. emits_inv Htr.
    destruct r1 as [pe|]; emits_inv Htr; [emits_inv Htr|]; rewrite opened_app, closes_app, Hn;
      by destruct Hc as (t & -> & Ht).
Qed.

Lemma newDatabase_accounted cfg tr r :
  emits (newDatabase cfg) tr r -> accounted tr (negb (is_ok r)).
Proof.
  unfold newDatabase. intros Htr. destruct (negb _); [by emits_inv Htr|].
  apply emits_gbind in Htr as [(e & -> & Hp)|(t1 & [] & t2 & -> & Hp & Htr)];
    apply lifted_db_counts in Hp as (tr0 & Hp & Ha & Hr & Hh); apply Open_balance in Hp; cbn in Hp.
  - split; [lia|done].
  - unfold hook in Htr. emits_inv Htr. emits_inv Htr.
    split; [|done]. rewrite !app_count_app, !app_count_cons. cbn. lia.
Qed.

Lemma newRedis_accounted cfg tracing tr r :
  emits (newRedis cfg tracing) tr r -> accounted tr (negb (is_ok r)).
Proof.
  unfold newRedis, cache_Open, acall, hook. intros Htr. destruct (negb _); [by emits_inv Htr|].
  apply emits_gbind in Htr as [(e & -> & Hp)|(t1 & [] & t2 & -> & Hp & Htr)].
  - emits_inv Hp. emits_inv Hp. cbn [pbind] in Hp.
    destruct (first_err r0); [|by emits_inv Hp]. emits_inv Hp. by emits_inv Hp.
  - emits_inv Hp. emits_inv Hp. cbn [pbind] in Hp.
    destruct (first_err r1); [emits_inv Hp; by emits_inv Hp|]. emits_inv Hp.
    destruct tracing; [emits_inv Htr; cbn [pbind] in Htr; destruct (first_err r2)|];
      emits_inv Htr; emits_inv Htr; done.
Qed.

Lemma newBus_accounted cfg tr r : emits (newBus cfg) tr r -> accounted tr (negb (is_ok r)).
Proof.
  unfold newBus, eventbus_New, acall, hook. intros Htr.
  apply emits_gbind in Htr as [(e & -> & Hp)|(t1 & bus & t2 & -> & Hp & Htr)].
  - destruct (negb _); [by emits_inv Hp|]. emits_inv Hp. emits_inv Hp.
    unfold accounted. rewrite !app_count_cons. cbn. by destruct (first_err r).
  - destruct (negb _).
    + emits_inv Hp. emits_inv Htr. by emits_inv Htr.
    + emits_inv Hp. emits_inv Hp. destruct (first_err r0) as [e|] eqn:E; [done|].
      simplify_eq. emits_inv Htr. emits_inv Htr. unfold accounted.
      cbn [app]. rewrite !app_count_cons. cbn. by rewrite E.
Qed.

End resources.

(** Whatever the servers answer, the constructors of the database, the Redis
    client and the event bus account for every connection: it is closed before the
    constructor fails, or it is handed to exactly one stop hook; a constructor that
    fails registers none. *)
Lemma constructors_account `{DbDrivers} `{Quote} cfg tracing p tr r :
  p ∈ [newDatabase cfg; newRedis cfg tracing; newBus cfg] ->
  emits p tr r -> accounted tr (negb (is_ok r)).
Proof.
  rewrite !elem_of_cons, elem_of_nil. intros [->|[->|[->|[]]]].
  - apply newDatabase_accounted.
  - apply newRedis_accounted.
  - apply newBus_accounted.
Qed.

(** The default configuration with Redis enabled. *)
Definition sample_redis : Redis := {|
  redis_Enabled := true; redis_Address := "127.0.0.1:6379"; redis_Username := EmptyString;
  redis_Password := EmptyString; redis_DB := 0; redis_DialTimeout := 1000; redis_ReadTimeout := 1000;
  redis_WriteTimeout := 1000;
|}.

Definition sample_config : Config :=
  let c := default_config "development" in
  {| config_Runtime := config_Runtime c; config_App := config_App c; config_HTTP := config_HTTP c;
     config_GRPC := config_GRPC c; config_Log := config_Log c; config_Database := config_Database c;
     config_Redis := sample_redis; config_Health := config_Health c;
     config_RateLimit := config_RateLimit c; config_Observability := config_Observability c;
     config_Swagger := config_Swagger c; config_JWT := config_JWT c; config_Auth := config_Auth c;
     config_Authorization := config_Authorization c; config_Cron := config_Cron c;
     config_Migration := config_Migration c; config_User := config_User c;
     config_Idempotency := config_Idempotency c; config_Outbound := config_Outbound c;
     config_EventBus := config_EventBus c |}.

Lemma constructors_account_witness :
  exists tr, emits (newRedis sample_config true) tr (Err (EWrap "ping redis" (ENew "refused"))) /\
             accounted tr true.
Proof.
  set (fail := {| first_err := Some (ENew "refused"); second_err := None |}).
  set (fine := {| first_err := None; second_err := None |}).
  assert (emits (newRedis sample_config true)
    [(ARedisNew sample_redis, fine); (ARedisPing, fail); (ARedisClose, fine)]
    (Err (EWrap "ping redis" (ENew "refused")))) as Htr by (repeat constructor).
  eexists. split; [exact Htr|].
  refine (@constructors_account sample_drivers (fun s => s) sample_config true _ _ _ _ Htr).
  rewrite !elem_of_cons. auto.
Defined.

(** ** The commands *)

(** C24: cmd/api starts the application only on a configuration that was loaded and
    passed [Validate], and when it is asked for the production profile, in whatever
    spelling and whatever the files and the environment say, only on a locked-down
    one. *)
Theorem api_starts_validated `{ViperLaws} `{MapRange} `{Quote} v c b path profile show :
  issues (fun call => match call with
                      | ARun cfg => loaded path profile cfg /\
                          (str_ToLower (str_TrimSpace profile) = "production" -> locked_down cfg)
                      | _ => True
                      end) (fun _ _ => True) (api_main v c b path profile show).
Proof.
  unfold api_main. destruct show; [by split|].
  destruct (LoadWithProfile path profile) as [cfg|e] eqn:El; [|by split].
  apply LoadWithProfile_loaded in El as Hl. split; [|done]. split; [exact Hl|].
  intros Hp. by apply (loaded_locked path profile).
Qed.

Lemma api_starts_validated_witness :
  issues (fun call => match call with
                      | ARun cfg => locked_down cfg
                      | _ => True
                      end) (fun _ _ => True)
    (@api_main sample_viper key_order (fun s => s) "1" "c" "t" "config/config.yaml" "PRODUCTION" false).
Proof.
  pose proof (@api_starts_validated sample_viper sample_viper_laws key_order (fun s => s) "1" "c" "t"
    "config/config.yaml" "PRODUCTION" false) as Hi.
  revert Hi. unfold api_main. destruct (LoadWithProfile _ _) as [cfg|e].
  - intros [[_ Hp] Hk]. split; [|exact Hk]. apply Hp. vm_compute. reflexivity.
  - intros [_ Hk]. split; [exact I|exact Hk].
Defined.

(** Cmd/migrate exits with 2 for an unknown direction without doing anything, and
    with 1 and no migration for a configuration that does not load; otherwise it
    runs the migration of the loaded configuration, on the database and schema of
    the database settings, and exits with 0 exactly when that returns nil. *)
Lemma migrate_main_exact `{ViperLaws} `{MapRange} `{Quote} abs path profile direction steps tr code :
  emits (migrate_main abs path profile direction steps) tr code ->
  if negb (bool_decide (direction = "up")) && negb (bool_decide (direction = "down"))
  then code = 2 /\ tr.*1 = [AStderr "direction must be up or down"]
  else
    match LoadWithProfile path profile with
    | Err e => code = 1 /\ tr.*1 = [AStderr ("migration failed: " +:+ error_text e)]
    | Ok cfg =>
        loaded path profile cfg /\
        exists trm err, emits (Run abs (config_Migration cfg) direction steps) trm err /\
          (code = 0 <-> err = None) /\
          tr.*1 = (AMig <$> trm.*1) ++
                  match err with
                  | Some e => [AStderr ("migration failed: " +:+ error_text e)]
                  | None => []
                  end
    end.
Proof.
  unfold migrate_main. intros Htr. destruct (_ && _).
  { emits_inv Htr. by emits_inv Htr. }
  apply emits_bind in Htr as (t1 & err & t2 & -> & Hr & Htr).
  destruct (LoadWithProfile path profile) as [cfg|e] eqn:El.
  - split; [by apply LoadWithProfile_loaded|].
    apply emits_plift in Hr as (trm & Hr & Ec & _). exists trm, err. split; [done|].
    rewrite fmap_app, Ec. destruct err as [e|]; emits_inv Htr; [emits_inv Htr|]; by split.
  - emits_inv Hr. emits_inv Htr. by emits_inv Htr.
Qed.

Lemma migrate_main_exact_witness :
  let p := @migrate_main sample_viper key_order (fun s => s) (fun s => Ok s) "c.yaml" "x" "sideways" 0 in
  emits p [(AStderr "direction must be up or down", {| first_err := None; second_err := None |})] 2 /\
  ([AStderr "direction must be up or down"] : list app_call) = [AStderr "direction must be up or down"].
Proof.
  intros p.
  assert (emits p [(AStderr "direction must be up or down",
                    {| first_err := None; second_err := None |})] 2) as Htr by (repeat constructor).
  split; [exact Htr|].
  pose proof (@migrate_main_exact sample_viper sample_viper_laws key_order (fun s => s) (fun s => Ok s)
    "c.yaml" "x" "sideways" 0 _ _ Htr) as H. cbv iota in H. exact (proj2 H).
Defined.
