(* ===== verification/Clients.v ===== *)
(** * Outbound clients

    internal/grpcclient/client.go, internal/outbound: which clients may be built
    from a configuration, what they send, and their retry loops.  A call of the
    network, a wait and a call of the circuit breaker are effects; reading the TLS
    material is a parameter. *)

From S2P Require Import Prelude GoText GoTime GoURL Redis PathMatch Config GrpcRegistry.
From Stdlib Require Import SpecFloat.

Local Open Scope Z_scope.
Local Open Scope go_scope.

(** ** Building a gRPC client *)

Record TLSConfig : Type := {
  tc_Enabled : bool; tc_ServerName : string; tc_CAFile : string; tc_CertFile : string;
  tc_KeyFile : string; tc_AllowInsecureToken : bool;
}.

Record ClientConfig : Type := {
  cc_Target : string; cc_Timeout : Z; cc_Token : string; cc_PSK : string; cc_TLS : TLSConfig;
  cc_Name : string; cc_Retry : Retry; cc_Breaker : Breaker; cc_Metrics : bool;
}.

(** [read_ca file]: [os.ReadFile] and whether [AppendCertsFromPEM] took a
    certificate; [load_pair cert key]: [tls.LoadX509KeyPair]. *)
Record TLSFiles : Type := {
  read_ca : string -> res bool;
  load_pair : string -> string -> res unit;
}.

Inductive credentials : Type := Insecure | TLS (server : string).

Definition transportCredentials (files : TLSFiles) (cfg : TLSConfig) : res credentials :=
  if negb (tc_Enabled cfg) then Ok Insecure
  else
    try _ := (if empty (tc_CAFile cfg) then Ok tt
              else match read_ca files (tc_CAFile cfg) with
                   | Err e => Err (EWrap "read grpc CA" e)
                   | Ok ok => fail_if negb ok with "parse grpc CA"; Ok tt
                   end) in
    try _ := (if empty (tc_CertFile cfg) && empty (tc_KeyFile cfg) then Ok tt
              else
                fail_if empty (tc_CertFile cfg) || empty (tc_KeyFile cfg)
                  with "grpc client certificate and key must be configured together";
                match load_pair files (tc_CertFile cfg) (tc_KeyFile cfg) with
                | Err e => Err (EWrap "load grpc client certificate" e)
                | Ok _ => Ok tt
                end) in
    Ok (TLS (tc_ServerName cfg)).

(** The unary interceptors of a connection, outermost first. *)
Inductive client_interceptor : Type :=
  | ITimeout (timeout : Z)
  | IMetadata (token psk : string)
  | IMetrics (name : string)
  | IBreaker (b : Breaker)
  | IRetry (r : Retry).

(** [Dial]: the credentials and interceptors [grpc.NewClient] is given. *)
Definition Dial (files : TLSFiles) (cfg : ClientConfig) :
    res (credentials * list client_interceptor) :=
  fail_if empty (cc_Target cfg) with "grpc client target is required";
  fail_if cc_Timeout cfg <=? 0 with "grpc client timeout must be positive";
  try transport := transportCredentials files (cc_TLS cfg) in
  fail_if negb (empty (cc_Token cfg)) && negb (tc_Enabled (cc_TLS cfg)) &&
          negb (tc_AllowInsecureToken (cc_TLS cfg))
    with "refusing to send grpc bearer token without TLS";
  fail_if negb (empty (cc_PSK cfg)) && negb (empty (cc_Token cfg))
    with "grpc client bearer token and PSK are mutually exclusive";
  fail_if negb (empty (cc_PSK cfg)) && negb (tc_Enabled (cc_TLS cfg)) &&
          negb (tc_AllowInsecureToken (cc_TLS cfg))
    with "refusing to send grpc PSK without TLS";
  Ok (transport,
      [ITimeout (cc_Timeout cfg); IMetadata (cc_Token cfg) (cc_PSK cfg)] ++
      (if cc_Metrics cfg then [IMetrics (cc_Name cfg)] else []) ++
      (if breaker_Enabled (cc_Breaker cfg) then [IBreaker (cc_Breaker cfg)] else []) ++
      (if 1 <? retry_MaxAttempts (cc_Retry cfg) then [IRetry (cc_Retry cfg)] else [])).

(** [NewRegistry]: the client configuration of an upstream. *)
Definition client_config (metrics : bool) (name : string) (up : GRPCUpstream) : ClientConfig :=
  let auth := grpcupstream_Auth up in
  let tls := grpcupstream_TLS up in
  {| cc_Name := name; cc_Target := grpcupstream_Target up; cc_Timeout := grpcupstream_Timeout up;
     cc_Retry := grpcupstream_Retry up; cc_Breaker := grpcupstream_Breaker up;
     cc_Metrics := metrics;
     cc_TLS := {| tc_Enabled := clienttls_Enabled tls; tc_ServerName := clienttls_ServerName tls;
                  tc_CAFile := clienttls_CAFile tls; tc_CertFile := clienttls_CertFile tls;
                  tc_KeyFile := clienttls_KeyFile tls; tc_AllowInsecureToken := false |};
     cc_Token := if bool_decide (clientauth_Type auth = "bearer") then clientauth_Token auth
                 else EmptyString;
     cc_PSK := if bool_decide (clientauth_Type auth = "psk") then clientauth_Token auth
               else EmptyString |}.

(** The context of an outgoing call: its deadline, counted from now, the metadata it
    carries, and the values under the keys of the request id and of the idempotency key;
    the latter is what [idempotency.FromContext] finds. *)
Record out_ctx : Type := {
  oc_deadline : option Z;
  oc_metadata : list (string * string);
  oc_request_id : option string;
  oc_key : option string;
}.

(** [WithRequestID], [WithIdempotencyKey], [context.WithTimeout] and
    [metadata.AppendToOutgoingContext]. *)
Definition WithRequestID (ctx : out_ctx) (id : string) : out_ctx :=
  {| oc_deadline := oc_deadline ctx; oc_metadata := oc_metadata ctx; oc_request_id := Some id;
     oc_key := oc_key ctx |}.
Definition WithIdempotencyKey (ctx : out_ctx) (key : string) : out_ctx :=
  {| oc_deadline := oc_deadline ctx; oc_metadata := oc_metadata ctx;
     oc_request_id := oc_request_id ctx; oc_key := Some key |}.
Definition with_timeout (ctx : out_ctx) (timeout : Z) : out_ctx :=
  {| oc_deadline := Some timeout; oc_metadata := oc_metadata ctx;
     oc_request_id := oc_request_id ctx; oc_key := oc_key ctx |}.
Definition append_metadata (ctx : out_ctx) (pairs : list (string * string)) : out_ctx :=
  {| oc_deadline := oc_deadline ctx; oc_metadata := oc_metadata ctx ++ pairs;
     oc_request_id := oc_request_id ctx; oc_key := oc_key ctx |}.

(** [requestid.FromContext]: an empty id counts as none. *)
Definition requestid_FromContext (value : option string) : option string :=
  match value with Some id => if empty id then None else Some id | None => None end.
Definition RequestIDFromContext (ctx : out_ctx) : option string :=
  requestid_FromContext (oc_request_id ctx).

(** ** The gRPC retry loop *)

(** What a circuit breaker is told of a call: whether the function it runs returned an
    error, and what the configured [IsExcluded] says of it.  What follows from the two is
    the library's. *)
Record breaker_report : Type := { br_failed : bool; br_excluded : bool }.

(** Effects of a client: one attempt with its context, a wait that a cancelled context
    ends, the two sides of the circuit breaker (asking it before a call and telling it
    how the call went), and counting a call under its client and code. *)
Inductive client_effect : Type :=
  | EAttempt (ctx : out_ctx)
  | EWait (delay : Z)
  | EAllow
  | EReport (report : breaker_report)
  | EObserve (name : string) (code : option grpc_code).

(** [EDone] is the error value of an attempt or of [ctx.Err()], nil when absent. *)
Abbreviation client A := (prog client_effect (option grpc_status) A).

(** [grpc.UnaryInvoker], with the context it is called with. *)
Abbreviation invoker := (out_ctx -> client (option grpc_status)).

Definition attempt_call : invoker := fun ctx => Do (EAttempt ctx) Ret.

(** [status.Code(err)] is Unavailable or ResourceExhausted. *)
Definition retryable (err : option grpc_status) : bool :=
  match err with
  | Some s => bool_decide (st_code s = GUnavailable) || bool_decide (st_code s = ResourceExhausted)
  | None => false
  end.

(** The loop ignores the error of [path.Match], as [MatchesAny] does. *)
Definition retryGRPCMethod (key : option string) (method : string) (patterns : list string) : bool :=
  match key with Some _ => true | None => MatchesAny method patterns end.

Definition backoff (cfg : Retry) (attempt : Z) : Z :=
  let delay := wrap64 (Z.shiftl (retry_InitialBackoff cfg) (attempt - 1)) in
  if retry_MaxBackoff cfg <? delay then retry_MaxBackoff cfg else delay.

Definition waitRetry (cfg : Retry) (attempt : Z) : client (option grpc_status) :=
  Do (EWait (backoff cfg attempt)) Ret.

(** The [for] loop with [n] attempts left. *)
Fixpoint retry_loop (next : client (option grpc_status)) (n : nat) (cfg : Retry) (attempt : Z)
    (err : option grpc_status) : client (option grpc_status) :=
  match n with
  | O => Ret err
  | S n' =>
      let* err := next in
      if negb (retryable err) then Ret err
      else if attempt <? retry_MaxAttempts cfg then
        let* waitErr := waitRetry cfg attempt in
        match waitErr with
        | Some e => Ret (Some e)
        | None => retry_loop next n' cfg (attempt + 1) err
        end
      else retry_loop next n' cfg (attempt + 1) err
  end.

Definition retryInterceptor (cfg : Retry) (method : string) (next : invoker) : invoker := fun ctx =>
  if negb (retryGRPCMethod (oc_key ctx) method (retry_Methods cfg)) then next ctx
  else retry_loop (next ctx) (Z.to_nat (retry_MaxAttempts cfg)) cfg 1 None.

(** ** The circuit breaker, the timeout and the chain of a connection *)

(** [status.Code(err)]; nil is OK. *)
Definition code_of (err : option grpc_status) : option grpc_code := st_code <$> err.

(** [IsExcluded] of [breakerInterceptor]. *)
Definition grpc_excluded (err : option grpc_status) : bool :=
  negb (bool_decide (code_of err = Some GUnavailable)) &&
  negb (bool_decide (code_of err = Some ResourceExhausted)) &&
  negb (bool_decide (code_of err = Some DeadlineExceeded)).

Definition grpc_report (err : option grpc_status) : breaker_report :=
  {| br_failed := match err with Some _ => true | None => false end; br_excluded := grpc_excluded err |}.

(** [breakerInterceptor(name, cfg)] around the rest of the chain. *)
Definition breakerInterceptor (next : invoker) : invoker := fun ctx =>
  let* refused := Do EAllow Ret in
  match refused with
  | Some e => Ret (Some e)
  | None =>
      let* err := next ctx in
      let* _ := Do (EReport (grpc_report err)) Ret in
      Ret err
  end.

(** [metricsInterceptor(name, metrics)], with the metrics enabled or not. *)
Definition client_metricsInterceptor (enabled : bool) (name : string) (next : invoker) : invoker := fun ctx =>
  let* err := next ctx in
  if enabled then let* _ := Do (EObserve name (code_of err)) Ret in Ret err else Ret err.

(** [timeoutInterceptor(timeout)]: a call that has a deadline keeps it. *)
Definition timeoutInterceptor (timeout : Z) (next : invoker) : invoker := fun ctx =>
  match oc_deadline ctx with
  | Some _ => next ctx
  | None => next (with_timeout ctx timeout)
  end.

(** [metadataInterceptor(token, psk)]: the pairs it appends, and the call. *)
Definition metadata_pairs (token psk : string) (ctx : out_ctx) : list (string * string) :=
  (if negb (empty token) then [("authorization", "Bearer " +:+ token)]
   else if negb (empty psk) then [("authorization", "PSK " +:+ psk)] else []) ++
  match RequestIDFromContext ctx with Some id => [("x-request-id", id)] | None => [] end ++
  match oc_key ctx with Some k => [("idempotency-key", k)] | None => [] end.

Definition metadataInterceptor (token psk : string) (next : invoker) : invoker := fun ctx =>
  let pairs := metadata_pairs token psk ctx in
  next (match pairs with [] => ctx | _ => append_metadata ctx pairs end).

(** A unary call through the interceptors of a connection, outermost first; [enabled]
    is whether the metrics are. *)
Fixpoint through (enabled : bool) (l : list client_interceptor) (method : string) : invoker :=
  match l with
  | [] => attempt_call
  | ITimeout t :: l' => timeoutInterceptor t (through enabled l' method)
  | IMetadata token psk :: l' => metadataInterceptor token psk (through enabled l' method)
  | IMetrics name :: l' => client_metricsInterceptor enabled name (through enabled l' method)
  | IBreaker _ :: l' => breakerInterceptor (through enabled l' method)
  | IRetry cfg :: l' => retryInterceptor cfg method (through enabled l' method)
  end.

(** ** The outbound HTTP client *)

(** A request of the client: method, target and headers; the body is the caller's. *)
Record http_call : Type := {
  hc_Method : string; hc_Target : string; hc_Headers : gmap string string;
}.

(** What [client.Do] returns: a response with a status, or an error. *)
Definition http_reply : Type := Z + goerr.

(** Sending a request, draining and closing the body of a response that is not
    returned, waiting, and the two sides of the circuit breaker: asking it before a
    call and telling it how the call went. *)
Inductive http_effect : Type :=
  | HDo (request : http_call)
  | HDiscard
  | HWait (delay : Z)
  | HAllow
  | HReport (report : breaker_report).

(** A wait answers with the error of a cancelled context and the breaker with its
    refusal, [inl 0] for none. *)
Abbreviation http_client A := (prog http_effect http_reply A).

Definition retryableMethod (key : option string) (method : string) : bool :=
  if bool_decide (method = "GET") || bool_decide (method = "HEAD") ||
     bool_decide (method = "OPTIONS") || bool_decide (method = "PUT") ||
     bool_decide (method = "DELETE") then true
  else match key with Some _ => true | None => false end.

Definition retryableHTTPStatus (status : Z) : bool :=
  (status =? 429) || (status =? 502) || (status =? 503) || (status =? 504).

Definition applyHTTPAuth (headers : gmap string string) (auth : ClientAuth) : gmap string string :=
  if bool_decide (clientauth_Type auth = "bearer") then
    <["Authorization" := "Bearer " +:+ clientauth_Token auth]> headers
  else if bool_decide (clientauth_Type auth = "psk") then
    <["Authorization" := "PSK " +:+ clientauth_Token auth]> headers
  else headers.

(** The request of one attempt: a copy of the caller's headers, the content type
    of a body that has none, and the credentials. *)
Definition outbound_request (method target body : string) (headers : gmap string string)
    (auth : ClientAuth) : http_call :=
  let h := if negb (empty body) && empty (default EmptyString (headers !! "Content-Type"))
           then <["Content-Type" := "application/json"]> headers else headers in
  {| hc_Method := method; hc_Target := target; hc_Headers := applyHTTPAuth h auth |}.

(** [time.Duration(float64(initial) * math.Pow(2, float64(attempt-1)))], capped. *)
Definition http_backoff (retry : Retry) (attempt : Z) : Z :=
  let delay := int_of_float (SFmul 53 1024 (float_of_int (retry_InitialBackoff retry))
                               (float_of_int (2 ^ (attempt - 1)))) in
  if retry_MaxBackoff retry <? delay then retry_MaxBackoff retry else delay.

Definition waitBackoff (retry : Retry) (attempt : Z) : http_client (option goerr) :=
  Do (HWait (http_backoff retry attempt)) (fun r =>
    Ret (match r with inr e => Some e | inl _ => None end)).

Definition maxAttempts (retry : Retry) (key : option string) (method : string) : Z :=
  if retryableMethod key method then retry_MaxAttempts retry else 1.

(** The [for] loop of [doWithRetry] with [n] attempts left; [created] is the error
    of [http.NewRequestWithContext], which does not depend on the attempt. *)
Fixpoint http_attempts (n : nat) (retry : Retry) (max attempt : Z) (created : option goerr)
    (request : http_call) : http_client (res Z) :=
  match n with
  | O => Ret (Err (ENew "outbound HTTP attempts exhausted"))
  | S n' =>
      match created with
      | Some e => Ret (Err (EWrap "create outbound HTTP request" e))
      | None =>
          let* r := Do (HDo request) Ret in
          let again :=
            if attempt <? max then
              let* err := waitBackoff retry attempt in
              match err with
              | Some e => Ret (Err e)
              | None => http_attempts n' retry max (attempt + 1) created request
              end
            else http_attempts n' retry max (attempt + 1) created request in
          match r with
          | inl status =>
              if negb (retryableHTTPStatus status) || (attempt =? max) then Ret (Ok status)
              else let* _ := Do HDiscard Ret in again
          | inr e =>
              if attempt =? max then Ret (Err (EWrap "call outbound HTTP service" e)) else again
          end
      end
  end.

(** The target of a request: the path has to be a relative reference. *)
Definition request_target (base : URL) (requestPath : string) : res string :=
  match url_Parse requestPath with
  | Err _ => Err (ENew "outbound HTTP path must be relative")
  | Ok reference =>
      fail_if url_IsAbs reference || negb (str_empty (url_Host reference))
        with "outbound HTTP path must be relative";
      Ok (url_String (ResolveReference base reference))
  end.

(** [c.doWithRetry(ctx, method, requestPath, body, headers)]; [create] is the error of
    [http.NewRequestWithContext] for a method and target. *)
Definition doWithRetry (create : string -> string -> option goerr) (base : URL) (up : HTTPUpstream)
    (key : option string) (method requestPath body : string) (headers : gmap string string) :
    http_client (res Z) :=
  match request_target base requestPath with
  | Err e => Ret (Err e)
  | Ok target =>
      let max := maxAttempts (httpupstream_Retry up) key method in
      http_attempts (Z.to_nat max) (httpupstream_Retry up) max 1 (create method target)
        (outbound_request method target body headers (httpupstream_Auth up))
  end.
