(* ===== verification/ClientFacts.v ===== *)
(** * What the outbound clients guarantee

    The retry loops make a bounded number of attempts, stop at the first answer
    that is not to be retried or when the context ends, and wait in between as long
    as the policy says; an accepted configuration sends credentials over TLS only. *)

From S2P Require Import Prelude GoText GoTime GoURL Redis PathMatch Config ConfigFacts GrpcRegistry Clients.

Local Open Scope Z_scope.
Local Open Scope go_scope.

(** ** Scripted upstreams *)

(** An upstream that answers attempt number [k] (from 0) with [f k]; the wait after it
    ends with [w k], the error of a context that was cancelled or ran out by then, or
    nil.  The state counts attempts and keeps the waits. *)
Definition scripted (f w : nat -> option grpc_status) (e : client_effect) (s : nat * list Z) :
    option grpc_status * (nat * list Z) :=
  match e with
  | EAttempt _ => (f s.1, (S s.1, s.2))
  | EWait delay => (w (pred s.1), (s.1, s.2 ++ [delay]))
  | _ => (None, s)
  end.

Definition scripted_http (f : nat -> http_reply) (w : nat -> option goerr) (e : http_effect) (s : nat * list Z) :
    http_reply * (nat * list Z) :=
  match e with
  | HDo _ => (f s.1, (S s.1, s.2))
  | HWait delay => (match w (pred s.1) with Some e => inr e | None => inl 0 end, (s.1, s.2 ++ [delay]))
  | _ => (inl 0, s)
  end.

(** How a loop of at most [n] attempts ends after [m] of them, the first being number
    [k]: all but the last asked for another one, and the waits after them were not cut
    short.  The last did not ask for another, or none was left; or ([cut]) it did, and the
    wait after it was cut short. *)
Definition retry_end {W} (again : nat -> bool) (w : nat -> option W) (n k m : nat) (cut : bool) : Prop :=
  (1 <= m <= n)%nat /\
  (forall j, (j < m - 1)%nat -> again (k + j)%nat = true /\ w (k + j)%nat = None) /\
  if cut then (m < n)%nat /\ again (k + m - 1)%nat = true /\ is_Some (w (k + m - 1)%nat)
  else (m < n)%nat -> again (k + m - 1)%nat = false.

Section retry_end.
Context {W : Type} (again : nat -> bool) (w : nat -> option W).

Lemma retry_end_last k : retry_end again w 1 k 1 false.
Proof. unfold retry_end. split; [lia|]. split; intros; exfalso; lia. Qed.

Lemma retry_end_stop n k : (0 < n)%nat -> again k = false -> retry_end again w n k 1 false.
Proof. intros Hn Ha. split; [lia|]. split; [intros; exfalso; lia|]. intros _. by rewrite Nat.add_sub. Qed.

Lemma retry_end_cut n k e : (1 < n)%nat -> again k = true -> w k = Some e -> retry_end again w n k 1 true.
Proof.
  intros Hn Ha Hw. split; [lia|]. split; [intros; exfalso; lia|]. rewrite Nat.add_sub, Hw. eauto.
Qed.

Lemma retry_end_more n k m c :
  again k = true -> w k = None -> retry_end again w n (S k) m c -> retry_end again w (S n) k (S m) c.
Proof.
  intros Ha Hw (Hb & Hall & Hlast). split; [lia|]. split.
  - intros [|j] Hj; [by rewrite Nat.add_0_r|]. rewrite <- Nat.add_succ_comm. apply Hall. lia.
  - replace (k + S m - 1)%nat with (S k + m - 1)%nat by lia.
    destruct c; [|intros; apply Hlast; lia]. destruct Hlast. split; [lia|done].
Qed.

End retry_end.

(** The waits between [m] attempts. *)
Definition waits (delay : Z -> Z) (m : nat) (attempt : Z) : list Z :=
  (fun j => delay (attempt + Z.of_nat j)) <$> seq 0 (m - 1).

Lemma waits_S delay m attempt : (1 <= m)%nat ->
  waits delay (S m) attempt = delay attempt :: waits delay m (attempt + 1).
Proof.
  intros Hm. unfold waits. destruct m as [|m]; [lia|]. cbn [Nat.sub]. rewrite !Nat.sub_0_r.
  cbn [seq fmap list_fmap]. f_equal; [f_equal; lia|].
  rewrite <- seq_shift. rewrite <- list_fmap_compose. apply list_fmap_ext.
  intros ? j _. cbn. f_equal. lia.
Qed.

Lemma retry_loop_run f w ctx n cfg k ws attempt err :
  (0 < n)%nat -> attempt + Z.of_nat n = retry_MaxAttempts cfg + 1 ->
  exists m c, retry_end (fun j => retryable (f j)) w n k m c /\
  prun (scripted f w) (retry_loop (attempt_call ctx) n cfg attempt err) (k, ws) =
    (if c then w (k + m - 1)%nat else f (k + m - 1)%nat,
     ((k + m)%nat, ws ++ waits (backoff cfg) (if c then S m else m) attempt)).
Proof.
  revert k ws attempt err. induction n as [|n IH]; intros k ws attempt err Hn Ha; [lia|].
  cbn [retry_loop attempt_call pbind prun scripted fst snd].
  assert (forall r : option grpc_status, (r, (S k, ws)) =
    (r, ((k + 1)%nat, ws ++ waits (backoff cfg) 1 attempt))) as Hone.
  { intros r. cbn. rewrite app_nil_r. repeat f_equal. lia. }
  destruct (retryable (f k)) eqn:E; cbn [negb].
  2: { exists 1%nat, false. split; [apply retry_end_stop; [lia|done]|]. cbn [prun].
       by rewrite Hone, Nat.add_sub. }
  destruct (Nat.eqb_spec n 0) as [->|Hn0].
  { rewrite (proj2 (Z.ltb_ge attempt (retry_MaxAttempts cfg))) by lia.
    exists 1%nat, false. split; [apply retry_end_last|]. cbn [retry_loop prun]. by rewrite Hone, Nat.add_sub. }
  rewrite (proj2 (Z.ltb_lt attempt (retry_MaxAttempts cfg))) by lia.
  cbn [waitRetry pbind prun scripted fst snd pred]. destruct (w k) as [we|] eqn:Ew.
  { exists 1%nat, true. split; [eapply retry_end_cut; [lia|done..]|]. cbn [prun].
    rewrite Nat.add_sub, Ew, waits_S by lia. by replace (k + 1)%nat with (S k) by lia. }
  destruct (IH (S k) (ws ++ [backoff cfg attempt]) (attempt + 1) (f k)) as (m & c & Hend & ->); [lia..|].
  exists (S m), c. split; [by apply retry_end_more|]. pose proof (proj1 Hend) as Hb.
  replace (k + S m - 1)%nat with (S k + m - 1)%nat by lia.
  replace (k + S m)%nat with (S k + m)%nat by lia. rewrite <- app_assoc.
  destruct c; by rewrite (waits_S _ _ attempt) by lia.
Qed.

(** The delay without overflow. *)
Lemma backoff_exact cfg attempt :
  0 < retry_InitialBackoff cfg < 2 ^ 58 -> 1 <= attempt <= 5 ->
  backoff cfg attempt = Z.min (retry_InitialBackoff cfg * 2 ^ (attempt - 1)) (retry_MaxBackoff cfg).
Proof.
  intros Hi Ha. unfold backoff. rewrite Z.shiftl_mul_pow2 by lia.
  assert (2 ^ (attempt - 1) <= 2 ^ 4) as Hp by (apply Z.pow_le_mono_r; lia).
  assert (0 < 2 ^ (attempt - 1)) by (apply Z.pow_pos_nonneg; lia).
  rewrite wrap64_id by (unfold in_int64, min_int64, max_int64; nia).
  destruct (Z.ltb_spec (retry_MaxBackoff cfg) (retry_InitialBackoff cfg * 2 ^ (attempt - 1))); lia.
Qed.

Lemma waits_ext d1 d2 m attempt :
  (forall j, (j < m - 1)%nat -> d1 (attempt + Z.of_nat j) = d2 (attempt + Z.of_nat j)) ->
  waits d1 m attempt = waits d2 m attempt.
Proof.
  intros He. unfold waits. apply list_fmap_ext. intros i j Hj.
  apply lookup_seq in Hj as [-> Hlt]. by apply He.
Qed.

(** C35: with a retry policy that validation accepts (and an initial backoff under
    2^58 ns, nine years), a call that may be retried is attempted until it
    succeeds or fails for another reason than unavailability or exhaustion, at
    most [MaxAttempts] times, or until its context ends during a wait; the result is that
    of the last attempt, or the error of the context in the last case, and the wait
    after attempt j is the initial backoff doubled j-1 times, capped at the
    maximum.  Any other call is attempted once. *)
Theorem grpc_retry_exact f w cfg ctx method :
  1 <= retry_MaxAttempts cfg <= 5 -> 0 < retry_InitialBackoff cfg < 2 ^ 58 ->
  if retryGRPCMethod (oc_key ctx) method (retry_Methods cfg) then
    exists (m : nat) (cut : bool),
      retry_end (fun j => retryable (f j)) w (Z.to_nat (retry_MaxAttempts cfg)) 0 m cut /\
      prun (scripted f w) (retryInterceptor cfg method attempt_call ctx) (O, []) =
        (if cut then w (m - 1)%nat else f (m - 1)%nat,
         (m, waits (fun j => Z.min (retry_InitialBackoff cfg * 2 ^ (j - 1)) (retry_MaxBackoff cfg))
               (if cut then S m else m) 1))
  else prun (scripted f w) (retryInterceptor cfg method attempt_call ctx) (O, []) = (f O, (1%nat, [])).
Proof.
  intros Hm Hi. unfold retryInterceptor. destruct (retryGRPCMethod _ _ _); cbn [negb]; [|done].
  destruct (retry_loop_run f w ctx (Z.to_nat (retry_MaxAttempts cfg)) cfg O [] 1 None)
    as (m & c & Hend & Hrun); [lia..|].
  exists m, c. split; [done|]. rewrite Hrun. cbn [Nat.add app]. f_equal. f_equal. apply waits_ext.
  destruct Hend as (Hb & _ & Hc). intros j Hj. apply backoff_exact; [lia|]. destruct c; lia.
Qed.

(** ** HTTP *)

Definition http_again (r : http_reply) : bool :=
  match r with inl status => retryableHTTPStatus status | inr _ => true end.

(** What the caller gets from the last attempt. *)
Definition http_final (r : http_reply) : res Z :=
  match r with
  | inl status => Ok status
  | inr e => Err (EWrap "call outbound HTTP service" e)
  end.

Lemma http_attempts_run f w n retry max request k ws attempt :
  (0 < n)%nat -> attempt + Z.of_nat n = max + 1 ->
  exists m c, retry_end (fun j => http_again (f j)) w n k m c /\
  prun (scripted_http f w) (http_attempts n retry max attempt None request) (k, ws) =
    (if c then from_option Err (Ok 0) (w (k + m - 1)%nat) else http_final (f (k + m - 1)%nat),
     ((k + m)%nat, ws ++ waits (http_backoff retry) (if c then S m else m) attempt)).
Proof.
  revert k ws attempt. induction n as [|n IH]; intros k ws attempt Hn Ha; [lia|].
  assert (forall r : res Z, (r, (S k, ws)) =
    (r, ((k + 1)%nat, ws ++ waits (http_backoff retry) 1 attempt))) as Hone.
  { intros r. cbn. rewrite app_nil_r. repeat f_equal. lia. }
  cbn [http_attempts pbind prun scripted_http fst snd].
  destruct (Nat.eqb_spec n 0) as [->|Hn0].
  { rewrite (proj2 (Z.eqb_eq attempt max)) by lia. exists 1%nat, false. split; [apply retry_end_last|].
    rewrite Nat.add_sub. destruct (f k); cbn [http_final]; [rewrite orb_true_r|]; apply Hone. }
  rewrite (proj2 (Z.eqb_neq attempt max)) by lia. rewrite (proj2 (Z.ltb_lt attempt max)) by lia.
  destruct (http_again (f k)) eqn:E.
  2: { destruct (f k) as [st|e] eqn:Ef; [|done]. cbn [http_again] in E. rewrite E. cbn [negb orb prun].
       exists 1%nat, false. split; [apply retry_end_stop; [lia|by rewrite Ef]|]. rewrite Hone, Nat.add_sub, Ef. done. }
  set (rest := pbind (waitBackoff retry attempt) _).
  assert (exists m c, retry_end (fun j => http_again (f j)) w (S n) k m c /\
    prun (scripted_http f w) rest (S k, ws) =
      (if c then from_option Err (Ok 0) (w (k + m - 1)%nat) else http_final (f (k + m - 1)%nat),
       ((k + m)%nat, ws ++ waits (http_backoff retry) (if c then S m else m) attempt))) as (m & c & Hend & Hrun).
  { unfold rest. cbn [waitBackoff pbind prun scripted_http fst snd pred]. destruct (w k) as [we|] eqn:Ew.
    { exists 1%nat, true. split; [eapply retry_end_cut; [lia|done..]|]. cbn [prun].
      rewrite Nat.add_sub, Ew, waits_S by lia. by replace (k + 1)%nat with (S k) by lia. }
    destruct (IH (S k) (ws ++ [http_backoff retry attempt]) (attempt + 1)) as (m & c & Hend & ->); [lia..|].
    exists (S m), c. split; [by apply retry_end_more|]. pose proof (proj1 Hend) as Hb.
    replace (k + S m - 1)%nat with (S k + m - 1)%nat by lia.
    replace (k + S m)%nat with (S k + m)%nat by lia. rewrite <- app_assoc.
    destruct c; by rewrite (waits_S _ _ attempt) by lia. }
  exists m, c. split; [done|]. rewrite <- Hrun.
  destruct (f k) as [st|e] eqn:Ef; cbn [http_again] in E; [rewrite E; cbn [negb orb]|]; done.
Qed.

Lemma http_backoff_capped retry attempt : http_backoff retry attempt <= retry_MaxBackoff retry.
Proof. unfold http_backoff. case_match eqn:E; [lia|]. by apply Z.ltb_ge in E. Qed.

(** An outbound HTTP request is sent until its answer is not one to retry or its context
    ends during a wait, at
    most [MaxAttempts] times when its method is idempotent or it carries an
    idempotency key and once otherwise; the answer of the last attempt is returned
    (an exhausted retryable status as a response, not as an error), or the error of the
    context, and no wait in between is longer than the maximum backoff. *)
Lemma http_retry_exact f w create base up key method path target body headers :
  request_target base path = Ok target -> create method target = None ->
  1 <= retry_MaxAttempts (httpupstream_Retry up) <= 5 ->
  let max := if retryableMethod key method then retry_MaxAttempts (httpupstream_Retry up) else 1 in
  exists (m : nat) (cut : bool) (ws : list Z),
    retry_end (fun j => http_again (f j)) w (Z.to_nat max) 0 m cut /\
    prun (scripted_http f w) (doWithRetry create base up key method path body headers) (O, []) =
      (if cut then from_option Err (Ok 0) (w (m - 1)%nat) else http_final (f (m - 1)%nat), (m, ws)) /\
    length ws = (if cut then m else m - 1)%nat /\
    Forall (fun w => w <= retry_MaxBackoff (httpupstream_Retry up)) ws.
Proof.
  intros Ht Hc Hm max. unfold doWithRetry, maxAttempts. rewrite Ht, Hc. fold max.
  assert (1 <= max <= 5) as Hmax by (unfold max; destruct (retryableMethod _ _); lia).
  destruct (http_attempts_run f w (Z.to_nat max) (httpupstream_Retry up) max
    (outbound_request method target body headers (httpupstream_Auth up)) O [] 1)
    as (m & c & Hend & Hrun); [lia..|].
  eexists m, c, _. split_and!; [done|exact Hrun|..]; cbn [app].
  - unfold waits. rewrite length_fmap, length_seq. destruct c; lia.
  - unfold waits. apply Forall_fmap, Forall_true. intros j. apply http_backoff_capped.
Qed.

(** ** Credentials *)

Section dial.
Context `{MapRangeLaws} `{Quote}.

(** A client whose configuration sends credentials sends them over TLS only. *)
Lemma client_credentials c metrics name up :
  Validate c = Ok tt -> outbound_GRPC (config_Outbound c) !! name = Some up ->
  let cfg := client_config metrics name up in
  cc_Target cfg <> EmptyString /\ 0 < cc_Timeout cfg /\
  (cc_Token cfg = EmptyString \/ cc_PSK cfg = EmptyString) /\
  (cc_Token cfg <> EmptyString \/ cc_PSK cfg <> EmptyString -> tc_Enabled (cc_TLS cfg) = true).
Proof.
  intros HV Hup cfg. apply then_ok in HV as [_ HV]. apply then_ok in HV as [_ HC].
  unfold validate_clients in HC. cbv zeta in HC. peel HC.
  rewrite each_map_ok in HC. specialize (HC _ _ Hup). unfold check_grpc_upstream in HC.
  apply fail_if_ok in HC as [Hg HP]. apply orb_false_iff in Hg as [Ht%bool_decide_eq_false Hd%Z.leb_gt].
  apply client_policy_ok in HP as (_ & _ & Hcred). cbn [cfg client_config cc_Target cc_Timeout
    cc_Token cc_PSK cc_TLS tc_Enabled].
  split; [exact Ht|]. split; [exact Hd|]. split.
  - destruct (decide (clientauth_Type (grpcupstream_Auth up) = "bearer")) as [E|E].
    + right. by rewrite bool_decide_eq_false_2 by congruence.
    + left. by rewrite bool_decide_eq_false_2.
  - intros Hsend. apply Hcred. intros E. rewrite E in Hsend.
    rewrite !bool_decide_eq_false_2 in Hsend by done. naive_solver.
Qed.

Lemma transport_tls files cfg t :
  transportCredentials files cfg = Ok t -> tc_Enabled cfg = true -> t = TLS (tc_ServerName cfg).
Proof.
  unfold transportCredentials. intros Ht He. rewrite He in Ht. cbn [negb] in Ht.
  apply res_bind_ok_inv in Ht as (u & _ & Ht). apply res_bind_ok_inv in Ht as (u' & _ & Ht).
  by injection Ht.
Qed.

(** In an accepted configuration every gRPC upstream can be dialled unless its
    TLS material is at fault, and a connection whose metadata carries an
    authorization entry is a TLS connection. *)
Lemma accepted_upstreams_dial c files metrics name up ctx :
  Validate c = Ok tt -> outbound_GRPC (config_Outbound c) !! name = Some up ->
  let cfg := client_config metrics name up in
  match transportCredentials files (cc_TLS cfg) with
  | Err e => Dial files cfg = Err e
  | Ok transport => exists interceptors, Dial files cfg = Ok (transport, interceptors) /\
      ("authorization" ∈ (metadata_pairs (cc_Token cfg) (cc_PSK cfg) ctx).*1 ->
       transport = TLS (tc_ServerName (cc_TLS cfg)))
  end.
Proof.
  intros HV Hup cfg. destruct (client_credentials c metrics name up HV Hup) as (Htg & Htm & Hone & Htls).
  fold cfg in Htg, Htm, Hone, Htls. unfold Dial, empty.
  rewrite (bool_decide_eq_false_2 _ Htg), (proj2 (Z.leb_gt _ _) Htm).
  destruct (transportCredentials files (cc_TLS cfg)) as [t|e] eqn:Et; [|done]. cbn [res_bind].
  assert (forall s, s = cc_Token cfg \/ s = cc_PSK cfg ->
    negb (bool_decide (s = EmptyString)) && negb (tc_Enabled (cc_TLS cfg)) &&
    negb (tc_AllowInsecureToken (cc_TLS cfg)) = false) as Hg.
  { intros s Hs. case_bool_decide as E; [done|].
    rewrite Htls by (destruct Hs as [->| ->]; [by left|by right]). done. }
  rewrite (Hg (cc_Token cfg)), (Hg (cc_PSK cfg)) by auto.
  assert (negb (bool_decide (cc_PSK cfg = EmptyString)) && negb (bool_decide (cc_Token cfg = EmptyString))
    = false) as ->.
  { destruct Hone as [->| ->]; [by rewrite andb_false_r|done]. }
  eexists. split; [done|]. intros Hin. apply (transport_tls files); [done|]. apply Htls.
  unfold metadata_pairs in Hin. rewrite !fmap_app, !elem_of_app in Hin.
  destruct Hin as [Hin|[Hin|Hin]]; [|by destruct (RequestIDFromContext ctx); set_solver|by destruct (oc_key ctx); set_solver].
  unfold empty in Hin. case_bool_decide as E1; [|by left]. case_bool_decide as E2; [|by right]. cbn in Hin. set_solver.
Qed.

End dial.

(** ** Witnesses *)

Definition sample_retry : Retry := {|
  retry_MaxAttempts := 3; retry_InitialBackoff := 100; retry_MaxBackoff := 150; retry_Methods := [] |}.

(** Unavailable twice, then well. *)
Definition flaky (k : nat) : option grpc_status :=
  if (k <? 2)%nat then Some (GStatus GUnavailable "down") else None.

(** A call with an idempotency key. *)
Definition keyed_call : out_ctx :=
  WithIdempotencyKey (WithRequestID {| oc_deadline := None; oc_metadata := []; oc_request_id := None;
    oc_key := None |} "r-1") "key".

(** A context that ends during the wait after the second attempt. *)
Definition impatient (k : nat) : option grpc_status :=
  if (k =? 1)%nat then Some (GStatus DeadlineExceeded "context deadline exceeded") else None.

Lemma grpc_retry_exact_witness :
  (exists (m : nat) (cut : bool), retry_end (fun j => retryable (flaky j)) (fun _ => None : option grpc_status) 3 0 m cut /\
    prun (scripted flaky (fun _ => None)) (retryInterceptor sample_retry "/a/b" attempt_call keyed_call) (O, []) =
      (None, (3%nat, [100; 150]))) /\
  (exists (m : nat) (cut : bool), retry_end (fun j => retryable (flaky j)) impatient 3 0 m cut /\
    prun (scripted flaky impatient) (retryInterceptor sample_retry "/a/b" attempt_call keyed_call) (O, []) =
      (impatient 1, (2%nat, [100; 150]))).
Proof.
  split.
  - destruct (grpc_retry_exact flaky (fun _ => None) sample_retry keyed_call "/a/b") as (m & c & Hm & E);
      [vm_compute; split; discriminate|vm_compute; split; reflexivity|].
    exists m, c. split; [exact Hm|]. vm_compute. reflexivity.
  - destruct (grpc_retry_exact flaky impatient sample_retry keyed_call "/a/b") as (m & c & Hm & E);
      [vm_compute; split; discriminate|vm_compute; split; reflexivity|].
    exists m, c. split; [exact Hm|]. vm_compute. reflexivity.
Defined.

Definition sample_upstream : HTTPUpstream := {|
  httpupstream_BaseURL := "https://upstream"; httpupstream_Timeout := 1000;
  httpupstream_Auth := {| clientauth_Type := "bearer"; clientauth_Token := "token" |};
  httpupstream_Retry := sample_retry;
  httpupstream_Breaker := {| breaker_Enabled := false; breaker_FailureThreshold := 0; breaker_OpenTimeout := 0 |};
  httpupstream_TLS := {| clienttls_Enabled := true; clienttls_ServerName := ""; clienttls_CAFile := "";
                         clienttls_CertFile := ""; clienttls_KeyFile := "" |} |}.

Definition sample_base : URL :=
  {| url_Scheme := "https"; url_Opaque := EmptyString; url_User := None; url_Host := "upstream";
     url_Path := EmptyString; url_RawPath := EmptyString; url_OmitHost := false;
     url_ForceQuery := false; url_RawQuery := EmptyString; url_Fragment := EmptyString;
     url_RawFragment := EmptyString |}.

Lemma http_retry_exact_witness :
  exists (m : nat) (cut : bool) (ws : list Z),
    retry_end (fun _ => true) (fun _ => None : option goerr) 3 0 m cut /\
    prun (scripted_http (fun _ => inl 503) (fun _ => None))
      (doWithRetry (fun _ _ => None) sample_base sample_upstream None "GET" "/v1" "" ∅) (O, []) =
      (Ok 503, (m, ws)).
Proof.
  destruct (http_retry_exact (fun _ => inl 503) (fun _ => None) (fun _ _ => None) sample_base sample_upstream None
    "GET" "/v1" "https://upstream/v1" "" ∅)
    as (m & c & ws & Hm & E & _);
    [vm_compute; reflexivity|reflexivity|vm_compute; split; discriminate|].
  exists m, c, ws. split; [exact Hm|]. rewrite E. destruct c; [|reflexivity].
  destruct Hm as (_ & _ & _ & _ & [e He]). discriminate He.
Defined.

Definition sample_files : TLSFiles :=
  {| read_ca := fun _ => Ok true; load_pair := fun _ _ => Ok tt |}.

Lemma accepted_upstreams_dial_witness :
  exists interceptors,
    Dial sample_files (client_config false "authorization" authz_upstream) = Ok (TLS "", interceptors).
Proof.
  destruct (@accepted_upstreams_dial key_order key_order_laws (fun s => s) production_config sample_files
    false "authorization" authz_upstream keyed_call) as (l & E & _);
    [vm_compute; reflexivity|reflexivity|].
  exists l. exact E.
Defined.
