(* ===== verification/Outbound.v ===== *)
(** * The outbound HTTP client and the registry of clients

    internal/outbound: [NewHTTPClient], [httpTransport], [execute] and [Do] around the
    retry loop of Clients.v, and [NewRegistry] with its lookups and [close].  TLS
    files and request creation are parameters; connections are effects. *)

From S2P Require Import Prelude GoText GoTime GoURL Redis PathMatch Config GrpcRegistry Clients.

Local Open Scope Z_scope.
Local Open Scope go_scope.

(** ** Building a client *)

Record Transport : Type := {
  tp_ServerName : string;
  tp_RootCAs : bool;
  tp_Certificate : bool;
  tp_ResponseHeaderTimeout : Z;
}.

Definition httpTransport (files : TLSFiles) (cfg : ClientTLS) (timeout : Z) : res Transport :=
  try ca := (if empty (clienttls_CAFile cfg) then Ok false
             else match read_ca files (clienttls_CAFile cfg) with
                  | Err e => Err (EWrap "read outbound HTTP CA" e)
                  | Ok ok => fail_if negb ok with "parse outbound HTTP CA"; Ok true
                  end) in
  try cert := (if empty (clienttls_CertFile cfg) then Ok false
               else match load_pair files (clienttls_CertFile cfg) (clienttls_KeyFile cfg) with
                    | Err e => Err (EWrap "load outbound HTTP client certificate" e)
                    | Ok _ => Ok true
                    end) in
  Ok {| tp_ServerName := clienttls_ServerName cfg; tp_RootCAs := ca; tp_Certificate := cert;
        tp_ResponseHeaderTimeout := timeout |}.

Record HTTPClient : Type := {
  hcl_name : string;
  hcl_baseURL : URL;
  hcl_transport : Transport;
  hcl_timeout : Z;
  hcl_cfg : HTTPUpstream;
  hcl_breaker : option Breaker;
}.

Definition NewHTTPClient `{Quote} (files : TLSFiles) (name : string) (cfg : HTTPUpstream) :
    res HTTPClient :=
  fail_if negb (empty (clientauth_Type (httpupstream_Auth cfg))) &&
          negb (clienttls_Enabled (httpupstream_TLS cfg))
    with "refusing to send outbound HTTP credentials without TLS";
  match url_Parse (httpupstream_BaseURL cfg) with
  | Err _ => Err (ENew ("parse outbound HTTP base URL " +:+ quote (httpupstream_BaseURL cfg)))
  | Ok baseURL =>
      if str_empty (url_Scheme baseURL) || str_empty (url_Host baseURL)
      then Err (ENew ("parse outbound HTTP base URL " +:+ quote (httpupstream_BaseURL cfg)))
      else
        try transport := httpTransport files (httpupstream_TLS cfg) (httpupstream_Timeout cfg) in
        Ok {| hcl_name := name; hcl_baseURL := baseURL; hcl_transport := transport;
              hcl_timeout := httpupstream_Timeout cfg; hcl_cfg := cfg;
              hcl_breaker := if breaker_Enabled (httpupstream_Breaker cfg)
                             then Some (httpupstream_Breaker cfg) else None |}
  end.

(** ** Sending *)

(** [context.Canceled]. *)
Definition ErrCanceled : goerr := ESentinel "context.Canceled" "context canceled".

(** What the breaker sees of a call: a retryable status is an error, and a cancelled
    call is excluded. *)
Definition http_report (r : res Z) : breaker_report :=
  match r with
  | Ok status => {| br_failed := retryableHTTPStatus status; br_excluded := false |}
  | Err e => {| br_failed := true; br_excluded := errors_is e ErrCanceled |}
  end.

Section client.
Context (create : string -> string -> option goerr) (c : HTTPClient).

(** [c.execute]: a status error of the breaker's call becomes a response again. *)
Definition execute (key : option string) (method path body : string) (headers : gmap string string) :
    http_client (res Z) :=
  let send := doWithRetry create (hcl_baseURL c) (hcl_cfg c) key method path body headers in
  match hcl_breaker c with
  | None => send
  | Some _ =>
      let* allowed := Do HAllow Ret in
      match allowed with
      | inr e => Ret (Err e)
      | inl _ =>
          let* r := send in
          let* _ := Do (HReport (http_report r)) Ret in
          Ret r
      end
  end.

(** [c.Do]: the result, and the status label its metrics count. *)
Definition HTTPClient_Do (key : option string) (method path body : string)
    (headers : gmap string string) : http_client (res Z * string) :=
  let* r := execute key method path body headers in
  Ret (r, match r with Ok status => format_uint (Z.to_N status) | Err _ => "error" end).

End client.

(** ** The registry of clients *)

(** A gRPC connection is what [Dial] gives [grpc.NewClient]. *)
Record Conn : Type := { conn_name : string; conn_transport : credentials }.

Record OutRegistry : Type := {
  reg_http : gmap string HTTPClient;
  reg_grpc : gmap string Conn;
}.

(** [grpc.NewClient], closing, and the stop hook. *)
Inductive reg_call : Type :=
  | RNewConn (name : string)
  | RCloseIdle (name : string)
  | RCloseConn (name : string)
  | RHook.

Abbreviation regprog A := (prog reg_call (option goerr) A).

Section registry.
Context `{MapRange} `{Quote} (files : TLSFiles).

(** [registry.close()]: every client and connection, the first error of the latter. *)
Fixpoint close_idle (l : list string) : regprog unit :=
  match l with
  | [] => Ret tt
  | name :: l' => let* _ := call (RCloseIdle name) in close_idle l'
  end.

Fixpoint close_conns (l : list string) (closeErr : option goerr) : regprog (option goerr) :=
  match l with
  | [] => Ret closeErr
  | name :: l' =>
      let* err := call (RCloseConn name) in
      close_conns l'
        (match err, closeErr with
         | Some e, None => Some (EWrap ("close outbound gRPC client " +:+ quote name) e)
         | _, _ => closeErr
         end)
  end.

Definition reg_close (r : OutRegistry) : regprog (option goerr) :=
  let* _ := close_idle (map_range (reg_http r)).*1 in
  close_conns (map_range (reg_grpc r)).*1 None.

(** A failed constructor closes what it has and reports the failure. *)
Definition abandon (r : OutRegistry) (e : goerr) : regprog (res OutRegistry) :=
  let* _ := reg_close r in Ret (Err e).

Fixpoint add_http (l : list (string * HTTPUpstream)) (r : OutRegistry) : regprog (res OutRegistry) :=
  match l with
  | [] => Ret (Ok r)
  | (name, upstream) :: l' =>
      match NewHTTPClient files name upstream with
      | Err e => abandon r (EWrap ("create outbound HTTP client " +:+ quote name) e)
      | Ok client =>
          add_http l' {| reg_http := <[name := client]> (reg_http r); reg_grpc := reg_grpc r |}
      end
  end.

Fixpoint add_grpc (metrics : bool) (l : list (string * GRPCUpstream)) (r : OutRegistry) :
    regprog (res OutRegistry) :=
  match l with
  | [] => Ret (Ok r)
  | (name, upstream) :: l' =>
      let failed e := abandon r (EWrap ("create outbound gRPC client " +:+ quote name) e) in
      match Dial files (client_config metrics name upstream) with
      | Err e => failed e
      | Ok (transport, _) =>
          let* err := call (RNewConn name) in
          match err with
          | Some e => failed e
          | None =>
              add_grpc metrics l'
                {| reg_http := reg_http r;
                   reg_grpc := <[name := {| conn_name := name; conn_transport := transport |}]>
                                 (reg_grpc r) |}
          end
      end
  end.

(** [NewRegistry(lc, cfg, metrics)]. *)
Definition NewRegistry (metrics : bool) (cfg : Outbound) : regprog (res OutRegistry) :=
  let! r := add_http (map_range (outbound_HTTP cfg)) {| reg_http := ∅; reg_grpc := ∅ |} in
  let! r := add_grpc metrics (map_range (outbound_GRPC cfg)) r in
  let* _ := call RHook in
  Ret (Ok r).

End registry.

(** [r.HTTP(name)], [r.GRPC(name)]. *)
Definition registry_HTTP (r : OutRegistry) (name : string) : option HTTPClient := reg_http r !! name.
Definition registry_GRPC (r : OutRegistry) (name : string) : option Conn := reg_grpc r !! name.
