(* ===== verification/OutboundFacts.v ===== *)
(** * What outbound calls guarantee

    Requests stay on the configured server whatever path is asked for (a path
    //user@/... names none), the circuit
    breaker changes no answer, every attempt of a gRPC call goes out with the same
    context, and the registry of clients holds what is configured or nothing: a failed
    start closes every connection it made. *)

From S2P Require Import Prelude GoText Regex GoTime GoURL GoQuery UrlFacts ResolveFacts Redis PathMatch Config ConfigFacts GrpcRegistry Clients ClientFacts Outbound.

Local Open Scope Z_scope.
Local Open Scope go_scope.

(** ** Requests *)

(** Every request the client sends satisfies [P]. *)
Definition sends {A} (P : http_call -> Prop) (p : http_client A) : Prop :=
  issues (fun c => match c with HDo q => P q | _ => True end) (fun _ _ => True) p.

Lemma attempts_send (P : http_call -> Prop) n retry max attempt created request :
  P request -> sends P (http_attempts n retry max attempt created request).
Proof.
  intros HP. revert attempt. induction n as [|n IH]; intros attempt; [done|]. cbn [http_attempts].
  destruct created as [e|]; [done|]. split; [done|]. intros r _. cbn [pbind].
  assert (sends P (if attempt <? max then
            let* err := waitBackoff retry attempt in
            match err with
            | Some e => Ret (Err e)
            | None => http_attempts n retry max (attempt + 1) None request
            end
          else http_attempts n retry max (attempt + 1) None request)) as Hagain.
  { destruct (attempt <? max); [|apply IH]. split; [done|]. intros w _. cbn [pbind].
    destruct w; [apply IH|done]. }
  destruct r as [status|e].
  - destruct (_ || _); [done|]. split; [done|]. intros d _. exact Hagain.
  - destruct (attempt =? max); [done|exact Hagain].
Qed.

(** The target names the scheme of [base] and a user, and its authority ends with the @:
    what follows is the path, the query, the fragment or nothing. *)
Definition hostless (base : URL) (target : string) : Prop :=
  exists user rest, target = url_Scheme base +:+ "://" +:+ user +:+ "@" +:+ rest /\
    str_forallb userinfo_byte user = true /\
    (rest = EmptyString \/ exists c rest', rest = String c rest' /\ byte_in c "/?#" = true).

(** A target on the server of [base]; or, for a path that names a user and no host,
    one whose authority has no host, which net/http refuses. *)
Definition stays_on (base : URL) (path target : string) : Prop :=
  (exists v, url_Parse target = Ok v /\ url_Scheme v = url_Scheme base /\
             url_User v = url_User base /\ url_Host v = url_Host base) \/
  (exists ref, url_Parse path = Ok ref /\ is_Some (url_User ref) /\ url_Host ref = EmptyString /\
               hostless base target).

Lemma userinfo_String_bytes ui : str_forallb userinfo_byte (userinfo_String ui) = true.
Proof.
  unfold userinfo_String. destruct (_ && _); [done|].
  assert (forall s, str_forallb userinfo_byte (escape EncodeUserPassword s) = true) as He.
  { intros s. bytes_from (escape_user_bytes s). }
  rewrite str_forallb_app, He. destruct (ui_password ui); [|done]. by rewrite str_forallb_app, He.
Qed.

(** A URL with a user and without a host is printed so. *)
Lemma hostless_String base t ui :
  str_empty (url_Scheme base) = false -> url_Scheme t = url_Scheme base -> url_Opaque t = EmptyString ->
  url_Host t = EmptyString -> url_User t = Some ui -> plain_path t = true -> hostless base (url_String t).
Proof.
  intros Hs Es Ho Hh Hu Hp. unfold url_String, authority_String. rewrite Es, Hs, Ho, Hh, Hu.
  change (str_empty EmptyString) with true. cbn [negb andb orb]. rewrite !andb_false_r, orb_true_r. cbn [andb].
  assert (forall x, str_empty ((url_Scheme base +:+ ":") +:+ x) = false) as Hhead.
  { intros x. unfold str_empty in *. apply bool_decide_eq_false in Hs. apply bool_decide_eq_false.
    by destruct (url_Scheme base). }
  rewrite Hhead. cbn [andb]. change (escape EncodeHost EmptyString) with EmptyString.
  set (query := if url_ForceQuery t || _ then _ else _).
  set (frag := if str_empty (url_Fragment t) then _ else _).
  exists (userinfo_String ui), (EscapedPath t +:+ query +:+ frag). split_and!.
  - rewrite <- !str_app_assoc. done.
  - apply userinfo_String_bytes.
  - destruct (EscapedPath_slash t Hp) as [->|[p ->]]; [|right; eexists _, _; by split].
    unfold query. destruct (_ || _); [right; eexists _, _; by split|]. unfold frag.
    destruct (str_empty (url_Fragment t)); [by left|right].
    by exists "#"%char, (EscapedFragment t).
Qed.

Lemma request_target_stays base path target :
  plain_base base = true -> request_target base path = Ok target -> stays_on base path target.
Proof.
  intros Hb. unfold request_target. destruct (url_Parse path) as [ref|e] eqn:Er; [|done].
  unfold url_IsAbs. destruct (negb (str_empty (url_Scheme ref)) || negb (str_empty (url_Host ref))) eqn:Ea;
    [done|]. intros [= <-]. apply orb_false_iff in Ea as [Hs%negb_false_iff Hh%negb_false_iff].
  apply bool_decide_eq_true in Hs, Hh.
  destruct (url_Parse_opaque _ _ Er) as [Ho|[_ Hne]]; [|done].
  assert (url_Opaque base = EmptyString /\ str_empty (url_Scheme base) = false) as [Hbo Hbs].
  { unfold plain_base in Hb. rewrite !andb_true_iff in Hb.
    destruct Hb as (((((Hbs & _) & Hbo) & _) & _) & _). by apply bool_decide_eq_true in Hbo; apply negb_true_iff in Hbs. }
  pose proof (resolve_relative base ref Hs Hh Hbo Ho) as (Es & Eo & Eh & Eu).
  destruct (url_User ref) as [ui|] eqn:Eui.
  - rewrite bool_decide_eq_true_2 in Eh, Eu by eauto.
    right. exists ref. rewrite Eui. split_and!; [done|eauto|done|].
    eapply hostless_String; [done..|]. unfold ResolveReference. rewrite Eui, (bool_decide_eq_true_2 _) by eauto.
    rewrite orb_true_r. destruct (resolvePath_ok (EscapedPath ref) EmptyString); [apply EscapedPath_valid|done|].
    by apply with_path_plain.
  - left. exists (normal_url (ResolveReference base ref)).
    rewrite bool_decide_eq_false_2 in Eh, Eu by (by intros [? ?]).
    split; [|cbn; by rewrite Es, Eu, Eh]. apply url_Parse_String, resolve_plain; try done.
    by apply (url_Parse_query path).
Qed.

Lemma doWithRetry_stays create base up key method path body headers :
  plain_base base = true ->
  sends (fun q => stays_on base path (hc_Target q))
    (doWithRetry create base up key method path body headers).
Proof.
  intros Hb. unfold doWithRetry. destruct (request_target base path) as [target|e] eqn:Et; [|done].
  apply attempts_send. by apply request_target_stays.
Qed.

(** C23: no request path makes an outbound client, which adds its credentials to every
    request, talk to another server, when its base URL is plain (a lower-case scheme,
    a name or IPv4 address with an optional port, a query without control bytes):
    parsed again as net/http does, the target of
    every request has the scheme, user and host of the configured base URL; the one
    exception is a path of the form //user@/..., whose target is of the form
    scheme://user@/..., with no host in its authority. *)
Theorem requests_stay create c key method path body headers :
  plain_base (hcl_baseURL c) = true ->
  sends (fun q => stays_on (hcl_baseURL c) path (hc_Target q))
    (execute create c key method path body headers).
Proof.
  intros Hb. unfold execute. destruct (hcl_breaker c); [|by apply doWithRetry_stays].
  split; [done|]. intros [x|e] _; [|done]. cbn [pbind]. apply issues_seq; [by apply doWithRetry_stays|].
  intros r. by split.
Qed.

Definition sample_client : HTTPClient := {|
  hcl_name := "sample"; hcl_baseURL := sample_base;
  hcl_transport := {| tp_ServerName := EmptyString; tp_RootCAs := false; tp_Certificate := false;
                      tp_ResponseHeaderTimeout := 1000 |};
  hcl_timeout := 1000; hcl_cfg := sample_upstream;
  hcl_breaker := Some {| breaker_Enabled := true; breaker_FailureThreshold := 3; breaker_OpenTimeout := 1000 |};
|}.

Lemma requests_stay_witness :
  sends (fun q => stays_on sample_base "/../\evil.com//x?y=/@z" (hc_Target q))
    (execute (fun _ _ => None) sample_client None "GET" "/../\evil.com//x?y=/@z" "" ∅).
Proof. apply (requests_stay (fun _ _ => None) sample_client). vm_compute. reflexivity. Defined.

(** The circuit breaker only decides whether a call is made: when it refuses,
    nothing is sent and its error is returned; when it allows the call, the answer
    is that of the retry loop, a retryable status included, which is reported to
    the breaker as a failure. *)
Lemma execute_transparent create c b key method path body headers tr r :
  hcl_breaker c = Some b ->
  emits (execute create c key method path body headers) tr r ->
  (exists e, tr = [(HAllow, inr e)] /\ r = Err e) \/
  (exists x tr' y, tr = (HAllow, inl x) :: tr' ++ [(HReport (http_report r), y)] /\
     emits (doWithRetry create (hcl_baseURL c) (hcl_cfg c) key method path body headers) tr' r).
Proof.
  intros Hb. unfold execute. rewrite Hb. intros Htr. emits_inv Htr. cbn [pbind] in Htr.
  destruct r0 as [x|e].
  - right. apply emits_bind in Htr as (t1 & a & t2 & -> & H1 & Htr). emits_inv Htr. emits_inv Htr.
    by exists x, t1, r0.
  - left. emits_inv Htr. by exists e.
Qed.

Lemma execute_transparent_witness :
  emits (execute (fun _ _ => None) sample_client None "POST" "/v1" "" ∅)
    [(HAllow, inr (ENew "circuit breaker is open"))] (Err (ENew "circuit breaker is open")) /\
  ((exists e, [(HAllow, inr (ENew "circuit breaker is open"))] = [(HAllow, inr e : http_reply)] /\
              Err (ENew "circuit breaker is open") = Err e :> res Z) \/ False).
Proof.
  assert (emits (execute (fun _ _ => None) sample_client None "POST" "/v1" "" ∅)
    [(HAllow, inr (ENew "circuit breaker is open"))] (Err (ENew "circuit breaker is open"))) as Htr
    by (repeat constructor).
  split; [exact Htr|]. left.
  destruct (execute_transparent (fun _ _ => None) sample_client _ None "POST" "/v1" "" ∅ _ _ eq_refl Htr)
    as [H|(x & tr' & y & E & _)]; [exact H|discriminate E].
Defined.

(** ** Calls on a connection *)

(** What every call of the rest of the chain keeps to, a retried call keeps to. *)
Lemma retry_issues P next n cfg attempt err :
  (forall d, P (EWait d)) -> issues P (fun _ _ => True) next ->
  issues P (fun _ _ => True) (retry_loop next n cfg attempt err).
Proof.
  intros Hw Hi. revert attempt err. induction n as [|n IH]; intros attempt err; [done|].
  cbn [retry_loop]. apply issues_seq; [done|]. intros a. destruct (negb _); [done|].
  destruct (attempt <? _); [|apply IH]. split; [apply Hw|]. intros w _. cbn [pbind].
  destruct w; [done|apply IH].
Qed.

(** What may be observed of one call through the interceptors of a connection: its
    attempts carry the context [out], and it is counted under [name]. *)
Definition outgoing (out : out_ctx) (name : string) (c : client_effect) : Prop :=
  match c with EAttempt ctx => ctx = out | EObserve n _ => n = name | _ => True end.

Definition observed_codes (tr : list (client_effect * option grpc_status)) : list (option grpc_code) :=
  omap (fun x => match x.1 with EObserve _ code => Some code | _ => None end) tr.

(** The breaker and the retries, which pass their context on and count nothing. *)
Definition tail_of (cfg : ClientConfig) : list client_interceptor :=
  (if breaker_Enabled (cc_Breaker cfg) then [IBreaker (cc_Breaker cfg)] else []) ++
  (if 1 <? retry_MaxAttempts (cc_Retry cfg) then [IRetry (cc_Retry cfg)] else []).

Lemma tail_issues cfg enabled method ctx :
  issues (fun c => match c with EAttempt ctx' => ctx' = ctx | EObserve _ _ => False | _ => True end)
    (fun _ _ => True) (through enabled (tail_of cfg) method ctx).
Proof.
  set (P := fun c => match c with EAttempt ctx' => ctx' = ctx | EObserve _ _ => False | _ => True end).
  assert (issues P (fun _ _ => True) (attempt_call ctx)) as Ha by (split; [reflexivity|done]).
  assert (issues P (fun _ _ => True)
    (through enabled (if 1 <? retry_MaxAttempts (cc_Retry cfg) then [IRetry (cc_Retry cfg)] else []) method ctx))
    as Hr.
  { destruct (1 <? _); cbn [through]; [|exact Ha]. unfold retryInterceptor.
    destruct (negb _); [exact Ha|]. by apply retry_issues. }
  unfold tail_of. destruct (breaker_Enabled _); cbn [app through]; [|exact Hr].
  split; [exact I|]. intros [e|] _; [exact I|]. cbn [pbind]. apply issues_seq; [exact Hr|].
  intros err. split; [exact I|done].
Qed.

Lemma emits_silent enabled cfg method ctx tr r :
  emits (through enabled (tail_of cfg) method ctx) tr r -> observed_codes tr = [].
Proof.
  intros Htr. pose proof (tail_issues cfg enabled method ctx) as Hi. revert Hi Htr.
  generalize (through enabled (tail_of cfg) method ctx). intros p Hi Htr.
  induction Htr as [a|c k a tr b Htr IH]; [done|]. destruct Hi as [Hc Hk]. unfold observed_codes.
  cbn [omap list_omap fst]. destruct c; try (by apply IH, Hk). by destruct Hc.
Qed.

(** The context every attempt of a call goes out with. *)
Definition outgoing_ctx (cfg : ClientConfig) (ctx : out_ctx) : out_ctx := {|
  oc_deadline := Some (default (cc_Timeout cfg) (oc_deadline ctx));
  oc_metadata := oc_metadata ctx ++ metadata_pairs (cc_Token cfg) (cc_PSK cfg) ctx;
  oc_request_id := oc_request_id ctx;
  oc_key := oc_key ctx;
|}.

Lemma intercepted cfg method enabled ctx :
  through enabled ([ITimeout (cc_Timeout cfg); IMetadata (cc_Token cfg) (cc_PSK cfg)] ++
      (if cc_Metrics cfg then [IMetrics (cc_Name cfg)] else []) ++ tail_of cfg) method ctx =
  through enabled ((if cc_Metrics cfg then [IMetrics (cc_Name cfg)] else []) ++ tail_of cfg) method
    (outgoing_ctx cfg ctx).
Proof.
  assert (forall c pairs, match pairs with [] => c | _ => append_metadata c pairs end = append_metadata c pairs)
    as Hpairs.
  { intros [dl md id key] [|x pairs]; [|done]. unfold append_metadata. cbn. by rewrite app_nil_r. }
  cbn [app through]. unfold timeoutInterceptor, metadataInterceptor.
  destruct (oc_deadline ctx) as [d|] eqn:E; rewrite Hpairs; unfold outgoing_ctx, append_metadata; by rewrite E.
Qed.

(** C29: a call on a dialled connection, however often it is retried, goes out with the
    same context in every attempt: a deadline, its own or the configured timeout, and
    its metadata with the configured credential, its request id and its idempotency
    key appended once; a credential goes out over TLS only, unless the configuration
    allows otherwise.  The call is counted under the name of the client once, with
    the code it returned, if the metrics are enabled. *)
Theorem calls_on_connection files cfg enabled method ctx transport l :
  Dial files cfg = Ok (transport, l) ->
  issues (outgoing (outgoing_ctx cfg ctx) (cc_Name cfg)) (fun _ _ => True) (through enabled l method ctx) /\
  (forall tr r, emits (through enabled l method ctx) tr r ->
    observed_codes tr = if cc_Metrics cfg && enabled then [code_of r] else []) /\
  ("authorization" ∈ (metadata_pairs (cc_Token cfg) (cc_PSK cfg) ctx).*1 ->
    transport = TLS (tc_ServerName (cc_TLS cfg)) \/ tc_AllowInsecureToken (cc_TLS cfg) = true).
Proof.
  unfold Dial. intros Hd. destruct (empty (cc_Target cfg)); [done|]. destruct (_ <=? 0); [done|].
  apply res_bind_ok_inv in Hd as (t & Ht & Hd). destruct (_ && _) eqn:E1 in Hd; [done|].
  destruct (_ && _) eqn:E2 in Hd; [done|]. destruct (_ && _) eqn:E3 in Hd; [done|]. 
  assert (transport = t /\ l = [ITimeout (cc_Timeout cfg); IMetadata (cc_Token cfg) (cc_PSK cfg)] ++
    (if cc_Metrics cfg then [IMetrics (cc_Name cfg)] else []) ++ tail_of cfg) as [-> ->]
    by (injection Hd as <- <-; done).
  rewrite intercepted. set (out := outgoing_ctx cfg ctx).
  assert (issues (outgoing out (cc_Name cfg)) (fun _ _ => True) (through enabled (tail_of cfg) method out)) as Ho.
  { refine (issues_mono _ _ (fun _ _ => True) (fun _ _ => True) _ _ _ (tail_issues cfg enabled method out)); [|done].
    by intros []. }
  split_and!.
  - destruct (cc_Metrics cfg); cbn [app through]; [|exact Ho]. apply issues_seq; [exact Ho|].
    intros err. by destruct enabled.
  - intros tr r Htr. destruct (cc_Metrics cfg); cbn [app through andb] in *; [|by eapply emits_silent].
    apply emits_bind in Htr as (tr1 & err & tr2 & -> & Hp & Htr). apply emits_silent in Hp.
    unfold observed_codes in *. rewrite omap_app, Hp. destruct enabled; emits_inv Htr; [by emits_inv Htr|done].
  - intros Hin. destruct (tc_AllowInsecureToken (cc_TLS cfg)); [by right|left].
    rewrite !andb_true_r in *. apply (transport_tls files); [done|].
    destruct (tc_Enabled (cc_TLS cfg)); [done|]. rewrite !andb_true_r in *. exfalso.
    unfold metadata_pairs in Hin. rewrite E1, E3 in Hin. cbn [app] in Hin. rewrite fmap_app, elem_of_app in Hin.
    destruct (RequestIDFromContext ctx), (oc_key ctx); set_solver.
Qed.

(** A dialled connection with a token, retries and a breaker. *)
Definition sample_client_config : ClientConfig := {|
  cc_Target := "authz:443"; cc_Timeout := 500; cc_Token := "token"; cc_PSK := "";
  cc_TLS := {| tc_Enabled := true; tc_ServerName := "authz"; tc_CAFile := ""; tc_CertFile := "";
               tc_KeyFile := ""; tc_AllowInsecureToken := false |};
  cc_Name := "authorization"; cc_Retry := sample_retry;
  cc_Breaker := {| breaker_Enabled := true; breaker_FailureThreshold := 3; breaker_OpenTimeout := 1000 |};
  cc_Metrics := true |}.

Lemma calls_on_connection_witness :
  exists l, Dial sample_files sample_client_config = Ok (TLS "authz", l) /\
    oc_metadata (outgoing_ctx sample_client_config keyed_call) =
      [("authorization", "Bearer token"); ("x-request-id", "r-1"); ("idempotency-key", "key")] /\
    issues (outgoing (outgoing_ctx sample_client_config keyed_call) "authorization") (fun _ _ => True)
      (through true l "/a/b" keyed_call) /\
    forall tr r, emits (through true l "/a/b" keyed_call) tr r -> observed_codes tr = [code_of r].
Proof.
  eexists. split; [vm_compute; reflexivity|]. split; [vm_compute; reflexivity|].
  eassert (Dial sample_files sample_client_config = Ok (TLS "authz", _)) as Hd by (vm_compute; reflexivity).
  destruct (calls_on_connection sample_files sample_client_config true "/a/b" keyed_call _ _ Hd) as (Hi & Ho & _).
  exact (conj Hi Ho).
Defined.

(** ** The registry of clients *)

Abbreviation reg_trace := (list (reg_call * option goerr)).

Definition opened_conns (tr : reg_trace) : list string :=
  omap (fun '(c, r) => match c, r with RNewConn n, None => Some n | _, _ => None end) tr.
Definition closed_conns (tr : reg_trace) : list string :=
  omap (fun '(c, _) => match c with RCloseConn n => Some n | _ => None end) tr.

Section registry.
Context `{MapRangeLaws} `{Quote} (files : TLSFiles).

Lemma close_idle_emits l tr u :
  emits (close_idle l) tr u -> opened_conns tr = [] /\ closed_conns tr = [].
Proof.
  revert tr. induction l as [|n l IH]; intros tr Htr; cbn [close_idle] in Htr.
  - by emits_inv Htr.
  - emits_inv Htr. by apply IH in Htr.
Qed.

Lemma close_conns_emits l e tr r :
  emits (close_conns l e) tr r -> opened_conns tr = [] /\ closed_conns tr = l.
Proof.
  revert e tr. induction l as [|n l IH]; intros e tr Htr; cbn [close_conns] in Htr.
  - by emits_inv Htr.
  - emits_inv Htr. apply IH in Htr as [Ho Hc]. cbn. split; [exact Ho|]. by f_equal.
Qed.

(** A failed construction closes the connections it has, and opens no more. *)
Lemma abandon_emits r e tr res :
  emits (abandon r e) tr res ->
  res = Err e /\ opened_conns tr = [] /\ closed_conns tr ≡ₚ (map_to_list (reg_grpc r)).*1.
Proof.
  unfold abandon, reg_close. intros Htr. apply emits_bind in Htr as (t1 & a & t2 & -> & Hcl & Htr).
  emits_inv Htr. apply emits_bind in Hcl as (t3 & u & t4 & -> & Hi & Hco).
  apply close_idle_emits in Hi as [Ho3 Hc3]. apply close_conns_emits in Hco as [Ho4 Hc4].
  unfold opened_conns, closed_conns in *. rewrite app_nil_r, !omap_app, Ho3, Hc3, Ho4, Hc4.
  split_and!; [done|done|]. cbn. by rewrite map_range_perm.
Qed.

Lemma add_http_emits l r tr res :
  emits (add_http files l r) tr res -> reg_grpc r = ∅ ->
  opened_conns tr = [] /\ closed_conns tr = [] /\
  match res with
  | Ok r' => reg_grpc r' = ∅ /\ dom (reg_http r') = dom (reg_http r) ∪ list_to_set l.*1
  | Err _ => True
  end.
Proof.
  revert r tr. induction l as [|[n up] l IH]; intros r tr Htr Hr; cbn [add_http] in Htr.
  - emits_inv Htr. split_and!; [done..|]. cbn. set_solver.
  - destruct (NewHTTPClient files n up) as [cl|e].
    + apply IH in Htr as (Ho & Hc & Hres); [|done]. split_and!; [done..|].
      destruct res; [|done]. destruct Hres as [He Hd]. split; [done|].
      rewrite Hd. cbn [reg_http]. rewrite dom_insert_L. cbn. set_solver.
    + apply abandon_emits in Htr as (-> & Ho & Hc). rewrite Hr, map_to_list_empty in Hc.
      split_and!; [done| |done]. by apply Permutation_nil_r in Hc.
Qed.

Lemma add_grpc_emits metrics l r tr res :
  emits (add_grpc files metrics l r) tr res ->
  NoDup l.*1 -> Forall (fun n => reg_grpc r !! n = None) l.*1 ->
  match res with
  | Ok r' => closed_conns tr = [] /\ opened_conns tr = l.*1 /\ reg_http r' = reg_http r /\
             dom (reg_grpc r') = dom (reg_grpc r) ∪ list_to_set l.*1
  | Err _ => closed_conns tr ≡ₚ (map_to_list (reg_grpc r)).*1 ++ opened_conns tr
  end.
Proof.
  revert r tr. induction l as [|[n up] l IH]; intros r tr Htr Hnd Hfresh; cbn [add_grpc] in Htr.
  - emits_inv Htr. split_and!; [done..|]. cbn. set_solver.
  - cbn [fmap list_fmap fst] in *. apply NoDup_cons in Hnd as [Hn Hnd].
    apply Forall_cons in Hfresh as [Hfn Hfresh].
    destruct (Dial files (client_config metrics n up)) as [[t l']|e].
    + emits_inv Htr. cbn [pbind] in Htr. destruct r0 as [e|].
      * apply abandon_emits in Htr as (-> & Ho & Hc). cbn. fold (opened_conns tr0).
        unfold opened_conns, closed_conns in *. rewrite Ho, app_nil_r. exact Hc.
      * apply IH in Htr; [|done|].
        2: { apply Forall_forall. intros m Hm. cbn. rewrite lookup_insert_ne by set_solver.
             by apply (proj1 (Forall_forall _ _) Hfresh). }
        unfold opened_conns, closed_conns in *. destruct res as [r'|e].
        -- destruct Htr as (Hc & Ho & Hh & Hd). cbn. rewrite Hc, Ho. split_and!; [done..|].
           rewrite Hd. cbn [reg_grpc]. rewrite dom_insert_L. set_solver.
        -- cbn. rewrite Htr. cbn [reg_grpc]. rewrite map_to_list_insert by done.
           cbn. apply Permutation_middle.
    + apply abandon_emits in Htr as (-> & Ho & Hc). by rewrite Ho, app_nil_r.
Qed.

Lemma map_range_keys {A} (m : gmap string A) :
  NoDup (map_range m).*1 /\ list_to_set (map_range m).*1 = dom m.
Proof.
  split.
  - rewrite map_range_perm. apply NoDup_fst_map_to_list.
  - apply set_eq. intros k. rewrite elem_of_list_to_set, map_range_perm.
    rewrite list_elem_of_fmap, elem_of_dom. split.
    + intros ([k' v] & -> & Hin). apply elem_of_map_to_list in Hin. cbn. eauto.
    + intros [v Hv]. exists (k, v). split; [done|]. by apply elem_of_map_to_list.
Qed.

End registry.

(** [NewRegistry] succeeds with a client for exactly the configured upstreams and
    its stop hook registered, no connection closed; or it fails and has closed every
    connection it had made, each once. *)
Lemma NewRegistry_exact `{MapRangeLaws} `{Quote} files metrics cfg tr res :
  emits (NewRegistry files metrics cfg) tr res ->
  match res with
  | Ok r => dom (reg_http r) = dom (outbound_HTTP cfg) /\ dom (reg_grpc r) = dom (outbound_GRPC cfg) /\
            closed_conns tr = [] /\ RHook ∈ tr.*1
  | Err _ => closed_conns tr ≡ₚ opened_conns tr
  end.
Proof.
  unfold NewRegistry. intros Htr.
  destruct (map_range_keys (outbound_GRPC cfg)) as [Hnd Hg].
  destruct (map_range_keys (outbound_HTTP cfg)) as [_ Hh].
  apply emits_gbind in Htr as [(e & -> & Ha)|(t1 & r1 & t2 & -> & Ha & Htr)];
    apply add_http_emits in Ha as (Ho1 & Hc1 & Ha); [by rewrite Ho1, Hc1|done| |done].
  destruct Ha as [He1 Hd1]. unfold closed_conns, opened_conns in *. rewrite !omap_app, Hc1, Ho1. cbn.
  assert (Forall (fun n => reg_grpc r1 !! n = None) (map_range (outbound_GRPC cfg)).*1) as Hf
    by (apply Forall_true; intros n; by rewrite He1).
  apply emits_gbind in Htr as [(e & -> & Hb)|(t3 & r2 & t4 & -> & Hb & Htr)];
    pose proof (add_grpc_emits files metrics _ r1 _ _ Hb Hnd Hf) as Hres.
  - unfold closed_conns, opened_conns in Hres. by rewrite He1, map_to_list_empty in Hres.
  - destruct Hres as (Hc2 & _ & Hh2 & Hd2). emits_inv Htr. emits_inv Htr.
    unfold closed_conns in Hc2. rewrite Hh2, Hd1, Hd2, He1, Hh, Hg, omap_app, Hc2. cbn [reg_http].
    split_and!; [set_solver..|done|]. rewrite fmap_app. apply elem_of_app. right.
    rewrite fmap_app. apply elem_of_app. right. constructor.
Qed.

Definition sample_outbound : Outbound := {|
  outbound_HTTP := {["sample" := sample_upstream]};
  outbound_GRPC := {["authorization" := authz_upstream]};
|}.

Lemma NewRegistry_exact_witness :
  exists tr r, emits (@NewRegistry key_order (fun s => s) sample_files false sample_outbound) tr (Ok r) /\
    dom (reg_grpc r) = {["authorization"]} /\ closed_conns tr = [].
Proof.
  destruct (prun (fun _ (s : unit) => (None, s))
    (@NewRegistry key_order (fun s => s) sample_files false sample_outbound) tt) as [res u] eqn:E.
  destruct res as [r|e]; [|vm_compute in E; discriminate E].
  destruct (prun_emits _ _ _ _ _ E) as [tr Htr]. exists tr, r. split; [exact Htr|].
  destruct (@NewRegistry_exact key_order key_order_laws (fun s => s) sample_files false sample_outbound
    tr (Ok r) Htr) as (_ & Hg & Hc & _).
  split; [|exact Hc]. rewrite Hg. apply dom_singleton_L.
Defined.
