(* ===== verification/Access.v ===== *)
(** * Authentication and authorization

    [internal/requestid], [internal/auth] and the interceptors of
    internal/transport/grpc/server.go.  The JWT library, the JWKS verifier, the
    platform's authorizer and its idempotency-key syntax are parameters. *)

From S2P Require Import Prelude GoText Utf8 Regex Redis Store PathMatch Config GrpcRegistry.

Local Open Scope Z_scope.
Local Open Scope go_scope.

(** ** Request ids *)

(** [strings.ContainsRune("-_.", char)] and the three ranges. *)
Definition allowedCharacter (char : Z) : bool :=
  between 97 122 char || between 65 90 char || between 48 57 char ||
  (char =? 45) || (char =? 95) || (char =? 46).

Definition requestid_Valid (value : string) : bool :=
  if empty value || (128 <? len value) then false
  else forallb allowedCharacter (runes value).

(** [Generate]: [rnd] is the outcome of [rand.Read] on 16 bytes, [nanos] the clock. *)
Definition requestid_Generate (rnd : res (list ascii)) (nanos : N) : string :=
  match rnd with
  | Err _ => "fallback-" +:+ format_uint nanos
  | Ok value => hex_encode value
  end.

(** ** Bearer and PSK headers *)

(** Simple case folding, as far as an ASCII string can meet it: the Kelvin sign
    folds to k and the long s to s. *)
Definition fold_rune (r : Z) : Z :=
  if between 65 90 r then r + 32 else if r =? 8490 then 107 else if r =? 383 then 115 else r.

(** [strings.EqualFold(s, t)] for an ASCII [t]. *)
Definition EqualFold (s t : string) : bool :=
  bool_decide (fold_rune <$> runes s = fold_rune <$> runes t).

(** [subtle.ConstantTimeCompare(a, b) == 1]. *)
Definition ConstantTimeCompare (a b : string) : bool := bool_decide (a = b).

Definition space : ascii := " "%char.

Definition VerifyPSK (authorization expected : string) : bool :=
  let '(scheme, supplied, ok) := cut space authorization in
  if negb ok || negb (EqualFold scheme "PSK") || empty supplied ||
     negb (len supplied =? len expected) then false
  else ConstantTimeCompare supplied expected.

(** ** The authentication service (auth/jwt.go) *)

Record Principal : Type := { pr_ID : string; pr_ServiceAccount : bool }.

(** The registered claims the service sets or reads. *)
Record Claims : Type := {
  cl_Issuer : string; cl_Subject : string; cl_ID : string;
  cl_IssuedAt : Z; cl_NotBefore : Z; cl_ExpiresAt : Z;
}.

Record AuthService : Type := {
  as_issuer : string;
  as_secret : string;
  as_ttl : Z;
  as_clientID : string;
  as_clientSecret : string;
  as_verifier : option (string -> res Principal);
}.

(** The JWT library: [jwt.NewWithClaims(HS256, claims).SignedString(secret)], and
    [jwt.ParseWithClaims] with the issuer and HS256 required, as the claims and
    [token.Valid]. *)
Class JwtLib : Type := {
  jwt_sign : Claims -> string -> res string;
  jwt_parse : string -> string -> string -> res (Claims * bool);
}.

Definition auth_New (cfg : Config) : AuthService := {|
  as_issuer := jwt_Issuer (config_JWT cfg);
  as_secret := jwt_Secret (config_JWT cfg);
  as_ttl := jwt_TTL (config_JWT cfg);
  as_clientID := auth_ClientID (config_Auth cfg);
  as_clientSecret := auth_ClientSecret (config_Auth cfg);
  as_verifier := None |}.

(** [NewRuntime]: [jwks] is the outcome of [authn.NewJWKSVerifier] on the URL,
    issuer and audience. *)
Definition auth_NewRuntime (cfg : Config)
    (jwks : string -> string -> string -> res (string -> res Principal)) : res AuthService :=
  let service := auth_New cfg in
  let a := config_Auth cfg in
  if empty (auth_JWKSURL a) then Ok service
  else
    match jwks (auth_JWKSURL a) (auth_Issuer a) (auth_Audience a) with
    | Err e => Err (EWrap "configure identity token verifier" e)
    | Ok verifier =>
        Ok {| as_issuer := as_issuer service; as_secret := as_secret service;
              as_ttl := as_ttl service; as_clientID := as_clientID service;
              as_clientSecret := as_clientSecret service; as_verifier := Some verifier |}
    end.

Definition auth_Enabled (s : AuthService) : bool :=
  (32 <=? len (as_secret s)) && negb (empty (as_clientID s)) && negb (empty (as_clientSecret s)).

Definition auth_Authenticate (s : AuthService) (clientID clientSecret : string) : bool :=
  if negb (auth_Enabled s) then false
  else ConstantTimeCompare clientID (as_clientID s) &&
       ConstantTimeCompare clientSecret (as_clientSecret s).

Definition randomID (rnd : res (list ascii)) : res string :=
  match rnd with Err e => Err e | Ok b => Ok (base64_raw_url b) end.

Section auth.
Context `{JwtLib}.

Definition auth_Issue (s : AuthService) (now : Z) (rnd : res (list ascii)) (subject : string) :
    res string :=
  fail_if negb (auth_Enabled s) with "authentication is not configured";
  match randomID rnd with
  | Err e => Err (EWrap "create token id" e)
  | Ok jti =>
      jwt_sign {| cl_Issuer := as_issuer s; cl_Subject := subject; cl_ID := jti;
                  cl_IssuedAt := now; cl_NotBefore := now; cl_ExpiresAt := now + as_ttl s |} (as_secret s)
  end.

Definition auth_Parse (s : AuthService) (raw : string) : res Claims :=
  fail_if negb (auth_Enabled s) with "authentication is not configured";
  match jwt_parse (as_secret s) (as_issuer s) raw with
  | Err e => Err (EWrap "parse jwt" e)
  | Ok (claims, valid) =>
      fail_if negb valid with "invalid jwt claims"; Ok claims
  end.

Definition auth_Verify (s : AuthService) (raw : string) : res Principal :=
  match as_verifier s with
  | Some verify => verify raw
  | None =>
      try claims := auth_Parse s raw in
      Ok {| pr_ID := cl_Subject claims; pr_ServiceAccount := true |}
  end.

(** ** gRPC *)

Definition unauthenticated (m : string) : grpc_status := GStatus Unauthenticated m.

Definition psk_principal : Principal :=
  {| pr_ID := "service-registry-service:psk"; pr_ServiceAccount := true |}.

(** What the interceptors keep in a call's context: the incoming metadata, the
    values they add, and the response header set so far. *)
Record grpc_ctx : Type := {
  gc_metadata : string -> list string;
  gc_environment : string;
  gc_request_id : string;
  gc_idempotency : option string;
  gc_principal : option Principal;
  gc_header : list (string * string);
}.

Definition environment_WithContext (ctx : grpc_ctx) (profile : string) : grpc_ctx :=
  {| gc_metadata := gc_metadata ctx; gc_environment := profile;
     gc_request_id := gc_request_id ctx; gc_idempotency := gc_idempotency ctx;
     gc_principal := gc_principal ctx; gc_header := gc_header ctx |}.

Definition requestid_WithContext (ctx : grpc_ctx) (id : string) : grpc_ctx :=
  {| gc_metadata := gc_metadata ctx; gc_environment := gc_environment ctx;
     gc_request_id := id; gc_idempotency := gc_idempotency ctx;
     gc_principal := gc_principal ctx; gc_header := gc_header ctx |}.

Definition idempotency_WithContext (ctx : grpc_ctx) (key : string) : grpc_ctx :=
  {| gc_metadata := gc_metadata ctx; gc_environment := gc_environment ctx;
     gc_request_id := gc_request_id ctx; gc_idempotency := Some key;
     gc_principal := gc_principal ctx; gc_header := gc_header ctx |}.

Definition principal_WithContext (ctx : grpc_ctx) (p : Principal) : grpc_ctx :=
  {| gc_metadata := gc_metadata ctx; gc_environment := gc_environment ctx;
     gc_request_id := gc_request_id ctx; gc_idempotency := gc_idempotency ctx;
     gc_principal := Some p; gc_header := gc_header ctx |}.

Definition set_header (ctx : grpc_ctx) (name value : string) : grpc_ctx :=
  {| gc_metadata := gc_metadata ctx; gc_environment := gc_environment ctx;
     gc_request_id := gc_request_id ctx; gc_idempotency := gc_idempotency ctx;
     gc_principal := gc_principal ctx; gc_header := gc_header ctx ++ [(name, value)] |}.

(** [authenticateGRPC]: the context the call goes on with, or the status. *)
Definition authenticateGRPC (ctx : grpc_ctx) (method : string) (service : AuthService)
    (cfg : Auth) : grpc_ctx + grpc_status :=
  let values := gc_metadata ctx "authorization" in
  let psk := auth_PSK cfg in
  if psk_Enabled psk && MatchesAny method (psk_GRPCMethods psk) then
    match values with
    | v :: _ =>
        if VerifyPSK v (psk_Key psk) then inl (principal_WithContext ctx psk_principal)
        else inr (unauthenticated "missing or invalid PSK")
    | [] => inr (unauthenticated "missing or invalid PSK")
    end
  else if MatchesAny method (auth_SkipGRPCMethods cfg) then inl ctx
  else
    match values with
    | [] => inr (unauthenticated "missing bearer token")
    | v :: _ =>
        let '(scheme, raw, ok) := cut space v in
        if negb ok || negb (EqualFold scheme "Bearer") then
          inr (unauthenticated "invalid bearer token")
        else
          match auth_Verify service raw with
          | Err _ => inr (unauthenticated "invalid or expired token")
          | Ok who => inl (principal_WithContext ctx who)
          end
    end.

(** A handler replies, returns a status error, or panics. *)
Inductive call_outcome (A : Type) : Type :=
  | Reply (a : A)
  | Failed (s : grpc_status)
  | Panicked.
Global Arguments Reply {A} a.
Global Arguments Failed {A} s.
Global Arguments Panicked {A}.

(** A unary handler gets the context; a stream handler gets a stream with that
    context, so both have this type ([A] is [unit] for a stream). *)
Definition call_handler (A : Type) : Type := grpc_ctx -> handler (call_outcome A).
Definition interceptor : Type := forall A, string -> call_handler A -> call_handler A.

Definition environmentInterceptor (profile : string) : interceptor := fun A method handler ctx =>
  handler (environment_WithContext ctx profile).

Definition environmentStreamInterceptor (profile : string) : interceptor :=
  fun A method handler stream => handler (environment_WithContext stream profile).

(** The id of the call: the caller's when it is valid, else the generated one. *)
Definition choose_request_id (values : list string) (generated : string) : string :=
  match values with
  | v :: _ => if requestid_Valid v then v else generated
  | [] => generated
  end.

(** [sent]: [grpc.SetHeader] took the header (it fails once headers are sent). *)
Definition requestIDInterceptor (generated : string) (sent : bool) : interceptor :=
  fun A method handler ctx =>
  let id := choose_request_id (gc_metadata ctx "x-request-id") generated in
  let ctx := if sent then set_header ctx "x-request-id" id else ctx in
  handler (requestid_WithContext ctx id).

Definition requestIDStreamInterceptor (generated : string) (sent : bool) : interceptor :=
  fun A method handler stream =>
  let id := choose_request_id (gc_metadata stream "x-request-id") generated in
  if negb sent then Ret (Failed (GStatus Internal "set request metadata"))
  else handler (requestid_WithContext (set_header stream "x-request-id" id) id).

(** [valid] is the platform's [idempotency.Valid]. *)
Definition idempotencyInterceptor (valid : string -> bool) : interceptor := fun A method handler ctx =>
  match gc_metadata ctx "idempotency-key" with
  | [] => handler ctx
  | key :: _ =>
      if negb (valid key) then Ret (Failed (GStatus InvalidArgument "invalid idempotency-key"))
      else handler (idempotency_WithContext ctx key)
  end.

Definition idempotencyStreamInterceptor (valid : string -> bool) : interceptor :=
  fun A method handler stream =>
  match gc_metadata stream "idempotency-key" with
  | [] => handler stream
  | key :: _ =>
      if negb (valid key) then Ret (Failed (GStatus InvalidArgument "invalid idempotency-key"))
      else handler (idempotency_WithContext stream key)
  end.

Definition recoveryInterceptor : interceptor := fun A method handler ctx =>
  let* result := handler ctx in
  match result with
  | Panicked => Ret (Failed (GStatus Internal "internal server error"))
  | _ => Ret result
  end.

Definition recoveryStreamInterceptor : interceptor := fun A method handler stream =>
  let* result := handler stream in
  match result with
  | Panicked => Ret (Failed (GStatus Internal "internal server error"))
  | _ => Ret result
  end.

Definition authInterceptor (service : AuthService) (cfg : Auth) : interceptor :=
  fun A method handler ctx =>
  match authenticateGRPC ctx method service cfg with
  | inr err => Ret (Failed err)
  | inl authCtx => handler authCtx
  end.

Definition authStreamInterceptor (service : AuthService) (cfg : Auth) : interceptor :=
  fun A method handler stream =>
  match authenticateGRPC stream method service cfg with
  | inr err => Ret (Failed err)
  | inl ctx => handler ctx
  end.

(** [status.Code(err)] of an outcome: [None] is OK. *)
Definition outcome_code {A} (o : call_outcome A) : option grpc_code :=
  match o with Failed s => Some (st_code s) | _ => None end.

(** [name] is [codes.Code.String]; a panic passes before anything is counted. *)
Definition metricsInterceptor (enabled : bool) (name : option grpc_code -> string) : interceptor :=
  fun A method handler ctx =>
  let* result := handler ctx in
  match result with
  | Panicked => Ret Panicked
  | _ =>
      if enabled then
        let* _ := call (ECount method (name (outcome_code result))) in Ret result
      else Ret result
  end.

Definition metricsStreamInterceptor (enabled : bool) (name : option grpc_code -> string) : interceptor :=
  fun A method handler stream =>
  let* result := handler stream in
  match result with
  | Panicked => Ret Panicked
  | _ =>
      if enabled then
        let* _ := call (ECount method (name (outcome_code result))) in Ret result
      else Ret result
  end.

(** ** Authorization requirements *)

Record Requirement : Type := { rq_Resource : string; rq_Action : string; rq_Scope : string }.

Definition platform_requirement (resource action : string) : Requirement :=
  {| rq_Resource := resource; rq_Action := action; rq_Scope := "platform" |}.

(** The full method names are constants of the generated package. *)
Record RegistryMethods : Type := {
  m_RegisterInstance : string; m_RenewLease : string; m_DeregisterInstance : string;
  m_SetInstanceStatus : string; m_GetInstance : string; m_ListInstances : string;
  m_ListServices : string; m_WatchService : string;
}.

Definition grpc_requirements (m : RegistryMethods) : list (string * Requirement) :=
  [ (m_RegisterInstance m, platform_requirement "service_registry.instance" "register");
    (m_RenewLease m, platform_requirement "service_registry.instance" "renew");
    (m_DeregisterInstance m, platform_requirement "service_registry.instance" "deregister");
    (m_SetInstanceStatus m, platform_requirement "service_registry.instance" "update_status");
    (m_GetInstance m, platform_requirement "service_registry.instance" "read");
    (m_ListInstances m, platform_requirement "service_registry.instance" "list");
    (m_ListServices m, platform_requirement "service_registry.service" "list");
    (m_WatchService m, platform_requirement "service_registry.service" "watch") ].

Definition registryGRPCRequirement (m : RegistryMethods) (enabled : bool) (method : string) :
    option Requirement :=
  if negb enabled then None
  else (list_to_map (grpc_requirements m) : gmap string Requirement) !! method.

(** The platform's two interceptors: authorization, given the requirement of the
    method, and the replay of idempotent calls to the configured methods. *)
Record Platform : Type := {
  pf_authz : option Requirement -> interceptor;
  pf_replay : list string -> interceptor;
}.

(** The unary chain of [NewServer]. *)
Definition unary_chain (cfg : Config) (generated : string) (sent : bool) (valid : string -> bool)
    (service : AuthService) (platform : Platform) (name : option grpc_code -> string)
    (m : RegistryMethods) : interceptor := fun A method handler =>
  environmentInterceptor (runtime_ActiveProfile (config_Runtime cfg)) A method
    (requestIDInterceptor generated sent A method
      (idempotencyInterceptor valid A method
        (recoveryInterceptor A method
          (authInterceptor service (config_Auth cfg) A method
            (pf_authz platform
               (registryGRPCRequirement m (authorization_Enabled (config_Authorization cfg)) method) A method
              (pf_replay platform (idempotency_GRPCMethods (config_Idempotency cfg)) A method
                (metricsInterceptor (observability_MetricsEnabled (config_Observability cfg)) name A method
                   handler))))))).

(** The stream chain: the same order, without the replay. *)
Definition stream_chain (cfg : Config) (generated : string) (sent : bool) (valid : string -> bool)
    (service : AuthService) (platform : Platform) (name : option grpc_code -> string)
    (m : RegistryMethods) : interceptor := fun A method handler =>
  environmentStreamInterceptor (runtime_ActiveProfile (config_Runtime cfg)) A method
    (requestIDStreamInterceptor generated sent A method
      (idempotencyStreamInterceptor valid A method
        (recoveryStreamInterceptor A method
          (authStreamInterceptor service (config_Auth cfg) A method
            (pf_authz platform
               (registryGRPCRequirement m (authorization_Enabled (config_Authorization cfg)) method) A method
              (metricsStreamInterceptor (observability_MetricsEnabled (config_Observability cfg)) name A method
                 handler)))))).

End auth.
