(* ===== verification/AccessFacts.v ===== *)
(** * What authentication guarantees

    Request ids are well formed, the PSK check accepts exactly the key, a gRPC
    handler runs only for a caller the configuration lets in, and each interceptor
    chain decides about a call exactly. *)

From S2P Require Import Prelude GoText Utf8 Regex Redis PathMatch Config ConfigFacts GrpcRegistry Access.

Local Open Scope Z_scope.
Local Open Scope go_scope.

(** ** Request ids *)

Lemma lor_ge_l a b : 0 <= a -> 0 <= b -> a <= Z.lor a b.
Proof.
  intros Ha Hb. apply Z.ldiff_le; [apply Z.lor_nonneg; lia|].
  apply Z.bits_inj'. intros i Hi. rewrite Z.ldiff_spec, Z.lor_spec, Z.bits_0.
  by destruct (Z.testbit a i).
Qed.

Lemma lor_ge_r a b : 0 <= a -> 0 <= b -> b <= Z.lor a b.
Proof. rewrite Z.lor_comm. intros. by apply lor_ge_l. Qed.

Lemma land_mask x n m : 0 <= n -> m = 2 ^ n - 1 -> Z.land x m = x mod 2 ^ n.
Proof. intros Hn ->. rewrite <- Z.land_ones by done. by rewrite Z.ones_equiv, <- Z.sub_1_r. Qed.

Lemma mask_nonneg x n m : 0 <= n -> m = 2 ^ n - 1 -> 0 <= Z.land x m.
Proof.
  intros Hn Hm. rewrite (land_mask x n m Hn Hm). apply Z.mod_pos_bound. by apply Z.pow_pos_nonneg.
Qed.

Lemma shift_ge x n k : 0 <= n -> k <= x -> k * 2 ^ n <= Z.shiftl x n.
Proof.
  intros Hn Hx. rewrite Z.shiftl_mul_pow2 by done.
  apply Z.mul_le_mono_nonneg_r; [by apply Z.pow_nonneg|done].
Qed.

Lemma decode2_high b0 b1 : 194 <= b0 <= 223 ->
  128 <= Z.lor (Z.shiftl (Z.land b0 31) 6) (Z.land b1 63).
Proof.
  intros Hb. pose proof (mask_nonneg b1 6 63 ltac:(lia) eq_refl).
  rewrite (land_mask b0 5 31) by done.
  assert (2 <= b0 mod 2 ^ 5) by (Z.to_euclidean_division_equations; lia).
  pose proof (shift_ge (b0 mod 2 ^ 5) 6 2 ltac:(lia) ltac:(lia)).
  pose proof (lor_ge_l (Z.shiftl (b0 mod 2 ^ 5) 6) (Z.land b1 63)). lia.
Qed.

Lemma decode3_high b0 b1 b2 : 224 <= b0 <= 239 -> (b0 = 224 -> 160 <= b1 <= 191) ->
  128 <= Z.lor (Z.shiftl (Z.land b0 15) 12) (Z.lor (Z.shiftl (Z.land b1 63) 6) (Z.land b2 63)).
Proof.
  intros Hb H1. pose proof (mask_nonneg b1 6 63 ltac:(lia) eq_refl) as N1.
  pose proof (mask_nonneg b2 6 63 ltac:(lia) eq_refl) as N2.
  pose proof (mask_nonneg b0 4 15 ltac:(lia) eq_refl) as N0.
  pose proof (shift_ge _ 12 0 ltac:(lia) N0) as S0. pose proof (shift_ge _ 6 0 ltac:(lia) N1) as S1.
  pose proof (lor_ge_l (Z.shiftl (Z.land b1 63) 6) (Z.land b2 63) ltac:(lia) N2) as L1.
  destruct (Z.eq_dec b0 224) as [->|Hne].
  - pose proof (lor_ge_r (Z.shiftl (Z.land 224 15) 12)
      (Z.lor (Z.shiftl (Z.land b1 63) 6) (Z.land b2 63)) ltac:(lia) ltac:(lia)).
    assert (32 <= Z.land b1 63) as H32.
    { rewrite (land_mask b1 6 63) by done. specialize (H1 eq_refl).
      Z.to_euclidean_division_equations; lia. }
    pose proof (shift_ge _ 6 32 ltac:(lia) H32). lia.
  - assert (1 <= Z.land b0 15) as H15.
    { rewrite (land_mask b0 4 15) by done. Z.to_euclidean_division_equations; lia. }
    pose proof (shift_ge _ 12 1 ltac:(lia) H15).
    pose proof (lor_ge_l (Z.shiftl (Z.land b0 15) 12)
      (Z.lor (Z.shiftl (Z.land b1 63) 6) (Z.land b2 63)) ltac:(lia) ltac:(lia)). lia.
Qed.

Lemma decode4_high b0 b1 b2 b3 : 240 <= b0 <= 244 -> (b0 = 240 -> 144 <= b1 <= 191) ->
  128 <= Z.lor (Z.shiftl (Z.land b0 7) 18) (Z.lor (Z.shiftl (Z.land b1 63) 12)
    (Z.lor (Z.shiftl (Z.land b2 63) 6) (Z.land b3 63))).
Proof.
  intros Hb H1. pose proof (mask_nonneg b1 6 63 ltac:(lia) eq_refl) as N1.
  pose proof (mask_nonneg b2 6 63 ltac:(lia) eq_refl) as N2.
  pose proof (mask_nonneg b3 6 63 ltac:(lia) eq_refl) as N3.
  pose proof (mask_nonneg b0 3 7 ltac:(lia) eq_refl) as N0.
  pose proof (shift_ge _ 18 0 ltac:(lia) N0) as S0. pose proof (shift_ge _ 12 0 ltac:(lia) N1) as S1.
  pose proof (shift_ge _ 6 0 ltac:(lia) N2) as S2.
  set (low := Z.lor (Z.shiftl (Z.land b2 63) 6) (Z.land b3 63)).
  assert (0 <= low) as Hlow by (apply Z.lor_nonneg; lia).
  pose proof (lor_ge_l (Z.shiftl (Z.land b1 63) 12) low ltac:(lia) Hlow) as L1.
  destruct (Z.eq_dec b0 240) as [->|Hne].
  - pose proof (lor_ge_r (Z.shiftl (Z.land 240 7) 18) (Z.lor (Z.shiftl (Z.land b1 63) 12) low)
      ltac:(lia) ltac:(lia)).
    assert (16 <= Z.land b1 63) as H16.
    { rewrite (land_mask b1 6 63) by done. specialize (H1 eq_refl).
      Z.to_euclidean_division_equations; lia. }
    pose proof (shift_ge _ 12 16 ltac:(lia) H16). lia.
  - assert (1 <= Z.land b0 7) as H7.
    { rewrite (land_mask b0 3 7) by done. Z.to_euclidean_division_equations; lia. }
    pose proof (shift_ge _ 18 1 ltac:(lia) H7).
    pose proof (lor_ge_l (Z.shiftl (Z.land b0 7) 18) (Z.lor (Z.shiftl (Z.land b1 63) 12) low)
      ltac:(lia) ltac:(lia)). lia.
Qed.

Ltac range_bools :=
  unfold between, cont in *;
  repeat match goal with
  | E : _ && _ = true |- _ => apply andb_prop in E as [? ?]
  | E : (_ <=? _) = true |- _ => apply Z.leb_le in E
  | E : (_ <? _) = false |- _ => apply Z.ltb_ge in E
  end.

(** A byte of 128 or more decodes to a rune of 128 or more; a smaller one to
    itself. *)
Lemma decode_rune_high b0 t : 128 <= b0 -> 128 <= (decode_rune (b0 :: t)).1.1.
Proof.
  intros Hb. unfold decode_rune. rewrite (proj2 (Z.ltb_ge _ _)) by lia.
  destruct (between 194 223 b0) eqn:E2.
  { destruct t as [|b1 t]; [by vm_compute|]. destruct (cont b1); [|by vm_compute].
    cbn [fst]. apply decode2_high. range_bools. lia. }
  destruct (between 224 239 b0) eqn:E3.
  { destruct t as [|b1 [|b2 t]]; [by vm_compute..|]. destruct (_ && cont b2) eqn:E; [|by vm_compute].
    cbn [fst]. apply decode3_high; [range_bools; lia|]. intros ->. simpl in E. range_bools. lia. }
  destruct (between 240 244 b0) eqn:E4; [|by vm_compute].
  destruct t as [|b1 [|b2 [|b3 t]]]; [by vm_compute..|].
  destruct (_ && cont b2 && cont b3) eqn:E; [|by vm_compute].
  cbn [fst]. apply decode4_high; [range_bools; lia|]. intros ->. simpl in E. range_bools. lia.
Qed.

(** A test that only ASCII runes pass can be made byte by byte. *)
Lemma forallb_runes (f : Z -> bool) n (l : list Z) :
  (forall r, f r = true -> r < 128) -> (length l <= n)%nat ->
  forallb f (runes_fuel n l).*1 = forallb f l.
Proof.
  intros Hf. revert l. induction n as [|n IH]; intros l Hl.
  { by destruct l; simpl in *; [|lia]. }
  destruct l as [|b t]; [done|]. cbn [runes_fuel]. destruct (Z.ltb_spec b 128) as [Hb|Hb].
  - unfold decode_rune. rewrite (proj2 (Z.ltb_lt _ _)) by done.
    cbn [fmap list_fmap forallb fst drop]. rewrite drop_0, IH; [done|simpl in Hl; lia].
  - pose proof (decode_rune_high b t Hb) as Hr. destruct (decode_rune (b :: t)) as [[r w] ok].
    cbn [fst fmap list_fmap forallb] in *.
    destruct (f r) eqn:E; [apply Hf in E; lia|].
    destruct (f b) eqn:Eb; [apply Hf in Eb; lia|]. done.
Qed.

Lemma allowed_ascii r : allowedCharacter r = true -> r < 128.
Proof.
  unfold allowedCharacter, between. intros H.
  repeat (apply orb_prop in H as [H|H]);
    first [apply andb_prop in H as [_ H%Z.leb_le]; lia | apply Z.eqb_eq in H; lia].
Qed.

Lemma requestid_Valid_bytes v :
  requestid_Valid v = true <->
  1 <= len v <= 128 /\ forallb allowedCharacter (byte_vals v) = true.
Proof.
  unfold requestid_Valid, empty, len, runes, decoded.
  rewrite forallb_runes by (done || apply allowed_ascii).
  destruct (bool_decide (v = EmptyString)) eqn:E; [apply bool_decide_eq_true in E; subst; simpl; split; [done|lia]|].
  apply bool_decide_eq_false in E. assert (1 <= Z.of_nat (String.length v)).
  { destruct v; [done|]. simpl. lia. }
  cbn [orb]. destruct (Z.ltb_spec 128 (Z.of_nat (String.length v))); [split; [done|lia]|].
  split; [intros ->; split; [lia|done]|]. by intros [_ ->].
Qed.

Lemma pick_hex i : 0 <= i < 16 -> allowedCharacter (byte_val (pick hex_alphabet i)) = true.
Proof.
  intros Hi.
  assert (In i [0;1;2;3;4;5;6;7;8;9;10;11;12;13;14;15]) as Hin by (simpl; lia).
  repeat (destruct Hin as [<-|Hin]; [reflexivity|]). done.
Qed.

Lemma hex_encode_allowed l : forallb allowedCharacter (byte_vals (hex_encode l)) = true.
Proof.
  induction l as [|c l IH]; [done|]. cbn [hex_encode byte_vals bytes_of_string String.list_ascii_of_string fmap list_fmap forallb].
  pose proof (byte_val_range c).
  rewrite !pick_hex; [exact IH|..].
  - split; [apply Z.land_nonneg; lia|]. rewrite (land_mask _ 4 15) by done.
    pose proof (Z.mod_pos_bound (byte_val c) (2 ^ 4)). lia.
  - rewrite Z.shiftr_div_pow2 by lia. Z.to_euclidean_division_equations; lia.
Qed.

Lemma hex_encode_len l : len (hex_encode l) = 2 * Z.of_nat (length l).
Proof. unfold len. induction l as [|c l IH]; [done|]. cbn [hex_encode String.length length]. lia. Qed.

(** The request id of a call is always 1 to 128 letters, digits, dots,
    hyphens or underscores: the caller's own when it has that form (checking the
    runes is checking the bytes), and otherwise the generated one. *)
Lemma request_id_well_formed values rnd nanos :
  length rnd = 16%nat ->
  let id := choose_request_id values (requestid_Generate (Ok rnd) nanos) in
  1 <= len id <= 128 /\ forallb allowedCharacter (byte_vals id) = true /\
  (forall v rest, values = v :: rest -> requestid_Valid v = true -> id = v).
Proof.
  intros Hl id. assert (requestid_Valid id = true) as Hv.
  { assert (requestid_Valid (requestid_Generate (Ok rnd) nanos) = true) as Hg.
    { apply requestid_Valid_bytes. cbn [requestid_Generate]. rewrite hex_encode_len, Hl.
      split; [lia|apply hex_encode_allowed]. }
    unfold id, choose_request_id. destruct values as [|v rest]; [done|].
    by destruct (requestid_Valid v) eqn:E. }
  apply requestid_Valid_bytes in Hv as [H1 H2]. split_and!; [lia..|done|].
  intros v rest -> Hv. unfold id, choose_request_id. by rewrite Hv.
Qed.

Lemma request_id_well_formed_witness :
  requestid_Valid (choose_request_id ["bad id"] (requestid_Generate (Ok (replicate 16 "x"%char)) 0)) = true.
Proof.
  destruct (request_id_well_formed ["bad id"] (replicate 16 "x"%char) 0 eq_refl) as (H1 & H2 & _).
  apply requestid_Valid_bytes. exact (conj H1 H2).
Defined.

(** ** PSK and bearer headers *)

(** [cut] found the separator: the string is what it returned around it. *)
Lemma cut_inv sep s a b : cut sep s = (a, b, true) -> s = a +:+ String sep b.
Proof.
  revert a b. induction s as [|c s IH]; intros a b; cbn [cut]; [done|].
  destruct (bool_decide (c = sep)) eqn:E.
  - apply bool_decide_eq_true in E as ->. by intros [= <- <-].
  - destruct (cut sep s) as [[a' b'] ok] eqn:Ec. intros [= <- <- ->].
    by rewrite (IH a' b' eq_refl).
Qed.

(** The PSK check accepts exactly the headers made of the scheme PSK (in any
    case), one space and the configured key, and only a non-empty key. *)
Lemma VerifyPSK_spec authorization expected :
  VerifyPSK authorization expected = true <->
  expected <> EmptyString /\
  exists scheme, cut space authorization = (scheme, expected, true) /\ EqualFold scheme "PSK" = true.
Proof.
  unfold VerifyPSK, ConstantTimeCompare, empty.
  destruct (cut space authorization) as [[scheme supplied] ok] eqn:Ec.
  destruct ok; cbn [negb orb]; [|naive_solver].
  destruct (EqualFold scheme "PSK") eqn:Ef; cbn [negb orb].
  2: { split; [done|]. intros (_ & s & [= <- <-] & Es). congruence. }
  destruct (bool_decide (supplied = EmptyString)) eqn:Ee; cbn [orb].
  { apply bool_decide_eq_true in Ee as ->. split; [done|]. intros (Hne & s & [= <- <-] & _). done. }
  apply bool_decide_eq_false in Ee. destruct (Z.eqb_spec (len supplied) (len expected)); cbn [negb].
  - split; [intros H%bool_decide_eq_true; subst; eauto|]. intros (_ & s & [= <- <-] & _).
    by apply bool_decide_eq_true_2.
  - split; [done|]. intros (_ & s & [= <- <-] & _). done.
Qed.

Section grpc.
Context `{JwtLib}.

(** The route is a PSK route. *)
Definition psk_route (method : string) (cfg : Auth) : bool :=
  psk_Enabled (auth_PSK cfg) && MatchesAny method (psk_GRPCMethods (auth_PSK cfg)).

(** Who the authorization values [values] make the caller of [method], if the
    call is let in at all: on a PSK route the PSK principal, with the key (a skip
    pattern does not open a PSK route); on a skipped method nobody; elsewhere the
    principal of a bearer token the service verifies. *)
Definition admits (values : list string) (method : string) (service : AuthService) (cfg : Auth)
    (o : option Principal) : Prop :=
  if psk_route method cfg then
    o = Some psk_principal /\
    exists v rest, values = v :: rest /\ VerifyPSK v (psk_Key (auth_PSK cfg)) = true
  else if MatchesAny method (auth_SkipGRPCMethods cfg) then o = None
  else exists p v rest scheme raw, o = Some p /\ values = v :: rest /\
    cut space v = (scheme, raw, true) /\ EqualFold scheme "Bearer" = true /\
    auth_Verify service raw = Ok p.

(** The context of the call with that caller. *)
Definition with_caller (ctx : grpc_ctx) (o : option Principal) : grpc_ctx :=
  match o with Some p => principal_WithContext ctx p | None => ctx end.

Lemma authenticate_iff ctx method service cfg ctx' :
  authenticateGRPC ctx method service cfg = inl ctx' <->
  exists o, admits (gc_metadata ctx "authorization") method service cfg o /\
    ctx' = with_caller ctx o.
Proof.
  unfold authenticateGRPC, admits. fold (psk_route method cfg).
  destruct (psk_route method cfg).
  { destruct (gc_metadata ctx "authorization") as [|v rest].
    - split; [done|]. intros (o & (_ & v & rest & Hv & _) & _). done.
    - destruct (VerifyPSK v _) eqn:E; split; [| |done|].
      + intros [= <-]. exists (Some psk_principal). split; [eauto|done].
      + intros (o & (-> & _) & ->). done.
      + intros (o & (_ & v' & rest' & [= <- <-] & E') & _). congruence. }
  destruct (MatchesAny method (auth_SkipGRPCMethods cfg)).
  { split; [intros [= <-]; by exists None|]. by intros (o & -> & ->). }
  destruct (gc_metadata ctx "authorization") as [|v rest].
  { split; [done|]. by intros (o & (p & v & rest & sc & raw & _ & Hv & _) & _). }
  destruct (cut space v) as [[scheme raw] ok] eqn:Ec.
  split.
  - destruct ok; [|done]. destruct (EqualFold scheme "Bearer") eqn:Ef; [|done]. cbn [negb orb].
    destruct (auth_Verify service raw) as [p|e] eqn:Ev; [|done]. intros [= <-].
    exists (Some p). split; [|done]. by exists p, v, rest, scheme, raw.
  - intros (o & (p & v' & rest' & sc & raw' & -> & [= <- <-] & Hc & Hf & Hv) & ->).
    rewrite Ec in Hc. injection Hc as <- <- ->. by rewrite Hf, Hv.
Qed.

(** C20: gRPC authentication, exactly: a call goes on if and only if its
    authorization values admit it to the method, and it goes on with its context
    changed by nothing but the principal it was admitted as. *)
Theorem authenticateGRPC_exact ctx method service cfg ctx' :
  authenticateGRPC ctx method service cfg = inl ctx' <->
  exists o, admits (gc_metadata ctx "authorization") method service cfg o /\
    ctx' = with_caller ctx o.
Proof. apply authenticate_iff. Qed.

(** What the platform's interceptors promise.  Authorization goes on with the call
    as it is when the method has no requirement or the decision [allowed] is for it,
    and answers with a status otherwise. *)
Definition enforces (platform : Platform) (allowed : Requirement -> grpc_ctx -> Prop) : Prop :=
  forall req A method ctx,
    ((forall q, req = Some q -> allowed q ctx) /\
     forall h, pf_authz platform req A method h ctx = h ctx) \/
    (exists q s, req = Some q /\ ~ allowed q ctx /\
     forall h, pf_authz platform req A method h ctx = Ret (Failed s)).

(** What the replay does around a call: it asks its store; then it answers for the
    handler, or the handler runs and the rest is given what came of it. *)
Definition replay (A : Type) : Type :=
  gprog (call_outcome A + (call_outcome A -> gprog (call_outcome A))).

Fixpoint ask {A} (p : gprog A) : handler A :=
  match p with
  | Ret a => Ret a
  | Do c k => Do (EPlatform c) (fun o =>
      match o with
      | EReply r => ask (k r)
      | EError _ => ask (k (RFail "no reply"))
      end)
  end.

Definition around {A} (w : replay A) (h : handler (call_outcome A)) : handler (call_outcome A) :=
  let* x := ask w in
  match x with
  | inl o => Ret o
  | inr publish => let* o := h in ask (publish o)
  end.

(** A replay makes nothing up: once the handler has run, the call is answered with what
    the handler returned or fails, whatever the store says. *)
Definition genuine {A} (w : replay A) : Prop :=
  returns (fun _ _ => True) (fun x => match x with
    | inl _ => True
    | inr publish => forall o,
        returns (fun _ _ => True) (fun o' => o' = o \/ exists s, o' = Failed s) (publish o)
    end) w.

(** What the replay promises: a call goes on as it is, always when it has no idempotency
    key, or is replayed genuinely.  The store is the platform's own: what
    it answers is left open, and its keys are not those of the registry. *)
Definition replays (platform : Platform) : Prop :=
  forall methods A method ctx,
    (forall h, pf_replay platform methods A method h ctx = h ctx) \/
    (gc_idempotency ctx <> None /\ exists w, genuine w /\
      forall h, pf_replay platform methods A method h ctx = around w (h ctx)).

(** The context an admitted call goes on with: it carries the principal the call was
    admitted as, the active profile, the chosen request id and the idempotency key. *)
Definition admitted_call (cfg : Config) (generated : string) (service : AuthService)
    (method : string) (ctx ctx' : grpc_ctx) : Prop :=
  admits (gc_metadata ctx "authorization") method service (config_Auth cfg) (gc_principal ctx') /\
  gc_environment ctx' = runtime_ActiveProfile (config_Runtime cfg) /\
  gc_request_id ctx' = choose_request_id (gc_metadata ctx "x-request-id") generated /\
  gc_idempotency ctx' = head (gc_metadata ctx "idempotency-key").

(** Why a call is refused, and with what: its idempotency key is malformed, it is not
    admitted to the method, or the authorizer is against it. *)
Inductive call_refused (cfg : Config) (generated : string) (valid : string -> bool) (service : AuthService)
    (allowed : Requirement -> grpc_ctx -> Prop) (req : option Requirement) (method : string)
    (ctx : grpc_ctx) : grpc_status -> Prop :=
  | refused_key key rest :
      gc_metadata ctx "idempotency-key" = key :: rest -> valid key = false ->
      call_refused cfg generated valid service allowed req method ctx
        (GStatus InvalidArgument "invalid idempotency-key")
  | refused_caller st :
      (forall o, ~ admits (gc_metadata ctx "authorization") method service (config_Auth cfg) o) ->
      st_code st = Unauthenticated ->
      call_refused cfg generated valid service allowed req method ctx st
  | refused_authz ctx' q st :
      admitted_call cfg generated service method ctx ctx' -> req = Some q -> ~ allowed q ctx' ->
      call_refused cfg generated valid service allowed req method ctx st.

(** What is left around the handler of an admitted call. *)
Definition observed_call (cfg : Config) (name : option grpc_code -> string) : interceptor :=
  fun A method h =>
  recoveryInterceptor A method
    (metricsInterceptor (observability_MetricsEnabled (config_Observability cfg)) name A method h).

(** The same with a replay around the counted handler. *)
Definition replayed_call {A} (w : replay A) (cfg : Config) (name : option grpc_code -> string)
    (method : string) (h : call_handler A) : call_handler A :=
  recoveryInterceptor A method (fun ctx => around w
    (metricsInterceptor (observability_MetricsEnabled (config_Observability cfg)) name A method h ctx)).

Lemma with_caller_principal ctx o : gc_principal ctx = None -> gc_principal (with_caller ctx o) = o.
Proof. by destruct o. Qed.

Section chains.
Context (cfg : Config) (generated : string) (valid : string -> bool) (service : AuthService).
Context (platform : Platform) (name : option grpc_code -> string) (m : RegistryMethods).
Context (allowed : Requirement -> grpc_ctx -> Prop) (Henf : enforces platform allowed).

Let req := registryGRPCRequirement m (authorization_Enabled (config_Authorization cfg)).

(** The call is refused with a status, whatever its handler is, for a reason of
    [call_refused]; or its handler runs, under an admitted and allowed context, inside
    the recovery, [inner] and the count. *)
Definition decided (chain inner : interceptor) (A : Type) (method : string) (ctx : grpc_ctx) : Prop :=
  (exists st, (forall h, chain A method h ctx = Ret (Failed st)) /\
     call_refused cfg generated valid service allowed (req method) method ctx st) \/
  (exists ctx', admitted_call cfg generated service method ctx ctx' /\
     (forall q, req method = Some q -> allowed q ctx') /\
     forall h, chain A method h ctx =
       recoveryInterceptor A method (inner A method
         (metricsInterceptor (observability_MetricsEnabled (config_Observability cfg)) name A method h)) ctx').

Lemma refused_unauthenticated ctx method st :
  authenticateGRPC ctx method service (config_Auth cfg) = inr st -> st_code st = Unauthenticated.
Proof.
  unfold authenticateGRPC. intros E. repeat case_match; simplify_eq; done.
Qed.

(** The part of both chains that decides about the call; [inner] is the replay, or
    nothing. *)
Lemma decide_call (inner : interceptor) A method ctx ctx1 :
  gc_metadata ctx1 = gc_metadata ctx -> gc_principal ctx1 = None ->
  gc_environment ctx1 = runtime_ActiveProfile (config_Runtime cfg) ->
  gc_request_id ctx1 = choose_request_id (gc_metadata ctx "x-request-id") generated ->
  gc_idempotency ctx1 = head (gc_metadata ctx "idempotency-key") ->
  decided (fun A method h _ =>
    recoveryInterceptor A method (authInterceptor service (config_Auth cfg) A method
      (pf_authz platform (req method) A method (inner A method
        (metricsInterceptor (observability_MetricsEnabled (config_Observability cfg)) name A method h)))) ctx1)
    inner A method ctx.
Proof.
  intros Hm Hp He Hr Hi.
  destruct (authenticateGRPC ctx1 method service (config_Auth cfg)) as [ctx2|e] eqn:Ea.
  2: { left. exists e. split; [intros h; unfold recoveryInterceptor, authInterceptor; by rewrite Ea|].
       apply refused_caller; [|by eapply refused_unauthenticated]. intros o Ho. rewrite <- Hm in Ho.
       pose proof (proj2 (authenticate_iff ctx1 method service (config_Auth cfg) (with_caller ctx1 o))
         (ex_intro _ o (conj Ho eq_refl))) as Ha. congruence. }
  pose proof Ea as (o & Ho & ->)%authenticate_iff. rewrite Hm in Ho.
  assert (admitted_call cfg generated service method ctx (with_caller ctx1 o)) as Hadm.
  { unfold admitted_call. rewrite with_caller_principal by done. destruct o; by split_and!. }
  destruct (Henf (req method) A method (with_caller ctx1 o)) as [[Hok Hz]|(q & st & Hq & Hno & Hz)].
  2: { left. exists st. split; [|by eapply refused_authz].
       intros h. unfold recoveryInterceptor, authInterceptor. by rewrite Ea, Hz. }
  right. exists (with_caller ctx1 o). split_and!; [done..|]. intros h.
  unfold recoveryInterceptor at 1, authInterceptor. by rewrite Ea, Hz.
Qed.

Lemma decided_inner_unary sent A method ctx :
  gc_principal ctx = None -> gc_idempotency ctx = None ->
  decided (unary_chain cfg generated sent valid service platform name m)
    (pf_replay platform (idempotency_GRPCMethods (config_Idempotency cfg))) A method ctx.
Proof.
  intros Hp Hi. unfold decided, unary_chain, environmentInterceptor, requestIDInterceptor,
    idempotencyInterceptor.
  destruct sent; cbn [gc_metadata requestid_WithContext set_header environment_WithContext];
    (destruct (gc_metadata ctx "idempotency-key") as [|key rest] eqn:Ek;
     [|destruct (valid key) eqn:Ev; cbn [negb]; [|left; eexists; split; [done|by eapply refused_key]]]);
    (eapply (decide_call (pf_replay platform _)); try done; by rewrite Ek).
Qed.

Lemma decided_stream A method ctx :
  gc_principal ctx = None -> gc_idempotency ctx = None ->
  decided (stream_chain cfg generated true valid service platform name m) (fun A method h => h) A method ctx.
Proof.
  intros Hp Hi. unfold decided, stream_chain, environmentStreamInterceptor, requestIDStreamInterceptor,
    idempotencyStreamInterceptor.
  cbn [negb gc_metadata requestid_WithContext set_header environment_WithContext].
  destruct (gc_metadata ctx "idempotency-key") as [|key rest] eqn:Ek;
    [|destruct (valid key) eqn:Ev; cbn [negb]; [|left; eexists; split; [done|by eapply refused_key]]];
    (eapply (decide_call (fun A method h => h)); try done; by rewrite Ek).
Qed.

(** The three ends of a unary call. *)
Definition decided_call (chain : interceptor) (A : Type) (method : string) (ctx : grpc_ctx) : Prop :=
  (exists st, (forall h, chain A method h ctx = Ret (Failed st)) /\
     call_refused cfg generated valid service allowed (req method) method ctx st) \/
  (exists ctx', admitted_call cfg generated service method ctx ctx' /\
     (forall q, req method = Some q -> allowed q ctx') /\
     ((forall h, chain A method h ctx = observed_call cfg name A method h ctx') \/
      (gc_metadata ctx "idempotency-key" <> [] /\ exists w, genuine w /\
       forall h, chain A method h ctx = replayed_call w cfg name method h ctx'))).

Lemma decided_unary sent A method ctx :
  replays platform -> gc_principal ctx = None -> gc_idempotency ctx = None ->
  decided_call (unary_chain cfg generated sent valid service platform name m) A method ctx.
Proof.
  intros Hrep Hp Hi.
  destruct (decided_inner_unary sent A method ctx Hp Hi) as [?|(ctx' & Ha & Hal & E)]; [by left|right].
  exists ctx'. split_and!; [done..|]. pose proof Ha as (_ & _ & _ & Hk).
  destruct (Hrep (idempotency_GRPCMethods (config_Idempotency cfg)) A method ctx') as [Hno|(Hn & w & Hw & Hq)];
    [left|right].
  - intros h. rewrite E. unfold recoveryInterceptor at 1. by rewrite Hno.
  - split; [by intros Hm; rewrite Hm in Hk|]. exists w. split; [done|]. intros h. rewrite E.
    unfold recoveryInterceptor at 1. by rewrite Hq.
Qed.

(** C21: the unary chain decides about a call, exactly.  Either it is refused with a
    status before the handler runs, whatever the handler is, and then the idempotency
    key is malformed (InvalidArgument), the caller is not admitted to the method
    (Unauthenticated), or the authorizer decided against the requirement of the method.
    Or it is admitted, under a context that carries the principal the call was admitted
    as, the active profile, the chosen request id and the idempotency key, and for which
    the authorizer decided; then the handler runs with nothing around it but the recovery
    of panics and the count, or, only when the call carries an idempotency key, with the
    platform's replay inside the recovery and around the count: it asks its store and
    either answers in the place of the handler or runs it and lets its result, or a
    failure, through. *)
Theorem unary_chain_exact sent A method ctx :
  replays platform -> gc_principal ctx = None -> gc_idempotency ctx = None ->
  decided_call (unary_chain cfg generated sent valid service platform name m) A method ctx.
Proof. apply decided_unary. Qed.

(** A stream whose header cannot be set ends with an error. *)
Lemma stream_unsent A method h ctx :
  stream_chain cfg generated false valid service platform name m A method h ctx =
  Ret (Failed (GStatus Internal "set request metadata")).
Proof. done. Qed.

End chains.

End grpc.

(** A library that accepts one token, and the chains on a call that carries it. *)
Definition one_token : JwtLib := {|
  jwt_sign := fun _ _ => Ok "token";
  jwt_parse := fun _ issuer raw =>
    if bool_decide (raw = "token") then
      Ok ({| cl_Issuer := issuer; cl_Subject := "alice"; cl_ID := "1";
             cl_IssuedAt := 0; cl_NotBefore := 0; cl_ExpiresAt := 1 |}, true)
    else Err (ENew "token is malformed") |}.

Definition sample_service : AuthService := {|
  as_issuer := "registry"; as_secret := "0123456789abcdef0123456789abcdef"; as_ttl := 60;
  as_clientID := "id"; as_clientSecret := "secret"; as_verifier := None |}.

Definition bearer_call : grpc_ctx := {|
  gc_metadata := fun name => if bool_decide (name = "authorization") then ["bearer token"] else [];
  gc_environment := ""; gc_request_id := ""; gc_idempotency := None; gc_principal := None;
  gc_header := [] |}.

(** A platform that allows every caller it knows.  Its replay claims the key of a call
    in its store; a key that is taken fails the call; otherwise the handler runs and the
    key is released with what came of it. *)
Definition known_caller (q : Requirement) (ctx : grpc_ctx) : Prop := is_Some (gc_principal ctx).

Definition sample_replay (A : Type) (key : string) : replay A :=
  let* r := call (CCmd (GET ("idempotency:" +:+ key))) in
  match r with
  | RNil => Ret (inr (fun o =>
      let* stored := call (CCmd (GET ("idempotency:" +:+ key +:+ ":result"))) in
      match stored with
      | RFail _ => Ret (Failed (GStatus Internal "idempotency store"))
      | _ => Ret o
      end))
  | _ => Ret (inl (Failed (GStatus AlreadyExists "request is processing")))
  end.

Definition sample_platform : Platform := {|
  pf_authz := fun req A _ h ctx =>
    match req, gc_principal ctx with
    | Some _, None => Ret (Failed (GStatus PermissionDenied "denied"))
    | _, _ => h ctx
    end;
  pf_replay := fun _ A _ h ctx =>
    match gc_idempotency ctx with None => h ctx | Some key => around (sample_replay A key) (h ctx) end |}.

Lemma sample_enforces : enforces sample_platform known_caller.
Proof.
  intros [q|] A method ctx; cbn; [|by left].
  unfold known_caller. destruct (gc_principal ctx) as [p|]; [left|right]; [by eauto|].
  eexists _, _. split_and!; [done| |done]. by intros [? ?].
Qed.

Lemma sample_replays : replays sample_platform.
Proof.
  intros ms A method ctx. cbn [pf_replay sample_platform].
  destruct (gc_idempotency ctx) as [key|]; [right|by left]. split; [done|].
  exists (sample_replay A key). split; [|done].
  intros r _. destruct r; try exact I. intros o [] _; cbn; eauto.
Qed.

Definition sample_methods : RegistryMethods := {|
  m_RegisterInstance := "/r/RegisterInstance"; m_RenewLease := "/r/RenewLease";
  m_DeregisterInstance := "/r/DeregisterInstance"; m_SetInstanceStatus := "/r/SetInstanceStatus";
  m_GetInstance := "/r/GetInstance"; m_ListInstances := "/r/ListInstances";
  m_ListServices := "/r/ListServices"; m_WatchService := "/r/WatchService" |}.

Definition code_name (c : option grpc_code) : string := match c with None => "OK" | Some _ => "error" end.

(** A handler that tells who called it. *)
Definition whoami : call_handler (option string) := fun ctx => Ret (Reply (pr_ID <$> gc_principal ctx)).

(** A call with a key. *)
Definition keyed_call : grpc_ctx := {|
  gc_metadata := fun name =>
    if bool_decide (name = "authorization") then ["bearer token"]
    else if bool_decide (name = "idempotency-key") then ["k-1"] else [];
  gc_environment := ""; gc_request_id := ""; gc_idempotency := None; gc_principal := None;
  gc_header := [] |}.

Lemma unary_chain_exact_witness :
  (exists ctx', admitted_call (H := one_token) (default_config "dev") "0" sample_service "/r/GetInstance"
      bearer_call ctx' /\
    observed_call (default_config "dev") code_name _ "/r/GetInstance" whoami ctx' =
      Do (ECount "/r/GetInstance" "OK") (fun _ => Ret (Reply (Some "alice")))) /\
  (exists ctx' w, admitted_call (H := one_token) (default_config "dev") "0" sample_service "/r/GetInstance"
      keyed_call ctx' /\ genuine w /\
    resume (replayed_call w (default_config "dev") code_name "/r/GetInstance" whoami ctx')
      [EReply RNil; EError None; EReply (RStatus "OK")] = Ret (Reply (Some "alice"))).
Proof.
  split.
  - destruct (unary_chain_exact (H := one_token) (default_config "dev") "0" (fun _ => true) sample_service
      sample_platform code_name sample_methods known_caller sample_enforces true (option string) "/r/GetInstance"
      bearer_call sample_replays eq_refl eq_refl) as [(st & E & _)|(ctx' & Ha & _ & [E|[Hn _]])].
    + specialize (E whoami). vm_compute in E. discriminate E.
    + exists ctx'. split; [exact Ha|]. rewrite <- E. vm_compute. reflexivity.
    + destruct (Hn eq_refl).
  - destruct (unary_chain_exact (H := one_token) (default_config "dev") "0" (fun _ => true) sample_service
      sample_platform code_name sample_methods known_caller sample_enforces true (option string) "/r/GetInstance"
      keyed_call sample_replays eq_refl eq_refl) as [(st & E & _)|(ctx' & Ha & _ & [E|(_ & w & Hw & E)])].
    + specialize (E whoami). vm_compute in E. discriminate E.
    + specialize (E whoami). vm_compute in E. discriminate E.
    + exists ctx', w. split; [exact Ha|]. split; [exact Hw|]. rewrite <- E. vm_compute. reflexivity.
Defined.
