(* ===== verification/Http.v ===== *)
(** * The HTTP transport

    [internal/apperror], [internal/health], [internal/ratelimit] and
    internal/transport/http: responses, middleware, handlers and the routes of
    [NewServer].  A gin handler is a function on the request's context that may
    call Redis; a middleware gets the rest of the chain, which is what [c.Next()]
    runs, and not running it is what the aborting branches do.  What is logged and
    counted of a request is kept in its context.

    Parameters ([HttpEnv]) stand for gin's body binding and [FullPath], the
    redis_rate backend, the platform's authorizer and idempotency-key syntax, and
    the generated name of a status. *)

From S2P Require Import Prelude GoText Utf8 GoTime GoMime Redis Proto Store Service PathMatch Config.
From S2P Require Import GrpcRegistry Access.

Local Open Scope Z_scope.
Local Open Scope go_scope.

(** ** Application errors *)

Record AppError : Type := {
  ae_Code : Z;
  ae_Message : string;
  ae_HTTPStatus : Z;
  ae_Err : option goerr;
}.

Definition CodeOK : Z := 0.
Definition CodeInvalidArgument : Z := 10001.
Definition CodeNotFound : Z := 10004.
Definition CodeRequestTimeout : Z := 10008.
Definition CodeTooManyRequests : Z := 10029.
Definition CodeUnauthorized : Z := 20001.
Definition CodeForbidden : Z := 20003.
Definition CodeConflict : Z := 30009.
Definition CodeRequestInProgress : Z := 30010.
Definition CodeInternal : Z := 50000.
Definition CodeDependencyUnavailable : Z := 50003.

Definition apperror_New (code : Z) (message : string) (status : Z) (err : option goerr) : AppError :=
  {| ae_Code := code; ae_Message := message; ae_HTTPStatus := status; ae_Err := err |}.
Definition Invalid (message : string) (err : option goerr) : AppError :=
  apperror_New CodeInvalidArgument message 400 err.
Definition apperror_NotFound (message : string) : AppError :=
  apperror_New CodeNotFound message 404 None.
Definition apperror_Conflict (message : string) (err : option goerr) : AppError :=
  apperror_New CodeConflict message 409 err.
Definition RequestInProgress : AppError :=
  apperror_New CodeRequestInProgress "request is already processing" 409 None.
Definition Unauthorized (message : string) : AppError :=
  apperror_New CodeUnauthorized message 401 None.
Definition Forbidden (message : string) : AppError :=
  apperror_New CodeForbidden message 403 None.
Definition TooManyRequests : AppError :=
  apperror_New CodeTooManyRequests "too many requests" 429 None.
Definition RequestTimeout : AppError :=
  apperror_New CodeRequestTimeout "request timeout" 504 None.
Definition Unavailable (message : string) (err : goerr) : AppError :=
  apperror_New CodeDependencyUnavailable message 503 (Some err).
Definition apperror_Internal (err : goerr) : AppError :=
  apperror_New CodeInternal "internal server error" 500 (Some err).

(** [e.Error()] and [e.Unwrap()]. *)
Definition apperror_Error (e : AppError) : string :=
  match ae_Err e with Some err => error_text err | None => ae_Message e end.
Definition apperror_Unwrap (e : AppError) : option goerr := ae_Err e.

(** ** Health *)

Record Dependency : Type := { dep_Status : string; dep_Latency : string }.

Record HealthStatus : Type := {
  hs_Status : string;
  hs_Dependencies : gmap string Dependency;
}.

(** The item a check sends: name, dependency, ready. *)
Record health_result : Type := {
  hr_name : string; hr_dependency : Dependency; hr_ready : bool;
}.

(** [checkResult]: [latency] is the time since the start of the ping, as text. *)
Definition checkResult (name latency : string) (err : option goerr) : health_result :=
  match err with
  | Some _ => {| hr_name := name;
                 hr_dependency := {| dep_Status := "down"; dep_Latency := latency |};
                 hr_ready := false |}
  | None => {| hr_name := name;
               hr_dependency := {| dep_Status := "up"; dep_Latency := latency |};
               hr_ready := true |}
  end.

(** [checkDatabase], [checkRedis]: a client that is not nil, with the latency and
    the outcome of its ping. *)
Definition check_dependency (name : string) (client : option (string * option goerr)) : health_result :=
  match client with
  | None => {| hr_name := name;
               hr_dependency := {| dep_Status := "disabled"; dep_Latency := EmptyString |};
               hr_ready := true |}
  | Some (latency, err) => checkResult name latency err
  end.

(** [Ready]: [items] are the two results in the order the channel delivers them. *)
Definition collect_results (items : list health_result) : HealthStatus * bool :=
  let '(deps, ready) := foldl (fun acc item =>
      (<[hr_name item := hr_dependency item]> acc.1, acc.2 && hr_ready item)) (∅, true) items in
  ({| hs_Status := if ready then "ready" else "not_ready"; hs_Dependencies := deps |}, ready).

Definition health_Ready (database redis : option (string * option goerr)) (redis_first : bool) :
    HealthStatus * bool :=
  let d := check_dependency "database" database in
  let r := check_dependency "redis" redis in
  collect_results (if redis_first then [r; d] else [d; r]).

Definition health_Live : HealthStatus := {| hs_Status := "up"; hs_Dependencies := ∅ |}.

(** ** The rate limiter *)

Record RateResult : Type := {
  rr_Allowed : bool; rr_Limit : Z; rr_Remaining : Z; rr_RetryAfter : Z;
}.

(** What redis_rate answers: how many events it allowed, how many remain, and when
    to retry. *)
Record BackendResult : Type := { br_Allowed : Z; br_Remaining : Z; br_RetryAfter : Z }.

Record Limiter : Type := {
  lim_enabled : bool;
  lim_failOpen : bool;
  lim_backend : option (string -> RateLimitRule -> res BackendResult);
}.

(** [ratelimit.New]: [client] is the backend over the Redis client, if any. *)
Definition limiter_New (client : option (string -> RateLimitRule -> res BackendResult))
    (cfg : Config) : Limiter :=
  {| lim_enabled := ratelimit_Enabled (config_RateLimit cfg);
     lim_failOpen := ratelimit_FailOpen (config_RateLimit cfg);
     lim_backend := client |}.

Definition limiter_Allow (l : Limiter) (key : string) (rule : RateLimitRule) : res RateResult :=
  if negb (lim_enabled l) then
    Ok {| rr_Allowed := true; rr_Limit := 0; rr_Remaining := 0; rr_RetryAfter := 0 |}
  else
    match lim_backend l with
    | None => Err (ENew "redis rate limiter is unavailable")
    | Some allow =>
        match allow key rule with
        | Err e => Err (EWrap "check redis rate limit" e)
        | Ok result =>
            Ok {| rr_Allowed := 0 <? br_Allowed result; rr_Limit := ratelimitrule_Burst rule;
                  rr_Remaining := br_Remaining result; rr_RetryAfter := br_RetryAfter result |}
        end
    end.

(** ** Requests, responses and the gin context *)

(** What the middleware reads of a request; [rq_FullPath] is the matched route. *)
Record http_request : Type := {
  rq_Method : string;
  rq_FullPath : string;
  rq_Header : string -> string;
  rq_ContentLength : Z;
  rq_TLS : bool;
  rq_ClientIP : string;
  rq_Body : string;
}.

Record InstanceBody : Type := {
  ib_InstanceID : string; ib_ServiceName : string; ib_Endpoint : string; ib_Protocol : string;
  ib_Status : string; ib_Weight : Z; ib_Version : string; ib_Metadata : gmap string string;
  ib_LeaseExpiresAt : string;
}.
Record ListInstancesBody : Type := {
  lib_Instances : list InstanceBody; lib_Revision : Z; lib_Total : Z; lib_Page : Z; lib_PageSize : Z;
}.
Record ServiceSummaryBody : Type := {
  sb_ServiceName : string; sb_HealthyInstances : Z; sb_DrainingInstances : Z;
}.
Record ListServicesBody : Type := {
  lsb_Services : list ServiceSummaryBody; lsb_Revision : Z; lsb_Total : Z; lsb_Page : Z;
  lsb_PageSize : Z;
}.
(** [buildinfo.Info], [StartedAt] in nanoseconds since the epoch. *)
Record BuildInfo : Type := {
  bi_Version : string; bi_Commit : string; bi_BuildTime : string; bi_StartedAt : Z;
  bi_Uptime : string;
}.

(** [buildinfo.Current()], of the package's variables and the time. *)
Definition buildinfo_Current (Version Commit BuildTime : string) (startedAt now : Z) : BuildInfo := {|
  bi_Version := Version; bi_Commit := Commit; bi_BuildTime := BuildTime; bi_StartedAt := startedAt;
  bi_Uptime := Duration_String (Round (time_until now startedAt) nanos_per_second) |}.

Inductive body : Type :=
  | BNil
  | BHealth (s : HealthStatus)
  | BInfo (i : BuildInfo)
  | BSubject (subject : option string)
  | BInstances (b : ListInstancesBody)
  | BServices (b : ListServicesBody).

Record Response : Type := {
  resp_Code : Z;
  resp_Message : string;
  resp_Body : body;
  resp_RequestID : string;
}.

(** What is observed of a request: the line of the request log and the labels of the
    request counter, without times and trace ids. *)
Inductive observation : Type :=
  | OLog (request_id method path : string) (status : Z) (client_ip : string)
  | OCount (method route status : string).

(** The context: the request and the values set on it, the body limit, the
    response and the observations so far.  The status is fixed by the first write; later writes only
    add to the body. *)
Record gin_ctx : Type := {
  c_Request : http_request;
  c_request_id : string;
  c_environment : string;
  c_idempotency : option string;
  c_subject : option string;
  c_principal : option Principal;
  c_credential : option string;
  c_body_limit : option Z;
  c_headers : gmap string string;
  c_status : option Z;
  c_written : list Response;
  c_log : list observation;
}.

(** The context gin starts a request with. *)
Definition new_context (r : http_request) : gin_ctx := {|
  c_Request := r; c_request_id := EmptyString; c_environment := EmptyString;
  c_idempotency := None; c_subject := None; c_principal := None; c_credential := None;
  c_body_limit := None; c_headers := ∅; c_status := None; c_written := []; c_log := [] |}.

(** [c.Set] and [c.Request.WithContext] on the values of the context. *)
Definition set_request_id (c : gin_ctx) (id : string) : gin_ctx := {|
  c_Request := c_Request c; c_request_id := id; c_environment := c_environment c;
  c_idempotency := c_idempotency c; c_subject := c_subject c; c_principal := c_principal c;
  c_credential := c_credential c; c_body_limit := c_body_limit c; c_headers := c_headers c;
  c_status := c_status c; c_written := c_written c; c_log := c_log c |}.
Definition set_environment (c : gin_ctx) (profile : string) : gin_ctx := {|
  c_Request := c_Request c; c_request_id := c_request_id c; c_environment := profile;
  c_idempotency := c_idempotency c; c_subject := c_subject c; c_principal := c_principal c;
  c_credential := c_credential c; c_body_limit := c_body_limit c; c_headers := c_headers c;
  c_status := c_status c; c_written := c_written c; c_log := c_log c |}.
Definition set_idempotency (c : gin_ctx) (key : string) : gin_ctx := {|
  c_Request := c_Request c; c_request_id := c_request_id c; c_environment := c_environment c;
  c_idempotency := Some key; c_subject := c_subject c; c_principal := c_principal c;
  c_credential := c_credential c; c_body_limit := c_body_limit c; c_headers := c_headers c;
  c_status := c_status c; c_written := c_written c; c_log := c_log c |}.
Definition set_caller (c : gin_ctx) (subject : string) (p : Principal) (credential : string) :
    gin_ctx := {|
  c_Request := c_Request c; c_request_id := c_request_id c; c_environment := c_environment c;
  c_idempotency := c_idempotency c; c_subject := Some subject; c_principal := Some p;
  c_credential := Some credential; c_body_limit := c_body_limit c; c_headers := c_headers c;
  c_status := c_status c; c_written := c_written c; c_log := c_log c |}.
Definition set_body_limit (c : gin_ctx) (limit : Z) : gin_ctx := {|
  c_Request := c_Request c; c_request_id := c_request_id c; c_environment := c_environment c;
  c_idempotency := c_idempotency c; c_subject := c_subject c; c_principal := c_principal c;
  c_credential := c_credential c; c_body_limit := Some limit; c_headers := c_headers c;
  c_status := c_status c; c_written := c_written c; c_log := c_log c |}.

(** [c.Header(name, value)]: the empty value removes the header. *)
Definition set_reply_header (name value : string) (c : gin_ctx) : gin_ctx := {|
  c_Request := c_Request c; c_request_id := c_request_id c; c_environment := c_environment c;
  c_idempotency := c_idempotency c; c_subject := c_subject c; c_principal := c_principal c;
  c_credential := c_credential c; c_body_limit := c_body_limit c;
  c_headers := if empty value then delete name (c_headers c) else <[name := value]> (c_headers c);
  c_status := c_status c; c_written := c_written c; c_log := c_log c |}.

(** [c.JSON(status, response)], [c.AbortWithStatusJSON(status, response)]. *)
Definition write_json (c : gin_ctx) (status : Z) (r : Response) : gin_ctx := {|
  c_Request := c_Request c; c_request_id := c_request_id c; c_environment := c_environment c;
  c_idempotency := c_idempotency c; c_subject := c_subject c; c_principal := c_principal c;
  c_credential := c_credential c; c_body_limit := c_body_limit c; c_headers := c_headers c;
  c_status := Some (default status (c_status c)); c_written := c_written c ++ [r]; c_log := c_log c |}.

(** [c.AbortWithStatus(status)]. *)
Definition write_status (c : gin_ctx) (status : Z) : gin_ctx := {|
  c_Request := c_Request c; c_request_id := c_request_id c; c_environment := c_environment c;
  c_idempotency := c_idempotency c; c_subject := c_subject c; c_principal := c_principal c;
  c_credential := c_credential c; c_body_limit := c_body_limit c; c_headers := c_headers c;
  c_status := Some (default status (c_status c)); c_written := c_written c; c_log := c_log c |}.

(** An observation is made. *)
Definition observe (c : gin_ctx) (o : observation) : gin_ctx := {|
  c_Request := c_Request c; c_request_id := c_request_id c; c_environment := c_environment c;
  c_idempotency := c_idempotency c; c_subject := c_subject c; c_principal := c_principal c;
  c_credential := c_credential c; c_body_limit := c_body_limit c; c_headers := c_headers c;
  c_status := c_status c; c_written := c_written c; c_log := c_log c ++ [o] |}.

(** [c.Writer.Status()]: 200 until something was written. *)
Definition writer_status (c : gin_ctx) : Z := default 200 (c_status c).

(** [c.Writer.Written()]. *)
Definition written (c : gin_ctx) : bool := match c_status c with Some _ => true | None => false end.

(** A response of the handlers, with the request id of the context. *)
Definition envelope (c : gin_ctx) (code : Z) (message : string) (b : body) : Response :=
  {| resp_Code := code; resp_Message := message; resp_Body := b; resp_RequestID := c_request_id c |}.

Definition http_OK (c : gin_ctx) (b : body) : gin_ctx :=
  write_json c 200 (envelope c CodeOK "success" b).

(** An error that [errors.As] finds to be an [*apperror.Error], or another one. *)
Inductive http_error : Type := AnApp (e : AppError) | AnError (e : goerr).

Definition Fail (c : gin_ctx) (err : http_error) : gin_ctx :=
  let e := match err with AnApp e => e | AnError e => apperror_Internal e end in
  write_json c (ae_HTTPStatus e) (envelope c (ae_Code e) (ae_Message e) BNil).

(** ** Middleware *)

(** A handler returns, or panics with the context as it was then. *)
Inductive hres : Type := Done (c : gin_ctx) | Panic (c : gin_ctx).

Definition gin_handler : Type := gin_ctx -> gprog hres.
Definition middleware : Type := gin_handler -> gin_handler.

(** Abort with an application error. *)
Definition abort (c : gin_ctx) (e : AppError) : gprog hres := Ret (Done (Fail c (AnApp e))).

Record HListInstancesRequest : Type := {
  hli_ServiceName : string; hli_Metadata : gmap string string; hli_IncludeDraining : bool;
  hli_Page : Z; hli_PageSize : Z;
}.
Record HListServicesRequest : Type := { hls_Prefix : string; hls_Page : Z; hls_PageSize : Z }.

Class HttpEnv : Type := {
  (** [idempotency.Valid] *)
  key_valid : string -> bool;
  (** [c.ShouldBindJSON] on a body of which at most [limit] bytes may be read *)
  bind_instances : option Z -> string -> res HListInstancesRequest;
  bind_services : option Z -> string -> res HListServicesRequest;
  (** [platformauthz.Enforce] for the principal and credential of the context *)
  enforce : option Principal -> option string -> Requirement -> option goerr;
  ErrDecisionUnavailable : goerr;
  (** [value.Status.String()] *)
  status_name : InstanceStatus -> string;
}.

Section http.
Context `{JwtLib} `{HttpEnv}.

Definition mw_RequestID (generated : string) : middleware := fun next c =>
  let id := rq_Header (c_Request c) "X-Request-ID" in
  let id := if negb (requestid_Valid id) then generated else id in
  next (set_reply_header "X-Request-ID" id (set_request_id c id)).

Definition mw_Environment (profile : string) : middleware := fun next c =>
  next (set_environment c profile).

Definition mw_IdempotencyKey : middleware := fun next c =>
  let key := rq_Header (c_Request c) "Idempotency-Key" in
  if empty key then next c
  else if negb (key_valid key) then abort c (Invalid "invalid Idempotency-Key" None)
  else next (set_idempotency (set_reply_header "Idempotency-Key" key c) key).

(** The line of the request log. *)
Definition logged (c : gin_ctx) : gin_ctx :=
  observe c (OLog (c_request_id c) (rq_Method (c_Request c)) (rq_FullPath (c_Request c))
    (writer_status c) (rq_ClientIP (c_Request c))).

Definition mw_RequestLogger : middleware := fun next c =>
  let* r := next c in
  match r with Done c' => Ret (Done (logged c')) | Panic c' => Ret (Panic c') end.

(** The request counter; [enabled] is [metrics.Enabled()]. *)
Definition counted (enabled : bool) (c : gin_ctx) : gin_ctx :=
  if negb enabled then c
  else
    let route := rq_FullPath (c_Request c) in
    let route := if empty route then "unmatched" else route in
    observe c (OCount (rq_Method (c_Request c)) route (itoa (writer_status c))).

Definition mw_HTTPMetrics (enabled : bool) : middleware := fun next c =>
  let* r := next c in
  match r with Done c' => Ret (Done (counted enabled c')) | Panic c' => Ret (Panic c') end.

(** The writer keeps the status and body written before the panic. *)
Definition mw_Recovery : middleware := fun next c =>
  let* r := next c in
  match r with
  | Done c' => Ret (Done c')
  | Panic c' => Ret (Done (write_json c' 500 (envelope c' CodeInternal "internal server error" BNil)))
  end.

(** [expired]: the deadline of the request passed while [next] ran. *)
Definition mw_Timeout (expired : bool) : middleware := fun next c =>
  let* r := next c in
  match r with
  | Done c' => if expired && negb (written c') then abort c' RequestTimeout else Ret (Done c')
  | Panic c' => Ret (Panic c')
  end.

Definition mw_MaxBody (limit : Z) : middleware := fun next c => next (set_body_limit c limit).

(** [err != nil || mediaType != "application/json"], negated. *)
Definition is_json (content_type : string) : bool :=
  bool_decide (ParseMediaType content_type = Some (byte_vals "application/json")).

Definition mw_RequireJSON : middleware := fun next c =>
  if bool_decide (rq_Method (c_Request c) = "POST") && negb (rq_ContentLength (c_Request c) =? 0) &&
     negb (is_json (rq_Header (c_Request c) "Content-Type")) then
    Ret (Done (write_json c 415
      (envelope c CodeInvalidArgument "content type must be application/json" BNil)))
  else next c.

Definition security_headers (c : gin_ctx) : gin_ctx :=
  let c := set_reply_header "X-Content-Type-Options" "nosniff" c in
  let c := set_reply_header "X-Frame-Options" "DENY" c in
  let c := set_reply_header "Referrer-Policy" "no-referrer" c in
  let c := set_reply_header "Content-Security-Policy" "default-src 'none'; frame-ancestors 'none'" c in
  let c := set_reply_header "Cache-Control" "no-store" c in
  if rq_TLS (c_Request c) then
    set_reply_header "Strict-Transport-Security" "max-age=31536000; includeSubDomains" c
  else c.

Definition mw_SecurityHeaders : middleware := fun next c => next (security_headers c).

(** [strings.Join]. *)
Fixpoint join (sep : string) (l : list string) : string :=
  match l with
  | [] => EmptyString
  | [s] => s
  | s :: l' => s +:+ sep +:+ join sep l'
  end.

Definition cors_headers (cfg : CORS) (origin : string) (c : gin_ctx) : gin_ctx :=
  let c := set_reply_header "Access-Control-Allow-Origin" origin c in
  let c := set_reply_header "Vary" "Origin" c in
  let c := set_reply_header "Access-Control-Allow-Methods" "POST, GET, OPTIONS" c in
  let c := set_reply_header "Access-Control-Allow-Headers" (join ", " (cors_AllowedHeaders cfg)) c in
  let c := set_reply_header "Access-Control-Expose-Headers" (join ", " (cors_ExposedHeaders cfg)) c in
  set_reply_header "Access-Control-Max-Age" (itoa (int_of_float (Seconds (cors_MaxAge cfg)))) c.

Definition mw_CORS (cfg : CORS) : middleware := fun next c =>
  let origin := rq_Header (c_Request c) "Origin" in
  if negb (cors_Enabled cfg) then next c
  else if empty origin then next c
  else if negb (bool_decide (origin ∈ cors_AllowedOrigins cfg)) then
    Ret (Done (write_json c 403 (envelope c CodeForbidden "origin is not allowed" BNil)))
  else
    let c := cors_headers cfg origin c in
    if bool_decide (rq_Method (c_Request c) = "OPTIONS") then Ret (Done (write_status c 204))
    else next c.

(** [max(1, int(d.Round(time.Second)/time.Second))]. *)
Definition retry_after (d : Z) : Z :=
  Z.max 1 (Z.quot (Round d nanos_per_second) nanos_per_second).

Definition mw_RateLimit (limiter : Limiter) (rule : RateLimitRule) (dimension : string)
    (keyFunc : gin_ctx -> string) : middleware := fun next c =>
  if negb (lim_enabled limiter) then next c
  else
    let key := keyFunc c in
    if empty key then next c
    else
      match limiter_Allow limiter ("rate:" +:+ dimension +:+ ":" +:+ key) rule with
      | Err err =>
          if lim_failOpen limiter then next c
          else abort c (Unavailable "rate limiter unavailable" err)
      | Ok result =>
          let c := set_reply_header "X-RateLimit-Limit" (itoa (rr_Limit result)) c in
          let c := set_reply_header "X-RateLimit-Remaining" (itoa (rr_Remaining result)) c in
          if negb (rr_Allowed result) then
            abort (set_reply_header "Retry-After" (itoa (retry_after (rr_RetryAfter result))) c)
              TooManyRequests
          else next c
      end.

Definition mw_JWT (service : AuthService) : middleware := fun next c =>
  let header := rq_Header (c_Request c) "Authorization" in
  let '(scheme, raw, ok) := cut space header in
  if negb ok || negb (EqualFold scheme "Bearer") || empty raw then
    abort c (Unauthorized "missing bearer token")
  else
    match auth_Verify service raw with
    | Err _ => abort c (Unauthorized "invalid or expired token")
    | Ok who => next (set_caller c (pr_ID who) who header)
    end.

Definition http_requirements : list (string * Requirement) :=
  [ ("/api/v1/registry/instances/list", platform_requirement "service_registry.instance" "list");
    ("/api/v1/registry/services/list", platform_requirement "service_registry.service" "list") ].

Definition registryHTTPRequirement (route : string) : option Requirement :=
  (list_to_map http_requirements : gmap string Requirement) !! route.

Definition mw_Authorization (enabled : bool) : middleware := fun next c =>
  match registryHTTPRequirement (rq_FullPath (c_Request c)) with
  | Some requirement =>
      if negb enabled then next c
      else
        match enforce (c_principal c) (c_credential c) requirement with
        | None => next c
        | Some err =>
            if errors_is err ErrDecisionUnavailable then
              abort c (Unavailable "authorization decision is unavailable" err)
            else abort c (Forbidden "permission denied")
        end
  | None => next c
  end.

Definition mw_Authentication (service : AuthService) (cfg : Auth) : middleware := fun next c =>
  let psk := auth_PSK cfg in
  let header := rq_Header (c_Request c) "Authorization" in
  if psk_Enabled psk && MatchesAny (rq_FullPath (c_Request c)) (psk_HTTPPaths psk) then
    if negb (VerifyPSK header (psk_Key psk)) then abort c (Unauthorized "missing or invalid PSK")
    else next (set_caller c "psk" psk_principal header)
  else if MatchesAny (rq_FullPath (c_Request c)) (auth_SkipHTTPPaths cfg) then next c
  else mw_JWT service next c.

Definition mw_pprofAuth (expected : string) : middleware := fun next c =>
  let '(scheme, token, ok) := cut space (rq_Header (c_Request c) "Authorization") in
  if negb ok || negb (EqualFold scheme "Bearer") || negb (ConstantTimeCompare token expected) then
    Ret (Done (write_status c 401))
  else next c.

(** ** Handlers *)

Context {db : Type} `{RedisOps db} `{InstanceCodec} `{SliceSort}.

Definition pagination (page pageSize : Z) : Z * Z :=
  (if page =? 0 then 1 else page, if pageSize =? 0 then 20 else pageSize).

Definition instance_body (value : ServiceInstance) : InstanceBody := {|
  ib_InstanceID := InstanceId value; ib_ServiceName := ServiceName value;
  ib_Endpoint := Endpoint value; ib_Protocol := Protocol value;
  ib_Status := status_name (Status value); ib_Weight := Weight value; ib_Version := Version value;
  ib_Metadata := Metadata value;
  ib_LeaseExpiresAt := format_rfc3339 (default 0 (LeaseExpiresAt value)) |}.

Definition summary_body (value : ServiceSummary) : ServiceSummaryBody := {|
  sb_ServiceName := sum_ServiceName value; sb_HealthyInstances := sum_HealthyInstances value;
  sb_DrainingInstances := sum_DrainingInstances value |}.

Definition list_request (request : HListInstancesRequest) : ListInstancesRequest :=
  {| lst_ServiceName := hli_ServiceName request; lst_Selector := hli_Metadata request;
     lst_IncludeDraining := hli_IncludeDraining request |}.

(** Code that calls the Redis client of the store, which is nil when Redis is disabled:
    then the first call panics. *)
Definition on_client {A} (client : bool) (p : gprog A) : gprog (option A) :=
  if client then let* a := p in Ret (Some a)
  else Ret (match p with Ret a => Some a | Do _ _ => None end).

Definition http_ListInstances (client : bool) : gin_handler := fun c =>
  match bind_instances (c_body_limit c) (rq_Body (c_Request c)) with
  | Err err => abort c (Invalid "invalid request" (Some err))
  | Ok request =>
      let (page, pageSize) := pagination (hli_Page request) (hli_PageSize request) in
      let* r := on_client client (service_ListPage (list_request request) page pageSize) in
      match r with
      | None => Ret (Panic c)
      | Some (Err err) => abort c (Invalid (error_text err) (Some err))
      | Some (Ok (response, total)) =>
          Ret (Done (http_OK c (BInstances {|
            lib_Revision := lstr_Revision response;
            lib_Instances := instance_body <$> lstr_Instances response;
            lib_Total := total; lib_Page := page; lib_PageSize := pageSize |})))
      end
  end.

Definition http_ListServices (client : bool) : gin_handler := fun c =>
  match bind_services (c_body_limit c) (rq_Body (c_Request c)) with
  | Err err => abort c (Invalid "invalid request" (Some err))
  | Ok request =>
      let (page, pageSize) := pagination (hls_Page request) (hls_PageSize request) in
      let* r := on_client client (service_ListServicesPage (hls_Prefix request) page pageSize) in
      match r with
      | None => Ret (Panic c)
      | Some (Err err) => Ret (Done (Fail c (AnError err)))
      | Some (Ok (response, total)) =>
          Ret (Done (http_OK c (BServices {|
            lsb_Revision := lsvr_Revision response;
            lsb_Services := summary_body <$> lsvr_Services response;
            lsb_Total := total; lsb_Page := page; lsb_PageSize := pageSize |})))
      end
  end.

Definition http_Live : gin_handler := fun c => Ret (Done (http_OK c (BHealth health_Live))).

(** [ready] is what [h.health.Ready] returned. *)
Definition http_Ready (ready : HealthStatus * bool) : gin_handler := fun c =>
  let (status, ok) := ready in
  if negb ok then
    Ret (Done (write_json c 503
      (envelope c CodeDependencyUnavailable "service is not ready" (BHealth status))))
  else Ret (Done (http_OK c (BHealth status))).

Definition http_Me : gin_handler := fun c => Ret (Done (http_OK c (BSubject (c_subject c)))).

(** [info] is [buildinfo.Current()]. *)
Definition http_Version (info : BuildInfo) : gin_handler := fun c =>
  Ret (Done (http_OK c (BInfo info))).

(** ** The routes of [NewServer] *)

(** [router.Use(...)]; the tracing middleware is a library's. *)
Definition global_chain (cfg : Config) (generated : string) (expired : bool) : middleware :=
  fun handler =>
  mw_RequestID generated
    (mw_IdempotencyKey
      (mw_Environment (runtime_ActiveProfile (config_Runtime cfg))
        (mw_RequestLogger
          (mw_Recovery
            (mw_HTTPMetrics (observability_MetricsEnabled (config_Observability cfg))
              (mw_SecurityHeaders
                (mw_CORS (http_CORS (config_HTTP cfg))
                  (mw_MaxBody (http_MaxBodyBytes (config_HTTP cfg))
                    (mw_Timeout expired (mw_RequireJSON handler)))))))))).

(** [router.Group("/api/v1", ...)]. *)
Definition api_chain (cfg : Config) (service : AuthService) (limiter : Limiter) : middleware :=
  fun handler =>
  mw_RateLimit limiter (ratelimit_IP (config_RateLimit cfg)) "ip" (fun c => rq_ClientIP (c_Request c))
    (mw_RateLimit limiter (ratelimit_API (config_RateLimit cfg)) "api"
      (fun c => rq_FullPath (c_Request c))
      (mw_Authentication service (config_Auth cfg)
        (mw_Authorization (authorization_Enabled (config_Authorization cfg))
          (mw_RateLimit limiter (ratelimit_User (config_RateLimit cfg)) "user"
            (fun c => default EmptyString (c_subject c)) handler)))).

(** The four POST routes of the group, with their paths and handlers. *)
Inductive api_route : Type := RVersion | RMe | RInstances | RServices.

Definition route_path (route : api_route) : string :=
  match route with
  | RVersion => "/api/v1/version"
  | RMe => "/api/v1/me"
  | RInstances => "/api/v1/registry/instances/list"
  | RServices => "/api/v1/registry/services/list"
  end.

Definition api_handler (client : bool) (info : BuildInfo) (route : api_route) : gin_handler :=
  match route with
  | RVersion => http_Version info
  | RMe => http_Me
  | RInstances => http_ListInstances client
  | RServices => http_ListServices client
  end.

(** A request to an API route, from gin's fresh context. *)
Definition serve_api (cfg : Config) (generated : string) (expired : bool) (service : AuthService)
    (limiter : Limiter) (handler : gin_handler) (r : http_request) : gprog hres :=
  global_chain cfg generated expired (api_chain cfg service limiter handler) (new_context r).

End http.
