(* ===== verification/HttpFacts.v ===== *)
(** * Facts about the HTTP transport

    What has to hold of a request for the handler of its group to run ([gate]); the
    shape of every answer of an API route ([api_answers]); and what the listing
    route answers ([http_list_page]). *)

From S2P Require Import Prelude GoText Utf8 GoTime GoMime Redis RedisMem Proto RefCodec Store Service LeaseSpec StoreRefine CallRefine StoreRun Paging Validation Samples ServiceRun Listing PathMatch Config GrpcRegistry Access AccessFacts Http.

Local Open Scope Z_scope.
Local Open Scope go_scope.

(** ** Middleware that passes or stops *)

(** [m] hands the context [c1] on, whatever follows; [m] answers by itself. *)
Definition passes (m : middleware) (c c1 : gin_ctx) : Prop := forall next, m next c = next c1.
Definition stops (m : middleware) (c c1 : gin_ctx) : Prop := forall next, m next c = Ret (Done c1).

(** The statuses of the middleware's own answers. *)
Definition rejections : list Z := [204; 400; 401; 403; 415; 429; 503].

(** The status and the code of an envelope that belong together. *)
Definition code_statuses : list (Z * Z) :=
  [ (CodeOK, 200); (CodeInvalidArgument, 400); (CodeInvalidArgument, 415); (CodeUnauthorized, 401);
    (CodeForbidden, 403); (CodeTooManyRequests, 429); (CodeRequestTimeout, 504);
    (CodeInternal, 500); (CodeDependencyUnavailable, 503) ].

(** The answer was written, once: an envelope with the request id of the context
    and a status that belongs to its code, or the empty preflight answer. *)
Definition answered (c : gin_ctx) : Prop :=
  (c_status c = Some 204 /\ c_written c = []) \/
  exists s r, c_status c = Some s /\ c_written c = [r] /\ resp_RequestID r = c_request_id c /\
    (resp_Code r, s) ∈ code_statuses.

(** Nothing was written. *)
Definition unanswered (c : gin_ctx) : Prop := c_status c = None /\ c_written c = [].

(** The context with other response headers. *)
Definition with_headers (c : gin_ctx) (h : gmap string string) : gin_ctx := {|
  c_Request := c_Request c; c_request_id := c_request_id c; c_environment := c_environment c;
  c_idempotency := c_idempotency c; c_subject := c_subject c; c_principal := c_principal c;
  c_credential := c_credential c; c_body_limit := c_body_limit c; c_headers := h;
  c_status := c_status c; c_written := c_written c; c_log := c_log c |}.

(** Only response headers differ, and the request id stays in its header. *)
Definition same (c c1 : gin_ctx) : Prop :=
  exists h, c1 = with_headers c h /\ h !! "X-Request-ID" = c_headers c !! "X-Request-ID".

Lemma with_headers_id c : with_headers c (c_headers c) = c.
Proof. by destruct c. Qed.

#[global] Instance same_preorder : PreOrder same.
Proof.
  split.
  - intros c. exists (c_headers c). by rewrite with_headers_id.
  - intros c1 c2 c3 (h & -> & E) (h' & -> & E'). exists h'. cbn in E'. split; [done|congruence].
Qed.

Lemma same_header name value c : name <> "X-Request-ID" -> same c (set_reply_header name value c).
Proof.
  intros Hn. eexists. split; [reflexivity|].
  destruct (empty value); [by rewrite lookup_delete_ne|by rewrite lookup_insert_ne].
Qed.
#[export] Hint Resolve same_header : registry.

Ltac same_headers :=
  repeat first [ reflexivity | etrans; [|apply same_header; discriminate] ].

(** The answer of middleware that stops a request, in the shape [S]. *)
Definition refused (S : gin_ctx -> Prop) (id : string) (header : option string) (c : gin_ctx) : Prop :=
  S c /\ (exists s, c_status c = Some s /\ s ∈ rejections) /\
  c_request_id c = id /\ c_headers c !! "X-Request-ID" = header.
Abbreviation rejected := (refused answered).

Lemma reject_json c c0 status code message :
  same c c0 -> unanswered c -> (code, status) ∈ code_statuses -> status ∈ rejections ->
  rejected (c_request_id c) (c_headers c !! "X-Request-ID")
    (write_json c0 status (envelope c0 code message BNil)).
Proof.
  intros (h & -> & Hh) [Hs Hw] Hc Hr. unfold refused, answered. cbn.
  rewrite Hs, Hw. cbn [default app]. split_and!; [|eauto|done..].
  right. eexists _, _. split_and!; [done..|exact Hc].
Qed.

Lemma reject_status c c0 :
  same c c0 -> unanswered c ->
  rejected (c_request_id c) (c_headers c !! "X-Request-ID") (write_status c0 204).
Proof.
  intros (h & -> & Hh) [Hs Hw]. unfold refused, answered. cbn. rewrite Hs, Hw.
  split_and!; [by left|eexists; split; [done|set_solver]|done..].
Qed.

Ltac in_table := apply list_elem_of_In; vm_compute; tauto.

(** [m] either passes a context in [P] on or refuses the request. *)
Definition verdict_in (S : gin_ctx -> Prop) (m : middleware) (c : gin_ctx) (P : gin_ctx -> Prop) : Prop :=
  (exists c1, passes m c c1 /\ P c1) \/
  (exists c1, stops m c c1 /\ refused S (c_request_id c) (c_headers c !! "X-Request-ID") c1).
Abbreviation verdict := (verdict_in answered).

Lemma refused_weaken (S S' : gin_ctx -> Prop) id hd c :
  (forall c, S c -> S' c) -> refused S id hd c -> refused S' id hd c.
Proof. intros HS (H1 & H2). split; auto. Qed.

Lemma verdict_weaken (S S' : gin_ctx -> Prop) m c P Q :
  (forall c, S c -> S' c) -> (forall c1, P c1 -> Q c1) -> verdict_in S m c P -> verdict_in S' m c Q.
Proof.
  intros HS HP [(c1 & Hp & H1)|(c1 & Hs & Hr)]; [left|right]; exists c1; split; eauto using refused_weaken.
Qed.

(** What is kept for the answer of whatever follows. *)
Definition onward (c c1 : gin_ctx) : Prop :=
  unanswered c1 /\ c_request_id c1 = c_request_id c /\
  c_headers c1 !! "X-Request-ID" = c_headers c !! "X-Request-ID".

Lemma same_onward c c1 : unanswered c -> same c c1 -> onward c c1.
Proof. intros Hu (h & -> & Hh). by split_and!. Qed.

Lemma verdict_compose S (m1 m2 : middleware) c P1 P2 :
  verdict_in S m1 c P1 -> (forall c1, P1 c1 -> onward c c1 /\ verdict_in S m2 c1 P2) ->
  verdict_in S (fun next => m1 (m2 next)) c P2.
Proof.
  intros [(c1 & Hp & H1)|(c1 & Hs & Hr)] Hk.
  - destruct (Hk c1 H1) as [(_ & Hi & Hh) [(c2 & Hp2 & H2)|(c2 & Hs2 & Hr2)]].
    + left. exists c2. split; [|done]. intros next. by rewrite Hp, Hp2.
    + right. exists c2. split; [intros next; by rewrite Hp, Hs2|by rewrite <- Hi, <- Hh].
  - right. exists c1. split; [intros next; apply Hs|done].
Qed.

Ltac reject :=
  right; eexists; split; [done|]; apply reject_json; [same_headers|done|in_table..].
Ltac pass c := left; exists c; by split_and!.

Section http.
Context `{JwtLib} `{HttpEnv}.

(** ** What each middleware lets through *)

Definition cors_ok (cfg : CORS) (r : http_request) : Prop :=
  cors_Enabled cfg = true -> rq_Header r "Origin" <> EmptyString ->
  rq_Header r "Origin" ∈ cors_AllowedOrigins cfg /\ rq_Method r <> "OPTIONS".

Lemma mw_CORS_verdict cfg c :
  unanswered c -> verdict (mw_CORS cfg) c (fun c1 => same c c1 /\ cors_ok cfg (c_Request c)).
Proof.
  intros Hu. unfold verdict_in, passes, stops, mw_CORS, cors_ok, empty.
  destruct (cors_Enabled cfg); cbn [negb]; [|pass c].
  case_bool_decide as He; [pass c|].
  case_bool_decide as Hin; cbn [negb].
  2: { reject. }
  assert (same c (cors_headers cfg (rq_Header (c_Request c) "Origin") c)) as Hs
    by (unfold cors_headers; same_headers).
  set (c0 := cors_headers _ _ c) in *.
  assert (c_Request c0 = c_Request c) as Hc0 by (destruct Hs as (h & -> & _); done).
  rewrite Hc0. case_bool_decide.
  - right. eexists. split; [done|]. by apply reject_status.
  - left. exists c0. by split_and!.
Qed.

Definition json_ok (r : http_request) : Prop :=
  rq_Method r = "POST" -> rq_ContentLength r <> 0 -> is_json (rq_Header r "Content-Type") = true.

Lemma mw_RequireJSON_verdict c :
  unanswered c -> verdict mw_RequireJSON c (fun c1 => same c c1 /\ json_ok (c_Request c)).
Proof.
  intros Hu. unfold verdict_in, passes, stops, mw_RequireJSON, json_ok. case_bool_decide as Hm; cbn [andb].
  2: { pass c. }
  destruct (Z.eqb_spec (rq_ContentLength (c_Request c)) 0); cbn [negb andb].
  { pass c. }
  destruct (is_json _) eqn:Ej; cbn [negb].
  { pass c. }
  reject.
Qed.

(** The limiter allows the key, or is off, or cannot tell and fails open. *)
Definition rate_ok (limiter : Limiter) (rule : RateLimitRule) (dimension key : string) : Prop :=
  lim_enabled limiter = true -> key <> EmptyString ->
  match limiter_Allow limiter ("rate:" +:+ dimension +:+ ":" +:+ key) rule with
  | Ok result => rr_Allowed result = true
  | Err _ => lim_failOpen limiter = true
  end.

Lemma mw_RateLimit_verdict limiter rule dimension keyFunc c :
  unanswered c ->
  verdict (mw_RateLimit limiter rule dimension keyFunc) c
    (fun c1 => same c c1 /\ rate_ok limiter rule dimension (keyFunc c)).
Proof.
  intros Hu. unfold verdict_in, passes, stops, mw_RateLimit, rate_ok, empty, abort, Fail.
  destruct (lim_enabled limiter); cbn [negb]; [|pass c].
  case_bool_decide; [pass c|].
  destruct (limiter_Allow _ _ _) as [result|err].
  - destruct (rr_Allowed result); cbn [negb].
    + left. eexists. split_and!; [done|same_headers|done].
    + reject.
  - destruct (lim_failOpen limiter); [pass c|].
    reject.
Qed.

(** Who the Authorization header makes the caller of a route (subject and
    principal), if the request is let in at all. *)
Definition http_admits (service : AuthService) (cfg : Auth) (r : http_request)
    (o : option (string * Principal)) : Prop :=
  let header := rq_Header r "Authorization" in
  if psk_Enabled (auth_PSK cfg) && MatchesAny (rq_FullPath r) (psk_HTTPPaths (auth_PSK cfg)) then
    o = Some ("psk", psk_principal) /\ VerifyPSK header (psk_Key (auth_PSK cfg)) = true
  else if MatchesAny (rq_FullPath r) (auth_SkipHTTPPaths cfg) then o = None
  else exists p scheme raw, o = Some (pr_ID p, p) /\ cut space header = (scheme, raw, true) /\
    EqualFold scheme "Bearer" = true /\ raw <> EmptyString /\ auth_Verify service raw = Ok p.

Definition with_http_caller (c : gin_ctx) (o : option (string * Principal)) : gin_ctx :=
  match o with
  | Some (subject, p) => set_caller c subject p (rq_Header (c_Request c) "Authorization")
  | None => c
  end.

Lemma mw_Authentication_verdict service cfg c :
  unanswered c ->
  verdict (mw_Authentication service cfg) c (fun c1 =>
    exists o, http_admits service cfg (c_Request c) o /\ c1 = with_http_caller c o).
Proof.
  intros Hu. unfold verdict_in, passes, stops, mw_Authentication, http_admits, abort, Fail.
  destruct (psk_Enabled _ && _).
  { destruct (VerifyPSK _ _) eqn:E; cbn [negb].
    - left. eexists. split; [done|]. by exists (Some ("psk", psk_principal)).
    - reject. }
  destruct (MatchesAny _ _).
  { left. exists c. split; [done|]. by exists None. }
  unfold mw_JWT, abort, Fail, empty.
  destruct (cut space _) as [[scheme raw] ok]. destruct ok; cbn [negb orb].
  2: { reject. }
  destruct (EqualFold scheme "Bearer") eqn:Ef; cbn [negb orb].
  2: { reject. }
  case_bool_decide.
  { reject. }
  destruct (auth_Verify service raw) as [p|e] eqn:Ev.
  - left. eexists. split; [done|]. exists (Some (pr_ID p, p)). split; [|done]. by exists p, scheme, raw.
  - reject.
Qed.

(** A protected route needs the authorizer's consent for its caller. *)
Definition authz_ok (enabled : bool) (r : http_request) (o : option (string * Principal)) : Prop :=
  forall requirement, enabled = true -> registryHTTPRequirement (rq_FullPath r) = Some requirement ->
  enforce (snd <$> o) ((fun _ => rq_Header r "Authorization") <$> o) requirement = None.

Lemma mw_Authorization_verdict enabled c o :
  unanswered c -> c_principal c = snd <$> o ->
  c_credential c = (fun _ => rq_Header (c_Request c) "Authorization") <$> o ->
  verdict (mw_Authorization enabled) c (fun c1 => same c c1 /\ authz_ok enabled (c_Request c) o).
Proof.
  intros Hu Hp Hc. unfold verdict_in, passes, stops, mw_Authorization, authz_ok, abort, Fail.
  rewrite Hp, Hc. destruct (registryHTTPRequirement _) as [req|]; [|pass c].
  destruct enabled; cbn [negb]; [|pass c].
  destruct (enforce _ _ req) as [err|] eqn:Ee.
  - destruct (errors_is err _); reject.
  - left. exists c. split_and!; [done|done|]. by intros ? _ [= <-].
Qed.

(** ** The chains *)

(** What the group /api/v1 asks of a request for its handler to run, as the caller
    [o]. *)
Record api_admitted (cfg : Config) (service : AuthService) (limiter : Limiter)
    (r : http_request) (o : option (string * Principal)) : Prop := {
  adm_ip : rate_ok limiter (ratelimit_IP (config_RateLimit cfg)) "ip" (rq_ClientIP r);
  adm_api : rate_ok limiter (ratelimit_API (config_RateLimit cfg)) "api" (rq_FullPath r);
  adm_caller : http_admits service (config_Auth cfg) r o;
  adm_authz : authz_ok (authorization_Enabled (config_Authorization cfg)) r o;
  adm_user : rate_ok limiter (ratelimit_User (config_RateLimit cfg)) "user"
               (default EmptyString (fst <$> o));
}.

(** The group's middleware, on a context without a caller. *)
Lemma api_chain_verdict cfg service limiter c :
  unanswered c -> c_subject c = None -> c_principal c = None -> c_credential c = None ->
  verdict (api_chain cfg service limiter) c (fun c1 => exists o h,
    c1 = with_headers (with_http_caller c o) h /\
    h !! "X-Request-ID" = c_headers c !! "X-Request-ID" /\
    api_admitted cfg service limiter (c_Request c) o).
Proof.
  intros Hu H1 H2 H3. unfold api_chain.
  eapply (verdict_compose _ (mw_RateLimit _ _ _ _)); [by apply mw_RateLimit_verdict|].
  intros c1 [Hs Hip]. split; [by apply same_onward|].
  assert (unanswered c1) as Hu1 by by apply (same_onward c).
  eapply (verdict_compose _ (mw_RateLimit _ _ _ _)); [by apply mw_RateLimit_verdict|].
  intros c2 [Hs2 Hapi]. split; [by apply same_onward|].
  assert (unanswered c2) as Hu2 by by apply (same_onward c1).
  eapply (verdict_compose _ (mw_Authentication _ _)); [by apply mw_Authentication_verdict|].
  intros c3 (o & Ho & ->).
  assert (onward c2 (with_http_caller c2 o)) as Hw by (destruct o as [[??]|]; by split_and!).
  split; [done|]. assert (same c c2) as (h & -> & Hh) by by etrans.
  assert (forall k, c_Request (with_http_caller (with_headers c k) o) = c_Request c) as Hreq
    by (by destruct o as [[??]|]).
  destruct Hw as (Hu3 & _ & _).
  eapply (verdict_compose _ (mw_Authorization _)).
  { apply (mw_Authorization_verdict _ _ o); [done|..]; destruct o as [[??]|]; done. }
  intros c4 [Hs4 Hz]. split; [by apply same_onward|].
  assert (unanswered c4) as Hu4 by by apply (same_onward _ _ Hu3 Hs4).
  destruct (mw_RateLimit_verdict limiter (ratelimit_User (config_RateLimit cfg)) "user"
    (fun c => default EmptyString (c_subject c)) c4 Hu4) as [(c5 & Hp & Hs5 & Hr)|Hr].
  2: { right. destruct Hs4 as (h4 & -> & Hh4). exact Hr. }
  left. exists c5. split; [done|].
  assert (same (with_http_caller (with_headers c h) o) c5) as (h5 & -> & Hh5) by by etrans.
  destruct Hs4 as (h4 & -> & _). destruct Hs as (h1 & -> & _).
  exists o, h5. split_and!; [| |constructor; try done].
  - by destruct o as [[??]|].
  - rewrite Hh5. destruct o as [[??]|]; cbn; exact Hh.
  - by rewrite Hreq in Hz.
  - destruct o as [[??]|]; cbn in Hr |- *; [done|by rewrite H1 in Hr].
Qed.

(** What the group /api/v1 lets in. *)
Lemma api_lets cfg service limiter r c :
  c_Request c = r -> unanswered c -> c_subject c = None -> c_principal c = None -> c_credential c = None ->
  verdict (api_chain cfg service limiter) c (fun c1 => exists o h,
    c1 = with_headers (with_http_caller c o) h /\
    h !! "X-Request-ID" = c_headers c !! "X-Request-ID" /\ api_admitted cfg service limiter r o).
Proof. intros <-. apply api_chain_verdict. Qed.

(** The context after [mw_RequestID], and with an accepted idempotency key. *)
Definition chosen_id (generated : string) (r : http_request) : string :=
  let id := rq_Header r "X-Request-ID" in if negb (requestid_Valid id) then generated else id.

Definition start (r : http_request) (id : string) : gin_ctx :=
  set_reply_header "X-Request-ID" id (set_request_id (new_context r) id).

Definition with_key (c : gin_ctx) (k : option string) : gin_ctx :=
  match k with Some key => set_idempotency c key | None => c end.

Lemma mw_IdempotencyKey_verdict c :
  unanswered c ->
  verdict mw_IdempotencyKey c (fun c1 => exists k h,
    c1 = with_headers (with_key c k) h /\ h !! "X-Request-ID" = c_headers c !! "X-Request-ID").
Proof.
  intros Hu. unfold verdict_in, passes, stops, mw_IdempotencyKey, empty, abort, Fail. case_bool_decide.
  { left. exists c. split; [done|]. exists None, (c_headers c). by rewrite with_headers_id. }
  destruct (key_valid _); cbn [negb]; [|reject].
  left. eexists. split; [done|].
  destruct (same_header "Idempotency-Key" (rq_Header (c_Request c) "Idempotency-Key") c) as (h & E & Hh);
    [done|].
  exists (Some (rq_Header (c_Request c) "Idempotency-Key")), h. by rewrite E.
Qed.

(** The context the handler of an admitted request gets. *)
Definition handler_context (cfg : Config) (r : http_request) (id : string) (k : option string)
    (o : option (string * Principal)) (h : gmap string string) : gin_ctx :=
  with_headers (with_http_caller
    (set_body_limit (set_environment (with_key (start r id) k)
       (runtime_ActiveProfile (config_Runtime cfg))) (http_MaxBodyBytes (config_HTTP cfg))) o) h.

Lemma front_verdict cfg c :
  unanswered c ->
  verdict (fun next => mw_SecurityHeaders (mw_CORS (http_CORS (config_HTTP cfg))
      (mw_MaxBody (http_MaxBodyBytes (config_HTTP cfg)) next))) c
    (fun c1 => cors_ok (http_CORS (config_HTTP cfg)) (c_Request c) /\
      exists h, c1 = with_headers (set_body_limit c (http_MaxBodyBytes (config_HTTP cfg))) h /\
        h !! "X-Request-ID" = c_headers c !! "X-Request-ID").
Proof.
  intros Hu.
  assert (same c (security_headers c)) as Hs
    by (unfold security_headers; cbn [c_Request set_reply_header]; destruct (rq_TLS _); same_headers).
  eapply (verdict_compose _ mw_SecurityHeaders _ _ (fun c1 => c1 = security_headers c)).
  { left. by eexists. }
  intros c1 ->. split; [by apply same_onward|].
  assert (unanswered (security_headers c)) as Hu1 by by apply (same_onward c).
  eapply (verdict_compose _ (mw_CORS _)); [by apply mw_CORS_verdict|].
  intros c2 [Hs2 Hc]. split; [by apply same_onward|].
  assert (same c c2) as (h & -> & Hh) by by etrans.
  left. eexists. split; [done|]. destruct Hs as (h1 & E & _). rewrite E in Hc.
  split; [done|]. by exists h.
Qed.

(** The middleware of [NewServer] that looks at the outcome of a request. *)
Definition watched (cfg : Config) (expired : bool) (h : gin_handler) : gin_handler :=
  mw_RequestLogger (mw_Recovery (mw_HTTPMetrics (observability_MetricsEnabled (config_Observability cfg))
    (mw_Timeout expired h))).

Lemma answered_observe c o : answered c -> answered (observe c o).
Proof. done. Qed.

Section group.
(** A group of routes: its middleware, the shape of its refusals, which contain the
    answers of the common middleware, and whom it lets in. *)
Context (S : gin_ctx -> Prop) (group : middleware) (adm : option (string * Principal) -> Prop).
Context (S_answered : forall c, answered c -> S c) (S_observe : forall c o, S c -> S (observe c o)).

(** Timeout, metrics, recovery and log do not change the answer of a refused request. *)
Lemma refused_timeout expired (next : gin_handler) c c1 id hd :
  refused S id hd c1 -> next c = Ret (Done c1) -> mw_Timeout expired next c = Ret (Done c1).
Proof.
  intros (_ & (s & Hs & _) & _) E. unfold mw_Timeout. rewrite E. cbn [pbind].
  unfold written. rewrite Hs. by rewrite andb_false_r.
Qed.

Lemma refused_counted enabled c id hd :
  refused S id hd c -> refused S id hd (logged (counted enabled c)).
Proof.
  assert (forall c o, refused S id hd c -> refused S id hd (observe c o)) as Hobs.
  { intros c0 o (H1 & H2 & H3). split; [by apply S_observe|done]. }
  intros Hr. unfold logged, counted. destruct enabled; cbn [negb]; auto.
Qed.

Context (r : http_request).
Context (lets : forall c, c_Request c = r -> unanswered c ->
  c_subject c = None -> c_principal c = None -> c_credential c = None ->
  verdict_in S group c (fun c1 => exists o h, c1 = with_headers (with_http_caller c o) h /\
    h !! "X-Request-ID" = c_headers c !! "X-Request-ID" /\ adm o)).

Lemma back_verdict c :
  c_Request c = r -> unanswered c -> c_subject c = None -> c_principal c = None -> c_credential c = None ->
  verdict_in S (fun next => mw_RequireJSON (group next)) c (fun c1 => exists o h,
    c1 = with_headers (with_http_caller c o) h /\
    h !! "X-Request-ID" = c_headers c !! "X-Request-ID" /\ json_ok r /\ adm o).
Proof.
  intros Hreq Hu H1 H2 H3.
  eapply (verdict_compose _ mw_RequireJSON).
  { eapply (verdict_weaken answered); [done| |by apply mw_RequireJSON_verdict]. intros c1 Hc1. exact Hc1. }
  intros c1 [Hs Hj]. split; [by apply same_onward|]. rewrite Hreq in Hj.
  assert (unanswered c1) as Hu1 by by apply (same_onward c).
  destruct Hs as (h & -> & Hh).
  destruct (lets (with_headers c h) Hreq Hu1 H1 H2 H3) as [(c2 & Hp & o & h2 & -> & Hh2 & Ha)|Hr];
    [|by right].
  left. exists (with_headers (with_http_caller c o) h2). split.
  - intros next. rewrite Hp. by destruct o as [[??]|].
  - exists o, h2. cbn in Hh2. split_and!; [done|by rewrite Hh2|done..].
Qed.

(** A request of the group is refused by the middleware, whatever its handler is, or
    admitted, and then the handler runs in its context. *)
Lemma gate cfg generated expired :
  let id := chosen_id generated r in
  let serve h := global_chain cfg generated expired (group h) (new_context r) in
  (exists c', (forall h, serve h = Ret (Done c')) /\
     refused S id (c_headers (start r id) !! "X-Request-ID") c') \/
  (exists k o hs, hs !! "X-Request-ID" = c_headers (start r id) !! "X-Request-ID" /\
     (forall h, serve h = watched cfg expired h (handler_context cfg r id k o hs)) /\
     cors_ok (http_CORS (config_HTTP cfg)) r /\ json_ok r /\ adm o).
Proof.
  intros id. unfold global_chain, mw_RequestID. fold (chosen_id generated r).
  cbn [c_Request new_context]. fold (chosen_id generated r). fold id. fold (start r id).
  destruct (mw_IdempotencyKey_verdict (start r id)) as [(c1 & Hp & k & h1 & -> & Hh1)|(c1 & Hs & Hr)];
    [done| |left; exists c1; split; [intros h; by rewrite Hs|by apply (refused_weaken answered)]].
  cbv zeta. set (c2 := set_environment (with_headers (with_key (start r id) k) h1)
    (runtime_ActiveProfile (config_Runtime cfg))).
  assert (unanswered c2 /\ c_Request c2 = r /\ c_request_id c2 = id /\ c_headers c2 = h1 /\
    c_subject c2 = None /\ c_principal c2 = None /\ c_credential c2 = None)
    as (Hu & Hreq & Hid & Hhd & H1 & H2 & H3) by (destruct k; by split_and!).
  destruct (front_verdict cfg c2 Hu) as [(c3 & Hp3 & Hc & h3 & -> & Hh3)|(c3 & Hs & Hr)].
  2: { left. rewrite Hid, Hhd, Hh1 in Hr. apply (refused_weaken answered S) in Hr; [|done].
       eexists. split; [intros h; rewrite Hp; unfold mw_Environment, mw_RequestLogger, mw_Recovery, mw_HTTPMetrics; fold c2; by rewrite Hs|].
       by apply refused_counted. }
  rewrite Hhd, Hh1 in Hh3. rewrite Hreq in Hc.
  set (c3 := with_headers _ h3) in Hp3.
  destruct (back_verdict c3) as [(c4 & Hp4 & o & h4 & -> & Hh4 & Hj & Ha)|(c4 & Hs & Hr)]; [done..| |].
  - right. exists k, o, h4. split_and!; [by rewrite Hh4| |done..]. intros h. rewrite Hp.
    unfold watched, mw_Environment, mw_RequestLogger, mw_Recovery, mw_HTTPMetrics. fold c2. rewrite Hp3.
    unfold mw_Timeout. rewrite Hp4. by destruct o as [[??]|].
  - left. replace (c_request_id c3) with id in Hr by done. cbn [c3 c_headers with_headers] in Hr.
    rewrite Hh3 in Hr. eexists. split; [|by apply refused_counted]. intros h. rewrite Hp.
    unfold mw_Environment, mw_RequestLogger, mw_Recovery, mw_HTTPMetrics. fold c2. rewrite Hp3.
    by rewrite (refused_timeout _ _ _ _ _ _ Hr (Hs h)).
Qed.

End group.

Lemma ok_answered c b : unanswered c -> answered (http_OK c b).
Proof.
  intros [Hs Hw]. right. cbn. rewrite Hs, Hw. cbn. eexists _, _. split_and!; [done..|in_table].
Qed.

Lemma fail_answered c e :
  unanswered c -> (ae_Code e, ae_HTTPStatus e) ∈ code_statuses -> answered (Fail c (AnApp e)).
Proof.
  intros [Hs Hw] Hc. right. cbn. rewrite Hs, Hw. cbn. eexists _, _. split_and!; [done..|exact Hc].
Qed.

(** A handler answers the request it is given, once, whatever Redis replies, or panics
    before it has answered. *)
Definition answers_once (h : gin_handler) : Prop := forall c, unanswered c ->
  returns (fun _ _ => True) (fun x => match x with
    | Done c' => answered c' /\ c_request_id c' = c_request_id c /\ c_headers c' = c_headers c
    | Panic c' => unanswered c' /\ c_request_id c' = c_request_id c /\ c_headers c' = c_headers c
    end) (h c).

(** What [mw_Recovery] answers for a handler that panicked. *)
Definition recovered (c : gin_ctx) : gin_ctx :=
  write_json c 500 (envelope c CodeInternal "internal server error" BNil).

Lemma recovered_answered c : unanswered c -> answered (recovered c).
Proof.
  intros [Hs Hw]. right. cbn. rewrite Hs, Hw. cbn. eexists _, _. split_and!; [done..|in_table].
Qed.

Context `{InstanceCodec} `{SliceSort}.

Lemma api_handler_answers client info route : answers_once (api_handler client info route).
Proof.
  intros c Hu.
  assert (forall e, (ae_Code e, ae_HTTPStatus e) ∈ code_statuses ->
    returns (fun _ _ => True) (fun x => match x with
      | Done c' => answered c' /\ c_request_id c' = c_request_id c /\ c_headers c' = c_headers c
      | Panic c' => unanswered c' /\ c_request_id c' = c_request_id c /\ c_headers c' = c_headers c
      end) (abort c e)) as Habort.
  { intros e He. split_and!; [|done..]. by apply fail_answered. }
  destruct route; cbn [api_handler http_Version http_Me];
    [split_and!; [by apply ok_answered|done..]|split_and!; [by apply ok_answered|done..]|..].
  - unfold http_ListInstances. destruct (bind_instances _ _) as [req|err]; [|apply Habort; in_table].
    unfold pagination. eapply returns_bind; [apply returns_true|]. intros [[[resp total]|err]|] _;
      [split_and!; [by apply ok_answered|done..]|apply Habort; in_table|by split_and!].
  - unfold http_ListServices. destruct (bind_services _ _) as [req|err]; [|apply Habort; in_table].
    unfold pagination. eapply returns_bind; [apply returns_true|]. intros [[[resp total]|err]|] _;
      [split_and!; [by apply ok_answered|done..]| |by split_and!].
    split_and!; [|done..]. apply (fail_answered c (apperror_Internal err)); [done|in_table].
Qed.

Lemma answered_written c : answered c -> written c = true.
Proof. unfold written. by intros [[-> _]|(s & r & -> & _)]. Qed.

(** The middleware that watches a request keeps what holds of its answer, and of the
    answer of the recovery when the handler panics. *)
Lemma watched_keeps (P : gin_ctx -> Prop) cfg expired (h : gin_handler) c :
  (forall c o, P c -> P (observe c o)) -> (forall c, P c -> answered c) ->
  returns (fun _ _ => True) (fun x => match x with Done c' => P c' | Panic c' => P (recovered c') end) (h c) ->
  returns (fun _ _ => True) (fun x => exists c', x = Done c' /\ P c') (watched cfg expired h c).
Proof.
  intros Hobs Ha Hh. unfold watched, mw_RequestLogger, mw_Recovery, mw_HTTPMetrics, mw_Timeout.
  do 3 apply returns_assoc. eapply returns_bind; [exact Hh|]. intros [c1|c1] HP.
  - rewrite answered_written, andb_false_r by auto. cbn [pbind].
    eexists. split; [done|]. apply Hobs. unfold counted. destruct (observability_MetricsEnabled _); cbn [negb]; auto.
  - cbn [pbind]. eexists. split; [done|]. by apply Hobs.
Qed.

(** C18: every answer of the API routes has the same shape, whatever the request,
    the configuration and the replies of Redis, and whether or not there is a Redis
    client at all: exactly one JSON envelope is
    written, with the request id that the X-Request-ID header returns and with a
    status that belongs to its code (or the empty 204 of a preflight), the id is
    well formed and is the caller's own when that is well formed.  A listing that is
    admitted without a client panics on its nil pointer, and that panic does not leave
    the chain either. *)
Theorem api_answers client info route cfg generated expired service limiter r :
  requestid_Valid generated = true ->
  returns (fun _ _ => True)
    (fun x => exists c, x = Done c /\ answered c /\ c_request_id c = chosen_id generated r /\
       requestid_Valid (c_request_id c) = true /\
       c_headers c !! "X-Request-ID" = Some (c_request_id c))
    (serve_api cfg generated expired service limiter (api_handler client info route) r).
Proof.
  intros Hg. set (id := chosen_id generated r).
  assert (requestid_Valid id = true) as Hid.
  { unfold id, chosen_id. by destruct (requestid_Valid (rq_Header r "X-Request-ID")) eqn:E. }
  assert (c_headers (start r id) !! "X-Request-ID" = Some id) as Hstart.
  { unfold start. cbn [set_reply_header c_headers]. unfold empty.
    rewrite bool_decide_eq_false_2 by (intros ->; done). by rewrite lookup_insert. }
  unfold serve_api. destruct (gate answered (api_chain cfg service limiter)
    (api_admitted cfg service limiter r) (fun _ Hc => Hc) answered_observe r
    (api_lets cfg service limiter r) cfg generated expired)
    as [(c & E & Ha & _ & Hi & Hh)|(k & o & hs & Hh & E & _)]; rewrite E.
  - exists c. rewrite Hi. fold id. split_and!; [done..|]. by rewrite Hh, <- Hstart.
  - fold id in Hh |- *.
    set (c0 := handler_context cfg r id k o hs).
    assert (unanswered c0 /\ c_request_id c0 = id /\ c_headers c0 = hs) as (Hu & Hi & Hhd)
      by (unfold c0, handler_context; destruct k, o as [[??]|]; by split_and!).
    eapply returns_mono; [|apply (watched_keeps (fun c => answered c /\ c_request_id c = id /\ c_headers c = hs))].
    + intros x (c & -> & Ha & Ei & Eh). exists c. rewrite Ei, Eh, Hh. by split_and!.
    + done.
    + by intros c [Ha _].
    + rewrite <- Hi, <- Hhd. eapply returns_mono; [|by apply api_handler_answers].
      intros [c|c] (Hc & Hci & Hch); [done|]. split_and!; [by apply recovered_answered|done..].
Qed.

End http.

(** ** The listing route *)

Section listing.
Context `{HttpEnv}.
Context {db : Type} `{RedisLaws db} `{CodecLaws} `{SliceSortLaws}.


End listing.

(** ** Build information *)

(** The uptime is the time since the start in hours, minutes and seconds, to the
    nearest second. *)
Lemma uptime_text version commit built startedAt now :
  0 <= now - startedAt < 2 ^ 62 ->
  let n := (now - startedAt + 500000000) / nanos_per_second in
  bi_Uptime (buildinfo_Current version commit built startedAt now) =
    (if n / 60 / 60 =? 0 then EmptyString else itoa (n / 60 / 60) +:+ "h") +:+
    (if n / 60 =? 0 then EmptyString else itoa (n / 60 mod 60) +:+ "m") +:+ itoa (n mod 60) +:+ "s".
Proof.
  intros Hd n. cbn [bi_Uptime buildinfo_Current].
  assert (time_until now startedAt = now - startedAt) as -> by (unfold time_until, min_int64, max_int64; lia).
  rewrite round_seconds by done. apply whole_seconds. apply Z.div_pos; [lia|done].
Qed.

Example uptime_ex : bi_Uptime (buildinfo_Current "dev" "unknown" "unknown" 0 (3723 * nanos_per_second)) = "1h2m3s".
Proof. vm_compute. reflexivity. Qed.

(** ** Witnesses *)

(** An environment that reads every body as the request for the first page of a
    service, and one that authorizes everybody. *)
Definition sample_env : HttpEnv := {|
  key_valid := fun _ => true;
  bind_instances := fun _ body => Ok {| hli_ServiceName := body; hli_Metadata := {["zone" := "a"]};
    hli_IncludeDraining := false; hli_Page := 0; hli_PageSize := 0 |};
  bind_services := fun _ body => Ok {| hls_Prefix := body; hls_Page := 0; hls_PageSize := 0 |};
  enforce := fun _ _ _ => None;
  ErrDecisionUnavailable := ESentinel "authz.ErrDecisionUnavailable" "unavailable";
  status_name := fun _ => "HEALTHY" |}.

#[local] Existing Instance sample_env.
#[local] Existing Instance one_token.

Definition sample_request : http_request := {|
  rq_Method := "POST"; rq_FullPath := "/api/v1/registry/instances/list";
  rq_Header := fun name => if bool_decide (name = "Content-Type") then "application/json"
    else if bool_decide (name = "Authorization") then "Bearer token" else "";
  rq_ContentLength := 6; rq_TLS := false; rq_ClientIP := "10.0.0.1"; rq_Body := "orders" |}.


Definition sample_info : BuildInfo :=
  buildinfo_Current "dev" "unknown" "unknown" 0 (3723 * nanos_per_second).

Lemma api_answers_witness :
  returns (fun _ _ => True) (fun x => exists c, x = Done c /\ answered c /\ c_request_id c = "gen" /\
      requestid_Valid (c_request_id c) = true /\ c_headers c !! "X-Request-ID" = Some (c_request_id c))
    (serve_api (default_config "development") "gen" false sample_service
       {| lim_enabled := false; lim_failOpen := false; lim_backend := None |}
       (api_handler false sample_info RInstances) sample_request) /\
  exists c, serve_api (default_config "development") "gen" false sample_service
       {| lim_enabled := false; lim_failOpen := false; lim_backend := None |}
       (api_handler false sample_info RInstances) sample_request = Ret (Done c) /\ c_status c = Some 500.
Proof.
  split.
  - apply (api_answers false sample_info RInstances
      (default_config "development") "gen" false sample_service
      {| lim_enabled := false; lim_failOpen := false; lim_backend := None |} sample_request).
    reflexivity.
  - eexists. split; vm_compute; reflexivity.
Defined.
