(* ===== verification/HttpServer.v ===== *)
(** * The HTTP server

    internal/transport/http/server.go, [NewServer]: the table of routes with the
    middleware of their groups, the server with its start and stop hooks, and
    [registerPprof].  gin finds the route of a request and is a parameter; the
    handlers of metrics, profiles and documentation are libraries'. *)

From S2P Require Import Prelude GoText Utf8 GoTime GoMime Redis Proto Store Service PathMatch Config ConfigFacts GrpcRegistry Access AccessFacts Http HttpFacts.

Local Open Scope Z_scope.
Local Open Scope go_scope.

(** ** Routes *)

Inductive endpoint : Type :=
  | ELive | EReady | EMetrics
  | EPprof (name : string)
  | ESwagger
  | EApi (route : api_route).

Record route : Type := { rt_Method : string; rt_Path : string; rt_Endpoint : endpoint }.

Definition new_route (method path : string) (e : endpoint) : route :=
  {| rt_Method := method; rt_Path := path; rt_Endpoint := e |}.

(** [registerPprof(group)], with the path of the group. *)
Definition registerPprof (group : string) : list route :=
  [ new_route "GET" (group +:+ "/") (EPprof "index");
    new_route "GET" (group +:+ "/cmdline") (EPprof "cmdline");
    new_route "GET" (group +:+ "/profile") (EPprof "profile");
    new_route "POST" (group +:+ "/symbol") (EPprof "symbol");
    new_route "GET" (group +:+ "/symbol") (EPprof "symbol");
    new_route "GET" (group +:+ "/trace") (EPprof "trace") ] ++
  ((fun profile => new_route "GET" (group +:+ "/" +:+ profile) (EPprof profile)) <$>
    ["allocs"; "block"; "goroutine"; "heap"; "mutex"; "threadcreate"]).

(** The routes in the order of their registration. *)
Definition routes (cfg : Config) : list route :=
  (["GET"; "POST"] ≫= fun method =>
    [new_route method "/live" ELive; new_route method "/ready" EReady]) ++
  (if observability_MetricsEnabled (config_Observability cfg)
   then [new_route "GET" "/metrics" EMetrics] else []) ++
  (if observability_PprofEnabled (config_Observability cfg)
   then registerPprof "/debug/pprof" else []) ++
  (if swagger_Enabled (config_Swagger cfg)
   then [new_route "GET" "/swagger/*any" ESwagger] else []) ++
  ((fun r => new_route "POST" (route_path r) (EApi r)) <$> [RVersion; RMe; RInstances; RServices]).

(** ** Handling a request *)

Section http.
Context `{JwtLib} `{HttpEnv} `{InstanceCodec} `{SliceSort}.

(** The middleware of the group the endpoint is registered in. *)
Definition group_chain (cfg : Config) (service : AuthService) (limiter : Limiter) (e : endpoint) :
    middleware :=
  match e with
  | ELive | EReady | EMetrics => fun handler => handler
  | EPprof _ => mw_pprofAuth (observability_PprofToken (config_Observability cfg))
  | ESwagger =>
      if swagger_RequireAuth (config_Swagger cfg) then mw_JWT service else fun handler => handler
  | EApi _ => api_chain cfg service limiter
  end.

(** [client]: the store has a Redis client; [ready] is what [health.Ready] returns to the request, [library] the handlers of
    promhttp, net/http/pprof and gin-swagger. *)
Definition endpoint_handler (client : bool) (info : BuildInfo) (ready : HealthStatus * bool)
    (library : endpoint -> gin_handler) (e : endpoint) : gin_handler :=
  match e with
  | ELive => http_Live
  | EReady => http_Ready ready
  | EApi route => api_handler client info route
  | EMetrics | EPprof _ | ESwagger => library e
  end.

(** A request gin found the endpoint of, with [h] as its handler. *)
Definition serve_route (cfg : Config) (generated : string) (expired : bool) (service : AuthService)
    (limiter : Limiter) (e : endpoint) (h : gin_handler) (r : http_request) : gprog hres :=
  global_chain cfg generated expired (group_chain cfg service limiter e h) (new_context r).

End http.

(** ** The server *)

Record HTTPServer : Type := {
  hs_Addr : string; hs_Handler : list route; hs_ReadTimeout : Z; hs_WriteTimeout : Z; hs_IdleTimeout : Z;
  hs_release_mode : bool;
}.

(** [NewServer]; [trust] is [router.SetTrustedProxies]. *)
Definition http_NewServer (trust : list string -> option goerr) (cfg : Config) : res HTTPServer :=
  let release := bool_decide (app_Env (config_App cfg) = "production") in
  match trust (http_TrustedProxies (config_HTTP cfg)) with
  | Some e => Err (EWrap "configure trusted proxies" e)
  | None =>
      Ok {| hs_Addr := http_Address (config_HTTP cfg); hs_Handler := routes cfg;
            hs_ReadTimeout := http_ReadTimeout (config_HTTP cfg);
            hs_WriteTimeout := http_WriteTimeout (config_HTTP cfg);
            hs_IdleTimeout := http_IdleTimeout (config_HTTP cfg); hs_release_mode := release |}
  end.

Inductive http_call : Type :=
  | WListen (address : string)
  | WServe (s : HTTPServer)
  | WShutdown
  | WLog (msg : string).

(** A call answers with its error. *)
Abbreviation webprog A := (prog http_call (option goerr) A).

(** [OnStart]; serving goes on in a goroutine of its own. *)
Definition http_start (s : HTTPServer) : webprog (option goerr) :=
  let* err := call (WListen (hs_Addr s)) in
  match err with
  | Some e => Ret (Some (EWrap "listen http" e))
  | None =>
      let* _ := call (WServe s) in
      let* _ := call (WLog "http server started") in
      Ret None
  end.

Definition ErrServerClosed : goerr := ESentinel "http.ErrServerClosed" "http: Server closed".

(** The end of that goroutine: what [Serve] returned. *)
Definition http_served (serveErr : option goerr) : webprog unit :=
  match serveErr with
  | Some e =>
      if negb (errors_is e ErrServerClosed) then
        let* _ := call (WLog "http server stopped unexpectedly") in Ret tt
      else Ret tt
  | None => Ret tt
  end.

(** [OnStop]. *)
Definition http_stop : webprog (option goerr) := call WShutdown.

(** ** Facts *)

(** No two routes have the same method and path, on which gin would panic. *)
Lemma routes_distinct cfg : NoDup ((fun rt => (rt_Method rt, rt_Path rt)) <$> routes cfg).
Proof.
  unfold routes. destruct (observability_MetricsEnabled _), (observability_PprofEnabled _),
    (swagger_Enabled _); apply (bool_decide_unpack _); vm_compute; exact I.
Qed.

(** A refusal of the profiles has a status and no body. *)
Definition bare_or_answered (c : gin_ctx) : Prop :=
  answered c \/ (c_status c = Some 401 /\ c_written c = []).

Section facts.
Context `{JwtLib} `{HttpEnv}.

(** The Authorization header is a bearer token. *)
Definition bearer (r : http_request) (token : string) : Prop :=
  exists scheme, cut space (rq_Header r "Authorization") = (scheme, token, true) /\
    EqualFold scheme "Bearer" = true.

(** What the group of an endpoint asks of a request, and who its caller is. *)
Definition route_admits (cfg : Config) (service : AuthService) (limiter : Limiter) (e : endpoint)
    (r : http_request) (o : option (string * Principal)) : Prop :=
  match e with
  | ELive | EReady | EMetrics => o = None
  | EPprof _ => o = None /\ bearer r (observability_PprofToken (config_Observability cfg))
  | ESwagger =>
      if swagger_RequireAuth (config_Swagger cfg) then
        exists raw p, bearer r raw /\ raw <> EmptyString /\ auth_Verify service raw = Ok p /\
          o = Some (pr_ID p, p)
      else o = None
  | EApi _ => api_admitted cfg service limiter r o
  end.

Lemma mw_pprofAuth_verdict expected c :
  unanswered c ->
  verdict_in bare_or_answered (mw_pprofAuth expected) c (fun c1 => c1 = c /\ bearer (c_Request c) expected).
Proof.
  intros [Hs Hw]. unfold verdict_in, passes, stops, mw_pprofAuth, bearer, ConstantTimeCompare.
  destruct (cut space _) as [[scheme token] ok].
  destruct ok, (EqualFold scheme "Bearer") eqn:Ef, (bool_decide_reflect (token = expected)) as [->|Hne];
    cbn [negb orb];
    first [ left; exists c; split_and!; eauto; fail
          | right; eexists; split; [done|]; unfold refused, bare_or_answered; cbn; rewrite Hs, Hw;
            split_and!; [by right|by eexists; split; [done|in_table]|done..] ].
Qed.

Lemma mw_JWT_verdict service c :
  unanswered c ->
  verdict (mw_JWT service) c (fun c1 => exists raw p, bearer (c_Request c) raw /\ raw <> EmptyString /\
    auth_Verify service raw = Ok p /\ c1 = with_http_caller c (Some (pr_ID p, p))).
Proof.
  intros Hu. unfold verdict_in, passes, stops, mw_JWT, bearer, abort, Fail, empty.
  destruct (cut space _) as [[scheme raw] ok]. destruct ok; cbn [negb orb]; [|reject].
  destruct (EqualFold scheme "Bearer") eqn:Ef; cbn [negb orb]; [|reject].
  case_bool_decide; [reject|].
  destruct (auth_Verify service raw) as [p|e] eqn:Ev; [|reject].
  left. eexists. split; [done|]. exists raw, p. split_and!; eauto.
Qed.

Lemma group_lets cfg service limiter e r c :
  c_Request c = r -> unanswered c -> c_subject c = None -> c_principal c = None -> c_credential c = None ->
  verdict_in bare_or_answered (group_chain cfg service limiter e) c (fun c1 => exists o h,
    c1 = with_headers (with_http_caller c o) h /\
    h !! "X-Request-ID" = c_headers c !! "X-Request-ID" /\ route_admits cfg service limiter e r o).
Proof.
  intros Hreq Hu H1 H2 H3.
  assert (forall (P : Prop), (P -> route_admits cfg service limiter e r None) -> forall c1, c1 = c /\ P ->
    exists o h, c1 = with_headers (with_http_caller c o) h /\
      h !! "X-Request-ID" = c_headers c !! "X-Request-ID" /\ route_admits cfg service limiter e r o) as Hanon.
  { intros P HP c1 [-> Hp]. exists None, (c_headers c). cbn [with_http_caller].
    rewrite with_headers_id. auto. }
  assert (route_admits cfg service limiter e r None -> verdict_in bare_or_answered (fun handler => handler) c
    (fun c1 => exists o h, c1 = with_headers (with_http_caller c o) h /\
      h !! "X-Request-ID" = c_headers c !! "X-Request-ID" /\ route_admits cfg service limiter e r o)) as Hopen.
  { intros Ha. left. exists c. split; [done|]. by apply (Hanon True). }
  destruct e as [| | |name| |route]; cbn [group_chain].
  1-3: by apply Hopen.
  - eapply (verdict_weaken bare_or_answered); [done|apply (Hanon (bearer r (observability_PprofToken
      (config_Observability cfg)))); intros Hb; by split|].
    rewrite <- Hreq. by apply mw_pprofAuth_verdict.
  - destruct (swagger_RequireAuth _) eqn:Es; [|by apply Hopen; cbn; rewrite Es].
    eapply (verdict_weaken answered); [by left| |by apply mw_JWT_verdict].
    intros c1 (raw & p & Hb & Hn & Hv & ->). exists (Some (pr_ID p, p)), (c_headers c). split_and!; [done..|].
    cbn [route_admits]. rewrite Es. rewrite Hreq in Hb. by exists raw, p.
  - eapply (verdict_weaken answered); [by left| |by apply (api_lets cfg service limiter r)].
    intros c1 Hc1. exact Hc1.
Qed.

Lemma answered_bare c : answered c -> bare_or_answered c.
Proof. by left. Qed.
Lemma bare_observe c o : bare_or_answered c -> bare_or_answered (observe c o).
Proof. done. Qed.

(** C16: a request to any route of the server is refused by the middleware, with a
    status of its own and whatever the handler of the route is, or it is admitted:
    its origin is allowed, its body is declared JSON, and the group of the route lets
    it in.  For profiles that takes the configured token, for protected documentation
    a token that verifies, and for the API the three rate limits, a header that
    admits its caller and the authorizer's consent.  The handler then runs with
    exactly that caller, the body limit, the active profile and the chosen request id
    in its context. *)
Theorem route_gate cfg generated expired service limiter e r :
  let id := chosen_id generated r in
  (exists c', (forall h, serve_route cfg generated expired service limiter e h r = Ret (Done c')) /\
     refused bare_or_answered id (c_headers (start r id) !! "X-Request-ID") c') \/
  (exists k o hs, hs !! "X-Request-ID" = c_headers (start r id) !! "X-Request-ID" /\
     (forall h, serve_route cfg generated expired service limiter e h r =
       watched cfg expired h (handler_context cfg r id k o hs)) /\
     cors_ok (http_CORS (config_HTTP cfg)) r /\ json_ok r /\ route_admits cfg service limiter e r o).
Proof.
  exact (gate bare_or_answered (group_chain cfg service limiter e) (route_admits cfg service limiter e r)
    answered_bare bare_observe r (group_lets cfg service limiter e r) cfg generated expired).
Qed.

(** Without an Authorization header no group lets a request in but the open ones. *)
Lemma admitted_without_header cfg service limiter rt r o :
  rt ∈ routes cfg -> rq_FullPath r = rt_Path rt -> rq_Header r "Authorization" = EmptyString ->
  (swagger_Enabled (config_Swagger cfg) = true -> swagger_RequireAuth (config_Swagger cfg) = true) ->
  route_admits cfg service limiter (rt_Endpoint rt) r o ->
  rt_Path rt ∈ ["/live"; "/ready"; "/metrics"] \/
  (exists a, rt = new_route "POST" (route_path a) (EApi a) /\
     MatchesAny (route_path a) (auth_SkipHTTPPaths (config_Auth cfg)) = true /\ o = None /\ authz_ok (authorization_Enabled (config_Authorization cfg)) r None).
Proof.
  intros Hrt Hpath Hno Hsw Ha.
  assert (forall token, ~ bearer r token) as Hnb.
  { intros token (scheme & Hc & _). by rewrite Hno in Hc. }
  unfold routes in Hrt. rewrite !elem_of_app in Hrt. destruct Hrt as [Hrt|[Hrt|[Hrt|[Hrt|Hrt]]]].
  - left. cbn in Hrt. set_unfold. naive_solver.
  - left. destruct (observability_MetricsEnabled _); set_unfold; naive_solver.
  - destruct (observability_PprofEnabled _); [|set_solver]. exfalso.
    assert (exists name, rt_Endpoint rt = EPprof name) as [name E] by (cbn in Hrt; set_unfold; naive_solver).
    rewrite E in Ha. destruct Ha as [_ Hb]. by apply Hnb in Hb.
  - destruct (swagger_Enabled _) eqn:Es; [|set_solver]. exfalso. apply list_elem_of_singleton in Hrt as ->.
    cbn [rt_Endpoint new_route route_admits] in Ha. rewrite (Hsw eq_refl) in Ha.
    destruct Ha as (raw & p & Hb & _). by apply Hnb in Hb.
  - right. apply list_elem_of_fmap in Hrt as (a & -> & _). cbn [rt_Endpoint rt_Path new_route] in *.
    exists a. destruct Ha as [_ _ Hc Hz _]. unfold http_admits in Hc. rewrite Hno, Hpath in Hc.
    destruct (psk_Enabled _ && _); [by destruct Hc as [_ Hc]|].
    destruct (MatchesAny _ (auth_SkipHTTPPaths _)) eqn:Em; [by subst o|].
    by destruct Hc as (p & scheme & raw & _ & Hcut & _).
Qed.

(** C17: under an accepted production configuration a request without an
    Authorization header gets no further than the middleware, whatever the handler
    is, except to the health and metrics routes and to API routes that the
    configuration exempts; on those it runs without a caller, and if the route needs
    a permission only because the authorizer consents to that. *)
Theorem public_surface `{MapRange} `{Quote} cfg generated expired service limiter rt r :
  Validate cfg = Ok tt -> app_Env (config_App cfg) = "production" ->
  rt ∈ routes cfg -> rq_FullPath r = rt_Path rt -> rq_Header r "Authorization" = EmptyString ->
  (exists c' s,
     (forall h, serve_route cfg generated expired service limiter (rt_Endpoint rt) h r = Ret (Done c')) /\
     c_status c' = Some s /\ s ∈ rejections) \/
  rt_Path rt ∈ ["/live"; "/ready"; "/metrics"] \/
  (exists a k hs, rt = new_route "POST" (route_path a) (EApi a) /\
     MatchesAny (route_path a) (auth_SkipHTTPPaths (config_Auth cfg)) = true /\
     (forall h, serve_route cfg generated expired service limiter (rt_Endpoint rt) h r =
        watched cfg expired h (handler_context cfg r (chosen_id generated r) k None hs)) /\
     forall requirement, registryHTTPRequirement (route_path a) = Some requirement ->
       enforce None None requirement = None).
Proof.
  intros HV Hprod Hrt Hpath Hno.
  destruct (production_locked cfg HV Hprod) as (_ & _ & _ & _ & _ & Haz & _ & Hsw).
  destruct (gate bare_or_answered (group_chain cfg service limiter (rt_Endpoint rt))
    (route_admits cfg service limiter (rt_Endpoint rt) r) answered_bare bare_observe r
    (group_lets cfg service limiter (rt_Endpoint rt) r) cfg generated expired)
    as [(c' & E & _ & (s & Hs & Hin) & _)|(k & o & hs & _ & E & _ & _ & Ha)].
  - left. by exists c', s.
  - right. destruct (admitted_without_header _ _ _ _ _ _ Hrt Hpath Hno Hsw Ha)
      as [Hl|(a & Ea & Hm & -> & Hz)]; [by left|].
    right. exists a, k, hs. split_and!; [done..|]. intros req Hreq. apply (Hz req Haz).
    by rewrite Hpath, Ea.
Qed.

(** ** What is observed *)

(** [h] neither logs nor counts, keeps the request and its id, and panics or not,
    whatever Redis replies. *)
Definition handled (panics : bool) (h : gin_handler) : Prop := forall c,
  returns (fun _ _ => True) (fun x => exists c', x = (if panics then Panic c' else Done c') /\
    c_log c' = c_log c /\ c_Request c' = c_Request c /\ c_request_id c' = c_request_id c) (h c).

(** C31: a request that was admitted and whose handler returns is counted once and
    logged once, both with the status of its answer; one whose handler panics is
    answered and logged but never counted, although the answer is an error of the
    server. *)
Theorem requests_observed cfg expired panics (h : gin_handler) c :
  handled panics h ->
  returns (fun _ _ => True) (fun x => exists c', x = Done c' /\
    let method := rq_Method (c_Request c) in
    let path := rq_FullPath (c_Request c) in
    c_log c' = c_log c ++
      (if panics || negb (observability_MetricsEnabled (config_Observability cfg)) then []
       else [OCount method (if empty path then "unmatched" else path) (itoa (writer_status c'))]) ++
      [OLog (c_request_id c) method path (writer_status c') (rq_ClientIP (c_Request c))])
    (watched cfg expired h c).
Proof.
  intros Hh. unfold watched, mw_RequestLogger, mw_Recovery, mw_HTTPMetrics, mw_Timeout.
  do 3 apply returns_assoc. eapply returns_bind; [apply Hh|].
  intros x (c' & -> & Hl & Hr & Hi). destruct panics; cbn [pbind orb].
  - eexists. split; [done|]. cbn. by rewrite Hl, Hr, Hi.
  - unfold counted. destruct (expired && negb (written c')), (observability_MetricsEnabled _); cbn;
      (eexists; split; [done|]); cbn; by rewrite ?Hl, ?Hr, ?Hi, <- ?app_assoc.
Qed.

End facts.

(** The server serves exactly when it could listen on the configured address. *)
Lemma http_start_exact s tr r :
  emits (http_start s) tr r ->
  (r = None /\ tr.*1 = [WListen (hs_Addr s); WServe s; WLog "http server started"]) \/
  (exists e, r = Some (EWrap "listen http" e) /\ tr = [(WListen (hs_Addr s), Some e)]).
Proof.
  unfold http_start. intros Htr. emits_inv Htr. cbn [pbind] in Htr. destruct r0 as [e|]; emits_inv Htr.
  - right. by exists e.
  - emits_inv Htr. emits_inv Htr. by left.
Qed.

(** ** Witnesses *)

#[local] Existing Instance sample_env.
#[local] Existing Instance one_token.

(** A request to the profile of the caller, without credentials. *)
Definition anonymous_request : http_request := {|
  rq_Method := "POST"; rq_FullPath := "/api/v1/me"; rq_Header := fun _ => "";
  rq_ContentLength := 0; rq_TLS := true; rq_ClientIP := "10.0.0.1"; rq_Body := "" |}.

Lemma public_surface_witness :
  exists c' s, (forall h, serve_route production_config "gen" false sample_service
      {| lim_enabled := false; lim_failOpen := false; lim_backend := None |} (EApi RMe) h
      anonymous_request = Ret (Done c')) /\ c_status c' = Some s /\ s ∈ rejections.
Proof.
  destruct (public_surface (H1 := key_order) (H2 := fun s => s) production_config "gen" false sample_service
    {| lim_enabled := false; lim_failOpen := false; lim_backend := None |}
    (new_route "POST" "/api/v1/me" (EApi RMe)) anonymous_request)
    as [Hr|[Hl|(a & k & hs & E & Hm & _)]].
  - vm_compute. reflexivity.
  - vm_compute. reflexivity.
  - apply list_elem_of_In. vm_compute. tauto.
  - reflexivity.
  - reflexivity.
  - exact Hr.
  - exfalso. apply list_elem_of_In in Hl. vm_compute in Hl. intuition discriminate.
  - exfalso. injection E as _ <-. vm_compute in Hm. discriminate Hm.
Defined.

Lemma requests_observed_witness :
  returns (fun _ _ => True) (fun x => exists c', x = Done c' /\
      c_log c' = [OLog "" "POST" "/api/v1/me" 500 "10.0.0.1"])
    (watched production_config false (fun c => Ret (Panic c)) (new_context anonymous_request)).
Proof.
  assert (handled true (fun c => Ret (Panic c))) as Hh by (intros c; exists c; repeat split).
  pose proof (requests_observed production_config false true _ (new_context anonymous_request) Hh) as Hw.
  cbn in Hw |- *. destruct Hw as (c' & E & Hl). exists c'. split; [exact E|].
  rewrite Hl. injection E as <-. reflexivity.
Defined.
