(* ===== verification/Json.v ===== *)
(** * JSON values and schemas

    The values [encoding/json] writes, with a notation in which a JSON text can be
    copied as it is, and the part of JSON Schema that a Swagger 2.0 document uses, as a
    decision procedure. *)

From S2P Require Import Prelude GoText GoQuery.

Local Open Scope Z_scope.
Local Open Scope go_scope.

(** ** Values *)

(** Every number the program writes is an integer. *)
Inductive json : Type :=
  | JNull
  | JBool (b : bool)
  | JNum (n : Z)
  | JStr (s : string)
  | JArr (l : list json)
  | JObj (fields : list (string * json)).

(** The text of a document: [# n] is a number and [$ v] any term. *)
Declare Custom Entry json.
Declare Custom Entry jfield.
Notation "'json:' x" := x (at level 1, x custom json at level 1).
Notation "s" := (JStr s) (in custom json at level 0, s constr at level 0).
Notation "# n" := (JNum n) (in custom json at level 1, n constr at level 0).
Notation "$ x" := x (in custom json at level 1, x constr at level 0).
Notation "{ }" := (JObj nil) (in custom json at level 0).
Notation "{ x , .. , y }" := (JObj (cons x .. (cons y nil) ..))
  (in custom json at level 0, x custom jfield at level 1, y custom jfield at level 1).
Notation "[ ]" := (JArr nil) (in custom json at level 0).
Notation "[ x , .. , y ]" := (JArr (cons x .. (cons y nil) ..))
  (in custom json at level 0, x custom json at level 1, y custom json at level 1).
Notation "k : v" := (pair k v) (in custom jfield at level 1, k constr at level 0, v custom json at level 1).

(** The field of an object. *)
Definition assoc {A} (name : string) (fields : list (string * A)) : option A :=
  snd <$> find (fun f => String.eqb name f.1) fields.

Definition member (name : string) (v : json) : option json :=
  match v with JObj fields => assoc name fields | _ => None end.

(** The value found by following the fields [names]. *)
Fixpoint member_at (names : list string) (v : json) : option json :=
  match names with [] => Some v | name :: names => member name v ≫= member_at names end.

(** ** Encoding *)

(** [omitempty] on a string. *)
Definition unless_empty (name s : string) : list (string * json) :=
  if bool_decide (s = EmptyString) then [] else [(name, JStr s)].

(** A map that is not nil: [encoding/json] sorts the keys. *)
Definition key_le {A} (a b : string * A) : Prop := str_le a.1 b.1.
#[global] Instance key_le_dec {A} (a b : string * A) : Decision (key_le a b).
Proof. unfold key_le. apply _. Defined.

Definition entries {A} (encode : A -> json) (m : gmap string A) : list (string * json) :=
  prod_map id encode <$> merge_sort key_le (map_to_list m).

(** ** Schemas *)

Definition json_type (type : string) (v : json) : bool :=
  match v with
  | JNull => String.eqb type "null"
  | JBool _ => String.eqb type "boolean"
  | JNum _ => String.eqb type "integer" || String.eqb type "number"
  | JStr _ => String.eqb type "string"
  | JArr _ => String.eqb type "array"
  | JObj _ => String.eqb type "object"
  end.

Lemma forallb_fmap {A B} (f : A -> B) (p : B -> bool) l :
  forallb p (f <$> l) = forallb (fun x => p (f x)) l.
Proof. induction l as [|x l IH]; [done|]. cbn. by rewrite IH. Qed.

Section schema.
Context (resolve : string -> option json).

(** One keyword of a schema with the keywords [schema], of the value [v]. *)
Definition keyword (check : json -> json -> bool) (schema : list (string * json)) (v : json)
    (kw : string * json) : bool :=
  let '(name, arg) := kw in
  if String.eqb name "$ref" then
    match arg with
    | JStr ref => match resolve ref with Some s => check s v | None => false end
    | _ => false
    end
  else if String.eqb name "allOf" then
    match arg with JArr schemas => forallb (fun s => check s v) schemas | _ => false end
  else if String.eqb name "type" then
    match arg with JStr type => json_type type v | _ => false end
  else if String.eqb name "properties" then
    match arg, v with
    | JObj properties, JObj fields =>
        forallb (fun p => match assoc p.1 fields with Some x => check p.2 x | None => true end) properties
    | JObj _, _ => true
    | _, _ => false
    end
  else if String.eqb name "additionalProperties" then
    match v with
    | JObj fields =>
        let known := default (JObj []) (assoc "properties" schema) in
        forallb (fun f => match member f.1 known with Some _ => true | None => check arg f.2 end) fields
    | _ => true
    end
  else if String.eqb name "items" then
    match v with JArr items => forallb (check arg) items | _ => true end
  else if String.eqb name "minimum" then
    match arg, v with JNum m, JNum n => m <=? n | JNum _, _ => true | _, _ => false end
  else if String.eqb name "maximum" then
    match arg, v with JNum m, JNum n => n <=? m | JNum _, _ => true | _, _ => false end
  else true.

(** [v] satisfies [schema]; [fuel] bounds the nesting of schemas, and running out of it
    is a refusal. *)
Fixpoint conforms (fuel : nat) (schema v : json) : bool :=
  match fuel, schema with
  | S fuel, JObj keywords => forallb (keyword (conforms fuel) keywords v) keywords
  | _, _ => false
  end.

(** ** Facts *)

Lemma keyword_mono (check check' : json -> json -> bool) schema v kw :
  (forall s x, check s x = true -> check' s x = true) ->
  keyword check schema v kw = true -> keyword check' schema v kw = true.
Proof.
  intros Hc. unfold keyword. destruct kw as [name arg].
  assert (forall A (f g : A -> bool) l, (forall x, f x = true -> g x = true) ->
    forallb f l = true -> forallb g l = true) as Hall.
  { intros A f g l Hfg. rewrite !forallb_forall. auto. }
  repeat case_match; try done; try apply Hall; auto; intros; case_match; auto.
Qed.

(** A value that was accepted is accepted with more fuel. *)
Lemma conforms_mono n m schema v :
  (n <= m)%nat -> conforms n schema v = true -> conforms m schema v = true.
Proof.
  revert m schema v. induction n as [|n IH]; intros m schema v Hle; [done|].
  destruct m as [|m]; [lia|]. cbn [conforms]. destruct schema; try done.
  rewrite !forallb_forall. intros Hk kw Hin. eapply keyword_mono; [|by apply Hk].
  intros s x. apply IH. lia.
Qed.

End schema.
