(* ===== verification/ApiDocs.v ===== *)
(** * The API documentation

    docs/docs.go: the Swagger 2.0 document that swag generated from the comments of the
    handlers, copied here as JSON values, one per path and per schema, and the
    values that fill in its template.  ApiAnswers.v holds the answers of the HTTP server
    against them. *)

From S2P Require Import Prelude GoText GoQuery Json.

Local Open Scope Z_scope.
Local Open Scope go_scope.

(** ** Paths *)

Definition path_me : json := json: {
  "post": {
    "security": [
      {
        "Bearer": []
      }
    ],
    "produces": [
      "application/json"
    ],
    "tags": [
      "authentication"
    ],
    "summary": "Return the authenticated subject",
    "responses": {
      "200": {
        "description": "OK",
        "schema": {
          "allOf": [
            {
              "$ref": "#/definitions/httptransport.Response"
            },
            {
              "type": "object",
              "properties": {
                "body": {
                  "$ref": "#/definitions/httptransport.MeResponseBody"
                }
              }
            }
          ]
        }
      },
      "401": {
        "description": "Code 20001: unauthorized",
        "schema": {
          "$ref": "#/definitions/httptransport.Response"
        }
      }
    }
  }
}.

Definition path_instances : json := json: {
  "post": {
    "security": [
      {
        "Bearer": []
      }
    ],
    "consumes": [
      "application/json"
    ],
    "produces": [
      "application/json"
    ],
    "tags": [
      "registry"
    ],
    "summary": "List live service instances",
    "parameters": [
      {
        "description": "Service name or metadata selector",
        "name": "request",
        "in": "body",
        "required": $ (JBool true),
        "schema": {
          "$ref": "#/definitions/httptransport.ListInstancesRequest"
        }
      }
    ],
    "responses": {
      "200": {
        "description": "OK",
        "schema": {
          "allOf": [
            {
              "$ref": "#/definitions/httptransport.Response"
            },
            {
              "type": "object",
              "properties": {
                "body": {
                  "$ref": "#/definitions/httptransport.ListInstancesBody"
                }
              }
            }
          ]
        }
      },
      "400": {
        "description": "Code 10001: invalid selector",
        "schema": {
          "$ref": "#/definitions/httptransport.Response"
        }
      }
    }
  }
}.

Definition path_services : json := json: {
  "post": {
    "security": [
      {
        "Bearer": []
      }
    ],
    "consumes": [
      "application/json"
    ],
    "produces": [
      "application/json"
    ],
    "tags": [
      "registry"
    ],
    "summary": "List registered services",
    "parameters": [
      {
        "description": "Optional service prefix",
        "name": "request",
        "in": "body",
        "required": $ (JBool true),
        "schema": {
          "$ref": "#/definitions/httptransport.ListServicesRequest"
        }
      }
    ],
    "responses": {
      "200": {
        "description": "OK",
        "schema": {
          "allOf": [
            {
              "$ref": "#/definitions/httptransport.Response"
            },
            {
              "type": "object",
              "properties": {
                "body": {
                  "$ref": "#/definitions/httptransport.ListServicesBody"
                }
              }
            }
          ]
        }
      }
    }
  }
}.

Definition path_version : json := json: {
  "post": {
    "produces": [
      "application/json"
    ],
    "tags": [
      "operations"
    ],
    "summary": "Return build and runtime version information",
    "responses": {
      "200": {
        "description": "OK",
        "schema": {
          "allOf": [
            {
              "$ref": "#/definitions/httptransport.Response"
            },
            {
              "type": "object",
              "properties": {
                "body": {
                  "$ref": "#/definitions/buildinfo.Info"
                }
              }
            }
          ]
        }
      }
    }
  }
}.

Definition path_live : json := json: {
  "post": {
    "produces": [
      "application/json"
    ],
    "tags": [
      "operations"
    ],
    "summary": "Check process liveness",
    "responses": {
      "200": {
        "description": "OK",
        "schema": {
          "allOf": [
            {
              "$ref": "#/definitions/httptransport.Response"
            },
            {
              "type": "object",
              "properties": {
                "body": {
                  "$ref": "#/definitions/health.Status"
                }
              }
            }
          ]
        }
      }
    }
  }
}.

Definition path_ready : json := json: {
  "post": {
    "produces": [
      "application/json"
    ],
    "tags": [
      "operations"
    ],
    "summary": "Check database and Redis readiness",
    "responses": {
      "200": {
        "description": "OK",
        "schema": {
          "allOf": [
            {
              "$ref": "#/definitions/httptransport.Response"
            },
            {
              "type": "object",
              "properties": {
                "body": {
                  "$ref": "#/definitions/health.Status"
                }
              }
            }
          ]
        }
      },
      "503": {
        "description": "Code 50003: dependency unavailable",
        "schema": {
          "allOf": [
            {
              "$ref": "#/definitions/httptransport.Response"
            },
            {
              "type": "object",
              "properties": {
                "body": {
                  "$ref": "#/definitions/health.Status"
                }
              }
            }
          ]
        }
      }
    }
  }
}.

Definition paths : list (string * json) :=
  [ ("/api/v1/me", path_me);
    ("/api/v1/registry/instances/list", path_instances);
    ("/api/v1/registry/services/list", path_services);
    ("/api/v1/version", path_version);
    ("/live", path_live);
    ("/ready", path_ready) ].

(** ** Schemas *)

Definition def_Info : json := json: {
  "type": "object",
  "properties": {
    "build_time": {
      "type": "string"
    },
    "commit": {
      "type": "string"
    },
    "started_at": {
      "type": "string"
    },
    "uptime": {
      "type": "string"
    },
    "version": {
      "type": "string"
    }
  }
}.

Definition def_Dependency : json := json: {
  "type": "object",
  "properties": {
    "latency": {
      "type": "string"
    },
    "status": {
      "type": "string"
    }
  }
}.

Definition def_Status : json := json: {
  "type": "object",
  "properties": {
    "dependencies": {
      "type": "object",
      "additionalProperties": {
        "$ref": "#/definitions/health.Dependency"
      }
    },
    "status": {
      "type": "string"
    }
  }
}.

Definition def_InstanceBody : json := json: {
  "type": "object",
  "properties": {
    "endpoint": {
      "type": "string"
    },
    "instance_id": {
      "type": "string"
    },
    "lease_expires_at": {
      "type": "string"
    },
    "metadata": {
      "type": "object",
      "additionalProperties": {
        "type": "string"
      }
    },
    "protocol": {
      "type": "string"
    },
    "service_name": {
      "type": "string"
    },
    "status": {
      "type": "string"
    },
    "version": {
      "type": "string"
    },
    "weight": {
      "type": "integer"
    }
  }
}.

Definition def_ListInstancesBody : json := json: {
  "type": "object",
  "properties": {
    "instances": {
      "type": "array",
      "items": {
        "$ref": "#/definitions/httptransport.InstanceBody"
      }
    },
    "page": {
      "type": "integer"
    },
    "page_size": {
      "type": "integer"
    },
    "revision": {
      "type": "integer"
    },
    "total": {
      "type": "integer"
    }
  }
}.

Definition def_ListInstancesRequest : json := json: {
  "type": "object",
  "properties": {
    "include_draining": {
      "type": "boolean"
    },
    "metadata": {
      "type": "object",
      "additionalProperties": {
        "type": "string"
      }
    },
    "page": {
      "type": "integer",
      "minimum": #1
    },
    "page_size": {
      "type": "integer",
      "maximum": #100,
      "minimum": #1
    },
    "service_name": {
      "type": "string"
    }
  }
}.

Definition def_ListServicesBody : json := json: {
  "type": "object",
  "properties": {
    "page": {
      "type": "integer"
    },
    "page_size": {
      "type": "integer"
    },
    "revision": {
      "type": "integer"
    },
    "services": {
      "type": "array",
      "items": {
        "$ref": "#/definitions/httptransport.ServiceSummaryBody"
      }
    },
    "total": {
      "type": "integer"
    }
  }
}.

Definition def_ListServicesRequest : json := json: {
  "type": "object",
  "properties": {
    "page": {
      "type": "integer",
      "minimum": #1
    },
    "page_size": {
      "type": "integer",
      "maximum": #100,
      "minimum": #1
    },
    "prefix": {
      "type": "string"
    }
  }
}.

Definition def_MeResponseBody : json := json: {
  "type": "object",
  "properties": {
    "subject": {
      "type": "string"
    }
  }
}.

Definition def_Response : json := json: {
  "type": "object",
  "properties": {
    "body": {},
    "code": {
      "type": "integer"
    },
    "message": {
      "type": "string"
    },
    "request_id": {
      "type": "string"
    }
  }
}.

Definition def_ServiceSummaryBody : json := json: {
  "type": "object",
  "properties": {
    "draining_instances": {
      "type": "integer"
    },
    "healthy_instances": {
      "type": "integer"
    },
    "service_name": {
      "type": "string"
    }
  }
}.

Definition definitions : list (string * json) :=
  [ ("buildinfo.Info", def_Info);
    ("health.Dependency", def_Dependency);
    ("health.Status", def_Status);
    ("httptransport.InstanceBody", def_InstanceBody);
    ("httptransport.ListInstancesBody", def_ListInstancesBody);
    ("httptransport.ListInstancesRequest", def_ListInstancesRequest);
    ("httptransport.ListServicesBody", def_ListServicesBody);
    ("httptransport.ListServicesRequest", def_ListServicesRequest);
    ("httptransport.MeResponseBody", def_MeResponseBody);
    ("httptransport.Response", def_Response);
    ("httptransport.ServiceSummaryBody", def_ServiceSummaryBody) ].

(** ** Security schemes *)

(** A text in double quotes. *)
Definition in_quotes (s : string) : string := String (ascii_of_nat 34) (s +:+ String (ascii_of_nat 34) EmptyString).

Definition securityDefinitions : json := json: {
  "Bearer": {
    "description": ("Enter " +:+ in_quotes "Bearer {JWT}" +:+ "."),
    "type": "apiKey",
    "name": "Authorization",
    "in": "header"
  },
  "PSK": {
    "description": ("Enter " +:+ in_quotes "PSK {shared-key}" +:+ " for routes configured with PSK authentication."),
    "type": "apiKey",
    "name": "Authorization",
    "in": "header"
  }
}.

(** ** The document *)

(** [swag.Spec], without the template and its delimiters. *)
Record Spec : Type := {
  spec_Version : string; spec_Host : string; spec_BasePath : string; spec_Schemes : list string;
  spec_Title : string; spec_Description : string; spec_InfoInstanceName : string;
}.

(** [docTemplate], filled in from a [Spec]. *)
Definition docTemplate (spec : Spec) : json := json: {
  "schemes": $ (JArr (JStr <$> spec_Schemes spec)),
  "swagger": "2.0",
  "info": {
    "description": (spec_Description spec),
    "title": (spec_Title spec),
    "contact": {},
    "version": (spec_Version spec)
  },
  "host": (spec_Host spec),
  "basePath": (spec_BasePath spec),
  "paths": $ (JObj paths),
  "definitions": $ (JObj definitions),
  "securityDefinitions": $ securityDefinitions
}.

Definition SwaggerInfo : Spec := {|
  spec_Version := "1.0"; spec_Host := EmptyString; spec_BasePath := "/";
  spec_Schemes := ["http"; "https"]; spec_Title := "Go API Template";
  spec_Description := "Production-oriented Go Web API scaffold. Application error codes: 0 success; 10000-19999 common/input; 20000-29999 authentication/authorization; 30000-39999 business; 50000-59999 infrastructure.";
  spec_InfoInstanceName := "swagger" |}.

(** [docs.SwaggerInfo.Version = buildinfo.Version]. *)
Definition served_info (version : string) : Spec := {|
  spec_Version := version; spec_Host := spec_Host SwaggerInfo; spec_BasePath := spec_BasePath SwaggerInfo;
  spec_Schemes := spec_Schemes SwaggerInfo; spec_Title := spec_Title SwaggerInfo;
  spec_Description := spec_Description SwaggerInfo;
  spec_InfoInstanceName := spec_InfoInstanceName SwaggerInfo |}.

(** ** Reading it *)

(** The schema a [$ref] of the document names. *)
Definition doc_ref (ref : string) : option json :=
  snd <$> find (fun d => String.eqb ref ("#/definitions/" +:+ d.1)) definitions.

(** The schema of the answer with a status, in the item of a path. *)
Definition response_schema (item : json) (status : string) : option json :=
  member_at ["post"; "responses"; status; "schema"] item.

(** The schema of the body of the request. *)
Definition request_schema (item : json) : option json :=
  match member_at ["post"; "parameters"] item with
  | Some (JArr [parameter]) => member "schema" parameter
  | _ => None
  end.

(** The operation asks for credentials. *)
Definition secured (item : json) : bool :=
  match member_at ["post"; "security"] item with Some _ => true | None => false end.

(** Every [$ref] below [v] resolves. *)
Fixpoint refs_resolve (v : json) : bool :=
  match v with
  | JArr l => forallb refs_resolve l
  | JObj fields =>
      forallb (fun f => refs_resolve f.2 &&
        negb (String.eqb f.1 "$ref" && match f.2 with
          | JStr ref => match doc_ref ref with Some _ => false | None => true end
          | _ => true
          end)) fields
  | _ => true
  end.

Example doc_refs_resolve : refs_resolve (docTemplate SwaggerInfo) = true.
Proof. vm_compute. reflexivity. Qed.
