(* ===== verification/ApiAnswers.v ===== *)
(** * The answers of the HTTP server against its documentation

    How the envelope and its bodies are encoded, by the tags of their structs, and that
    the answers of the server are what docs/docs.go says of them: every documented
    operation is served, and an answer with a documented status has the documented
    schema unless it holds a null ([answers_documented]); what is documented
    about requests satisfies the binding tags ([documented_requests]), and about credentials
    agrees with the default configuration ([security_documented]). *)

From S2P Require Import Prelude GoText Utf8 GoQuery GoTime GoMime Redis Proto RefCodec Store Service Samples PathMatch Config ConfigFacts GrpcRegistry Access AccessFacts Http HttpFacts HttpServer Json ApiDocs.

Local Open Scope Z_scope.
Local Open Scope go_scope.

(** ** Encoding *)

(** [local_time]: [time.Time.MarshalJSON] of a time in the zone of the process;
    [nil_metadata]: decoding an instance without metadata leaves a nil map. *)
Class JsonEnv : Type := {
  local_time : Z -> string;
  nil_metadata : bool;
}.

(** A schema that is a reference. *)
Abbreviation ref_to s := (JObj [("$ref", JStr s)]).

Section encoding.
Context `{JsonEnv}.

Definition dependency_json (d : Dependency) : json :=
  JObj (("status", JStr (dep_Status d)) :: unless_empty "latency" (dep_Latency d)).

Definition health_json (s : HealthStatus) : json :=
  JObj (("status", JStr (hs_Status s)) ::
    if bool_decide (hs_Dependencies s = ∅) then []
    else [("dependencies", JObj (entries dependency_json (hs_Dependencies s)))]).

Definition info_json (i : BuildInfo) : json := json: {
  "version" : (bi_Version i),
  "commit" : (bi_Commit i),
  "build_time" : (bi_BuildTime i),
  "started_at" : (local_time (bi_StartedAt i)),
  "uptime" : (bi_Uptime i)
}.

(** [gin.H] with [subject], which is nil for a request without a caller. *)
Definition subject_json (subject : option string) : json := json: {
  "subject" : $ (match subject with Some s => JStr s | None => JNull end)
}.

Definition no_metadata (m : gmap string string) : bool := nil_metadata && bool_decide (m = ∅).

Definition instance_json (i : InstanceBody) : json := json: {
  "instance_id" : (ib_InstanceID i),
  "service_name" : (ib_ServiceName i),
  "endpoint" : (ib_Endpoint i),
  "protocol" : (ib_Protocol i),
  "status" : (ib_Status i),
  "weight" : # (ib_Weight i),
  "version" : (ib_Version i),
  "metadata" : $ (if no_metadata (ib_Metadata i) then JNull else JObj (entries JStr (ib_Metadata i))),
  "lease_expires_at" : (ib_LeaseExpiresAt i)
}.

Definition instances_json (b : ListInstancesBody) : json := json: {
  "instances" : $ (JArr (instance_json <$> lib_Instances b)),
  "revision" : # (lib_Revision b),
  "total" : # (lib_Total b),
  "page" : # (lib_Page b),
  "page_size" : # (lib_PageSize b)
}.

Definition summary_json (s : ServiceSummaryBody) : json := json: {
  "service_name" : (sb_ServiceName s),
  "healthy_instances" : # (sb_HealthyInstances s),
  "draining_instances" : # (sb_DrainingInstances s)
}.

Definition services_json (b : ListServicesBody) : json := json: {
  "services" : $ (JArr (summary_json <$> lsb_Services b)),
  "revision" : # (lsb_Revision b),
  "total" : # (lsb_Total b),
  "page" : # (lsb_Page b),
  "page_size" : # (lsb_PageSize b)
}.

Definition body_json (b : body) : json :=
  match b with
  | BNil => JNull
  | BHealth s => health_json s
  | BInfo i => info_json i
  | BSubject subject => subject_json subject
  | BInstances b => instances_json b
  | BServices b => services_json b
  end.

Definition response_json (r : Response) : json :=
  JObj ([("code", JNum (resp_Code r)); ("message", JStr (resp_Message r));
         ("body", body_json (resp_Body r))] ++ unless_empty "request_id" (resp_RequestID r)).

(** ** Schemas of the bodies *)

(** Deeper than the schemas of the document are nested. *)
Definition depth : nat := 12.

(** The schema of an envelope with a body. *)
Definition envelope_schema (s : string) : json := json: {
  "allOf": [
    {
      "$ref": "#/definitions/httptransport.Response"
    },
    {
      "type": "object",
      "properties": {
        "body": {
          "$ref": s
        }
      }
    }
  ]
}.

(** The shapes of schema the document uses. *)
Lemma ref_conforms n s schema v :
  doc_ref s = Some schema -> conforms doc_ref (S n) (ref_to s) v = conforms doc_ref n schema v.
Proof. intros E. cbn [conforms forallb keyword String.eqb Ascii.eqb Bool.eqb]. rewrite E. apply andb_true_r. Qed.

Lemma type_conforms n t v : conforms doc_ref (S n) (JObj [("type", JStr t)]) v = json_type t v.
Proof. apply andb_true_r. Qed.

Lemma all_conforms n schemas v :
  conforms doc_ref (S n) (JObj [("allOf", JArr schemas)]) v = forallb (fun s => conforms doc_ref n s v) schemas.
Proof. apply andb_true_r. Qed.

Lemma object_conforms n properties fields :
  conforms doc_ref (S n) (JObj [("type", JStr "object"); ("properties", JObj properties)]) (JObj fields) =
  forallb (fun p => match assoc p.1 fields with Some x => conforms doc_ref n p.2 x | None => true end) properties.
Proof. apply andb_true_r. Qed.

Lemma map_conforms n s fields :
  conforms doc_ref (S n) (JObj [("type", JStr "object"); ("additionalProperties", s)]) (JObj fields) =
  forallb (fun f => conforms doc_ref n s f.2) fields.
Proof. apply andb_true_r. Qed.

Lemma array_conforms n s l :
  conforms doc_ref (S n) (JObj [("type", JStr "array"); ("items", s)]) (JArr l) =
  forallb (conforms doc_ref n s) l.
Proof. apply andb_true_r. Qed.

Lemma entries_conform {A} n s (encode : A -> json) m :
  (forall x, conforms doc_ref n s (encode x) = true) ->
  conforms doc_ref (S n) (JObj [("type", JStr "object"); ("additionalProperties", s)]) (JObj (entries encode m)) = true.
Proof.
  intros Hs. rewrite map_conforms. apply forallb_forall. intros f Hf.
  apply list_elem_of_In, list_elem_of_fmap in Hf as (kv & -> & _). apply Hs.
Qed.

#[local] Arguments conforms : simpl never.

(** Follows references and looks up the properties of an object. *)
Ltac schema_step :=
  first [ erewrite ref_conforms by (vm_compute; reflexivity)
        | rewrite object_conforms; cbn [forallb assoc find fst snd fmap option_fmap option_map app
            String.eqb Ascii.eqb Bool.eqb andb]
        | rewrite type_conforms; cbn [json_type String.eqb Ascii.eqb Bool.eqb andb orb] ].

Lemma instance_conforms n i :
  conforms doc_ref (5 + n) (ref_to "#/definitions/httptransport.InstanceBody") (instance_json i) =
  negb (no_metadata (ib_Metadata i)).
Proof.
  cbn [Nat.add]. unfold instance_json. repeat schema_step. rewrite andb_true_r.
  destruct (no_metadata _); [done|]. apply entries_conform. intros x. by schema_step.
Qed.

Lemma instances_conform n b :
  conforms doc_ref (8 + n) (ref_to "#/definitions/httptransport.ListInstancesBody") (instances_json b) =
  forallb (fun i => negb (no_metadata (ib_Metadata i))) (lib_Instances b).
Proof.
  cbn [Nat.add]. unfold instances_json. repeat schema_step. rewrite array_conforms, forallb_fmap, andb_true_r.
  induction (lib_Instances b) as [|i l IH]; [done|]. cbn [forallb]. by rewrite IH, (instance_conforms n).
Qed.

Lemma services_conform n b :
  conforms doc_ref (8 + n) (ref_to "#/definitions/httptransport.ListServicesBody") (services_json b) = true.
Proof.
  cbn [Nat.add]. unfold services_json. repeat schema_step. rewrite array_conforms, forallb_fmap, andb_true_r.
  apply forallb_forall. intros i _. unfold summary_json. by repeat schema_step.
Qed.

Lemma health_conforms n s :
  conforms doc_ref (8 + n) (ref_to "#/definitions/health.Status") (health_json s) = true.
Proof.
  cbn [Nat.add]. unfold health_json. case_bool_decide; repeat schema_step; [done|].
  rewrite andb_true_r. apply entries_conform. intros d.
  unfold dependency_json, unless_empty. case_bool_decide; by repeat schema_step.
Qed.

Lemma info_conforms n i :
  conforms doc_ref (8 + n) (ref_to "#/definitions/buildinfo.Info") (info_json i) = true.
Proof. cbn [Nat.add]. unfold info_json. by repeat schema_step. Qed.

Lemma subject_conforms n o :
  conforms doc_ref (8 + n) (ref_to "#/definitions/httptransport.MeResponseBody") (subject_json o) =
  bool_decide (o <> None).
Proof. cbn [Nat.add]. unfold subject_json. repeat schema_step. by destruct o. Qed.

(** The document's schema of a body. *)
Definition body_ref (b : body) : option string :=
  match b with
  | BNil => None
  | BHealth _ => Some "#/definitions/health.Status"
  | BInfo _ => Some "#/definitions/buildinfo.Info"
  | BSubject _ => Some "#/definitions/httptransport.MeResponseBody"
  | BInstances _ => Some "#/definitions/httptransport.ListInstancesBody"
  | BServices _ => Some "#/definitions/httptransport.ListServicesBody"
  end.

(** No field of the body is null. *)
Definition no_nulls (b : body) : bool :=
  match b with
  | BSubject subject => bool_decide (subject <> None)
  | BInstances b => forallb (fun i => negb (no_metadata (ib_Metadata i))) (lib_Instances b)
  | _ => true
  end.

Lemma body_conforms n b s :
  body_ref b = Some s -> conforms doc_ref (8 + n) (ref_to s) (body_json b) = no_nulls b.
Proof.
  destruct b; intros [= <-]; [apply health_conforms|apply info_conforms|apply subject_conforms
    |apply instances_conform|apply services_conform].
Qed.

(** Every envelope has the schema of the envelope, whatever its body. *)
Lemma response_conforms n r :
  conforms doc_ref (3 + n) (ref_to "#/definitions/httptransport.Response") (response_json r) = true.
Proof.
  cbn [Nat.add]. unfold response_json, unless_empty. case_bool_decide; repeat schema_step; done.
Qed.

Lemma envelope_conforms n s r :
  conforms doc_ref (4 + n) (envelope_schema s) (response_json r) =
  conforms doc_ref (2 + n) (ref_to s) (body_json (resp_Body r)).
Proof.
  cbn [Nat.add]. unfold envelope_schema. rewrite all_conforms. cbn [forallb].
  rewrite (response_conforms n), andb_true_r. cbn [andb]. unfold response_json. cbn [app].
  rewrite object_conforms. cbn. apply andb_true_r.
Qed.

End encoding.

(** ** What the server answers *)

Section answers.
Context `{JwtLib} `{HttpEnv} `{InstanceCodec} `{SliceSort} `{JsonEnv}.

(** The API route is exempt from authentication. *)
Definition exempt (cfg : Config) (route : api_route) : bool :=
  MatchesAny (route_path route) (auth_SkipHTTPPaths (config_Auth cfg)).

(** The bodies of the statuses that are documented with one. *)
Definition right_body (cfg : Config) (e : endpoint) (s : Z) (b : body) : Prop :=
  match e with
  | EApi RVersion => s = 200 -> exists i, b = BInfo i
  | EApi RMe => s = 200 -> exists o, b = BSubject o /\ (o = None -> exempt cfg RMe = true)
  | EApi RInstances => s = 200 -> exists l, b = BInstances l
  | EApi RServices => s = 200 -> exists l, b = BServices l
  | ELive => s = 200 -> exists h, b = BHealth h
  | EReady => s = 200 \/ s = 503 -> exists h, b = BHealth h
  | EMetrics | EPprof _ | ESwagger => True
  end.

Definition well_answered (cfg : Config) (e : endpoint) (c : gin_ctx) : Prop :=
  answered c /\
  forall s r, c_status c = Some s -> c_written c = [r] -> right_body cfg e s (resp_Body r).

(** An answer that is no success, of an endpoint that documents bodies of successes only. *)
Lemma well_answered_error cfg e c s :
  answered c -> c_status c = Some s -> s <> 200 -> (e = EReady -> s <> 503) -> well_answered cfg e c.
Proof.
  intros Ha Hs Hne Hrd. split; [done|]. intros s' r Hs' _. assert (s' = s) as -> by congruence.
  destruct e as [| | | | |[]]; cbn; try done. intros [?|?]; [done|]. by destruct Hrd.
Qed.

Lemma well_answered_ok cfg e c b :
  unanswered c -> right_body cfg e 200 b -> well_answered cfg e (http_OK c b).
Proof.
  intros Hu Hb. split; [by apply ok_answered|]. destruct Hu as [Hs Hw]. cbn. rewrite Hs, Hw. cbn.
  by intros s r [= <-] [= <-].
Qed.

Lemma well_answered_fail cfg route c e :
  unanswered c -> (ae_Code e, ae_HTTPStatus e) ∈ code_statuses -> ae_HTTPStatus e <> 200 ->
  well_answered cfg (EApi route) (Fail c (AnApp e)).
Proof.
  intros Hu Hc Hs. eapply well_answered_error; [by apply fail_answered| |exact Hs|done].
  destruct Hu as [Hn _]. cbn. by rewrite Hn.
Qed.

(** The handler answers well, or panics before it has answered. *)
Definition well_or_panics (cfg : Config) (e : endpoint) (x : hres) : Prop :=
  match x with Done c => well_answered cfg e c | Panic c => unanswered c end.

Lemma recovered_well cfg e c : unanswered c -> well_answered cfg e (recovered c).
Proof.
  intros Hu. apply (well_answered_error _ _ _ 500); [by apply recovered_answered| |done..].
  destruct Hu as [Hn _]. cbn. by rewrite Hn.
Qed.

Lemma api_handler_bodies cfg client info route c :
  unanswered c -> (route = RMe -> c_subject c = None -> exempt cfg RMe = true) ->
  returns (fun _ _ => True) (well_or_panics cfg (EApi route)) (api_handler client info route c).
Proof.
  intros Hu Hme.
  assert (forall e, (ae_Code e, ae_HTTPStatus e) ∈ code_statuses -> ae_HTTPStatus e <> 200 ->
    returns (fun _ _ => True) (well_or_panics cfg (EApi route)) (abort c e)) as Habort
    by (intros; by apply well_answered_fail).
  destruct route; cbn [api_handler].
  - apply well_answered_ok; [done|]. cbn. eauto.
  - apply well_answered_ok; [done|]. cbn. eauto.
  - unfold http_ListInstances. destruct (bind_instances _ _) as [req|err]; [|by apply Habort; [in_table|]].
    unfold pagination. eapply returns_bind; [apply returns_true|]. intros [[[resp total]|err]|] _;
      [|by apply Habort; [in_table|]|done].
    apply well_answered_ok; [done|]. cbn. eauto.
  - unfold http_ListServices. destruct (bind_services _ _) as [req|err]; [|by apply Habort; [in_table|]].
    unfold pagination. eapply returns_bind; [apply returns_true|]. intros [[[resp total]|err]|] _;
      [|apply (Habort (apperror_Internal err)); [in_table|done]|done].
    apply well_answered_ok; [done|]. cbn. eauto.
Qed.

Lemma refused_well cfg e id hd c :
  e <> EReady -> rejected id hd c -> well_answered cfg e c.
Proof.
  intros He (Ha & (s & Hs & Hin) & _). apply (well_answered_error _ _ _ s); [done..| |done].
  intros ->. apply list_elem_of_In in Hin. cbn in Hin. naive_solver.
Qed.

Lemma watched_well cfg expired e h c :
  returns (fun _ _ => True) (well_or_panics cfg e) (h c) ->
  returns (fun _ _ => True) (fun x => exists c', x = Done c' /\ well_answered cfg e c')
    (watched cfg expired h c).
Proof.
  intros Hh. apply watched_keeps; [done|by intros c' [Ha _]|]. eapply returns_mono; [|exact Hh].
  intros [c'|c'] Hc; [done|by apply recovered_well].
Qed.

(** The API routes. *)
Lemma api_well cfg generated expired service limiter client info route r :
  rq_FullPath r = route_path route ->
  returns (fun _ _ => True) (fun x => exists c, x = Done c /\ well_answered cfg (EApi route) c)
    (serve_api cfg generated expired service limiter (api_handler client info route) r).
Proof.
  intros Hpath. unfold serve_api. destruct (gate answered (api_chain cfg service limiter)
    (api_admitted cfg service limiter r) (fun _ Hc => Hc) answered_observe r
    (api_lets cfg service limiter r) cfg generated expired)
    as [(c & E & Hr)|(k & o & hs & _ & E & _ & _ & Ha)]; rewrite E.
  - exists c. split; [done|]. by eapply refused_well.
  - apply watched_well, api_handler_bodies.
    + destruct k, o as [[??]|]; by split.
    + intros -> Hs. destruct Ha as [_ _ Hc _ _]. unfold http_admits in Hc. rewrite Hpath in Hc.
      fold (exempt cfg RMe) in Hc. destruct (psk_Enabled _ && _).
      { destruct Hc as [-> _]. by destruct k. }
      destruct (exempt cfg RMe); [done|]. destruct Hc as (p & ? & ? & -> & _). by destruct k.
Qed.

(** The middleware of every route refuses with four statuses of its own. *)
Definition plain_refusal (c : gin_ctx) : Prop :=
  answered c /\ exists s, c_status c = Some s /\ s ∈ [204; 400; 403; 415].

Definition open_verdict (m : middleware) (c : gin_ctx) : Prop :=
  (exists c1, passes m c c1 /\ unanswered c1) \/ (exists c1, stops m c c1 /\ plain_refusal c1).

Lemma plain_json c s code message :
  unanswered c -> (code, s) ∈ code_statuses -> s ∈ [204; 400; 403; 415] ->
  plain_refusal (write_json c s (envelope c code message BNil)).
Proof.
  intros [Hs Hw] Hc Hin. split; [right|exists s; by cbn; rewrite Hs].
  exists s, (envelope c code message BNil). cbn. rewrite Hs, Hw. by split_and!.
Qed.

Ltac plainly := right; eexists; split; [done|]; apply plain_json; [done|in_table..].

Lemma idempotency_open c : unanswered c -> open_verdict mw_IdempotencyKey c.
Proof.
  intros Hu. unfold open_verdict, passes, stops, mw_IdempotencyKey, abort, Fail.
  destruct (empty _); [left; by exists c|]. destruct (key_valid _); cbn [negb]; [|plainly].
  left. eexists. by split.
Qed.

Lemma cors_open cfg c : unanswered c -> open_verdict (fun next => mw_SecurityHeaders (mw_CORS cfg next)) c.
Proof.
  intros Hu. unfold open_verdict, passes, stops, mw_SecurityHeaders, mw_CORS.
  assert (unanswered (security_headers c)) as Hu1 by (unfold security_headers; by destruct (rq_TLS _)).
  set (c1 := security_headers c) in *. clearbody c1.
  destruct (cors_Enabled cfg); cbn [negb]; [|left; by exists c1].
  destruct (empty _); [left; by exists c1|]. case_bool_decide; cbn [negb]; [|plainly].
  case_bool_decide; [|left; eexists; by split].
  right. eexists. split; [done|]. destruct Hu1 as [Hs Hw]. unfold plain_refusal, answered. cbn.
  rewrite Hs, Hw. split; [by left|]. eexists. split; [done|in_table].
Qed.

Lemma json_open c : unanswered c -> open_verdict mw_RequireJSON c.
Proof.
  intros Hu. unfold open_verdict, passes, stops, mw_RequireJSON.
  destruct (_ && negb (is_json _)); [plainly|left; by exists c].
Qed.

Lemma plain_logged enabled c : plain_refusal c -> plain_refusal (logged (counted enabled c)).
Proof. unfold logged, counted. by destruct enabled. Qed.

Lemma global_serve cfg generated expired h r :
  let serve := global_chain cfg generated expired h (new_context r) in
  (exists c, serve = Ret (Done c) /\ plain_refusal c) \/
  (exists c, unanswered c /\ serve = watched cfg expired h c).
Proof.
  intros serve. unfold serve, global_chain, watched, mw_RequestID, mw_Environment.
  set (c0 := set_reply_header _ _ _). assert (unanswered c0) as Hu by done. clearbody c0.
  destruct (idempotency_open c0 Hu) as [(c1 & -> & [Hs1 Hw1])|(c1 & -> & Hr)]; [|left; by exists c1].
  set (c2 := set_environment c1 _). assert (unanswered c2) as Hu2 by done. clearbody c2.
  unfold mw_RequestLogger, mw_Recovery, mw_HTTPMetrics.
  destruct (cors_open (http_CORS (config_HTTP cfg)) c2 Hu2) as [(c3 & E & [Hs3 Hw3])|(c3 & E & Hr)].
  2: { left. rewrite E. cbn [pbind]. eexists. split; [done|]. by apply plain_logged. }
  unfold passes in E. cbn beta in E. rewrite E. unfold mw_MaxBody, mw_Timeout.
  set (c4 := set_body_limit c3 _). assert (unanswered c4) as Hu4 by done. clearbody c4.
  destruct (json_open c4 Hu4) as [(c5 & -> & Hu5)|(c5 & -> & Hr)].
  - right. by exists c5.
  - left. cbn [pbind]. rewrite answered_written, andb_false_r by apply Hr. cbn [pbind].
    eexists. split; [done|]. by apply plain_logged.
Qed.

(** The health routes. *)
Lemma health_well cfg generated expired e h r :
  (forall c, unanswered c -> returns (fun _ _ => True) (well_or_panics cfg e) (h c)) ->
  returns (fun _ _ => True) (fun x => exists c, x = Done c /\ well_answered cfg e c)
    (global_chain cfg generated expired h (new_context r)).
Proof.
  intros Hh. destruct (global_serve cfg generated expired h r) as [(c & -> & Ha & s & Hs & Hin)|(c & Hu & ->)].
  - exists c. split; [done|]. apply (well_answered_error _ _ _ s); [done..| |];
      intros; subst; apply list_elem_of_In in Hin; cbn in Hin; naive_solver.
  - by apply watched_well, Hh.
Qed.

Lemma live_well cfg c :
  unanswered c ->
  returns (fun _ _ => True) (well_or_panics cfg ELive) (http_Live c).
Proof. intros Hu. apply well_answered_ok; [done|]. cbn. eauto. Qed.

Lemma ready_well cfg ready c :
  unanswered c ->
  returns (fun _ _ => True) (well_or_panics cfg EReady) (http_Ready ready c).
Proof.
  intros Hu. unfold http_Ready. destruct ready as [status []]; cbn [negb].
  - apply well_answered_ok; [done|]. cbn. eauto.
  - destruct Hu as [Hs Hw]. unfold well_or_panics, well_answered, answered. cbn.
    rewrite Hs, Hw. cbn. split; [|by intros s r [= <-] [= <-] _; eauto].
    right. eexists _, _. split_and!; [done..|in_table].
Qed.

(** ** The documentation holds *)

(** The handler of a documented path. *)
Definition documented_endpoint (path : string) : option endpoint :=
  assoc path [ ("/api/v1/me", EApi RMe); ("/api/v1/registry/instances/list", EApi RInstances);
    ("/api/v1/registry/services/list", EApi RServices); ("/api/v1/version", EApi RVersion);
    ("/live", ELive); ("/ready", EReady) ].

(** Answers of the endpoint can hold a null. *)
Definition nullable (cfg : Config) (e : endpoint) : bool :=
  match e with
  | EApi RMe => exempt cfg RMe
  | EApi RInstances => nil_metadata
  | _ => false
  end.

(** What was written is an envelope, and one with the documented schema if the status is
    documented, up to the fields that are null. *)
Definition as_documented (cfg : Config) (e : endpoint) (item : json) (c : gin_ctx) : Prop :=
  exists s, c_status c = Some s /\
    Forall (fun r => conforms doc_ref depth (ref_to "#/definitions/httptransport.Response") (response_json r) = true)
      (c_written c) /\
    forall schema, response_schema item (itoa s) = Some schema ->
      exists r, c_written c = [r] /\
        conforms doc_ref depth schema (response_json r) = negb (s =? 200) || no_nulls (resp_Body r) /\
        (s = 200 -> no_nulls (resp_Body r) = false -> nullable cfg e = true).

(** The schema of the body of a success. *)
Definition success_ref (e : endpoint) : string :=
  match e with
  | EApi RVersion => "#/definitions/buildinfo.Info"
  | EApi RMe => "#/definitions/httptransport.MeResponseBody"
  | EApi RInstances => "#/definitions/httptransport.ListInstancesBody"
  | EApi RServices => "#/definitions/httptransport.ListServicesBody"
  | _ => "#/definitions/health.Status"
  end.

(** The document read off: a body is documented for successes and for what is not ready,
    the bare envelope for other errors, and nothing for 204. *)
Lemma schema_table path item e code s schema :
  (path, item) ∈ paths -> documented_endpoint path = Some e -> (code, s) ∈ (0, 204) :: code_statuses ->
  response_schema item (itoa s) = Some schema ->
  ((s = 200 \/ (e = EReady /\ s = 503)) /\ schema = envelope_schema (success_ref e)) \/
  (s <> 200 /\ s <> 204 /\ schema = ref_to "#/definitions/httptransport.Response").
Proof.
  intros Hp He Hs Hschema. apply list_elem_of_In in Hp, Hs. cbn [In paths] in Hp. cbn [In code_statuses] in Hs.
  destruct_or! Hp; try done; injection Hp as <- <-; vm_compute in He; injection He as <-;
    destruct_or! Hs; try done; injection Hs as <- <-; vm_compute in Hschema; try done;
    injection Hschema as <-; first [by left; split; [auto|] | by right].
Qed.

Lemma metadata_nullable l :
  forallb (fun i => negb (no_metadata (ib_Metadata i))) l = false -> nil_metadata = true.
Proof.
  unfold no_metadata. destruct nil_metadata; [done|]. cbn. by induction l.
Qed.

(** The right body has its schema in the document, and nulls only where they can be. *)
Lemma right_body_ref cfg path e s b :
  documented_endpoint path = Some e -> right_body cfg e s b ->
  s = 200 \/ (e = EReady /\ s = 503) ->
  body_ref b = Some (success_ref e) /\ (no_nulls b = false -> s = 200 /\ nullable cfg e = true).
Proof.
  intros He Hb Hs.
  assert (e ∈ [EApi RMe; EApi RInstances; EApi RServices; EApi RVersion; ELive; EReady]) as Hin.
  { unfold documented_endpoint, assoc, find in He. repeat case_match; try done; injection He as <-; in_table. }
  apply list_elem_of_In in Hin. cbn in Hin.
  destruct_or! Hin; subst e; try done; destruct Hs as [->|[? ->]]; try done; cbn in Hb |- *.
  - destruct (Hb eq_refl) as (o & -> & Ho). split; [done|]. destruct o; [done|auto].
  - destruct (Hb eq_refl) as (l & ->). split; [done|]. intros Hl. eauto using metadata_nullable.
  - by destruct (Hb eq_refl) as (l & ->).
  - by destruct (Hb eq_refl) as (l & ->).
  - by destruct (Hb eq_refl) as (l & ->).
  - by destruct (Hb (or_introl eq_refl)) as (l & ->).
  - by destruct (Hb (or_intror eq_refl)) as (l & ->).
Qed.

Lemma well_documented cfg path item e c :
  (path, item) ∈ paths -> documented_endpoint path = Some e -> well_answered cfg e c ->
  as_documented cfg e item c.
Proof.
  intros Hp He [Ha Hb]. destruct Ha as [[Hs Hw]|(s & r & Hs & Hw & _ & Hc)].
  - exists 204. rewrite Hw. split_and!; [done..|]. intros schema Hsch. exfalso.
    apply (schema_table path item e 0) in Hsch; [|done..|by left].
    destruct Hsch as [[[?|[_ ?]] _]|(_ & ? & _)]; done.
  - exists s. rewrite Hw. split_and!; [done|constructor; [apply (response_conforms 9)|done]|].
    intros schema Hsch. exists r. split; [done|].
    apply (schema_table path item e (resp_Code r)) in Hsch; [|done..|by right].
    destruct Hsch as [[Hk ->]|(Hne & _ & ->)].
    + destruct (right_body_ref cfg path e s (resp_Body r) He (Hb s r Hs Hw) Hk) as [Hr Hn].
      unfold depth. rewrite (envelope_conforms 8), (body_conforms 2 _ _ Hr).
      destruct (no_nulls (resp_Body r)); [by rewrite orb_true_r|]. by destruct (Hn eq_refl) as [-> Hn'].
    + rewrite (response_conforms 9), (proj2 (Z.eqb_neq s 200)) by done. done.
Qed.

(** C19: every documented operation is a route of the server, and every answer it gives
    is an envelope of the documented shape; an answer with a documented
    status has the body schema that docs/docs.go gives for that status, up to two fields that can be
    null: the subject of a caller on a route exempt from authentication, and the
    metadata of an instance that has none. *)
Theorem answers_documented cfg generated expired service limiter client info ready library r path item :
  (path, item) ∈ paths -> rq_FullPath r = path ->
  exists e, new_route "POST" path e ∈ routes cfg /\
    returns (fun _ _ => True) (fun x => exists c, x = Done c /\ as_documented cfg e item c)
      (serve_route cfg generated expired service limiter e (endpoint_handler client info ready library e) r).
Proof.
  intros Hp Hr.
  assert (exists e, documented_endpoint path = Some e /\ new_route "POST" path e ∈ routes cfg) as (e & He & Hrt).
  { unfold routes. apply list_elem_of_In in Hp. cbn [In paths] in Hp.
    destruct_or! Hp; try done; injection Hp as <- <-; eexists; (split; [reflexivity|]);
      rewrite !elem_of_app; first [left; in_table | do 4 right; in_table]. }
  exists e. split; [done|].
  apply (returns_mono _ (fun x => exists c, x = Done c /\ well_answered cfg e c)).
  { intros x (c & -> & Hw). exists c. split; [done|by eapply well_documented]. }
  apply list_elem_of_In in Hp. cbn [In paths] in Hp.
  destruct_or! Hp; try done; injection Hp as <- <-; vm_compute in He; injection He as <-;
    [by apply api_well..|apply (health_well _ _ _ ELive http_Live), live_well
    |apply (health_well _ _ _ EReady (http_Ready ready)), ready_well].
Qed.

End answers.

(** ** What is documented of requests *)

(** The binding tags of [Page] and [PageSize]: zero stands for a field left out. *)
Definition page_tags (page pageSize : Z) : bool :=
  ((page =? 0) || (1 <=? page)) && ((pageSize =? 0) || ((1 <=? pageSize) && (pageSize <=? 100))).

(** The number in a field of a request, zero if it is left out. *)
Definition number_of (name : string) (v : json) : Z :=
  match member name v with Some (JNum n) => n | _ => 0 end.

(** Their documented schemas. *)
Lemma page_field n fields :
  match assoc "page" fields with
  | Some x => conforms doc_ref (S n) (JObj [("type", JStr "integer"); ("minimum", JNum 1)]) x
  | None => true
  end = true ->
  let page := number_of "page" (JObj fields) in page = 0 \/ 1 <= page.
Proof.
  unfold number_of. cbn [member]. destruct (assoc "page" fields) as [[]|]; cbn; try by left.
  rewrite andb_true_r. right. lia.
Qed.

Lemma size_field n fields :
  match assoc "page_size" fields with
  | Some x => conforms doc_ref (S n)
      (JObj [("type", JStr "integer"); ("maximum", JNum 100); ("minimum", JNum 1)]) x
  | None => true
  end = true ->
  let size := number_of "page_size" (JObj fields) in size = 0 \/ 1 <= size <= 100.
Proof.
  unfold number_of. cbn [member]. destruct (assoc "page_size" fields) as [[]|]; cbn; try by left.
  rewrite andb_true_r, andb_true_iff. right. lia.
Qed.

#[local] Arguments conforms : simpl never.

(** A request body of the documented schema satisfies the binding tags, on both listings. *)
Lemma documented_requests path item schema v :
  (path, item) ∈ paths -> request_schema item = Some schema -> conforms doc_ref depth schema v = true ->
  page_tags (number_of "page" v) (number_of "page_size" v) = true.
Proof.
  intros Hp Hs Hc.
  assert ((number_of "page" v = 0 \/ 1 <= number_of "page" v) /\
    (number_of "page_size" v = 0 \/ 1 <= number_of "page_size" v <= 100)) as [Hpage Hsize].
  { apply list_elem_of_In in Hp. cbn [In paths] in Hp.
    destruct_or! Hp; try done; injection Hp as <- <-; vm_compute in Hs; try done; injection Hs as <-;
      (destruct v as [| | | | |fields]; try by split; left); unfold depth in Hc;
      (erewrite ref_conforms in Hc by (vm_compute; reflexivity)); rewrite object_conforms in Hc;
      cbn [forallb fst snd] in Hc; rewrite !andb_true_iff in Hc; destruct_and! Hc;
      by split; [eapply page_field|eapply size_field]. }
  unfold page_tags. rewrite andb_true_iff, !orb_true_iff, andb_true_iff. lia.
Qed.

(** With the defaults of the configuration the operations documented without credentials are
    exactly those that ask for none. *)
Lemma security_documented profile path item :
  (path, item) ∈ paths ->
  secured item = match documented_endpoint path with
                 | Some (EApi route) => negb (exempt (default_config profile) route)
                 | _ => false
                 end.
Proof.
  intros Hp. apply list_elem_of_In in Hp. cbn [In paths] in Hp.
  destruct_or! Hp; try done; injection Hp as <- <-; vm_compute; reflexivity.
Qed.

(** ** Witnesses *)

#[local] Existing Instance sample_env.
#[local] Existing Instance one_token.

(** Coordinated universal time, and a codec that leaves nil maps. *)
Definition sample_json : JsonEnv := {| local_time := format_rfc3339; nil_metadata := true |}.
#[local] Existing Instance sample_json.

Lemma answers_documented_witness :
  returns (fun _ _ => True) (fun x => exists c, x = Done c /\ as_documented production_config (EApi RMe) path_me c)
    (serve_route production_config "gen" false sample_service
       {| lim_enabled := false; lim_failOpen := false; lim_backend := None |} (EApi RMe)
       (endpoint_handler false sample_info (health_Live, true) (fun _ c => Ret (Done c)) (EApi RMe)) anonymous_request).
Proof.
  destruct (answers_documented production_config "gen" false sample_service
    {| lim_enabled := false; lim_failOpen := false; lim_backend := None |} false sample_info (health_Live, true)
    (fun _ c => Ret (Done c)) anonymous_request "/api/v1/me" path_me) as (e & Hrt & Hw).
  - left.
  - reflexivity.
  - assert (e = EApi RMe) as <-; [|exact Hw].
    apply list_elem_of_In in Hrt. vm_compute in Hrt. destruct_or! Hrt; try done; by injection Hrt.
Defined.

(** The answers that are not documented: a caller on an exempt route has a null subject, and
    an instance without metadata a null object. *)
Example null_subject :
  conforms doc_ref depth (envelope_schema (success_ref (EApi RMe)))
    (response_json (envelope (new_context anonymous_request) CodeOK "success" (BSubject None))) = false.
Proof. vm_compute. reflexivity. Qed.
