(* ===== verification/GrpcServer.v ===== *)
(** * The gRPC server

    internal/transport/grpc/server.go around the chains of Access.v: the server
    credentials, what [NewServer] builds and registers, starting and stopping, and the
    health service.  Listening and serving are effects;
    the TLS files are the parameter of Clients.v. *)

From S2P Require Import Prelude GoText GoTime Redis PathMatch Config ConfigFacts GrpcRegistry Clients Access Http.

Local Open Scope Z_scope.
Local Open Scope go_scope.

(** ** Credentials *)

(** TLS 1.2 or later with a certificate; whether clients have to present one. *)
Record ServerTLS : Type := { stls_RequireClientCert : bool }.

Definition serverCredentials (files : TLSFiles) (cfg : GRPCTLS) : res ServerTLS :=
  match load_pair files (grpctls_CertFile cfg) (grpctls_KeyFile cfg) with
  | Err e => Err (EWrap "load grpc certificate" e)
  | Ok _ =>
      if empty (grpctls_ClientCAFile cfg) then Ok {| stls_RequireClientCert := false |}
      else
        match read_ca files (grpctls_ClientCAFile cfg) with
        | Err e => Err (EWrap "read grpc client CA" e)
        | Ok ok =>
            fail_if negb ok with "parse grpc client CA";
            Ok {| stls_RequireClientCert := true |}
        end
  end.

(** ** The server *)

Inductive grpc_service : Type := SRegistry | SHealth | SReflection.

#[global] Instance grpc_service_eq_dec : EqDecision grpc_service.
Proof. solve_decision. Defined.

Record Server : Type := {
  srv_MaxReceive : Z;
  srv_creds : option ServerTLS;
  srv_services : list grpc_service;
  srv_address : string;
}.

(** [NewServer]: the server, before its hooks; the interceptors are [unary_chain] and
    [stream_chain]. *)
Definition NewServer (files : TLSFiles) (cfg : GRPC) : res Server :=
  try creds := (if grpctls_Enabled (grpc_TLS cfg)
                then res_map Some (serverCredentials files (grpc_TLS cfg)) else Ok None) in
  Ok {| srv_MaxReceive := grpc_MaxReceiveBytes cfg; srv_creds := creds;
        srv_services := [SRegistry; SHealth] ++ (if grpc_ReflectionEnabled cfg then [SReflection] else []);
        srv_address := grpc_Address cfg |}.

Inductive srv_call : Type :=
  | SListen (address : string)
  | SServe (s : Server)
  | SGracefulStop
  | SSelect
  | SStop
  | SLog (msg : string).

(** The error of a call; [SSelect] answers with the context's error when that comes
    before the end of the graceful stop. *)
Abbreviation srvprog A := (prog srv_call (option goerr) A).

(** [s.start(enabled)]. *)
Definition server_start (s : Server) (enabled : bool) : srvprog (option goerr) :=
  if negb enabled then let* _ := call (SLog "grpc server is disabled") in Ret None
  else
    let* err := call (SListen (srv_address s)) in
    match err with
    | Some e => Ret (Some (EWrap "listen grpc" e))
    | None =>
        let* _ := call (SServe s) in
        let* _ := call (SLog "grpc server started") in
        Ret None
    end.

(** [s.stop(ctx)]. *)
Definition server_stop : srvprog (option goerr) :=
  let* _ := call SGracefulStop in
  let* done := call SSelect in
  match done with
  | None => Ret None
  | Some ctxErr => let* _ := call SStop in Ret (Some ctxErr)
  end.

(** ** Health *)

Inductive serving_status : Type := SERVING | NOT_SERVING.

(** [healthServer.Check]: [ready] is the second result of [health.Ready]. *)
Definition health_Check (ready : bool) : serving_status := if ready then SERVING else NOT_SERVING.

(** [healthServer.List]. *)
Definition health_List : gmap string serving_status := {["" := SERVING]}.

(** ** Facts *)

Lemma NewServer_inv files cfg s :
  NewServer files cfg = Ok s ->
  (grpctls_Enabled (grpc_TLS cfg) = true -> is_Some (srv_creds s)) /\
  (SReflection ∈ srv_services s <-> grpc_ReflectionEnabled cfg = true) /\
  (grpctls_Enabled (grpc_TLS cfg) = true -> grpctls_ClientCAFile (grpc_TLS cfg) <> EmptyString ->
   srv_creds s = Some {| stls_RequireClientCert := true |}).
Proof.
  unfold NewServer. intros (creds & Hc & [= <-])%res_bind_ok_inv. cbn [srv_creds srv_services].
  split_and!.
  - intros He. rewrite He in Hc. destruct (serverCredentials files _); [|done]. injection Hc as <-. eauto.
  - destruct (grpc_ReflectionEnabled cfg); set_solver.
  - intros He Hca. rewrite He in Hc. unfold serverCredentials, empty in Hc.
    destruct (load_pair _ _ _); [|done]. rewrite bool_decide_eq_false_2 in Hc by done.
    destruct (read_ca _ _) as [[]|]; try done. by injection Hc as <-.
Qed.

(** Under a locked-down configuration the gRPC server that is built serves TLS with
    a certificate only, without reflection, and asks clients for a certificate when
    a client CA is configured; every exchange of its start serves only after it
    listens on the configured address, and never when it is disabled. *)
Lemma server_locked_down cfg files s tr r :
  locked_down cfg -> grpc_Enabled (config_GRPC cfg) = true ->
  NewServer files (config_GRPC cfg) = Ok s ->
  emits (server_start s (grpc_Enabled (config_GRPC cfg))) tr r ->
  is_Some (srv_creds s) /\ (SReflection ∉ srv_services s) /\
  (grpctls_ClientCAFile (grpc_TLS (config_GRPC cfg)) <> EmptyString ->
   srv_creds s = Some {| stls_RequireClientCert := true |}) /\
  (r = None -> tr.*1 = [SListen (grpc_Address (config_GRPC cfg)); SServe s; SLog "grpc server started"]).
Proof.
  intros (Htls & Hrefl & _) He Hs Htr. destruct (Htls He) as (Ht & _).
  destruct (NewServer_inv _ _ _ Hs) as (Hc & Hr & Hca).
  assert (srv_address s = grpc_Address (config_GRPC cfg)) as Haddr.
  { unfold NewServer in Hs. by apply res_bind_ok_inv in Hs as (creds & _ & [= <-]). }
  split_and!; [by apply Hc|rewrite Hr; congruence|by apply Hca|].
  intros ->. rewrite He in Htr. unfold server_start in Htr. cbn [negb] in Htr.
  emits_inv Htr. cbn [pbind] in Htr. destruct r; [by emits_inv Htr|].
  emits_inv Htr. emits_inv Htr. emits_inv Htr. cbn. by rewrite Haddr.
Qed.

Definition sample_server_files : TLSFiles :=
  {| read_ca := fun _ => Ok true; load_pair := fun _ _ => Ok tt |}.

Lemma server_locked_down_witness :
  exists s, NewServer sample_server_files (config_GRPC production_config) = Ok s /\
    is_Some (srv_creds s) /\ SReflection ∉ srv_services s.
Proof.
  assert (exists s, NewServer sample_server_files (config_GRPC production_config) = Ok s) as [s Hs]
    by (eexists; vm_compute; reflexivity).
  exists s. split; [exact Hs|].
  assert (emits (server_start s (grpc_Enabled (config_GRPC production_config)))
    [(SListen (srv_address s), Some (ENew "in use"))] (Some (EWrap "listen grpc" (ENew "in use")))) as Htr
    by (repeat constructor).
  destruct (server_locked_down production_config sample_server_files s _ _
    (@production_locked key_order (fun s => s) production_config ltac:(vm_compute; reflexivity) eq_refl)
    ltac:(vm_compute; reflexivity) Hs Htr) as (H1 & H2 & _).
  exact (conj H1 H2).
Defined.

(** The gRPC health check says SERVING exactly when every dependency that is
    enabled answered its ping, in whatever order the two checks end; the listing of
    the same service says SERVING always. *)
Lemma health_check_exact database redis redis_first :
  (health_Check (health_Ready database redis redis_first).2 = SERVING <->
   (forall latency e, database <> Some (latency, Some e)) /\
   (forall latency e, redis <> Some (latency, Some e))) /\
  health_List !! "" = Some SERVING.
Proof.
  split; [|by apply lookup_singleton_eq]. unfold health_Check, health_Ready, collect_results.
  destruct database as [[dl [de|]]|], redis as [[rl [re|]]|], redis_first; cbn;
    (split; [intros H; try discriminate H; split; intros; discriminate
            |intros [H1 H2]; try done; exfalso; first [by eapply H1|by eapply H2]]).
Qed.

(** Stopping the server always ends it: the graceful stop has finished, or the
    connections are cut and the context's error is returned. *)
Lemma server_stop_ends tr r :
  emits server_stop tr r ->
  (r = None /\ tr.*1 = [SGracefulStop; SSelect] /\ (SSelect, None) ∈ tr) \/
  (exists e, r = Some e /\ tr.*1 = [SGracefulStop; SSelect; SStop]).
Proof.
  unfold server_stop. intros Htr. emits_inv Htr. emits_inv Htr. cbn [pbind] in Htr.
  destruct r1 as [e|]; emits_inv Htr.
  - emits_inv Htr. right. by exists e.
  - left. split_and!; [done|done|]. apply elem_of_cons. right. constructor.
Qed.
