(* ===== verification/Providers.v ===== *)
(** * Metrics, idempotency and authorization providers

    internal/observability/metrics.go: the metrics of the process, their
    registration and [ObserveCron]; internal/idempotency/manager.go and
    internal/authorization/provider.go: what the platform library is given.  The
    Prometheus registry is an interface: registering a collector whose names are
    well formed and new succeeds; everything else may make [MustRegister] panic. *)

From S2P Require Import Prelude GoText GoTime Regex Config Redis Clients Outbound.

Local Open Scope Z_scope.
Local Open Scope go_scope.

(** ** Collectors *)

(** [collectors.NewGoCollector], [NewProcessCollector], [NewDBStatsCollector]. *)
Inductive library_collector : Type := GoCollector | ProcessCollector | DBStatsCollector (name : string).

Inductive collector : Type :=
  | CounterVec (name : string) (labels : list string)
  | HistogramVec (name : string) (labels : list string)
  | GaugeFunc (name : string)
  | LibraryCollector (c : library_collector).

(** A metric name is a letter, an underscore or a colon, and those and digits. *)
Definition metric_name_start (c : ascii) : bool :=
  let n := byte_val c in
  (97 <=? n) && (n <=? 122) || (65 <=? n) && (n <=? 90) || (n =? 95) || (n =? 58).
Definition metric_name_byte (c : ascii) : bool :=
  metric_name_start c || (48 <=? byte_val c) && (byte_val c <=? 57).
Definition valid_metric_name (s : string) : bool :=
  match s with
  | EmptyString => false
  | String c s' => metric_name_start c && str_forallb metric_name_byte s'
  end.

Class PromRegistry : Type := {
  registry : Type;
  NewPromRegistry : registry;
  (** [Register]; [None] when it fails *)
  register : registry -> collector -> option registry;
  (** the names of the metrics that are registered, and those of a library's collector *)
  registered : registry -> gset string;
  library_names : library_collector -> gset string;
}.

Definition collector_names `{PromRegistry} (c : collector) : gset string :=
  match c with
  | CounterVec name _ | HistogramVec name _ | GaugeFunc name => {[name]}
  | LibraryCollector l => library_names l
  end.

(** What the library documents.  Its collectors name their metrics go_... and
    process_..., with go_sql_... for a database. *)
Class PromLaws `{PromRegistry} : Prop := {
  registered_new : registered NewPromRegistry = ∅;
  register_new r c :
    collector_names c ## registered r ->
    (forall name, name ∈ collector_names c -> valid_metric_name name = true) ->
    exists r', register r c = Some r' /\ registered r' = registered r ∪ collector_names c;
  library_valid l name : name ∈ library_names l -> valid_metric_name name = true;
  go_names name : name ∈ library_names GoCollector ->
    has_prefix "go_" name = true /\ has_prefix "go_sql_" name = false;
  process_names name : name ∈ library_names ProcessCollector -> has_prefix "process_" name = true;
  dbstats_names db name : name ∈ library_names (DBStatsCollector db) -> has_prefix "go_sql_" name = true;
}.

(** [registry.MustRegister(cs...)]; [None] is a panic. *)
Fixpoint MustRegister `{PromRegistry} (r : registry) (cs : list collector) : option registry :=
  match cs with
  | [] => Some r
  | c :: cs' => r' ← register r c; MustRegister r' cs'
  end.

(** ** [NewMetrics] *)

Section metrics.
Context `{PromRegistry}.

Record Metrics : Type := {
  m_enabled : bool;
  m_registry : registry;
  HTTPRequests : collector; HTTPDuration : collector;
  CronRuns : collector; CronDuration : collector;
  GRPCRequests : collector; GRPCDuration : collector;
  OutboundRequests : collector; OutboundDuration : collector;
}.

Definition redis_metrics : list string :=
  ["redis_pool_hits_total"; "redis_pool_misses_total"; "redis_pool_timeouts_total";
   "redis_pool_connections"; "redis_pool_idle_connections"].

(** One [MustRegister] for each of the gauges. *)
Definition registerRedisMetrics (r : registry) : option registry :=
  foldl (fun acc name => r ← acc; MustRegister r [GaugeFunc name]) (Some r) redis_metrics.

(** [db] and [client]: whether they are not nil. *)
Definition NewMetrics (cfg : Config) (db client : bool) : option Metrics :=
  let httpRequests := CounterVec "http_requests_total" ["method"; "route"; "status"] in
  let httpDuration := HistogramVec "http_request_duration_seconds" ["method"; "route"] in
  let cronRuns := CounterVec "cron_runs_total" ["job"; "status"] in
  let cronDuration := HistogramVec "cron_run_duration_seconds" ["job"] in
  let grpcRequests := CounterVec "grpc_server_requests_total" ["method"; "code"] in
  let grpcDuration := HistogramVec "grpc_server_duration_seconds" ["method"] in
  let outboundRequests := CounterVec "outbound_requests_total" ["protocol"; "client"; "status"] in
  let outboundDuration := HistogramVec "outbound_request_duration_seconds" ["protocol"; "client"] in
  r ← MustRegister NewPromRegistry
        [LibraryCollector GoCollector; LibraryCollector ProcessCollector; httpRequests; httpDuration;
         cronRuns; cronDuration; grpcRequests; grpcDuration; outboundRequests; outboundDuration];
  r ← (if db then MustRegister r [LibraryCollector (DBStatsCollector "primary")] else Some r);
  r ← (if client then registerRedisMetrics r else Some r);
  Some {| m_enabled := observability_MetricsEnabled (config_Observability cfg); m_registry := r;
          HTTPRequests := httpRequests; HTTPDuration := httpDuration; CronRuns := cronRuns;
          CronDuration := cronDuration; GRPCRequests := grpcRequests; GRPCDuration := grpcDuration;
          OutboundRequests := outboundRequests; OutboundDuration := outboundDuration |}.

(** A sample: the collector and its label values. *)
Definition ObserveCron (m : Metrics) (job status : string) : list (collector * list string) :=
  if negb (m_enabled m) then []
  else [(CronRuns m, [job; status]); (CronDuration m, [job])].

End metrics.
Arguments Metrics _ : clear implicits.

(** ** Providers *)

(** What [platformidempotency.New] is given. *)
Record IdempotencyConfig : Type := {
  ic_Enabled : bool; ic_Service : string; ic_ProcessingTTL : Z; ic_ResultTTL : Z; ic_FailureTTL : Z;
}.

Definition idempotency_New (cfg : Config) : IdempotencyConfig := {|
  ic_Enabled := idempotency_Enabled (config_Idempotency cfg);
  ic_Service := app_Name (config_App cfg);
  ic_ProcessingTTL := idempotency_ProcessingTTL (config_Idempotency cfg);
  ic_ResultTTL := idempotency_ResultTTL (config_Idempotency cfg);
  ic_FailureTTL := idempotency_FailureTTL (config_Idempotency cfg) |}.

(** What [platformauthz.NewGRPCAuthorizer] is given: the connection of the client, if
    there is one, and the timeout. *)
Definition authorization_New (r : OutRegistry) : option Conn * Z :=
  match registry_GRPC r "authorization" with
  | None => (None, 2 * nanos_per_second)
  | Some connection => (Some connection, 2 * nanos_per_second)
  end.

(** ** Facts *)

Definition labels_of (c : collector) : list string :=
  match c with CounterVec _ l | HistogramVec _ l => l | _ => [] end.

Section facts.
Context `{PromLaws}.

(** Each collector has well-formed names that were not taken before it. *)
Fixpoint fresh (seen : gset string) (cs : list collector) : Prop :=
  match cs with
  | [] => True
  | c :: cs' => (forall name, name ∈ collector_names c -> (name ∉ seen) /\ valid_metric_name name = true) /\
                fresh (seen ∪ collector_names c) cs'
  end.

Lemma MustRegister_fresh cs r :
  fresh (registered r) cs ->
  exists r', MustRegister r cs = Some r' /\ registered r' = registered r ∪ ⋃ (collector_names <$> cs).
Proof.
  revert r. induction cs as [|c cs IH]; intros r Hf; simpl.
  { exists r. split; [done|set_solver]. }
  destruct Hf as [Hc Hf]. destruct (register_new r c) as (r1 & -> & Hr1); [set_solver|set_solver|].
  rewrite <- Hr1 in Hf. destruct (IH r1 Hf) as (r' & E & Hr'). exists r'. simpl.
  split; [done|]. set_solver.
Qed.

Lemma MustRegister_app r cs cs' :
  MustRegister r (cs ++ cs') = (r' ← MustRegister r cs; MustRegister r' cs').
Proof.
  revert r. induction cs as [|c cs IH]; intros r; simpl; [done|].
  destruct (register r c); simpl; [apply IH|done].
Qed.

Lemma registerRedisMetrics_all r :
  registerRedisMetrics r = MustRegister r (GaugeFunc <$> redis_metrics).
Proof.
  unfold registerRedisMetrics. cbn [redis_metrics foldl fmap list_fmap MustRegister mbind option_bind].
  repeat (destruct (register _ _); cbn [mbind option_bind]; [|done]). done.
Qed.

(** Whose a name is: of one of the library's collectors, or its own. *)
Definition owner (name : string) : string :=
  if has_prefix "go_sql_" name then "go_sql_"
  else if has_prefix "go_" name then "go_"
  else if has_prefix "process_" name then "process_" else name.

Definition collector_owner (c : collector) : string :=
  match c with
  | CounterVec name _ | HistogramVec name _ | GaugeFunc name => owner name
  | LibraryCollector GoCollector => "go_"
  | LibraryCollector ProcessCollector => "process_"
  | LibraryCollector (DBStatsCollector _) => "go_sql_"
  end.

Lemma owner_names c name : name ∈ collector_names c -> owner name = collector_owner c.
Proof.
  destruct c as [? ?|? ?|?|[| |db]]; cbn; try (by intros ->%elem_of_singleton); unfold owner.
  - intros [E1 E2]%go_names. by rewrite E2, E1.
  - intros (s & ->)%process_names%has_prefix_inv. done.
  - intros E%dbstats_names. by rewrite E.
Qed.

Definition plain_valid (c : collector) : bool :=
  match c with
  | CounterVec name _ | HistogramVec name _ | GaugeFunc name => valid_metric_name name
  | LibraryCollector _ => true
  end.

(** Collectors of different owners are fresh. *)
Lemma fresh_owners cs seen :
  NoDup (collector_owner <$> cs) -> (forall name, name ∈ seen -> owner name ∉ collector_owner <$> cs) ->
  forallb plain_valid cs = true -> fresh seen cs.
Proof.
  revert seen. induction cs as [|c cs IH]; intros seen Hnd Hseen Hv; [done|].
  cbn [fmap list_fmap] in Hnd, Hseen. apply NoDup_cons in Hnd as [Hc Hnd].
  apply andb_true_iff in Hv as [Hvc Hv]. split.
  - intros name Hn. split.
    + intros Hs. apply (Hseen name Hs). rewrite (owner_names c name Hn). by left.
    + destruct c; cbn in Hn, Hvc; [by apply elem_of_singleton in Hn as ->..|by eapply library_valid].
  - apply IH; [done| |done]. intros name [Hs|Hn]%elem_of_union Hin; [by apply (Hseen name Hs); right|].
    by rewrite (owner_names c name Hn) in Hin.
Qed.

(** All the collectors of the process. *)
Definition all_collectors (db client : bool) : list collector :=
  [LibraryCollector GoCollector; LibraryCollector ProcessCollector;
   CounterVec "http_requests_total" ["method"; "route"; "status"];
   HistogramVec "http_request_duration_seconds" ["method"; "route"];
   CounterVec "cron_runs_total" ["job"; "status"]; HistogramVec "cron_run_duration_seconds" ["job"];
   CounterVec "grpc_server_requests_total" ["method"; "code"];
   HistogramVec "grpc_server_duration_seconds" ["method"];
   CounterVec "outbound_requests_total" ["protocol"; "client"; "status"];
   HistogramVec "outbound_request_duration_seconds" ["protocol"; "client"]] ++
  (if db then [LibraryCollector (DBStatsCollector "primary")] else []) ++
  (if client then GaugeFunc <$> redis_metrics else []).

Lemma all_collectors_fresh db client : fresh ∅ (all_collectors db client).
Proof.
  apply fresh_owners; [|set_solver|by destruct db, client].
  destruct db, client; apply (bool_decide_unpack _); vm_compute; exact I.
Qed.

(** Building the metrics never panics: every collector is registered, the database's
    and the client's exactly when they are there; and the scheduled job gives each of
    its metrics a value per label. *)
Lemma NewMetrics_total cfg db client :
  exists m, NewMetrics cfg db client = Some m /\
    m_enabled m = observability_MetricsEnabled (config_Observability cfg) /\
    registered (m_registry m) = ⋃ (collector_names <$> all_collectors db client) /\
    Forall (fun s => length (labels_of s.1) = length s.2) (ObserveCron m "sample" "success").
Proof.
  destruct (MustRegister_fresh (all_collectors db client) NewPromRegistry) as (r & E & Hr).
  { rewrite registered_new. apply all_collectors_fresh. }
  rewrite registered_new, union_empty_l_L in Hr.
  unfold all_collectors in E. rewrite MustRegister_app in E.
  unfold NewMetrics. cbv zeta. destruct (MustRegister NewPromRegistry _) as [r1|]; [|done].
  cbn [mbind option_bind] in E |- *. rewrite MustRegister_app in E.
  assert ((if db then MustRegister r1 [LibraryCollector (DBStatsCollector "primary")] else Some r1) =
          MustRegister r1 (if db then [LibraryCollector (DBStatsCollector "primary")] else [])) as ->
    by (by destruct db).
  destruct (MustRegister r1 _) as [r2|]; [|done]. cbn [mbind option_bind] in E |- *.
  assert ((if client then registerRedisMetrics r2 else Some r2) =
          MustRegister r2 (if client then GaugeFunc <$> redis_metrics else [])) as ->
    by (destruct client; [apply registerRedisMetrics_all|done]).
  rewrite E. cbn [mbind option_bind]. eexists. split_and!; [done|done|exact Hr|].
  unfold ObserveCron. cbn [m_enabled CronRuns CronDuration]. destruct (negb _); repeat constructor.
Qed.

End facts.

(** A registry that is the set of its names. *)
#[local] Instance mem_registry : PromRegistry := {|
  registry := gset string;
  NewPromRegistry := ∅;
  library_names := fun l => match l with
    | GoCollector => {["go_goroutines"]} | ProcessCollector => {["process_open_fds"]}
    | DBStatsCollector _ => {["go_sql_open_connections"]} end;
  registered := fun r => r;
  register := fun r c =>
    let names := match c with
      | CounterVec name _ | HistogramVec name _ | GaugeFunc name => {[name]}
      | LibraryCollector GoCollector => {["go_goroutines"]}
      | LibraryCollector ProcessCollector => {["process_open_fds"]}
      | LibraryCollector (DBStatsCollector _) => {["go_sql_open_connections"]} end in
    if decide (names ## r) then Some (r ∪ names) else None |}.

#[local] Instance mem_registry_laws : PromLaws.
Proof.
  split; cbn; try done.
  - intros r c Hd _. exists (r ∪ collector_names c).
    destruct c as [| | |[]]; cbn in Hd |- *; by rewrite decide_True by done.
  - intros [| |db] name ->%elem_of_singleton; reflexivity.
  - by intros name ->%elem_of_singleton.
  - by intros name ->%elem_of_singleton.
  - by intros _ name ->%elem_of_singleton.
Qed.

Lemma NewMetrics_sample :
  exists m, NewMetrics (default_config "development") true false = Some m /\ m_enabled m = true /\
    "go_sql_open_connections" ∈ registered (m_registry m).
Proof.
  destruct (NewMetrics_total (default_config "development") true false) as (m & E & He & Hr & _).
  exists m. split_and!; [exact E|by rewrite He|]. rewrite Hr. set_solver.
Qed.
