(* ===== verification/Requests.v ===== *)
(** * Whole requests

    A gRPC call through its interceptors to the handler, and an HTTP request through
    its middleware to the route: the programs the two servers run for what arrives,
    and the calls to Redis they can make, depending on whether the request is
    authorized. *)

From S2P Require Import Prelude GoText Regex Redis Proto Store Service LeaseSpec StoreRefine CallRefine StoreRun Validation RedisMem RefCodec Samples ServiceRun Listing GrpcRegistry Watch System PathMatch Config ConfigFacts Access AccessFacts Http HttpFacts HttpServer.

Local Open Scope Z_scope.
Local Open Scope go_scope.

(** ** Programs *)

(** What is deployed: the configuration and what the constructors made of it.
    [dep_library] are the handlers of promhttp, net/http/pprof and gin-swagger. *)
Record deployment : Type := {
  dep_cfg : Config;
  dep_service : AuthService;
  dep_platform : Platform;
  dep_methods : RegistryMethods;
  dep_valid : string -> bool;
  dep_code_name : option grpc_code -> string;
  dep_limiter : Limiter;
  dep_info : BuildInfo;
  dep_library : endpoint -> gin_handler;
}.

Section programs.
Context `{JwtLib} `{HttpEnv} {db : Type} `{RedisOps db} `{InstanceCodec} `{SliceSort}.
Context (dep : deployment).

(** The result of a handler as the interceptors see it. *)
Definition answer {A} (h : handler (A + grpc_status)) : call_handler A := fun _ =>
  let* r := h in Ret (match r with inl a => Reply a | inr s => Failed s end).

(** A call as it arrives: the request id that would be generated, and whether the
    response header can be set. *)
Record incoming : Type := { in_ctx : grpc_ctx; in_generated : string; in_sent : bool }.

Definition unary_call (i : incoming) {A} (method : string) (h : call_handler A) :
    handler (call_outcome A) :=
  unary_chain (dep_cfg dep) (in_generated i) (in_sent i) (dep_valid dep) (dep_service dep)
    (dep_platform dep) (dep_code_name dep) (dep_methods dep) A method h (in_ctx i).

Definition stream_call (i : incoming) {A} (method : string) (h : call_handler A) :
    handler (call_outcome A) :=
  stream_chain (dep_cfg dep) (in_generated i) (in_sent i) (dep_valid dep) (dep_service dep)
    (dep_platform dep) (dep_code_name dep) (dep_methods dep) A method h (in_ctx i).

(** The registered handlers of the registry service, each behind its chain. *)
Definition grpc_program (i : incoming) (q : rpc) : handler unit :=
  let m := dep_methods dep in
  match q with
  | RpcRegister now rnd req =>
      forget (unary_call i (m_RegisterInstance m) (answer (RegisterInstance now rnd req)))
  | RpcRenew now req => forget (unary_call i (m_RenewLease m) (answer (RenewLease now req)))
  | RpcDeregister req =>
      forget (unary_call i (m_DeregisterInstance m) (answer (DeregisterInstance req)))
  | RpcSetStatus wall now req =>
      forget (unary_call i (m_SetInstanceStatus m) (answer (SetInstanceStatus wall now req)))
  | RpcGet s inst => forget (unary_call i (m_GetInstance m) (answer (GetInstance s inst)))
  | RpcList req => forget (unary_call i (m_ListInstances m) (answer (ListInstances req)))
  | RpcListServices prefix =>
      forget (unary_call i (m_ListServices m) (answer (ListServices prefix)))
  | RpcWatch rounds req =>
      forget (stream_call i (m_WatchService m) (answer (WatchService rounds req)))
  | RpcListPage _ _ _ | RpcListServicesPage _ _ _ => Ret tt
  end.

(** The method of a call; the two listings with pages are HTTP's. *)
Definition rpc_method (q : rpc) : option string :=
  let m := dep_methods dep in
  match q with
  | RpcRegister _ _ _ => Some (m_RegisterInstance m)
  | RpcRenew _ _ => Some (m_RenewLease m)
  | RpcDeregister _ => Some (m_DeregisterInstance m)
  | RpcSetStatus _ _ _ => Some (m_SetInstanceStatus m)
  | RpcGet _ _ => Some (m_GetInstance m)
  | RpcList _ => Some (m_ListInstances m)
  | RpcListServices _ => Some (m_ListServices m)
  | RpcWatch _ _ => Some (m_WatchService m)
  | RpcListPage _ _ _ | RpcListServicesPage _ _ _ => None
  end.

(** What arrives: a gRPC call, or an HTTP request gin found the endpoint of. *)
Inductive arrival : Type :=
  | AGrpc (i : incoming) (q : rpc)
  | AHttp (generated : string) (expired : bool) (ready : HealthStatus * bool) (e : endpoint)
      (r : http_request).

(** The context of an arriving call carries nothing of the interceptors yet. *)
Definition arrival_ok (a : arrival) : Prop :=
  match a with
  | AGrpc i q => rpc_ok q /\ gc_principal (in_ctx i) = None /\ gc_idempotency (in_ctx i) = None
  | AHttp _ _ _ _ _ => True
  end.

Definition program (a : arrival) : handler unit :=
  match a with
  | AGrpc i q => grpc_program i q
  | AHttp generated expired ready e r =>
      forget (lift (serve_route (dep_cfg dep) generated expired (dep_service dep) (dep_limiter dep) e
        (endpoint_handler true (dep_info dep) ready (dep_library dep) e) r))
  end.

End programs.

(** ** The calls of a request *)

Section calls.
Context `{JwtLib} `{HttpEnv} {db : Type} `{RedisLaws db} `{CodecLaws} `{SliceSort}.

(** Only commands: no script is run, so no lease is changed. *)
Definition reads (c : rcall) : Prop := exists cmd, c = CCmd cmd.
Abbreviation reading p := (issues reads (fun _ _ => True) p).

Lemma reading_call {A} cmd (k : reply -> gprog A) : (forall r, reading (k r)) -> reading (Do (CCmd cmd) k).
Proof. intros Hk. split; [by exists cmd|auto]. Qed.

Lemma reading_get s i : reading (store_Get s i).
Proof. by apply reading_call. Qed.

Lemma reading_list_loop s ids vs st : reading (list_loop s ids vs st).
Proof.
  revert vs st. induction ids as [|i ids IH]; intros vs st; [done|]. cbn [list_loop].
  apply issues_seq; [apply reading_get|]. intros [v|e]; [apply IH|]. destruct (errors_is e _); [apply IH|done].
Qed.

Lemma reading_revision : reading read_revision.
Proof. by apply reading_call. Qed.

Lemma reading_list s : reading (store_List s).
Proof.
  apply reading_call. intros r. cbn [pbind]. destruct (as_strings r) as [ids|e]; [|exact I].
  apply issues_gseq; [apply reading_list_loop|]. intros [vs st].
  apply issues_seq; [destruct st; [done|by apply reading_call]|]. intros _.
  apply issues_gseq; [apply reading_revision|done].
Qed.

Lemma reading_services : reading store_Services.
Proof.
  apply reading_call. intros r. cbn [pbind]. destruct (as_strings r) as [names|e]; [|exact I].
  apply issues_gseq; [apply reading_revision|done].
Qed.

Lemma reading_collect names vs rev : reading (collect names vs rev).
Proof.
  revert vs rev. induction names as [|s names IH]; intros vs rev; [exact I|].
  cbn [collect]. apply issues_gseq; [apply reading_list|]. intros [l cur]. apply IH.
Qed.

Lemma reading_service_list req page size : reading (service_list req page size).
Proof.
  unfold service_list. destruct (_ && bool_decide (lst_Selector req = ∅)); [exact I|].
  destruct (negb _ && negb _); [exact I|].
  apply issues_gseq; [case_bool_decide; [apply reading_services|exact I]|]. intros [names rev].
  apply issues_gseq; [apply reading_collect|]. intros [vs rev']. exact I.
Qed.

Lemma reading_service_List req : reading (service_List req).
Proof. apply issues_gseq; [apply reading_service_list|]. intros [resp n]. exact I. Qed.

Lemma reading_summaries names prefix acc : reading (summaries names prefix acc).
Proof.
  revert acc. induction names as [|s names IH]; intros acc; [exact I|].
  cbn [summaries]. destruct (negb _ && negb _); [apply IH|].
  apply issues_gseq; [apply reading_list|]. intros [l cur]. apply IH.
Qed.

Lemma reading_service_listServices prefix page size : reading (service_listServices prefix page size).
Proof.
  apply issues_gseq; [apply reading_services|]. intros [names rev].
  apply issues_gseq; [apply reading_summaries|]. intros l. exact I.
Qed.

(** The script an authorized request of the kind [q] runs. *)
Inductive own_write : rpc -> rcall -> Prop :=
  | own_register now rnd req v p token lease :
      validateInstance (reg_Instance req) = Ok v ->
      own_write (RpcRegister now rnd req) (registerCall (ServiceName v) (InstanceId v) p token lease)
  | own_renew now req s i p lease :
      lease_id s i = lease_id (ren_ServiceName req) (ren_InstanceId req) ->
      own_write (RpcRenew now req) (updateCall s i p (ren_LeaseToken req) lease)
  | own_status wall now req s i p lease :
      lease_id s i = lease_id (sst_ServiceName req) (sst_InstanceId req) ->
      own_write (RpcSetStatus wall now req) (updateCall s i p (sst_LeaseToken req) lease)
  | own_deregister req :
      own_write (RpcDeregister req)
        (deleteCall (der_ServiceName req) (der_InstanceId req) (der_LeaseToken req)).

Definition own_effect (q : rpc) (e : effect) : Prop :=
  match e with ERedis c => reads c \/ own_write q c | _ => True end.

Abbreviation owning q h := (issues (own_effect q) honest_outcome h).

Lemma reading_lift q {A} (p : gprog A) : reading p -> owning q (lift p).
Proof.
  induction p as [a|c k IH]; [done|]. intros [Hc Hk]. split; [by left|].
  intros [r|e] _; cbn; by apply IH, Hk.
Qed.

Lemma reading_unary q {A} (p : gprog (res A)) : reading p -> owning q (unary p).
Proof. intros Hp. apply issues_seq; [by apply reading_lift|]. intros; exact I. Qed.

(** An instance read for a lease id is the instance of that lease. *)
Lemma get_own s i :
  returns_ok honest (fun v => lease_id (ServiceName v) (InstanceId v) = lease_id s i) (store_Get s i).
Proof.
  intros r Hr. cbn. destruct r; cbn; try done; try (by case_match).
  specialize (Hr s i eq_refl) as (v & Hu & Hx & _). by rewrite Hu.
Qed.

(** A write inside a handler. *)
Abbreviation writing q p := (issues (fun c => reads c \/ own_write q c) honest p).

Lemma writing_unary q {A} (p : gprog (res A)) : writing q p -> owning q (unary p).
Proof.
  intros Hp. apply issues_seq; [|intros; exact I].
  induction p as [a|c k IH]; [done|]. destruct Hp as [Hc Hk]. split; [exact Hc|].
  intros [r|e] Ho; cbn in *; apply IH, Hk; [done|]. by destruct c as [[]|].
Qed.

Lemma writing_get q s i : writing q (store_Get s i).
Proof. split; [left; by eexists|done]. Qed.

Lemma writing_update q v token lease :
  (forall p, own_write q (updateCall (ServiceName v) (InstanceId v) p token lease)) ->
  writing q (store_Update v token lease).
Proof.
  intros Hq. unfold store_Update. destruct (marshal v) as [p|e]; [|done]. split; [by right|done].
Qed.

Lemma owning_watch_values q request values rev : owning q (watch_values request values rev).
Proof.
  revert rev. induction values as [|c values IH]; intros rev; [exact I|].
  cbn [watch_values]. destruct (watch_change request c); [|apply IH].
  split; [exact I|]. intros o _. cbn. destruct (effect_error o); [exact I|apply IH].
Qed.

Lemma owning_watch_loop q rounds request rev : owning q (watch_loop rounds request rev).
Proof.
  revert rev. induction rounds as [|rounds IH]; intros rev; [exact I|]. cbn [watch_loop].
  apply issues_seq; [by apply reading_lift, reading_call|]. intros [values|e]; [|exact I].
  apply issues_seq; [apply owning_watch_values|].
  intros [rev'|e]; [|exact I]. split; [exact I|]. intros o _. cbn.
  destruct (effect_error o); [exact I|apply IH].
Qed.

Lemma owning_WatchService q rounds request : owning q (WatchService rounds request).
Proof.
  apply issues_seq; [apply reading_lift, reading_service_List|].
  intros [resp|e]; [|exact I]. split; [exact I|]. intros o _. cbn.
  destruct (effect_error o); [exact I|apply owning_watch_loop].
Qed.

(** Each handler runs the script of its own request only. *)
Lemma owning_Register now rnd req : owning (RpcRegister now rnd req) (RegisterInstance now rnd req).
Proof.
  apply writing_unary. unfold service_Register.
  destruct (validateInstance (reg_Instance req)) as [v|e] eqn:E; [|exact I].
  destruct rnd as [bytes|e]; [|exact I]. apply issues_gseq; [|intros; exact I].
  unfold store_Register. destruct (marshal _) as [p|e]; [|exact I]. split; [|done].
  right. by apply (own_register now (Ok bytes) req v).
Qed.

Lemma owning_Renew now req : owning (RpcRenew now req) (RenewLease now req).
Proof.
  apply writing_unary. eapply issues_gbind; [apply writing_get|apply get_own|]. intros v Hv.
  apply issues_gseq; [|intros; exact I]. apply writing_update. intros p. by apply own_renew.
Qed.

Lemma owning_SetStatus wall now req : owning (RpcSetStatus wall now req) (SetInstanceStatus wall now req).
Proof.
  apply writing_unary. unfold service_SetStatus. destruct (negb _ && negb _); [exact I|].
  eapply issues_gbind; [apply writing_get|apply get_own|]. intros v Hv.
  destruct (_ <=? 0); [exact I|]. apply issues_gseq; [|intros; exact I].
  apply writing_update. intros p. by apply own_status.
Qed.

Lemma owning_Deregister req : owning (RpcDeregister req) (DeregisterInstance req).
Proof. apply writing_unary. split; [right; apply own_deregister|done]. Qed.

End calls.

(** ** Refused or authorized *)

Section requests.
Context `{JwtLib} `{HttpEnv} {db : Type} `{RedisLaws db} `{CodecLaws} `{SliceSort}.
Context (dep : deployment).

(** What the platform and the libraries promise: the authorizer decides [allowed],
    the replay keeps to its own store, and the library's handlers leave Redis alone. *)
Context (allowed : Requirement -> grpc_ctx -> Prop).
Hypothesis Henforces : enforces (dep_platform dep) allowed.
Hypothesis Hreplays : replays (dep_platform dep).
Hypothesis Hlibrary : forall e c, exists x, dep_library dep e c = Ret x.

(** The call was admitted to its method, and the authorizer is for it. *)
Definition authorized (i : incoming) (q : rpc) : Prop :=
  exists method ctx', rpc_method dep q = Some method /\
    admitted_call (dep_cfg dep) (in_generated i) (dep_service dep) method (in_ctx i) ctx' /\
    forall requirement,
      registryGRPCRequirement (dep_methods dep) (authorization_Enabled (config_Authorization (dep_cfg dep)))
        method = Some requirement -> allowed requirement ctx'.

(** The effects of a request: Redis commands, and the script of an authorized call. *)
Definition arrival_effect (a : arrival) (e : effect) : Prop :=
  match e with
  | ERedis c => registry_call c /\
      (reads c \/ exists i q, a = AGrpc i q /\ authorized i q /\ own_write q c)
  | _ => True
  end.

Abbreviation keeps a h := (issues (arrival_effect a) honest_outcome h).
Abbreviation owning q h := (issues (own_effect q) honest_outcome h).
Abbreviation good p := (issues registry_call honest p).
Abbreviation good_handler h := (issues registry_effect honest_outcome h).
Abbreviation reading p := (issues reads (fun _ _ => True) p).

Lemma keeps_forget a {A} (h : handler A) : keeps a h -> keeps a (forget h).
Proof. intros Hh. apply issues_seq; [done|]. intros; exact I. Qed.

(** The count around a handler makes no call of its own, and neither does the recovery;
    the replay asks its own store only. *)
Lemma keeps_counted a {A} method (h : handler (A + grpc_status)) ctx :
  keeps a h -> keeps a (metricsInterceptor (observability_MetricsEnabled (config_Observability (dep_cfg dep)))
    (dep_code_name dep) A method (answer h) ctx).
Proof.
  intros Hh. apply issues_seq; [apply issues_seq; [exact Hh|intros; exact I]|].
  intros [x|s|]; [destruct (observability_MetricsEnabled _); [split; [exact I|intros; exact I]|exact I]..|exact I].
Qed.

Lemma keeps_observed a {A} method (h : handler (A + grpc_status)) ctx :
  keeps a h -> keeps a (observed_call (dep_cfg dep) (dep_code_name dep) A method (answer h) ctx).
Proof. intros Hh. apply issues_seq; [by apply keeps_counted|]. intros [x|s|]; exact I. Qed.

Lemma keeps_ask a {A} (p : gprog A) : keeps a (ask p).
Proof. induction p as [x|c k IH]; [exact I|]. split; [exact I|]. intros [r|e] _; apply IH. Qed.

Lemma keeps_replayed a {A} (w : replay A) method (h : handler (A + grpc_status)) ctx :
  keeps a h -> keeps a (replayed_call w (dep_cfg dep) (dep_code_name dep) method (answer h) ctx).
Proof.
  intros Hh. apply issues_seq; [|intros [x|s|]; exact I].
  apply issues_seq; [apply keeps_ask|]. intros [o|publish]; [exact I|].
  apply issues_seq; [by apply keeps_counted|]. intros o. apply keeps_ask.
Qed.

Lemma keeps_own i q {A} (h : handler A) :
  authorized i q -> owning q h -> good_handler h -> keeps (AGrpc i q) h.
Proof.
  intros Ha Ho Hg. eapply issues_mono; [|done|exact (issues_and _ _ _ _ Ho Hg)].
  intros [c|m| | |] [H1' H2']; cbn in *; try exact I. split; [exact H2'|].
  destruct H1' as [Hr|Hw]; [by left|right]. by exists i, q.
Qed.

Lemma keeps_unary i q {A} method (h : handler (A + grpc_status)) :
  gc_principal (in_ctx i) = None -> gc_idempotency (in_ctx i) = None ->
  rpc_method dep q = Some method -> owning q h -> good_handler h ->
  keeps (AGrpc i q) (forget (unary_call dep i method (answer h))).
Proof.
  intros Hp Hi Hm Ho Hg. apply keeps_forget. unfold unary_call.
  destruct (decided_unary (dep_cfg dep) (in_generated i) (dep_valid dep) (dep_service dep)
    (dep_platform dep) (dep_code_name dep) (dep_methods dep) allowed Henforces (in_sent i) A method
    (in_ctx i) Hreplays Hp Hi) as [(st & E & _)|(ctx' & Ha & Hal & [E|(_ & w & _ & E)])]; rewrite E;
    [exact I|apply keeps_observed, keeps_own|apply keeps_replayed, keeps_own];
    try done; by exists method, ctx'.
Qed.

Lemma keeps_stream i q {A} method (h : handler (A + grpc_status)) :
  gc_principal (in_ctx i) = None -> gc_idempotency (in_ctx i) = None ->
  rpc_method dep q = Some method -> owning q h -> good_handler h ->
  keeps (AGrpc i q) (forget (stream_call dep i method (answer h))).
Proof.
  intros Hp Hi Hm Ho Hg. apply keeps_forget. unfold stream_call. destruct (in_sent i); [|exact I].
  destruct (decided_stream (dep_cfg dep) (in_generated i) (dep_valid dep) (dep_service dep)
    (dep_platform dep) (dep_code_name dep) (dep_methods dep) allowed Henforces A method
    (in_ctx i) Hp Hi) as [(st & E & _)|(ctx' & Ha & Hal & E)]; rewrite E; [exact I|].
  apply keeps_observed, keeps_own; [|done..]. by exists method, ctx'.
Qed.

Lemma keeps_grpc i q : arrival_ok (AGrpc i q) -> keeps (AGrpc i q) (grpc_program dep i q).
Proof.
  intros (Hq & Hp & Hi). destruct q; cbn [grpc_program]; try exact I;
    first [ apply keeps_unary; [done|done|done| |] | apply keeps_stream; [done|done|done| |] ];
    try (by apply good_WatchService);
    try (apply good_unary; auto using good_service_Register, good_service_Renew, good_service_SetStatus,
      good_service_Deregister, good_service_Get, good_service_List, good_service_ListServices; fail);
    auto using owning_Register, owning_Renew, owning_SetStatus, owning_Deregister, owning_WatchService;
    apply reading_unary.
  - unfold service_Get. destruct (_ || _); [exact I|apply reading_get].
  - apply reading_service_List.
  - apply issues_gseq; [apply reading_service_listServices|]. intros [resp n]. exact I.
Qed.

(** The HTTP handlers only read. *)
Abbreviation listing p := (issues (fun c => registry_call c /\ reads c) honest p).

Lemma listing_of {A} (p : gprog A) : good p -> reading p -> listing p.
Proof.
  intros Hg Hr. apply issues_and; [done|]. by eapply issues_mono; [..|exact Hr].
Qed.

Lemma listing_endpoint ready e c : listing (endpoint_handler true (dep_info dep) ready (dep_library dep) e c).
Proof.
  destruct e as [| | |n| |route]; cbn [endpoint_handler].
  - exact I.
  - unfold http_Ready. destruct ready as [st ok]. by destruct ok.
  - destruct (Hlibrary EMetrics c) as [x ->]. exact I.
  - destruct (Hlibrary (EPprof n) c) as [x ->]. exact I.
  - destruct (Hlibrary ESwagger c) as [x ->]. exact I.
  - destruct route; cbn [api_handler]; try exact I.
    + unfold http_ListInstances. destruct (bind_instances _ _) as [req|e]; [|exact I].
      unfold pagination, on_client. apply issues_seq; [|intros [[[resp n]|e]|]; exact I].
      apply issues_seq; [|intros; exact I]. apply listing_of; [apply good_service_list|apply reading_service_list].
    + unfold http_ListServices. destruct (bind_services _ _) as [req|e]; [|exact I].
      unfold pagination, on_client. apply issues_seq; [|intros [[[resp n]|e]|]; exact I].
      apply issues_seq; [|intros; exact I]. apply listing_of; [apply good_service_listServices|apply reading_service_listServices].
Qed.

Lemma listing_watched expired (h : gin_handler) c :
  listing (h c) -> listing (watched (dep_cfg dep) expired h c).
Proof.
  intros Hh. unfold watched, mw_RequestLogger, mw_Recovery, mw_HTTPMetrics, mw_Timeout.
  repeat apply issues_seq; try (intros [c'|c']; try exact I); [exact Hh|].
  by destruct (_ && _).
Qed.

Lemma keeps_program a : arrival_ok a -> keeps a (program dep a).
Proof.
  destruct a as [i q|generated expired ready e r]; [apply keeps_grpc|]. intros _. cbn [program].
  apply keeps_forget. unfold serve_route.
  assert (forall {A} (p : gprog A), listing p -> keeps (AHttp generated expired ready e r) (lift p)) as Hlift.
  { intros A p. induction p as [a|c k IH]; [done|]. intros [[Hc Hr] Hk]. split; [by split; [|left]|].
    intros [rep|err] Ho; cbn in *; apply IH, Hk; [done|]. by destruct c as [[]|]. }
  apply Hlift.
  destruct (gate bare_or_answered (group_chain (dep_cfg dep) (dep_service dep) (dep_limiter dep) e)
    (route_admits (dep_cfg dep) (dep_service dep) (dep_limiter dep) e r) answered_bare bare_observe r
    (group_lets (dep_cfg dep) (dep_service dep) (dep_limiter dep) e r) (dep_cfg dep) generated expired)
    as [(c' & E & _)|(k & o & hs & _ & E & _)]; rewrite E; [exact I|].
  apply listing_watched, listing_endpoint.
Qed.

End requests.
