(* ===== verification/EndToEnd.v ===== *)
(** * The registry end to end

    The system of System.v on the programs of Requests.v, with the exchanges of each
    request recorded.  Two things are proved of every run: who can have changed a
    lease, and what a watch has sent. *)

From S2P Require Import Prelude GoText Regex Redis Proto Store Service LeaseSpec StoreRefine CallRefine StoreRun Validation RedisMem RefCodec Samples ServiceRun Listing GrpcRegistry Watch System PathMatch Config ConfigFacts Access AccessFacts Http HttpFacts HttpServer Requests.

Local Open Scope Z_scope.
Local Open Scope go_scope.

(** ** The recorded system *)

Section run.
Context `{JwtLib} `{HttpEnv} {db : Type} `{RedisLaws db} `{CodecLaws} `{SliceSort}.
Context (dep : deployment) (allowed : Requirement -> grpc_ctx -> Prop).
Hypothesis Henforces : enforces (dep_platform dep) allowed.
Hypothesis Hreplays : replays (dep_platform dep).
Hypothesis Hlibrary : forall e c, exists x, dep_library dep e c = Ret x.

(** A request at work: what arrived, what it has exchanged, and the rest of its
    program. *)
Record task : Type := Task {
  tk_arrival : arrival;
  tk_trace : list (effect * outcome);
  tk_prog : handler unit;
}.

Definition advance (tk : task) (e : effect) (o : outcome) (p : handler unit) : task :=
  Task (tk_arrival tk) (tk_trace tk ++ [(e, o)]) p.
Definition killed (tk : task) : task := Task (tk_arrival tk) (tk_trace tk) (Ret tt).

Record estate : Type := ES { es_time : Z; es_db : db; es_tasks : list task }.

(** The steps of [sys_step], with the exchanges recorded. *)
Inductive e_step : estate -> estate -> Prop :=
  | e_spawn t d ts a : arrival_ok a ->
      e_step (ES t d ts) (ES t d (ts ++ [Task a [] (program dep a)]))
  | e_tick t d ts t' : t <= t' -> e_step (ES t d ts) (ES t' d ts)
  | e_redis t d ts j tk c k : ts !! j = Some tk -> tk_prog tk = Do (ERedis c) k -> counter_ok t d ->
      let o := EReply (exec_call t c d).1 in
      e_step (ES t d ts) (ES t (exec_call t c d).2 (<[j := advance tk (ERedis c) o (k o)]> ts))
  | e_lost_reply t d ts j tk c k m : ts !! j = Some tk -> tk_prog tk = Do (ERedis c) k -> counter_ok t d ->
      let o := EReply (RFail m) in
      e_step (ES t d ts) (ES t (exec_call t c d).2 (<[j := advance tk (ERedis c) o (k o)]> ts))
  | e_lost_call t d ts j tk c k m : ts !! j = Some tk -> tk_prog tk = Do (ERedis c) k ->
      let o := EReply (RFail m) in
      e_step (ES t d ts) (ES t d (<[j := advance tk (ERedis c) o (k o)]> ts))
  | e_stream t d ts j tk e k o : ts !! j = Some tk -> tk_prog tk = Do e k -> answers e o ->
      e_step (ES t d ts) (ES t d (<[j := advance tk e o (k o)]> ts))
  | e_die t d ts j tk : ts !! j = Some tk -> e_step (ES t d ts) (ES t d (<[j := killed tk]> ts)).

Inductive e_reach (d0 : db) : estate -> Prop :=
  | e_init t : e_reach d0 (ES t d0 [])
  | e_next s s' : e_reach d0 s -> e_step s s' -> e_reach d0 s'.

(** A run of the system by a schedule: who arrives, how long nothing happens, and which
    request goes on, with every call answered and every message taken. *)
Inductive move : Type := MSpawn (a : arrival) | MTick (ms : nat) | MGo (j : nat).

Definition counter_okb (t : Z) (d : db) : bool :=
  match look d t revisionKey with
  | Some (Entry (VStr s) _) =>
      match parse_uint s with
      | Some n => bool_decide (format_uint n = s) && (Z.of_N n + 1 <? lua_max)
      | None => false
      end
  | _ => true
  end.

Lemma counter_okb_ok t d : counter_okb t d = true -> counter_ok t d.
Proof.
  unfold counter_okb. intros Hb n x Hl. rewrite Hl in Hb. destruct (parse_uint _) as [m|]; [|done].
  apply andb_prop in Hb as [He Hlt]. apply bool_decide_eq_true in He. apply (inj format_uint) in He as ->. lia.
Qed.

Definition make_move (s : estate) (m : move) : option estate :=
  let 'ES t d ts := s in
  match m with
  | MSpawn a => Some (ES t d (ts ++ [Task a [] (program dep a)]))
  | MTick ms => Some (ES (t + Z.of_nat ms) d ts)
  | MGo j =>
      tk ← ts !! j;
      match tk_prog tk with
      | Ret _ => None
      | Do (ERedis c) k =>
          let o := EReply (exec_call t c d).1 in
          if counter_okb t d
          then Some (ES t (exec_call t c d).2 (<[j := advance tk (ERedis c) o (k o)]> ts)) else None
      | Do (EPlatform c) k =>
          Some (ES t d (<[j := advance tk (EPlatform c) (EReply RNil) (k (EReply RNil))]> ts))
      | Do e k => Some (ES t d (<[j := advance tk e (EError None) (k (EError None))]> ts))
      end
  end.

Fixpoint play (s : estate) (ms : list move) : option estate :=
  match ms with [] => Some s | m :: ms => s' ← make_move s m; play s' ms end.

Definition move_ok (m : move) : Prop := match m with MSpawn a => arrival_ok a | _ => True end.

Lemma make_move_step s m s' : move_ok m -> make_move s m = Some s' -> e_step s s'.
Proof.
  destruct s as [t d ts], m as [a|ms|j]; intros Hok; cbn [make_move].
  - intros [= <-]. by apply e_spawn.
  - intros [= <-]. apply e_tick. lia.
  - destruct (ts !! j) as [tk|] eqn:Hj; [|done]. cbn [mbind option_bind].
    destruct (tk_prog tk) as [x|e k] eqn:Hp; [done|].
    destruct e as [c|m| |method code|c]; [|intros [= <-]; by apply e_stream..].
    destruct (counter_okb t d) eqn:Hc; [|done]. intros [= <-]. apply e_redis; [done..|].
    by apply counter_okb_ok.
Qed.

Lemma play_reach d0 s ms s' :
  e_reach d0 s -> Forall move_ok ms -> play s ms = Some s' -> e_reach d0 s'.
Proof.
  intros Hr HF. revert s Hr. induction HF as [|m ms Hm HF IH]; intros s Hr; cbn [play].
  { by intros [= <-]. }
  destruct (make_move s m) as [s1|] eqn:E; [|done]. cbn [mbind option_bind].
  apply IH. eapply e_next; [exact Hr|]. by eapply make_move_step.
Qed.

(** Nobody dies in such a run: what a request has exchanged leads to what is left of it. *)
Definition at_work (tk : task) : Prop := after (program dep (tk_arrival tk)) (tk_trace tk) (tk_prog tk).

Lemma play_at_work s ms s' :
  Forall at_work (es_tasks s) -> play s ms = Some s' -> Forall at_work (es_tasks s').
Proof.
  revert s. induction ms as [|m ms IH]; intros s HF; cbn [play]; [by intros [= <-]|].
  destruct (make_move s m) as [s1|] eqn:E; [|done]. cbn [mbind option_bind]. apply IH. clear IH.
  destruct s as [t d ts], m as [a|n|j]; cbn [make_move es_tasks] in *.
  - injection E as <-. apply Forall_app. split; [done|]. constructor; [constructor|done].
  - by injection E as <-.
  - destruct (ts !! j) as [tk|] eqn:Hj; [|done]. cbn [mbind option_bind] in E.
    pose proof (Forall_lookup_1 _ _ _ _ HF Hj) as Hw. unfold at_work in Hw.
    destruct (tk_prog tk) as [x|e k] eqn:Hp; [done|].
    assert (forall o, at_work (advance tk e o (k o))) as Ha.
    { intros o. unfold at_work. cbn. by eapply after_snoc. }
    destruct e as [c|m| |method code|c]; [destruct (counter_okb t d); [|done]|..]; injection E as <-;
      by apply Forall_insert.
Qed.

(** It is the system of System.v, on the programs of whole requests. *)
Definition erase (s : estate) : system := Sys (es_time s) (es_db s) (tk_prog <$> es_tasks s).
Definition entries (p : handler unit) : Prop := exists a, arrival_ok a /\ p = program dep a.

Lemma e_step_erase s s' : e_step s s' -> sys_step entries (erase s) (erase s').
Proof.
  assert (forall (ts : list task) j tk, ts !! j = Some tk -> (tk_prog <$> ts) !! j = Some (tk_prog tk)) as Hl.
  { intros ts j tk Hj. by rewrite list_lookup_fmap, Hj. }
  intros Hs. destruct Hs as [t d ts a Ha|t d ts t' Ht|t d ts j tk c k Hj Hp Hn|t d ts j tk c k m Hj Hp Hn
    |t d ts j tk c k m Hj Hp|t d ts j tk e k o Hj Hp He|t d ts j tk Hj]; unfold erase;
    cbn [es_time es_db es_tasks]; rewrite ?fmap_app, ?list_fmap_insert; cbn [tk_prog advance killed].
  - apply step_spawn. by exists a.
  - by apply step_tick.
  - apply step_redis; [|done]. rewrite <- Hp. by apply Hl.
  - apply step_lost_reply; [|done]. rewrite <- Hp. by apply Hl.
  - apply (step_lost_call _ _ _ _ _ c k m). rewrite <- Hp. by apply Hl.
  - apply (step_stream _ _ _ _ _ e k o); [|done]. rewrite <- Hp. by apply Hl.
  - apply step_die.
Qed.

(** The event a script publishes. *)
Inductive writes : rcall -> event -> Prop :=
  | writes_register s i p token lease :
      writes (registerCall s i p token lease) (Event s i (Upsert p))
  | writes_update s i p token lease :
      writes (updateCall s i p token lease) (Event s i (Upsert p))
  | writes_delete s i token : writes (deleteCall s i token) (Event s i Delete).

(** What a reply tells of a log.  A read of the stream is that of a log that is over by
    now, a revision that was read has been passed, and the revision a script returned is
    that of the event it published. *)
Record told (log : list event) (c : rcall) (r : reply) : Prop := {
  told_stream n count :
    c = CCmd (XREAD streamKey (format_uint n +:+ "-0") count) -> (n < 2 ^ 64)%N ->
    (exists m, r = RFail m) \/
    (exists log', log' `prefix_of` log /\ r = xread_reply (encode_log log') (n, 0%N) count);
  told_revision :
    c = CCmd (GET revisionKey) -> (exists m, r = RFail m) \/
    (exists n, (n <= length log)%nat /\ r = get_reply (counter_entry n));
  told_write e n :
    writes c e -> as_uint64 r = Ok n -> exists k, n = Z.of_nat (S k) /\ log !! k = Some e;
}.

Definition faithful (log : list event) (x : effect * outcome) : Prop :=
  match x with (ERedis c, EReply r) => told log c r | _ => True end.

(** What holds of every task: it came from its arrival, and keeps to its calls. *)
Record task_ok (log : list event) (tk : task) : Prop := {
  tok_arrival : arrival_ok (tk_arrival tk);
  tok_keeps : issues (arrival_effect dep allowed (tk_arrival tk)) honest_outcome (tk_prog tk);
  tok_after : exists p, after (program dep (tk_arrival tk)) (tk_trace tk) p /\
                (tk_prog tk = p \/ tk_prog tk = Ret tt);
  tok_faithful : Forall (faithful log) (tk_trace tk);
}.

Lemma faithful_prefix log log' x : log `prefix_of` log' -> faithful log x -> faithful log' x.
Proof.
  intros Hp. destruct x as [[c| | | |] [r|]]; try done. intros [Hx Hg Hw]. split.
  - intros n count Hc Hn. destruct (Hx n count Hc Hn) as [Hm|(l & Hl & Hr)]; [by left|right].
    exists l. split; [by etrans|done].
  - intros Hc. destruct (Hg Hc) as [Hm|(n & Hn & Hr)]; [by left|right].
    exists n. split; [|done]. apply prefix_length in Hp. lia.
  - intros e n Hc Hn. destruct (Hw e n Hc Hn) as (k & Hk & Hl). exists k. split; [done|].
    by eapply prefix_lookup_Some.
Qed.

Lemma task_ok_prefix log log' tk : log `prefix_of` log' -> task_ok log tk -> task_ok log' tk.
Proof.
  intros Hp [H1' H2' H3' H4']. split; [done..|]. eapply Forall_impl; [done|]. intros x. by apply faithful_prefix.
Qed.

Lemma task_ok_spawn log a : arrival_ok a -> task_ok log (Task a [] (program dep a)).
Proof.
  intros Ha. split; cbn; [done|by apply keeps_program| |constructor].
  exists (program dep a). split; [constructor|by left].
Qed.

Lemma task_ok_advance log tk e k o :
  task_ok log tk -> tk_prog tk = Do e k -> honest_outcome e o -> faithful log (e, o) ->
  task_ok log (advance tk e o (k o)).
Proof.
  intros [Ha Hk (p & Hp & Hq) Hf] Hd Ho Hfe. rewrite Hd in Hk. destruct Hk as [_ Hk].
  destruct Hq as [Hq|Hq]; rewrite Hd in Hq; [subst p|done]. split; cbn; [done|by apply Hk| |].
  - exists (k o). split; [by eapply after_snoc|by left].
  - apply Forall_app. split; [done|]. by constructor.
Qed.

Lemma task_ok_killed log tk : task_ok log tk -> task_ok log (killed tk).
Proof. intros [Ha Hk (p & Hp & _) Hf]. split; cbn; [done|exact I|exists p; auto|done]. Qed.

(** A script that returns a revision has published its event under it. *)
Lemma write_publishes t d r c e n :
  refines t d r -> revision r + 1 < lua_max -> writes c e -> as_uint64 (exec_call t c d).1 = Ok n ->
  n = revision r + 1 /\ exists r', refines t (exec_call t c d).2 r' /\ r_log r' = r_log r ++ [e].
Proof.
  intros HR Hn Hw Hr.
  assert (exists a, action_event a = Some e /\ performs t c d a r) as (a & Ha & Hp & HR').
  { destruct Hw; eexists; (split; [|first [by apply register_call_performs|by apply update_call_performs
      |by apply delete_call_performs]]); done. }
  rewrite Hr in Hp. destruct (act_publishes t a r e n Ha (eq_sym Hp)) as [-> Hl]. split; [done|]. by eexists.
Qed.

(** The reply of a consistent database is faithful to the log it has then. *)
Lemma faithful_exec t d r c r' :
  consistent t d r -> revision r + 1 < lua_max -> refines t (exec_call t c d).2 r' ->
  r_log r `prefix_of` r_log r' -> faithful (r_log r') (ERedis c, EReply (exec_call t c d).1).
Proof.
  intros (HR & _) Hrev HR' Hp. split.
  - intros n count -> Hn. right. exists (r_log r). split; [done|].
    destruct (xread_call t d r n count HR Hn) as (d' & E & _). by rewrite E.
  - intros ->. right. exists (length (r_log r)). split; [by apply prefix_length|].
    destruct (read_refines t d (GET revisionKey) _ r (law_get d t revisionKey) HR) as (d' & E & _).
    by rewrite E, (ref_revision _ _ _ HR).
  - intros e n Hw Hn. destruct (write_publishes t d r c e n HR Hrev Hw Hn) as (-> & r'' & HR'' & El).
    rewrite (refines_log t _ r' r'' HR' HR'').
    exists (length (r_log r)). split; [unfold revision; lia|]. by rewrite El, list_lookup_middle.
Qed.

Lemma faithful_fail log c m : faithful log (ERedis c, EReply (RFail m)).
Proof. split; [intros n count _ _; left; by exists m|intros _; left; by exists m|done]. Qed.

Definition e_inv (s : estate) : Prop :=
  exists r, consistent (es_time s) (es_db s) r /\ abs_reach (es_time s, r) /\ revision r < lua_max /\
    Forall (task_ok (r_log r)) (es_tasks s).

Lemma act_log_grows t a r : r_log r `prefix_of` r_log (act t a r).2.
Proof.
  destruct (act_log_prefix t a r) as [->|[->|[e ->]]]; [done|done|]. by apply prefix_app_r.
Qed.

Lemma act_revision t a r : revision (act t a r).2 <= revision r + 1.
Proof.
  unfold revision. destruct (act_log_prefix t a r) as [->|[->|[e ->]]]; [lia..|].
  rewrite length_app. cbn. lia.
Qed.

Lemma task_call log tk c k : task_ok log tk -> tk_prog tk = Do (ERedis c) k ->
  registry_call c /\ (reads c \/ exists i q, tk_arrival tk = AGrpc i q /\ authorized dep allowed i q /\ own_write q c).
Proof. intros Hok Hp. pose proof (tok_keeps _ _ Hok) as Hk. rewrite Hp in Hk. apply Hk. Qed.

Lemma e_inv_step s s' : e_inv s -> e_step s s' -> e_inv s'.
Proof.
  intros (r & HC & Ha & Hrev & HF) Hs.
  destruct Hs as [t d ts a Hok|t d ts t' Ht|t d ts j tk c k Hj Hp Hn|t d ts j tk c k m Hj Hp Hn
    |t d ts j tk c k m Hj Hp|t d ts j tk e k o Hj Hp He|t d ts j tk Hj]; cbn [es_time es_db es_tasks] in *;
    try pose proof (Forall_lookup_1 _ _ _ _ HF Hj) as Htk.
  - exists r. split_and!; [apply HC..|done|done|]. apply Forall_app. split; [done|]. constructor; [|done].
    by apply task_ok_spawn.
  - exists r. split_and!; [by apply (consistent_later t)..| |done|done].
    change r with (act t' ARead r).2. by eapply abs_next, abs_act.
  - pose proof (counter_revision t d r (proj1 HC) Hn) as Hn'.
    destruct (registry_call_acts t d r c HC Hn' (proj1 (task_call _ _ _ _ Htk Hp))) as (a & _ & HC' & Hh).
    exists (act t a r).2. pose proof (act_revision t a r).
    split_and!; [apply HC'..|by eapply abs_next, abs_act|lia|].
    apply Forall_insert.
    + eapply Forall_impl; [exact HF|]. intros x. apply task_ok_prefix, act_log_grows.
    + apply task_ok_advance; [|done..|].
      * eapply task_ok_prefix; [apply act_log_grows|done].
      * apply (faithful_exec t d r); [done|done|apply HC'|apply act_log_grows].
  - pose proof (counter_revision t d r (proj1 HC) Hn) as Hn'.
    destruct (registry_call_acts t d r c HC Hn' (proj1 (task_call _ _ _ _ Htk Hp))) as (a & _ & HC' & Hh).
    exists (act t a r).2. pose proof (act_revision t a r).
    split_and!; [apply HC'..|by eapply abs_next, abs_act|lia|].
    apply Forall_insert.
    + eapply Forall_impl; [exact HF|]. intros x. apply task_ok_prefix, act_log_grows.
    + eapply task_ok_prefix; [apply act_log_grows|].
      apply task_ok_advance; [done..|apply honest_fail|apply faithful_fail].
  - exists r. split_and!; [apply HC..|done|done|]. apply Forall_insert; [done|].
    apply task_ok_advance; [done..|apply honest_fail|apply faithful_fail].
  - exists r. split_and!; [apply HC..|done|done|]. apply Forall_insert; [done|].
    apply task_ok_advance; [done..|by destruct e, o|by destruct e, o].
  - exists r. split_and!; [apply HC..|done|done|]. apply Forall_insert; [done|]. by apply task_ok_killed.
Qed.

Context (d0 : db).
Hypothesis d0_empty : forall t, refines t d0 empty_registry.

Lemma e_inv_reach s : e_reach d0 s -> e_inv s.
Proof.
  induction 1 as [t|s s' Hr IH Hs]; [|by eapply e_inv_step].
  exists empty_registry. split; [|split_and!; [constructor|done|constructor]].
  split; [apply d0_empty|]. split; [|constructor]. intros x l Hl. cbn in Hl. by rewrite lookup_empty in Hl.
Qed.

(** ** Who changes a lease *)

(** The request [q] names the lease [x] and presents a token with the hash [h]. *)
Definition presents (q : rpc) (x h : string) : Prop :=
  match q with
  | RpcRenew _ req =>
      lease_id (ren_ServiceName req) (ren_InstanceId req) = x /\ hashToken (ren_LeaseToken req) = h
  | RpcSetStatus _ _ req =>
      lease_id (sst_ServiceName req) (sst_InstanceId req) = x /\ hashToken (sst_LeaseToken req) = h
  | RpcDeregister req =>
      lease_id (der_ServiceName req) (der_InstanceId req) = x /\ hashToken (der_LeaseToken req) = h
  | _ => False
  end.

Lemma write_frame t d r q c x h e :
  refines t d r -> revision r + 1 < lua_max -> own_write q c ->
  look d t (tokKey x) = Some (Entry (VStr h) e) ->
  (look (exec_call t c d).2 t (tokKey x) = Some (Entry (VStr h) e) /\
   look (exec_call t c d).2 t (instKey x) = look d t (instKey x)) \/ presents q x h.
Proof.
  intros HR Hn Hw Ht. destruct Hw as [now rnd req v p token lease Hv|now req s i p lease Hx
    |wall now req s i p lease Hx|req].
  - destruct (register_call_performs t d r (ServiceName v) (InstanceId v) p token lease HR Hn) as [_ HR'].
    destruct (frame_keys t d _ _ r x h e HR HR' Ht) as [Hl|(s & i & _ & [E|(p' & px & E)])];
      [by left|discriminate E..].
  - destruct (update_call_performs t d r s i p (ren_LeaseToken req) lease HR Hn) as [_ HR'].
    destruct (frame_keys t d _ _ r x h e HR HR' Ht) as [Hl|(s' & i' & Hx' & [E|(p' & px & E)])];
      [by left|discriminate E|right]. injection E as -> -> _ Hh _. cbn. by rewrite <- Hx.
  - destruct (update_call_performs t d r s i p (sst_LeaseToken req) lease HR Hn) as [_ HR'].
    destruct (frame_keys t d _ _ r x h e HR HR' Ht) as [Hl|(s' & i' & Hx' & [E|(p' & px & E)])];
      [by left|discriminate E|right]. injection E as -> -> _ Hh _. cbn. by rewrite <- Hx.
  - destruct (delete_call_performs t d r (der_ServiceName req) (der_InstanceId req) (der_LeaseToken req) HR Hn)
      as [_ HR'].
    destruct (frame_keys t d _ _ r x h e HR HR' Ht) as [Hl|(s' & i' & Hx' & [E|(p' & px & E)])];
      [by left|right|discriminate E]. injection E as <- <- Hh. done.
Qed.

Lemma read_frame t d r c x h e :
  consistent t d r -> revision r + 1 < lua_max -> registry_call c -> reads c ->
  look d t (tokKey x) = Some (Entry (VStr h) e) ->
  look (exec_call t c d).2 t (tokKey x) = Some (Entry (VStr h) e) /\
  look (exec_call t c d).2 t (instKey x) = look d t (instKey x).
Proof.
  intros HC Hn Hc [cmd ->] Ht. destruct (registry_call_acts t d r _ HC Hn Hc) as (a & Hca & (HR' & _) & _).
  destruct (frame_keys t d _ a r x h e (proj1 HC) HR' Ht) as [Hl|(s & i & _ & Ha)]; [done|exfalso].
  inversion Hca; subst; by destruct Ha as [?|(? & ? & ?)].
Qed.

(** C2: whatever arrives at the two servers, in whatever order their requests make
    their calls, however much time passes and whatever gets lost, the keys of a lease
    that is held change in one way only: by a gRPC call to RenewLease,
    SetInstanceStatus or DeregisterInstance that was admitted to its method as some
    caller, that the authorizer is for, whose request names this lease and presents a
    token with the stored hash, and whose script of that request is the call that was
    just executed.  An HTTP request never changes one. *)
Theorem write_provenance s s' x h e :
  e_reach d0 s -> e_step s s' ->
  look (es_db s) (es_time s') (tokKey x) = Some (Entry (VStr h) e) ->
  (look (es_db s') (es_time s') (tokKey x) = Some (Entry (VStr h) e) /\
   look (es_db s') (es_time s') (instKey x) = look (es_db s) (es_time s') (instKey x)) \/
  (exists j tk i q c o p, es_tasks s !! j = Some tk /\
     es_tasks s' !! j = Some (advance tk (ERedis c) o p) /\
     tk_arrival tk = AGrpc i q /\ authorized dep allowed i q /\ own_write q c /\ presents q x h).
Proof.
  intros Hr Hs Ht. destruct (e_inv_reach s Hr) as (r & HC & _ & _ & HF).
  assert (forall t d ts j tk c k, ts !! j = Some tk -> tk_prog tk = Do (ERedis c) k -> counter_ok t d ->
    consistent t d r -> Forall (task_ok (r_log r)) ts -> look d t (tokKey x) = Some (Entry (VStr h) e) ->
    (look (exec_call t c d).2 t (tokKey x) = Some (Entry (VStr h) e) /\
     look (exec_call t c d).2 t (instKey x) = look d t (instKey x)) \/
    (exists i q, tk_arrival tk = AGrpc i q /\ authorized dep allowed i q /\ own_write q c /\
       presents q x h)) as Hcall.
  { intros t d ts j tk c k Hj Hp Hn HCt HFt Htok.
    pose proof (counter_revision t d r (proj1 HCt) Hn) as Hrev.
    destruct (task_call _ _ _ _ (Forall_lookup_1 _ _ _ _ HFt Hj) Hp) as [Hc [Hrd|(i & q & Ha & Hau & Hw)]].
    - left. by apply (read_frame t d r).
    - destruct (write_frame t d r q c x h e (proj1 HCt) Hrev Hw Htok) as [Hl|Hpr]; [by left|right].
      by exists i, q. }
  destruct Hs as [t d ts a Hok|t d ts t' Htt|t d ts j tk c k Hj Hp Hn|t d ts j tk c k m Hj Hp Hn
    |t d ts j tk c k m Hj Hp|t d ts j tk ef k o Hj Hp He|t d ts j tk Hj]; cbn [es_time es_db es_tasks] in *;
    try (by left);
    (destruct (Hcall t d ts j tk c k Hj Hp Hn HC HF Ht) as [Hl|(i & q & ? & ? & ? & ?)]; [by left|right]);
    eexists j, tk, i, q, c, _, _; (split_and!; [done| |done..]);
    apply list_lookup_insert_eq; by eapply lookup_lt_Some.
Qed.

(** ** What a watch sends *)

(** The messages a stream took, in order. *)
Definition accepted (tr : list (effect * outcome)) : list WatchServiceResponse :=
  omap (fun x => match x with
    | (ESend m, o) => match effect_error o with None => Some m | Some _ => None end
    | _ => None
    end) tr.

Lemma accepted_app tr1 tr2 : accepted (tr1 ++ tr2) = accepted tr1 ++ accepted tr2.
Proof. apply omap_app. Qed.

(** A part of a handler that sends nothing. *)
Definition silent (e : effect) : Prop := forall m, e <> ESend m.

Lemma silent_after {A} (p : handler A) tr q :
  issues silent (fun _ _ => True) p -> after p tr q -> accepted tr = [].
Proof.
  intros Hp Ha. induction Ha as [p|c k r tr q Ha IH]; [done|]. destruct Hp as [Hc Hk].
  unfold accepted. cbn [omap list_omap]. destruct c as [c|m| | |]; [|by destruct (Hc m)|..]; by apply IH, Hk.
Qed.

Lemma silent_lift {A} (p : gprog A) : issues silent (fun _ _ => True) (lift p).
Proof. induction p as [a|c k IH]; [done|]. split; [done|]. intros [r|e] _; apply IH. Qed.

(** Whatever became of the sends, what was taken of a list of changes is a prefix of
    its messages, and all of them when the loop goes on. *)
Lemma watch_values_after request cs rev tr q :
  after (watch_values request cs rev) tr q ->
  exists k, (k <= length cs)%nat /\ accepted tr = omap (watch_message request) (take k cs) /\
    forall rev', q = Ret (inl rev') -> k = length cs /\ rev' = reached rev cs.
Proof.
  revert rev tr. induction cs as [|c cs IH]; intros rev tr Ha; cbn [watch_values] in Ha.
  { apply after_ret in Ha as [-> ->]. exists O. split_and!; [done..|]. by intros rev' [= <-]. }
  assert (forall rev', reached rev' (c :: cs) = reached (ch_Revision c) cs) as Hre.
  { intros rev'. unfold reached. destruct cs as [|c' cs _] using rev_ind; [done|].
    change (c :: cs ++ [c']) with ((c :: cs) ++ [c']). by rewrite !last_snoc. }
  assert (watch_message request c = (fun ch => {| wr_Revision := ch_Revision c; wr_Changes := [ch] |}) <$>
    watch_change request c) as Hm by done.
  destruct (watch_change request c) as [ch|]; cbn [fmap option_fmap option_map] in Hm.
  - cbn [send pbind] in Ha. inversion Ha as [|? ? o tr' ? Hk]; subst.
    { exists O. split_and!; [cbn; lia|done|]. intros rev' E. discriminate E. }
    cbn [pbind] in Hk. destruct (effect_error o) as [err|] eqn:Eo.
    + apply after_ret in Hk as [-> ->]. exists O. unfold accepted. cbn [omap list_omap]. rewrite Eo.
      split_and!; [cbn; lia|done|]. by intros rev'.
    + destruct (IH _ _ Hk) as (k & Hle & Hac & Hend). exists (S k). cbn [take length].
      split_and!; [lia| |].
      * unfold accepted in *. cbn [omap list_omap]. rewrite Eo, Hm. by f_equal.
      * intros rev' E. destruct (Hend rev' E) as [-> ->]. split; [done|]. by rewrite Hre.
  - destruct (IH _ _ Ha) as (k & Hle & Hac & Hend). exists (S k). cbn [take length].
    split_and!; [lia| |].
    + cbn [omap list_omap]. by rewrite Hm.
    + intros rev' E. destruct (Hend rev' E) as [-> ->]. split; [done|]. by rewrite Hre.
Qed.

Lemma silent_bind {A B} (p : handler A) (f : A -> handler B) tr q :
  (forall a, issues silent (fun _ _ => True) (f a)) -> after (pbind p f) tr q ->
  exists tr1 tr2 p', tr = tr1 ++ tr2 /\ after p tr1 p' /\ accepted tr = accepted tr1.
Proof.
  intros Hf Ha. apply after_bind in Ha as [(p' & Hp & _)|(tr1 & a & tr2 & -> & Hp & Hk)].
  - exists tr, [], p'. by rewrite app_nil_r.
  - exists tr1, tr2, (Ret a). split_and!; [done..|].
    by rewrite accepted_app, (silent_after _ _ _ (Hf a) Hk), app_nil_r.
Qed.

(** What a read of the stream returns, told faithfully. *)
Lemma changes_after log n tr q :
  Z.of_nat n < 2 ^ 64 -> Z.of_nat (length log) < 2 ^ 64 -> log_objects log ->
  Forall (faithful log) tr -> after (lift (store_Changes (Z.of_nat n))) tr (Ret q) ->
  accepted tr = [] /\ forall cs, q = Ok cs ->
    exists m, cs = take m (drop n (changes_of log)) /\
      reached (Z.of_nat n) cs = Z.of_nat (n + length cs) /\ Z.of_nat (n + length cs) < 2 ^ 64.
Proof.
  intros Hn Hlen Hlog HF Ha. split; [by eapply silent_after; [apply silent_lift|]|]. intros cs ->.
  cbn [store_Changes pbind call lift] in Ha. rewrite <- nat_N_Z, N2Z.id in Ha.
  inversion Ha as [|? ? o tr' ? Hk]; subst. apply Forall_cons_1 in HF as [Ho _].
  destruct o as [r|err]; cbn [lift] in Hk; apply after_ret in Hk as [_ Hq]; [|discriminate Hq].
  destruct Ho as [Ho _ _]. destruct (Ho _ _ eq_refl ltac:(lia)) as [[m ->]|(log' & Hp & ->)]; [discriminate Hq|].
  assert (length (changes_of log') = length log') as El by apply length_imap.
  pose proof (prefix_length _ _ Hp). destruct Hp as [rest ->].
  apply Forall_app in Hlog as [Hlog _]. rewrite decode_xread in Hq by (done || lia). injection Hq as ->.
  exists (Nat.min changes_count (length log' - n)).
  assert (changes_of (log' ++ rest) = changes_of log' ++ imap (fun k => change_of (k + length log')) rest) as ->.
  { unfold changes_of. rewrite imap_app. f_equal. apply imap_ext. intros k e _. cbn. f_equal. lia. }
  split_and!.
  - destruct (decide (n <= length log')%nat).
    + rewrite drop_app_le by lia. rewrite take_app_le by (rewrite length_drop; lia).
      rewrite <- take_take. f_equal. rewrite take_ge; [done|]. rewrite length_drop. lia.
    + rewrite drop_ge by lia. replace (length log' - n)%nat with O by lia. by rewrite Nat.min_0_r, take_nil.
  - rewrite reached_drop, length_take, length_drop, El. case_decide; lia.
  - rewrite length_take, length_drop, El. lia.
Qed.

Lemma watch_loop_after log request rounds n tr q :
  Z.of_nat n < 2 ^ 64 -> Z.of_nat (length log) < 2 ^ 64 -> log_objects log ->
  Forall (faithful log) tr -> after (watch_loop rounds request (Z.of_nat n)) tr q ->
  exists k, accepted tr = omap (watch_message request) (take k (drop n (changes_of log))).
Proof.
  intros Hn Hlen Hlog. revert n tr Hn. induction rounds as [|rounds IH]; intros n tr Hn HF Ha; cbn [watch_loop] in Ha.
  { apply after_ret in Ha as [-> _]. by exists O. }
  apply after_bind in Ha as [(p' & Hp & _)|(tr1 & a & tr2 & -> & Hp & Hk)].
  { exists O. by eapply silent_after; [apply silent_lift|]. }
  apply Forall_app in HF as [HF1 HF2].
  destruct (changes_after log n tr1 a Hn Hlen Hlog HF1 Hp) as [E1 Hcs].
  rewrite accepted_app, E1. cbn [app].
  destruct a as [cs|e]; [|apply after_ret in Hk as [-> _]; by exists O].
  destruct (Hcs cs eq_refl) as (m & Em & Hre & Hlt). clear Hcs.
  assert (cs = take (length cs) (drop n (changes_of log))) as Ecs.
  { rewrite Em at 2. rewrite length_take. rewrite Em at 1.
    destruct (Nat.min_spec m (length (drop n (changes_of log)))) as [[_ ->]|[? ->]]; [done|].
    by rewrite !take_ge by lia. }
  apply after_bind in Hk as [(p' & Hv & _)|(tr3 & x & tr4 & -> & Hv & Hk)];
    destruct (watch_values_after _ _ _ _ _ Hv) as (k & Hle & Hac & Hend).
  { exists k. rewrite Hac, Ecs, take_take, Nat.min_l by done. done. }
  rewrite accepted_app, Hac. destruct x as [rev'|e]; cycle 1.
  { apply after_ret in Hk as [-> _]. exists k. rewrite Ecs, take_take, Nat.min_l by done. apply app_nil_r. }
  destruct (Hend rev' eq_refl) as [-> ->]. rewrite Hre in Hk. rewrite firstn_all.
  assert (forall tr', accepted tr' = [] ->
    exists k, omap (watch_message request) cs ++ accepted tr' =
      omap (watch_message request) (take k (drop n (changes_of log)))) as Hstop.
  { intros tr' ->. exists (length cs). by rewrite app_nil_r, <- Ecs. }
  cbn [ctx_err pbind] in Hk. inversion Hk as [|? ? o tr' ? Hk']; subst tr4; [by apply Hstop|].
  cbn [pbind] in Hk'. destruct (effect_error o) as [err|].
  { apply after_ret in Hk' as [-> _]. by apply Hstop. }
  apply Forall_app in HF2 as [_ HF2]. apply Forall_cons_1 in HF2 as [_ HF2].
  destruct (IH (n + length cs)%nat tr' Hlt HF2 Hk') as [more Hacc].
  exists (length cs + more)%nat. rewrite <- take_take_drop_app, omap_app, <- Ecs. by rewrite <- Hacc.
Qed.

(** A value computed from replies told faithfully. *)
Lemma lift_after {A} log (V : A -> Prop) (p : gprog A) tr a :
  returns (told log) V p -> Forall (faithful log) tr -> after (lift p) tr (Ret a) -> V a.
Proof.
  revert tr. induction p as [b|c k IH]; intros tr HV HF Ha.
  { apply after_ret in Ha as [_ [= <-]]. exact HV. }
  cbn [lift] in Ha. inversion Ha as [|? ? o tr' ? Hk]; subst. apply Forall_cons_1 in HF as [Ho HF].
  destruct o as [r|err]; (eapply IH; [apply HV|exact HF|exact Hk]); [exact Ho|].
  apply (faithful_fail log c "no reply").
Qed.

Definition passed (log : list event) (z : Z) : Prop := exists n, z = Z.of_nat n /\ (n <= length log)%nat.

Lemma revision_passed log :
  Z.of_nat (length log) < 2 ^ 64 -> returns_ok (told log) (passed log) read_revision.
Proof.
  intros Hlen r [_ Hr _]. destruct (Hr eq_refl) as [[m ->]|(n & Hn & ->)]; [exact I|].
  destruct n as [|n]; cbn -[format_uint]; [by exists O|].
  rewrite parse_format_uint by lia. exists (S n). split; [lia|done].
Qed.

Lemma WatchService_after log request rounds tr q :
  Z.of_nat (length log) < 2 ^ 64 -> log_objects log -> Forall (faithful log) tr ->
  after (WatchService rounds request) tr q ->
  accepted tr = [] \/
  exists n k instances, (n <= length log)%nat /\
    accepted tr = {| wr_Revision := Z.of_nat n; wr_Changes := snapshot_change <$> instances |} ::
      omap (fun o => o) (take k (drop n (imap (event_message request) log))).
Proof.
  intros Hlen Hlog HF Ha. apply after_bind in Ha as [(p' & Hp & _)|(tr1 & a & tr2 & -> & Hp & Hk)].
  { left. by eapply silent_after; [apply silent_lift|]. }
  apply Forall_app in HF as [HF1 HF2]. rewrite accepted_app, (silent_after _ _ _ (silent_lift _) Hp). cbn [app].
  pose proof (lift_after log _ _ tr1 a
    (service_List_revision (told log) (passed log) (revision_passed log Hlen)
      ltac:(exists O; split; [done|lia]) request) HF1 Hp) as Hrev.
  destruct a as [initial|e]; [|apply after_ret in Hk as [-> _]; by left].
  destruct Hrev as (n & En & Hn). rewrite En in Hk. cbn [send pbind] in Hk.
  inversion Hk as [|? ? o tr' ? Hk']; subst tr2; [by left|]. cbn [pbind] in Hk'.
  unfold accepted. cbn [omap list_omap]. destruct (effect_error o) as [err|].
  { apply after_ret in Hk' as [-> _]. by left. }
  apply Forall_cons_1 in HF2 as [_ HF2]. right.
  destruct (watch_loop_after log request rounds n tr' q ltac:(lia) Hlen Hlog HF2 Hk') as [more Hacc].
  exists n, more, (lstr_Instances initial). split; [done|]. f_equal. by rewrite <- some_messages_of_log, <- Hacc.
Qed.

(** The interceptors around the watch send nothing of their own. *)
Lemma watch_call_after i rounds request tr q :
  arrival_ok (AGrpc i (RpcWatch rounds request)) ->
  after (program dep (AGrpc i (RpcWatch rounds request))) tr q ->
  accepted tr = [] \/
  authorized dep allowed i (RpcWatch rounds request) /\
  exists tr1 tr2 q', tr = tr1 ++ tr2 /\ after (WatchService rounds request) tr1 q' /\ accepted tr = accepted tr1.
Proof.
  intros (_ & Hp & Hi) Ha. cbn [program grpc_program] in Ha. unfold stream_call in Ha.
  destruct (in_sent i); [|left; by apply after_ret in Ha as [-> _]].
  destruct (decided_stream (dep_cfg dep) (in_generated i) (dep_valid dep) (dep_service dep)
    (dep_platform dep) (dep_code_name dep) (dep_methods dep) allowed Henforces Z
    (m_WatchService (dep_methods dep)) (in_ctx i) Hp Hi) as [(st & E & _)|(ctx' & Had & Hal & E)];
    rewrite E in Ha; [left; by apply after_ret in Ha as [-> _]|right].
  split; [by exists (m_WatchService (dep_methods dep)), ctx'|].
  apply silent_bind in Ha as (tr1 & tr2 & p1 & -> & Ha & ->); [|done].
  apply silent_bind in Ha as (tr3 & tr4 & p2 & -> & Ha & E3); [|by intros []].
  apply silent_bind in Ha as (tr5 & tr6 & p3 & -> & Ha & E5);
    [|intros [x|st|]; [destruct (observability_MetricsEnabled _); [by split|done]..|done]].
  apply silent_bind in Ha as (tr7 & tr8 & p4 & -> & Ha & E7); [|done].
  exists tr7, (tr8 ++ tr6 ++ tr4 ++ tr2), p4. split_and!; [by rewrite <- !app_assoc|exact Ha|congruence].
Qed.

(** C7: whatever else happens, and whatever of it fails, what the client of a watch has
    been sent is a prefix of its view of the registry's history: nothing; or one snapshot, at a
    revision n the registry has had, and after it, in order of revision, exactly one
    message for each event after n, up to some event of the log in the stream now, that
    the request concerns.  None is skipped, repeated or reordered, and nothing is
    sent to a caller who is not authorized to watch. *)
Theorem watch_history s j tk i rounds request :
  e_reach d0 s -> es_tasks s !! j = Some tk -> tk_arrival tk = AGrpc i (RpcWatch rounds request) ->
  exists log, look (es_db s) (es_time s) streamKey = stream_entry log /\
    (accepted (tk_trace tk) = [] \/
     authorized dep allowed i (RpcWatch rounds request) /\
     exists n k instances, (n <= length log)%nat /\
       accepted (tk_trace tk) =
         {| wr_Revision := Z.of_nat n; wr_Changes := snapshot_change <$> instances |} ::
         omap (fun o => o) (take k (drop n (imap (event_message request) log)))).
Proof.
  intros Hr Hj Ha. destruct (e_inv_reach s Hr) as (r & (HR & _ & Hlog) & _ & Hrev & HF).
  exists (r_log r). split; [apply HR|].
  destruct (Forall_lookup_1 _ _ _ _ HF Hj) as [Hok _ (p & Hp & _) Hf]. rewrite Ha in Hok, Hp.
  destruct (watch_call_after i rounds request _ _ Hok Hp)
    as [Hnil|[Hau (tr1 & tr2 & q & Etr & Hw & ->)]]; [by left|].
  rewrite Etr in Hf. apply Forall_app in Hf as [Hf _]. unfold revision, lua_max in Hrev.
  destruct (WatchService_after (r_log r) request rounds tr1 q ltac:(lia) Hlog Hf Hw); [by left|by right].
Qed.

End run.

(** ** Witnesses *)

#[local] Existing Instance sample_env.
#[local] Existing Instance one_token.

Definition sample_deployment : deployment := {|
  dep_cfg := default_config "dev"; dep_service := sample_service; dep_platform := sample_platform;
  dep_methods := sample_methods; dep_valid := fun _ => true; dep_code_name := code_name;
  dep_limiter := {| lim_enabled := false; lim_failOpen := false; lim_backend := None |};
  dep_info := sample_info; dep_library := fun _ c => Ret (Done c) |}.

Definition sample_incoming : incoming := {| in_ctx := bearer_call; in_generated := "0"; in_sent := true |}.

(** A watch of orders starts and sends its snapshot; orders/a registers; the watch
    reads the stream and sends what it found; then orders/a is deregistered. *)
Definition sample_moves : list move := [
  MSpawn (AGrpc sample_incoming (RpcWatch 1 sample_list)); MGo 0; MGo 0; MGo 0;
  MSpawn (AGrpc sample_incoming sample_rpc); MGo 1; MTick 1000; MGo 0; MGo 0;
  MSpawn (AGrpc sample_incoming (RpcDeregister {| der_ServiceName := "orders"; der_InstanceId := "a";
    der_LeaseToken := sample_token 1 |}))].

Definition sample_played : option (estate (db := memdb)) :=
  play sample_deployment (ES 0 ∅ []) sample_moves.

Lemma sample_moves_ok : Forall move_ok sample_moves.
Proof.
  unfold sample_moves. repeat apply Forall_cons_2; try exact I; try apply Forall_nil_2; (split; [|done]);
    try exact I. intros v [= <-]. vm_compute. reflexivity.
Qed.

Definition played_state : estate (db := memdb) := default (ES 0 ∅ []) sample_played.

Lemma played_reach : e_reach sample_deployment (∅ : memdb) played_state.
Proof.
  unfold played_state. destruct sample_played as [s|] eqn:E; [|apply e_init].
  eapply play_reach; [apply (e_init _ _ 0)|apply sample_moves_ok|exact E].
Qed.

Lemma sample_library e c : exists x, dep_library sample_deployment e c = Ret x.
Proof. by eexists. Qed.

(** The deregistration deletes the lease, so it was authorized and presented the token. *)
Lemma write_provenance_witness :
  exists i q, authorized sample_deployment known_caller i q /\
    presents q "orders:a" (hashToken (sample_token 1)).
Proof.
  destruct (make_move sample_deployment played_state (MGo 2)) as [s'|] eqn:E; cycle 1.
  { assert (bool_decide (is_Some (make_move sample_deployment played_state (MGo 2))) = true) as E'
      by (vm_compute; reflexivity). rewrite E in E'. discriminate E'. }
  assert (es_time s' = 1000 /\ look (es_db s') 1000 (tokKey "orders:a") = None) as [Et El].
  { split.
    - transitivity (default 0 (es_time <$> make_move sample_deployment played_state (MGo 2)));
        [rewrite E; reflexivity|vm_compute; reflexivity].
    - transitivity (match make_move sample_deployment played_state (MGo 2) with
        Some s => look (es_db s) 1000 (tokKey "orders:a") | None => None end);
        [rewrite E; reflexivity|vm_compute; reflexivity]. }
  destruct (write_provenance sample_deployment known_caller sample_enforces sample_replays sample_library
    ∅ refines_empty played_state s' "orders:a" (hashToken (sample_token 1)) (Some 10000))
    as [[Hl _]|(j & tk & i & q & c & o & p & _ & _ & _ & Ha & _ & Hp)].
  - exact played_reach.
  - exact (make_move_step sample_deployment played_state (MGo 2) s' I E).
  - rewrite Et. vm_compute. reflexivity.
  - rewrite Et, El in Hl. discriminate Hl.
  - exists i, q. exact (conj Ha Hp).
Defined.

Lemma watch_history_witness :
  exists log tk, es_tasks played_state !! 0%nat = Some tk /\ length (accepted (tk_trace tk)) = 2%nat /\
    look (es_db played_state) (es_time played_state) streamKey = stream_entry log /\
    authorized sample_deployment known_caller sample_incoming (RpcWatch 1 sample_list) /\
    exists n k instances, (n <= length log)%nat /\ accepted (tk_trace tk) =
      {| wr_Revision := Z.of_nat n; wr_Changes := snapshot_change <$> instances |} ::
      omap (fun o => o) (take k (drop n (imap (event_message sample_list) log))).
Proof.
  destruct (es_tasks played_state !! 0%nat) as [tk|] eqn:E; cycle 1.
  { assert (bool_decide (is_Some (es_tasks played_state !! 0%nat)) = true) as E'
      by (vm_compute; reflexivity). rewrite E in E'. discriminate E'. }
  assert (tk_arrival tk = AGrpc sample_incoming (RpcWatch 1 sample_list) /\ length (accepted (tk_trace tk)) = 2%nat)
    as [Ea Ec].
  { assert (tk = default (Task (AGrpc sample_incoming sample_rpc) [] (Ret tt)) (es_tasks played_state !! 0%nat)) as ->
      by (rewrite E; reflexivity). split; vm_compute; reflexivity. }
  destruct (watch_history sample_deployment known_caller sample_enforces sample_replays sample_library
    ∅ refines_empty played_state 0 tk sample_incoming 1 sample_list played_reach E Ea) as (log & Hs & [Hn|[Hau Hx]]).
  { rewrite Hn in Ec. discriminate Ec. }
  exists log, tk. exact (conj eq_refl (conj Ec (conj Hs (conj Hau Hx)))).
Defined.
