(* ===== verification/Acks.v ===== *)
(** * What an answer means

    In the system of EndToEnd.v, with its interleavings and losses: a caller who was
    told that a write succeeded was told the truth.  The event of the write is in the
    stream, under the revision of the answer, and no other request was ever given
    that revision; an answer replayed from the platform's store is the one exception. *)

From S2P Require Import Prelude GoText Regex Redis Proto Store Service LeaseSpec StoreRefine CallRefine StoreRun Validation RedisMem RefCodec Samples ServiceRun Listing GrpcRegistry Watch System PathMatch Config ConfigFacts Access AccessFacts Http HttpFacts HttpServer Requests EndToEnd.

Local Open Scope Z_scope.
Local Open Scope go_scope.

(** ** From the trace of a request to its write *)

Section writes.
Context {db : Type} `{RedisLaws db} `{CodecLaws} `{SliceSort}.

(** Two traces of the same exchanges; a call without a reply counts as failed. *)
Definition same_exchange (x : effect * outcome) (y : rcall * reply) : Prop :=
  x.1 = ERedis y.1 /\ (x.2 = EReply y.2 \/ y.2 = RFail "no reply").

Lemma lift_emits {A} (p : gprog A) tr a :
  after (lift p) tr (Ret a) -> exists tr', emits p tr' a /\ Forall2 same_exchange tr tr'.
Proof.
  revert tr. induction p as [b|c k IH]; intros tr Ha; cbn [lift] in Ha.
  { apply after_ret in Ha as [-> [= ->]]. exists []. split; constructor. }
  inversion Ha as [|? ? o tr1 ? Hk]; subst.
  destruct o as [r|e]; destruct (IH _ _ Hk) as (tr' & He & HF).
  - exists ((c, r) :: tr'). split; constructor; [done| |done]. split; [done|by left].
  - exists ((c, RFail "no reply") :: tr'). split; constructor; [done| |done]. split; [done|by right].
Qed.

(** The trace contains a script that published [e] and returned the revision [n]. *)
Definition wrote (tr : list (effect * outcome)) (e : event) (n : Z) : Prop :=
  exists c r, (ERedis c, EReply r) ∈ tr /\ writes c e /\ as_uint64 r = Ok n.

Lemma wrote_mid tr0 tr1 tr2 e n : wrote tr1 e n -> wrote (tr0 ++ tr1 ++ tr2) e n.
Proof. intros (c & r & Hin & Hw). exists c, r. split; [|done]. rewrite !elem_of_app. by right; left. Qed.

Lemma exchange_wrote tr tr' c r e n :
  Forall2 same_exchange tr tr' -> (c, r) ∈ tr' -> writes c e -> script_result (as_uint64 r) = Ok n ->
  wrote tr e n.
Proof.
  intros HF Hin Hw Hn. apply list_elem_of_lookup in Hin as [k Hk].
  destruct (Forall2_lookup_r _ _ _ _ _ HF Hk) as ([e' o] & Hx & E & Ho). cbn in E, Ho. subst e'.
  destruct Ho as [->| ->]; [|done]. exists c, r. split; [by eapply list_elem_of_lookup_2|]. split; [done|].
  by destruct (as_uint64 r) as [z|err]; [injection Hn as ->|].
Qed.

(** The event of an instance that was written, or of a deletion. *)
Definition ack_event (svc inst : string) (v : option ServiceInstance) (e : event) : Prop :=
  match v with
  | Some v => exists p, marshal v = Ok p /\ svc = ServiceName v /\ inst = InstanceId v /\
                e = Event (ServiceName v) (InstanceId v) (Upsert p)
  | None => e = Event svc inst Delete
  end.

Lemma store_Register_emits v token lease tr n :
  emits (store_Register v token lease) tr (Ok n) ->
  exists p r, marshal v = Ok p /\ script_result (as_uint64 r) = Ok n /\
    (registerCall (ServiceName v) (InstanceId v) p token lease, r) ∈ tr.
Proof.
  unfold store_Register. intros Htr. destruct (marshal v) as [p|e]; [|by emits_inv Htr].
  emits_inv Htr. emits_inv Htr. exists p, r. split_and!; [done|congruence|left].
Qed.

Lemma store_Update_emits v token lease tr n :
  emits (store_Update v token lease) tr (Ok n) ->
  exists p r, marshal v = Ok p /\ script_result (as_uint64 r) = Ok n /\
    (updateCall (ServiceName v) (InstanceId v) p token lease, r) ∈ tr.
Proof.
  unfold store_Update. intros Htr. destruct (marshal v) as [p|e]; [|by emits_inv Htr].
  emits_inv Htr. emits_inv Htr. exists p, r. split_and!; [done|congruence|left].
Qed.

Lemma unary_answers {A} (p : gprog (res A)) tr a :
  after (unary p) tr (Ret (inl a)) -> exists tr', emits p tr' (Ok a) /\ Forall2 same_exchange tr tr'.
Proof.
  intros Ha. apply after_bind_ret in Ha as (tr1 & r & tr2 & -> & Hp & Hr).
  apply after_ret in Hr as [-> Hr]. rewrite app_nil_r. apply lift_emits.
  by destruct r as [b|e]; [injection Hr as <-|].
Qed.

(** What each write was answered with, it has written. *)
Lemma Register_wrote now rnd req tr resp :
  after (RegisterInstance now rnd req) tr (Ret (inl resp)) ->
  exists e, ack_event (ServiceName (regr_Instance resp)) (InstanceId (regr_Instance resp))
      (Some (regr_Instance resp)) e /\ wrote tr e (regr_Revision resp).
Proof.
  intros Ha. apply unary_answers in Ha as (tr' & He & HF). unfold service_Register in He.
  destruct (validateInstance _) as [v|err]; [|by emits_inv He]. destruct rnd as [bytes|err]; [|by emits_inv He].
  apply emits_gbind in He as [(err & ? & _)|(t1 & n & t2 & -> & Hs & He)]; [done|]. emits_inv He.
  apply store_Register_emits in Hs as (p & r & Hm & Hr & Hin). cbn [regr_Instance regr_Revision].
  eexists. split; [by exists p|]. eapply exchange_wrote; [exact HF| |apply writes_register|exact Hr].
  apply elem_of_app. by left.
Qed.

Lemma Renew_wrote now req tr resp :
  after (RenewLease now req) tr (Ret (inl resp)) ->
  exists e, ack_event (ServiceName (ir_Instance resp)) (InstanceId (ir_Instance resp))
      (Some (ir_Instance resp)) e /\ wrote tr e (ir_Revision resp).
Proof.
  intros Ha. apply unary_answers in Ha as (tr' & He & HF). unfold service_Renew in He.
  apply emits_gbind in He as [(err & ? & _)|(t1 & v & t2 & -> & _ & He)]; [done|].
  apply emits_gbind in He as [(err & ? & _)|(t3 & n & t4 & -> & Hs & He)]; [done|]. emits_inv He.
  apply store_Update_emits in Hs as (p & r & Hm & Hr & Hin). cbn [ir_Instance ir_Revision].
  eexists. split; [by exists p|]. eapply exchange_wrote; [exact HF| |apply writes_update|exact Hr].
  apply elem_of_app. right. apply elem_of_app. by left.
Qed.

Lemma SetStatus_wrote wall now req tr resp :
  after (SetInstanceStatus wall now req) tr (Ret (inl resp)) ->
  exists e, ack_event (ServiceName (ir_Instance resp)) (InstanceId (ir_Instance resp))
      (Some (ir_Instance resp)) e /\ wrote tr e (ir_Revision resp).
Proof.
  intros Ha. apply unary_answers in Ha as (tr' & He & HF). unfold service_SetStatus in He.
  destruct (negb _ && negb _); [by emits_inv He|].
  apply emits_gbind in He as [(err & ? & _)|(t1 & v & t2 & -> & _ & He)]; [done|].
  destruct (_ <=? 0); [by emits_inv He|].
  apply emits_gbind in He as [(err & ? & _)|(t3 & n & t4 & -> & Hs & He)]; [done|]. emits_inv He.
  apply store_Update_emits in Hs as (p & r & Hm & Hr & Hin). cbn [ir_Instance ir_Revision].
  eexists. split; [by exists p|]. eapply exchange_wrote; [exact HF| |apply writes_update|exact Hr].
  apply elem_of_app. right. apply elem_of_app. by left.
Qed.

Lemma Deregister_wrote req tr n :
  after (DeregisterInstance req) tr (Ret (inl n)) ->
  wrote tr (Event (der_ServiceName req) (der_InstanceId req) Delete) n.
Proof.
  intros Ha. apply unary_answers in Ha as (tr' & He & HF).
  unfold service_Deregister, store_Deregister in He. emits_inv He. emits_inv He.
  eapply exchange_wrote; [exact HF|left|apply writes_delete|congruence].
Qed.

End writes.

(** ** Answered requests *)

Section acks.
Context `{JwtLib} `{HttpEnv} {db : Type} `{RedisLaws db} `{CodecLaws} `{SliceSort}.
Context (dep : deployment) (allowed : Requirement -> grpc_ctx -> Prop).
Hypothesis Henforces : enforces (dep_platform dep) allowed.
Hypothesis Hreplays : replays (dep_platform dep).
Hypothesis Hlibrary : forall e c, exists x, dep_library dep e c = Ret x.
Context (d0 : db).
Hypothesis d0_empty : forall t, refines t d0 empty_registry.

(** The call has exchanged [tr] and was answered: under the revision [n] the instance
    [v] was written, or the named instance was deregistered. *)
Inductive acknowledged (i : incoming) : rpc -> list (effect * outcome) -> Z -> string -> string ->
    option ServiceInstance -> Prop :=
  | ack_register now rnd req tr resp :
      after (unary_call dep i (m_RegisterInstance (dep_methods dep)) (answer (RegisterInstance now rnd req)))
        tr (Ret (Reply resp)) ->
      acknowledged i (RpcRegister now rnd req) tr (regr_Revision resp)
        (ServiceName (regr_Instance resp)) (InstanceId (regr_Instance resp)) (Some (regr_Instance resp))
  | ack_renew now req tr resp :
      after (unary_call dep i (m_RenewLease (dep_methods dep)) (answer (RenewLease now req)))
        tr (Ret (Reply resp)) ->
      acknowledged i (RpcRenew now req) tr (ir_Revision resp)
        (ServiceName (ir_Instance resp)) (InstanceId (ir_Instance resp)) (Some (ir_Instance resp))
  | ack_status wall now req tr resp :
      after (unary_call dep i (m_SetInstanceStatus (dep_methods dep)) (answer (SetInstanceStatus wall now req)))
        tr (Ret (Reply resp)) ->
      acknowledged i (RpcSetStatus wall now req) tr (ir_Revision resp)
        (ServiceName (ir_Instance resp)) (InstanceId (ir_Instance resp)) (Some (ir_Instance resp))
  | ack_deregister req tr n :
      after (unary_call dep i (m_DeregisterInstance (dep_methods dep)) (answer (DeregisterInstance req)))
        tr (Ret (Reply n)) ->
      acknowledged i (RpcDeregister req) tr n (der_ServiceName req) (der_InstanceId req) None.

(** The call was admitted to its method and the authorizer is for it, it carries an
    idempotency key, and it was answered from the platform's store: all it has exchanged
    are the questions of the replay. *)
Definition replayed_answer (i : incoming) (q : rpc) (tr : list (effect * outcome)) : Prop :=
  authorized dep allowed i q /\ gc_metadata (in_ctx i) "idempotency-key" <> [] /\
  Forall (fun x => exists c, x.1 = EPlatform c) tr.

Lemma ask_after {A} (p : gprog A) tr q :
  after (ask p) tr q -> Forall (fun x => exists c, x.1 = EPlatform c) tr.
Proof.
  revert tr. induction p as [a|c k IH]; intros tr Ha; cbn [ask] in Ha.
  { apply after_ret in Ha as [-> _]. constructor. }
  inversion Ha as [|? ? o tr1 ? Hk]; subst; constructor; [by exists c|]. by destruct o; eapply IH.
Qed.

Lemma ask_returns {A} (V : A -> Prop) (p : gprog A) tr a :
  returns (fun _ _ => True) V p -> after (ask p) tr (Ret a) -> V a.
Proof.
  revert tr. induction p as [b|c k IH]; intros tr Hv Ha; cbn [ask] in Ha.
  { by apply after_ret in Ha as [_ [= ->]]. }
  inversion Ha as [|? ? o tr1 ? Hk]; subst. destruct o; eapply IH; try exact Hk; by apply Hv.
Qed.

(** The recovery, the count and the replay let an answer through, and make none up. *)
Lemma recovered_answers {A} (p : handler (call_outcome A)) tr a :
  after (let* result := p in
    match result with Panicked => Ret (Failed (GStatus Internal "internal server error")) | _ => Ret result end)
    tr (Ret (Reply a)) -> after p tr (Ret (Reply a)).
Proof.
  intros Ha. apply after_bind_ret in Ha as (tr1 & o & tr2 & -> & Ha & Ho).
  destruct o; apply after_ret in Ho as [-> Ho]; rewrite app_nil_r; congruence.
Qed.

Lemma counted_answers {A} enabled method (h : handler (A + grpc_status)) ctx tr a :
  after (metricsInterceptor enabled (dep_code_name dep) A method (answer h) ctx) tr (Ret (Reply a)) ->
  exists tr1 tr2, tr = tr1 ++ tr2 /\ after h tr1 (Ret (inl a)).
Proof.
  intros Ha. apply after_bind_ret in Ha as (tr3 & o & tr4 & -> & Ha & Hc).
  assert (o = Reply a) as ->.
  { destruct o as [b|st|]; [..|apply after_ret in Hc as [_ Hc]; congruence];
      (destruct enabled; [|apply after_ret in Hc as [_ Hc]; congruence]);
      inversion Hc as [|? ? r tr' ? Hk]; subst; apply after_ret in Hk as [_ Hk]; congruence. }
  apply after_bind_ret in Ha as (tr5 & r & tr6 & -> & Ha & Hr). apply after_ret in Hr as [-> Hr].
  exists tr5, tr4. rewrite app_nil_r. split; [done|]. destruct r; congruence.
Qed.

Lemma around_answers {A} (w : replay A) (h : handler (call_outcome A)) tr a :
  genuine w -> after (around w h) tr (Ret (Reply a)) ->
  Forall (fun x => exists c, x.1 = EPlatform c) tr \/
  exists tr0 tr1 tr2, tr = tr0 ++ tr1 ++ tr2 /\ after h tr1 (Ret (Reply a)).
Proof.
  intros Hw Ha. apply after_bind_ret in Ha as (tr0 & x & tr' & -> & Ha & Hx).
  pose proof (ask_returns _ _ _ _ Hw Ha) as Hv. destruct x as [o|publish].
  { left. apply after_ret in Hx as [-> _]. rewrite app_nil_r. by eapply ask_after. }
  right. apply after_bind_ret in Hx as (tr1 & o & tr2 & -> & Hh & Hp). exists tr0, tr1, tr2. split; [done|].
  destruct (ask_returns _ _ _ _ (Hv o) Hp) as [->|[s Hs]]; [done|discriminate Hs].
Qed.

Lemma answered_unary i q {A} method (h : handler (A + grpc_status)) tr a :
  gc_principal (in_ctx i) = None -> gc_idempotency (in_ctx i) = None -> rpc_method dep q = Some method ->
  after (unary_call dep i method (answer h)) tr (Ret (Reply a)) ->
  replayed_answer i q tr \/ (exists tr0 tr1 tr2, tr = tr0 ++ tr1 ++ tr2 /\ after h tr1 (Ret (inl a))).
Proof.
  intros Hp Hi Hm Ha. unfold unary_call in Ha.
  destruct (decided_unary (dep_cfg dep) (in_generated i) (dep_valid dep) (dep_service dep)
    (dep_platform dep) (dep_code_name dep) (dep_methods dep) allowed Henforces (in_sent i) A method
    (in_ctx i) Hreplays Hp Hi) as [(st & E & _)|(ctx' & Had & Hal & [E|(Hk & w & Hw & E)])]; rewrite E in Ha.
  - by apply after_ret in Ha as [_ Ha].
  - right. apply recovered_answers, counted_answers in Ha as (tr1 & tr2 & -> & Ha). by exists [], tr1, tr2.
  - apply recovered_answers, around_answers in Ha as [Hr|(tr0 & tr1 & tr2 & -> & Ha)]; [left|right|done].
    { split; [by exists method, ctx'|done]. }
    apply counted_answers in Ha as (tr3 & tr4 & -> & Ha). exists tr0, tr3, (tr4 ++ tr2).
    by rewrite <- app_assoc.
Qed.

Lemma acknowledged_wrote i q tr n svc inst v :
  arrival_ok (AGrpc i q) -> acknowledged i q tr n svc inst v ->
  replayed_answer i q tr \/ (exists e, ack_event svc inst v e /\ wrote tr e n).
Proof.
  intros (_ & Hp & Hi) Ha.
  destruct Ha as [now rnd req tr resp Ha|now req tr resp Ha|wall now req tr resp Ha|req tr n Ha];
    (eapply answered_unary in Ha as [Hr|(tr0 & tr1 & tr2 & -> & Ha)]; [by left|right|done..]).
  - apply Register_wrote in Ha as (e & He & Hw). exists e. split; [done|by apply wrote_mid].
  - apply Renew_wrote in Ha as (e & He & Hw). exists e. split; [done|by apply wrote_mid].
  - apply SetStatus_wrote in Ha as (e & He & Hw). exists e. split; [done|by apply wrote_mid].
  - apply Deregister_wrote in Ha. eexists. split; [done|by apply wrote_mid].
Qed.

(** ** No revision is given twice *)

(** The revision a script returned in an exchange. *)
Definition acked (x : effect * outcome) : option Z :=
  match x with
  | (ERedis (CEval _), EReply r) => match as_uint64 r with Ok n => Some n | Err _ => None end
  | _ => None
  end.

Lemma wrote_acked tr e n : wrote tr e n -> exists k x, tr !! k = Some x /\ acked x = Some n.
Proof.
  intros (c & r & Hin & Hw & Hn). apply list_elem_of_lookup in Hin as [k Hk].
  exists k, (ERedis c, EReply r). split; [done|]. cbn. destruct Hw; by rewrite Hn.
Qed.

(** Exchange [k] of request [j] returned the revision [n]. *)
Definition ack_at (ts : list task) (j k : nat) (n : Z) : Prop :=
  exists tk x, ts !! j = Some tk /\ tk_trace tk !! k = Some x /\ acked x = Some n.

Lemma ack_at_spawn ts a p j k n : ack_at (ts ++ [Task a [] p]) j k n -> ack_at ts j k n.
Proof.
  intros (tk & x & Hj & Hk & Hx). exists tk, x. split_and!; [|done..].
  apply lookup_app_Some in Hj as [Hj|[_ Hj]]; [done|]. apply list_lookup_singleton_Some in Hj as [_ <-]. done.
Qed.

Lemma ack_at_killed ts i tk j k n : ts !! i = Some tk -> ack_at (<[i := killed tk]> ts) j k n -> ack_at ts j k n.
Proof.
  intros Hi (tk' & x & Hj & Hk & Hx). apply list_lookup_insert_Some in Hj as [(-> & <- & _)|[_ Hj]].
  - by exists tk, x.
  - by exists tk', x.
Qed.

Lemma ack_at_advance ts i tk e o p j k n :
  ts !! i = Some tk -> ack_at (<[i := advance tk e o p]> ts) j k n ->
  ack_at ts j k n \/ (j = i /\ k = length (tk_trace tk) /\ acked (e, o) = Some n).
Proof.
  intros Hi (tk' & x & Hj & Hk & Hx). apply list_lookup_insert_Some in Hj as [(-> & <- & _)|[_ Hj]].
  - cbn in Hk. apply lookup_app_Some in Hk as [Hk|[Hl Hk]]; [left; by exists tk, x|right].
    apply list_lookup_singleton_Some in Hk as [Hk <-]. split_and!; [done|lia|done].
  - left. by exists tk', x.
Qed.

Definition acks_bounded (ts : list task) (z : Z) : Prop := forall j k n, ack_at ts j k n -> n <= z.
Definition acks_distinct (ts : list task) : Prop :=
  forall j k j' k' n, ack_at ts j k n -> ack_at ts j' k' n -> j = j' /\ k = k'.

Definition acks_inv (s : estate (db := db)) : Prop :=
  acks_distinct (es_tasks s) /\
  forall r, refines (es_time s) (es_db s) r -> acks_bounded (es_tasks s) (revision r).

(** An exchange that returns no revision, or a new one. *)
Lemma acks_advance ts i tk e o p z z' :
  ts !! i = Some tk -> acks_distinct ts -> acks_bounded ts z -> z <= z' ->
  (forall n, acked (e, o) = Some n -> z < n <= z') ->
  acks_distinct (<[i := advance tk e o p]> ts) /\ acks_bounded (<[i := advance tk e o p]> ts) z'.
Proof.
  intros Hi Hd Hb Hz Hn. split.
  - intros j k j' k' n H1' H2'.
    destruct (ack_at_advance _ _ _ _ _ _ _ _ _ Hi H1') as [A1|(-> & -> & A1)],
      (ack_at_advance _ _ _ _ _ _ _ _ _ Hi H2') as [A2|(-> & -> & A2)]; [by eapply Hd| | |done].
    + apply Hb in A1. apply Hn in A2. lia.
    + apply Hb in A2. apply Hn in A1. lia.
  - intros j k n Ha. destruct (ack_at_advance _ _ _ _ _ _ _ _ _ Hi Ha) as [A|(_ & _ & A)].
    + apply Hb in A. lia.
    + apply Hn in A. lia.
Qed.

(** A script the registry runs publishes an event. *)
Lemma registry_writes sc : registry_call (CEval sc) -> exists e, writes (CEval sc) e.
Proof.
  intros Hc. remember (CEval sc) as c eqn:E.
  destruct Hc; try discriminate E; eexists; first [apply writes_register|apply writes_update|apply writes_delete].
Qed.

Lemma same_revision t d r r' : refines t d r -> refines (db := db) t d r' -> revision r' = revision r.
Proof. intros HR HR'. unfold revision. by rewrite (refines_log t d r r' HR HR'). Qed.

(** A call that is executed moves the revision on, by one if it returns it. *)
Lemma call_revision t d r c :
  consistent t d r -> counter_ok (db := db) t d -> registry_call c ->
  exists r', refines t (exec_call t c d).2 r' /\ revision r <= revision r' /\
    forall n, acked (ERedis c, EReply (exec_call t c d).1) = Some n -> revision r < n <= revision r'.
Proof.
  intros HC Hn Hc. pose proof (counter_revision t d r (proj1 HC) Hn) as Hn'.
  destruct (registry_call_acts t d r c HC Hn' Hc) as (a & _ & (HR' & _) & _).
  exists (act t a r).2. split_and!; [done| |].
  - pose proof (prefix_length _ _ (act_log_grows t a r)). unfold revision. lia.
  - intros n Hx. destruct c as [cmd|sc]; [done|]. destruct (registry_writes sc Hc) as [e He].
    cbn [acked] in Hx. destruct (as_uint64 _) as [z|] eqn:Ez; [|done]. injection Hx as ->.
    destruct (write_publishes t d r _ e n (proj1 HC) Hn' He Ez) as (-> & r' & HR'' & El).
    rewrite (same_revision t _ r' _ HR'' HR'). unfold revision. rewrite El, length_app. cbn. lia.
Qed.

Lemma acks_step s s' : e_inv dep allowed s -> acks_inv s -> e_step dep s s' -> acks_inv s'.
Proof.
  intros (r & HC & _ & _ & HF) [Hd Hb] Hs. specialize (Hb r (proj1 HC)).
  destruct Hs as [t d ts a Hok|t d ts t' Ht|t d ts j tk c k Hj Hp Hn|t d ts j tk c k m Hj Hp Hn
    |t d ts j tk c k m Hj Hp|t d ts j tk e k o Hj Hp He|t d ts j tk Hj]; cbn [es_time es_db es_tasks] in *;
    try pose proof (Forall_lookup_1 _ _ _ _ HF Hj) as Htk.
  - split; cbn [es_time es_db es_tasks].
    + intros i k i' k' n H1' H2'. apply ack_at_spawn in H1', H2'. by eapply Hd.
    + intros r' HR'. rewrite (same_revision t d r r' (proj1 HC) HR'). intros i k n Ha.
      apply ack_at_spawn in Ha. by eapply Hb.
  - split; [done|]. cbn. intros r' HR'.
    by rewrite (same_revision t' d r r' (proj1 (consistent_later t t' d r Ht HC)) HR').
  - destruct (call_revision t d r c HC Hn (proj1 (task_call _ _ _ _ _ _ Htk Hp))) as (r' & HR' & Hle & Hnew).
    destruct (acks_advance ts j tk _ _ (k (EReply (exec_call t c d).1)) _ _ Hj Hd Hb Hle Hnew) as [Hd' Hb'].
    split; [exact Hd'|]. cbn. intros r'' HR''. by rewrite (same_revision t _ _ r'' HR' HR'').
  - destruct (call_revision t d r c HC Hn (proj1 (task_call _ _ _ _ _ _ Htk Hp))) as (r' & HR' & Hle & _).
    destruct (acks_advance ts j tk (ERedis c) (EReply (RFail m)) (k (EReply (RFail m))) _ _ Hj Hd Hb Hle)
      as [Hd' Hb']; [by destruct c|].
    split; [exact Hd'|]. cbn. intros r'' HR''. by rewrite (same_revision t _ _ r'' HR' HR'').
  - destruct (acks_advance ts j tk (ERedis c) (EReply (RFail m)) (k (EReply (RFail m))) _ _ Hj Hd Hb (Z.le_refl _))
      as [Hd' Hb']; [by destruct c|].
    split; [exact Hd'|]. cbn. intros r'' HR''. by rewrite (same_revision t _ _ r'' (proj1 HC) HR'').
  - destruct (acks_advance ts j tk e o (k o) _ _ Hj Hd Hb (Z.le_refl _))
      as [Hd' Hb']; [by destruct e, o|].
    split; [exact Hd'|]. cbn. intros r'' HR''. by rewrite (same_revision t _ _ r'' (proj1 HC) HR'').
  - split; cbn [es_time es_db es_tasks].
    + intros i k i' k' n H1' H2'. apply (ack_at_killed _ _ _ _ _ _ Hj) in H1', H2'. by eapply Hd.
    + intros r' HR'. rewrite (same_revision t d r r' (proj1 HC) HR'). intros i k n Ha.
      apply (ack_at_killed _ _ _ _ _ _ Hj) in Ha. by eapply Hb.
Qed.

Lemma acks_reach s : e_reach dep d0 s -> acks_inv s.
Proof.
  intros Hr. induction Hr as [t|s s' Hr IH Hs].
  - split; [intros j k j' k' n (tk & x & Hj & _); done|]. intros r _ j k n (tk & x & Hj & _). done.
  - eapply acks_step; [|exact IH|exact Hs]. by eapply e_inv_reach.
Qed.

(** C8: whatever else happens, and whatever of it fails, a caller who was told that a
    registration, renewal, change of status or deregistration succeeded was told the
    truth: the entry of the stream with the revision of the answer is the event of this
    very write, with the instance of the answer as its payload, and no other request is
    ever told of the same revision.  The one exception is an answer replayed from the
    platform's store, to a caller who was admitted to the method, whom the authorizer is
    for, and whose call carries an idempotency key; a refused call is never acknowledged. *)
Theorem acknowledged_once s j tk i q n svc inst v :
  e_reach dep d0 s -> es_tasks s !! j = Some tk -> tk_arrival tk = AGrpc i q ->
  acknowledged i q (tk_trace tk) n svc inst v ->
  replayed_answer i q (tk_trace tk) \/
  ((exists log k e, look (es_db s) (es_time s) streamKey = stream_entry log /\
      n = Z.of_nat (S k) /\ log !! k = Some e /\ ack_event svc inst v e) /\
   (forall j' tk' i' q' svc' inst' v',
      es_tasks s !! j' = Some tk' -> tk_arrival tk' = AGrpc i' q' ->
      acknowledged i' q' (tk_trace tk') n svc' inst' v' ->
      j' = j \/ replayed_answer i' q' (tk_trace tk'))).
Proof.
  intros Hr Hj Ha Hack.
  destruct (e_inv_reach dep allowed Henforces Hreplays Hlibrary d0 d0_empty s Hr) as (r & HC & _ & _ & HF).
  pose proof (Forall_lookup_1 _ _ _ _ HF Hj) as [Hok _ _ Hf]. rewrite Ha in Hok.
  destruct (acknowledged_wrote i q _ n svc inst v Hok Hack) as [He|(e & He & Hw)]; [by left|right]. split.
  - destruct (Hw) as (c & rep & Hin & Hc & Hn). rewrite Forall_forall in Hf. specialize (Hf _ Hin).
    destruct (told_write _ _ _ Hf e n Hc Hn) as (k & Hk & Hl).
    exists (r_log r), k, e. split_and!; [apply HC|done..].
  - intros j' tk' i' q' svc' inst' v' Hj' Ha' Hack'.
    pose proof (Forall_lookup_1 _ _ _ _ HF Hj') as [Hok' _ _ _]. rewrite Ha' in Hok'.
    destruct (acknowledged_wrote i' q' _ n svc' inst' v' Hok' Hack') as [Hrep|(e' & _ & Hw')]; [by right|left].
    destruct (wrote_acked _ _ _ Hw) as (k & x & Hk & Hx), (wrote_acked _ _ _ Hw') as (k' & x' & Hk' & Hx').
    destruct (acks_reach s Hr) as [Hd _].
    destruct (Hd j' k' j k n) as [E _]; [by exists tk', x'|by exists tk, x|exact E].
Qed.

End acks.

(** ** Witnesses *)

#[local] Existing Instance sample_env.
#[local] Existing Instance one_token.

(** Two instances register, one after the other, and both are answered. *)
Definition second_rpc : rpc := RpcRegister 0 (Ok (sample_bytes 2)) (sample_register "orders" "b" 10).

Definition answered_moves : list move := [
  MSpawn (AGrpc sample_incoming sample_rpc); MSpawn (AGrpc sample_incoming second_rpc);
  MGo 0; MGo 1; MGo 1; MGo 0].

Definition answered_state : estate (db := memdb) :=
  default (ES 0 ∅ []) (play sample_deployment (ES 0 ∅ []) answered_moves).

Lemma answered_moves_ok : Forall move_ok answered_moves.
Proof.
  unfold answered_moves. repeat apply Forall_cons_2; try exact I; try apply Forall_nil_2; (split; [|done]);
    intros v [= <-]; vm_compute; reflexivity.
Qed.

Lemma answered_reach :
  e_reach sample_deployment (∅ : memdb) answered_state /\
  Forall (at_work sample_deployment) (es_tasks answered_state).
Proof.
  unfold answered_state. destruct (play _ _ _) as [s|] eqn:E; cbn [default]; [|split; [apply e_init|constructor]].
  split; [eapply play_reach; [apply (e_init _ _ 0)|apply answered_moves_ok|exact E]|].
  eapply play_at_work; [|exact E]. constructor.
Qed.

(** The answer a finished call of the sample got. *)
Definition sample_answer (q : RegisterInstanceRequest) (rnd : res (list ascii)) (tk : task) :
    option RegisterInstanceResponse :=
  match resume (unary_call sample_deployment sample_incoming (m_RegisterInstance (dep_methods sample_deployment))
    (answer (RegisterInstance (db := memdb) 0 rnd q))) (tk_trace tk).*2 with
  | Ret (Reply resp) => Some resp
  | _ => None
  end.

Lemma sample_acknowledged tk :
  es_tasks answered_state !! 1%nat = Some tk ->
  exists v, acknowledged sample_deployment sample_incoming second_rpc (tk_trace tk) 2 "orders" "b" v.
Proof.
  intros Hj. pose proof (Forall_lookup_1 _ _ _ _ (proj2 answered_reach) Hj) as Hw. unfold at_work in Hw.
  assert (tk = default (Task (AGrpc sample_incoming sample_rpc) [] (Ret tt)) (es_tasks answered_state !! 1%nat))
    as Etk by (rewrite Hj; reflexivity).
  assert (tk_arrival tk = AGrpc sample_incoming second_rpc) as Ea by (rewrite Etk; vm_compute; reflexivity).
  assert (match tk_prog tk with Ret _ => true | _ => false end = true) as Ep by (rewrite Etk; vm_compute; reflexivity).
  assert ((fun r => (regr_Revision r, ServiceName (regr_Instance r), InstanceId (regr_Instance r))) <$>
    sample_answer (sample_register "orders" "b" 10) (Ok (sample_bytes 2)) tk = Some (2, "orders", "b")) as Er
    by (rewrite Etk; vm_compute; reflexivity).
  rewrite Ea in Hw. destruct (tk_prog tk) as [[]|]; [|discriminate Ep].
  apply after_bind_ret in Hw as (tr1 & o & tr2 & E & Hc & Ho). apply after_ret in Ho as [-> _].
  rewrite app_nil_r in E. rewrite <- E in Hc. unfold sample_answer in Er.
  rewrite <- (after_resume _ _ _ Hc) in Er. destruct o as [resp|st|]; try discriminate Er.
  cbn in Er. injection Er as E1 E2 E3. eexists. rewrite <- E1, <- E2, <- E3. apply ack_register. exact Hc.
Qed.

Lemma acknowledged_once_witness :
  exists tk log e v, es_tasks answered_state !! 1%nat = Some tk /\
    acknowledged sample_deployment sample_incoming second_rpc (tk_trace tk) 2 "orders" "b" v /\
    look (es_db answered_state) (es_time answered_state) streamKey = stream_entry log /\
    log !! 1%nat = Some e /\ ack_event "orders" "b" v e.
Proof.
  destruct (es_tasks answered_state !! 1%nat) as [tk|] eqn:E; cycle 1.
  { assert (bool_decide (is_Some (es_tasks answered_state !! 1%nat)) = true) as E'
      by (vm_compute; reflexivity). rewrite E in E'. discriminate E'. }
  assert (tk = default (Task (AGrpc sample_incoming sample_rpc) [] (Ret tt)) (es_tasks answered_state !! 1%nat))
    as Etk by (rewrite E; reflexivity).
  assert (tk_arrival tk = AGrpc sample_incoming second_rpc) as Ea by (rewrite Etk; vm_compute; reflexivity).
  destruct (sample_acknowledged tk E) as [v Hv].
  destruct (acknowledged_once sample_deployment known_caller sample_enforces sample_replays sample_library
    ∅ refines_empty answered_state 1 tk sample_incoming second_rpc 2 "orders" "b" v (proj1 answered_reach) E Ea Hv)
    as [(_ & Hn & _)|[(log & k & e & Hs & Hk & Hl & He) _]].
  { destruct (Hn eq_refl). }
  assert (k = 1%nat) as -> by lia.
  exists tk, log, e, v. exact (conj eq_refl (conj Hv (conj Hs (conj Hl He)))).
Defined.
