(* ===== verification/Wiring.v ===== *)
(** * The application graph

    [app.New] (internal/app/app.go) and the fx modules of the packages: which
    constructors there are, what each takes and gives, what is invoked, and which
    constructors append a hook to the lifecycle.  fx is a library: [fx_step] states
    what its documentation promises (a constructor is called when something to be
    invoked needs its result, at most once, and after what it takes is there; functions are
    invoked in the order given; the first error ends it; stop hooks run in the reverse
    of the order in which they were appended), and everything is proved of every
    order that agrees with it. *)

From S2P Require Import Prelude GoText Config ConfigFacts Database Migration Locking Load Startup StartupFacts Access Http.

Local Open Scope Z_scope.
Local Open Scope go_scope.

(** ** Types, constructors and invocations *)

(** The Go types that are passed around; [TLifecycle] is given by fx. *)
Inductive fx_type : Type :=
  | TLifecycle | TConfig | TLogger | TTracing | TDB | TTransactor | TRedis | TLocker | TBus
  | TIdempotency | TMetrics | TOutbound | TAuthorizer | TCron | TStore | TRegistry | TGRPCServer
  | TAuth | THealth | TLimiter | THandler | THTTPServer.

#[global] Instance fx_type_eq_dec : EqDecision fx_type.
Proof. solve_decision. Defined.

Inductive provider : Type :=
  | PnewLogger | PNewTracing | PnewDatabase | PNewTransactor | PnewRedis | PnewLocker | PnewBus
  | Pidempotency_New | PNewMetrics | PNewRegistry | Pauthorization_New | Pscheduler_New
  | PNewStore | PNewService | Pgrpc_NewServer
  | PNewRuntime | Phealth_New | Pratelimit_New | PNewHandler | Phttp_NewServer.

#[global] Instance provider_eq_dec : EqDecision provider.
Proof. solve_decision. Defined.

(** The parameters of a constructor, in order, and the type it gives. *)
Record signature : Type := Sig { sig_params : list fx_type; sig_result : fx_type }.

Definition sig_newLogger : signature := Sig [TLifecycle; TConfig] TLogger.
Definition sig_NewTracing : signature := Sig [TLifecycle; TConfig] TTracing.
Definition sig_newDatabase : signature := Sig [TLifecycle; TConfig] TDB.
Definition sig_NewTransactor : signature := Sig [TDB] TTransactor.
Definition sig_newRedis : signature := Sig [TLifecycle; TConfig; TTracing] TRedis.
Definition sig_newLocker : signature := Sig [TRedis] TLocker.
Definition sig_newBus : signature := Sig [TLifecycle; TConfig] TBus.
Definition sig_idempotency_New : signature := Sig [TRedis; TConfig] TIdempotency.
Definition sig_NewMetrics : signature := Sig [TConfig; TDB; TRedis] TMetrics.
Definition sig_NewRegistry : signature := Sig [TLifecycle; TConfig; TMetrics] TOutbound.
Definition sig_authorization_New : signature := Sig [TOutbound] TAuthorizer.
Definition sig_scheduler_New : signature :=
  Sig [TLifecycle; TConfig; TLocker; TMetrics; TLogger]
      TCron.
Definition sig_NewStore : signature := Sig [TRedis] TStore.
Definition sig_NewService : signature := Sig [TStore] TRegistry.
Definition sig_grpc_NewServer : signature :=
  Sig [TLifecycle; TConfig; TAuth; TAuthorizer; THealth; TRegistry; TStore; TIdempotency; TMetrics; TLogger]
      TGRPCServer.
Definition sig_NewRuntime : signature := Sig [TLifecycle; TConfig] TAuth.
Definition sig_health_New : signature := Sig [TDB; TRedis; TConfig] THealth.
Definition sig_ratelimit_New : signature := Sig [TRedis; TConfig] TLimiter.
Definition sig_NewHandler : signature := Sig [THealth; TRegistry; TLogger] THandler.
Definition sig_http_NewServer : signature :=
  Sig [TLifecycle; TConfig; THandler; TAuth; TAuthorizer; TLimiter; TMetrics; TTracing; TLogger]
      THTTPServer.

Definition signature_of (p : provider) : signature :=
  match p with
  | PnewLogger => sig_newLogger
  | PNewTracing => sig_NewTracing
  | PnewDatabase => sig_newDatabase
  | PNewTransactor => sig_NewTransactor
  | PnewRedis => sig_newRedis
  | PnewLocker => sig_newLocker
  | PnewBus => sig_newBus
  | Pidempotency_New => sig_idempotency_New
  | PNewMetrics => sig_NewMetrics
  | PNewRegistry => sig_NewRegistry
  | Pauthorization_New => sig_authorization_New
  | Pscheduler_New => sig_scheduler_New
  | PNewStore => sig_NewStore
  | PNewService => sig_NewService
  | Pgrpc_NewServer => sig_grpc_NewServer
  | PNewRuntime => sig_NewRuntime
  | Phealth_New => sig_health_New
  | Pratelimit_New => sig_ratelimit_New
  | PNewHandler => sig_NewHandler
  | Phttp_NewServer => sig_http_NewServer
  end.

Definition params (p : provider) : list fx_type := sig_params (signature_of p).
Definition result (p : provider) : fx_type := sig_result (signature_of p).

Inductive invocation : Type :=
  | IrunStartupMigration | IDatabase | ICache | IBus | IOutbound | IScheduler | IGRPC | IHTTP.

#[global] Instance invocation_eq_dec : EqDecision invocation.
Proof. solve_decision. Defined.

Definition invoke_params (i : invocation) : list fx_type :=
  match i with
  | IrunStartupMigration => [TConfig; TLogger]
  | IDatabase => [TDB; TLogger]
  | ICache => [TRedis; TLogger]
  | IBus => [TBus]
  | IOutbound => [TOutbound]
  | IScheduler => [TCron]
  | IGRPC => [TGRPCServer]
  | IHTTP => [THTTPServer]
  end.

(** ** The options *)

Inductive fx_option : Type :=
  | FSupply (t : fx_type)
  | FProvide (ps : list provider)
  | FInvoke (i : invocation)
  | FWithLogger (ts : list fx_type)
  | FModule (name : string) (os : list fx_option)
  | FStartTimeout (d : Z)
  | FStopTimeout (d : Z).

Definition MigrationModule : fx_option := FModule "migration" [FInvoke IrunStartupMigration].
Definition DatabaseModule : fx_option :=
  FModule "database" [FProvide [PnewDatabase; PNewTransactor]; FInvoke IDatabase].
Definition CacheModule : fx_option :=
  FModule "cache" [FProvide [PnewRedis; PnewLocker]; FInvoke ICache].
Definition eventbus_Module : fx_option := FModule "event-bus" [FProvide [PnewBus]; FInvoke IBus].
Definition outbound_Module : fx_option := FModule "outbound" [FProvide [PNewRegistry]; FInvoke IOutbound].
Definition scheduler_Module : fx_option :=
  FModule "scheduler" [FProvide [Pscheduler_New]; FInvoke IScheduler].
Definition grpc_Module : fx_option :=
  FModule "grpc" [FProvide [PNewStore; PNewService; Pgrpc_NewServer]; FInvoke IGRPC].
Definition http_Module : fx_option :=
  FModule "http" [FProvide [PNewRuntime; Phealth_New; Pratelimit_New; PNewHandler; Phttp_NewServer];
                  FInvoke IHTTP].

Definition app_New (cfg : Config) : list fx_option := [
  FSupply TConfig;
  FProvide [PnewLogger];
  FProvide [PNewTracing];
  FWithLogger [TLogger];
  MigrationModule;
  DatabaseModule;
  CacheModule;
  eventbus_Module;
  FProvide [Pidempotency_New];
  FProvide [PNewMetrics];
  outbound_Module;
  FProvide [Pauthorization_New];
  scheduler_Module;
  grpc_Module;
  http_Module;
  FStartTimeout (app_ShutdownTimeout (config_App cfg));
  FStopTimeout (app_ShutdownTimeout (config_App cfg))].

(** What the two functions given to [fx.Invoke] for the database and Redis do. *)
Definition invoke_database (db : bool) : appprog unit :=
  if negb db then app_log "database is disabled" else Ret tt.
Definition invoke_cache (client : bool) : appprog unit :=
  if negb client then app_log "redis is disabled" else Ret tt.

(** The hooks: whether a constructor that succeeds has appended one. *)
Definition appends (cfg : Config) (p : provider) : bool :=
  match p with
  | PNewTracing => observability_TracingEnabled (config_Observability cfg)
  | PnewDatabase => database_Enabled (config_Database cfg)
  | PnewRedis => redis_Enabled (config_Redis cfg)
  | PNewRuntime => negb (bool_decide (auth_JWKSURL (config_Auth cfg) = EmptyString))
  | PnewLogger | PnewBus | PNewRegistry | Pscheduler_New | Pgrpc_NewServer | Phttp_NewServer => true
  | _ => false
  end.

(** ** Reading the options *)

Fixpoint provided (o : fx_option) : list provider :=
  match o with FProvide ps => ps | FModule _ os => flat_map provided os | _ => [] end.
Fixpoint supplied (o : fx_option) : list fx_type :=
  match o with FSupply t => [t] | FModule _ os => flat_map supplied os | _ => [] end.
Fixpoint invoked (o : fx_option) : list invocation :=
  match o with FInvoke i => [i] | FModule _ os => flat_map invoked os | _ => [] end.
Fixpoint logging_needs (o : fx_option) : list fx_type :=
  match o with FWithLogger ts => ts | FModule _ os => flat_map logging_needs os | _ => [] end.

(** ** What fx does with them *)

Section fx.
Context (os : list fx_option).

Definition providers : list provider := flat_map provided os.
Definition given : list fx_type := TLifecycle :: flat_map supplied os.

(** A value of type [t] takes one of type [u] to make. *)
Definition takes (t u : fx_type) : Prop := exists p, p ∈ providers /\ result p = t /\ u ∈ params p.

(** The constructors called so far, in order, the invocations to come, and whether
    something failed. *)
Record fx_state : Type := FX { fx_built : list provider; fx_todo : list invocation; fx_failed : bool }.

Definition available (built : list provider) (t : fx_type) : Prop := t ∈ given \/ t ∈ result <$> built.

(** What is wanted now: by the logger, and by the function to be invoked next. *)
Definition asked (todo : list invocation) (t : fx_type) : Prop :=
  exists root, rtc takes root t /\
    (root ∈ flat_map logging_needs os \/ exists i rest, todo = i :: rest /\ root ∈ invoke_params i).

Inductive fx_step : fx_state -> fx_state -> Prop :=
  | fx_construct built todo p : p ∈ providers -> result p ∉ result <$> built ->
      asked todo (result p) -> Forall (available built) (params p) ->
      fx_step (FX built todo false) (FX (built ++ [p]) todo false)
  | fx_invoke built i rest : Forall (available built) (invoke_params i) ->
      fx_step (FX built (i :: rest) false) (FX built rest false)
  | fx_fail built todo : fx_step (FX built todo false) (FX built todo true).

Definition fx_start : fx_state := FX [] (flat_map invoked os) false.
Definition fx_reach (s : fx_state) : Prop := rtc fx_step fx_start s.

(** The stop hooks, in the order in which they run. *)
Definition stop_order (cfg : Config) (s : fx_state) : list provider :=
  reverse (filter (fun p => appends cfg p = true) (fx_built s)).

(** *** Order *)

(** In the order they were called, constructors come after what they take. *)
Definition in_order (built : list provider) : Prop :=
  forall l1 p l2, built = l1 ++ p :: l2 -> p ∈ providers /\ Forall (available l1) (params p) /\
    result p ∉ result <$> l1.

Lemma in_order_snoc built p :
  in_order built -> p ∈ providers -> Forall (available built) (params p) -> result p ∉ result <$> built ->
  in_order (built ++ [p]).
Proof.
  intros Ho Hp Hf Hn l1 q l2 E. destruct l2 as [|x l2 _] using rev_ind.
  - by apply app_inj_tail in E as [<- <-].
  - rewrite app_comm_cons, app_assoc in E. apply app_inj_tail in E as [E _]. by apply (Ho _ _ _ E).
Qed.

Lemma reach_in_order s : fx_reach s -> in_order (fx_built s).
Proof.
  revert s. apply rtc_ind_r; [intros [|? ?] ? ? [=]|].
  intros y z _ Hs Ho. destruct Hs; cbn in *; [|done..]. by apply in_order_snoc.
Qed.

Lemma available_app l1 l2 t : available l1 t -> available (l1 ++ l2) t.
Proof. intros [Hg|Hb]; [by left|right]. rewrite fmap_app. apply elem_of_app. by left. Qed.

(** What a graph must be for fx: what is taken is given or provided, by one
    constructor only, and no constructor takes part in making what it takes. *)
Record wired (rank : fx_type -> nat) : Prop := {
  wired_once : forall p q, p ∈ providers -> q ∈ providers -> result p = result q -> p = q;
  wired_given : forall p, p ∈ providers -> result p ∉ given;
  wired_closed : forall u,
    (exists p, p ∈ providers /\ u ∈ params p) \/ (exists i, i ∈ flat_map invoked os /\ u ∈ invoke_params i) \/
    u ∈ flat_map logging_needs os ->
    u ∈ given \/ exists q, q ∈ providers /\ result q = u;
  wired_rank : forall p u, p ∈ providers -> u ∈ params p -> (rank u < rank (result p))%nat;
}.

Context (rank : fx_type -> nat) (Hwired : wired rank).

Lemma takes_provider p u : p ∈ providers -> takes (result p) u -> u ∈ params p.
Proof. intros Hp (q & Hq & Er & Hu). by rewrite (wired_once _ Hwired p q Hp Hq (eq_sym Er)). Qed.

Lemma dependency_before built l1 p l2 u :
  in_order built -> built = l1 ++ p :: l2 -> tc takes (result p) u -> available l1 u.
Proof.
  intros Ho. intros E Ht. remember (result p) as t eqn:Et. revert p l1 l2 Et E.
  induction Ht as [t u Htu|t y u Hty Hyu IH]; intros p l1 l2 -> E;
    destruct (Ho _ _ _ E) as (Hp & Hf & _); rewrite Forall_forall in Hf.
  - by apply Hf, takes_provider.
  - apply (takes_provider p) in Hty; [|done]. destruct (Hf y Hty) as [Hg|Hb].
    + assert (exists q, q ∈ providers /\ result q = y) as (q & Hq & <-).
      { destruct Hyu as [? ? (q & Hq & Eq & _)|? ? ? (q & Hq & Eq & _)]; eauto. }
      by apply (wired_given _ Hwired q Hq) in Hg.
    + apply list_elem_of_fmap in Hb as (q & -> & Hq). apply list_elem_of_split in Hq as (l3 & l4 & ->).
      apply available_app. apply (IH q l3 (l4 ++ p :: l2) eq_refl). by rewrite E, <- app_assoc.
Qed.

Lemma filter_split {A} (P : A -> Prop) `{forall x, Decision (P x)} l a x b :
  filter P l = a ++ x :: b -> exists l1 l2, l = l1 ++ x :: l2 /\ filter P l1 = a.
Proof.
  revert a. induction l as [|y l IH]; intros a; [by destruct a|]. rewrite filter_cons. case_decide as Hy.
  - destruct a as [|z a]; intros [= -> E]; [by exists [], l|].
    destruct (IH a E) as (l1 & l2 & -> & <-). exists (z :: l1), l2. by rewrite filter_cons_True.
  - intros E. destruct (IH a E) as (l1 & l2 & -> & <-). exists (y :: l1), l2. by rewrite filter_cons_False.
Qed.

Lemma stops_in_order cfg s l1 q l2 p :
  fx_reach s -> stop_order cfg s = l1 ++ q :: l2 -> p ∈ l2 -> ~ tc takes (result p) (result q).
Proof.
  intros Hr E Hp Ht. apply reach_in_order in Hr as Ho. unfold stop_order in E.
  apply (f_equal reverse) in E. rewrite reverse_involutive, reverse_app, reverse_cons, <- app_assoc in E.
  apply filter_split in E as (a & c & E & Ef).
  assert (p ∈ a) as Ha.
  { assert (p ∈ reverse l2) as Hl by by rewrite elem_of_reverse. rewrite <- Ef in Hl.
    by apply list_elem_of_filter in Hl as [_ Hl]. }
  apply list_elem_of_split in Ha as (a1 & a2 & ->). rewrite <- app_assoc in E.
  destruct (Ho (a1 ++ p :: a2) q c) as (Hq & _ & Hn); [by rewrite E, <- app_assoc|].
  destruct (dependency_before _ a1 p (a2 ++ q :: c) (result q) Ho E Ht) as [Hg|Hb].
  - by apply (wired_given _ Hwired q Hq).
  - apply Hn. rewrite fmap_app. apply elem_of_app. by left.
Qed.

(** *** Progress *)

Lemma asked_constructs built todo t :
  (exists q, q ∈ providers /\ result q = t) -> t ∉ result <$> built -> asked todo t ->
  exists p, p ∈ providers /\ (result p ∉ result <$> built) /\ asked todo (result p) /\
    Forall (available built) (params p).
Proof.
  remember (rank t) as k eqn:Ek. revert t Ek. induction (lt_wf k) as [k _ IH]; intros t -> (q & Hq & <-) Hn Ha.
  destruct (decide (Forall (fun u => u ∈ given \/ u ∈ result <$> built) (params q))) as [Hf|Hf].
  { by exists q. }
  apply not_Forall_Exists in Hf; [|intros u; apply _]. apply Exists_exists in Hf as (u & Hu & Hnu).
  apply Decidable.not_or in Hnu as [Hng Hnb].
  apply (IH (rank u) (wired_rank _ Hwired q u Hq Hu) u eq_refl); [|done|].
  - destruct (wired_closed _ Hwired u) as [?|?]; [left; eauto|done|done].
  - destruct Ha as (root & Hrt & Hroot). exists root. split; [|done]. eapply rtc_r; [done|]. by exists q.
Qed.

Definition suffix_todo (s : fx_state) : Prop := fx_todo s `suffix_of` flat_map invoked os.

Lemma reach_suffix s : fx_reach s -> suffix_todo s.
Proof.
  revert s. apply (rtc_ind_r suffix_todo); [by exists []|]. intros y z _ Hs Hx. unfold suffix_todo in *.
  destruct Hs; cbn in *; [done| |done]. by eapply suffix_cons_l.
Qed.

(** As long as nothing fails and something is to be invoked, fx can go on. *)
Lemma fx_progress s :
  fx_reach s -> fx_failed s = false -> fx_todo s <> [] -> exists s', fx_step s s' /\ fx_failed s' = false.
Proof.
  intros Hr. destruct s as [built todo failed]. cbn. intros -> Ht. destruct todo as [|i rest]; [done|].
  apply reach_suffix in Hr. assert (i ∈ flat_map invoked os) as Hi.
  { destruct Hr as [l El]. cbn in El. rewrite El. apply elem_of_app. right. left. }
  destruct (decide (Forall (fun u => u ∈ given \/ u ∈ result <$> built) (invoke_params i))) as [Hf|Hf].
  { eexists. split; [by apply fx_invoke|done]. }
  apply not_Forall_Exists in Hf; [|intros u; apply _]. apply Exists_exists in Hf as (u & Hu & Hnu).
  apply Decidable.not_or in Hnu as [Hng Hnb].
  destruct (asked_constructs built (i :: rest) u) as (p & Hp & Hn & Ha & Hf); [|done| |].
  - destruct (wired_closed _ Hwired u) as [?|?]; [right; left; eauto|done|done].
  - exists u. split; [done|right]. by exists i, rest.
  - eexists. split; [by apply (fx_construct built (i :: rest) p)|done].
Qed.

(** What was invoked has what it takes, and so has whatever was built for it. *)
Lemma reach_ready s :
  fx_reach s -> forall i, i ∈ flat_map invoked os -> i ∉ fx_todo s ->
  Forall (available (fx_built s)) (invoke_params i).
Proof.
  revert s. apply (rtc_ind_r (fun s => forall i, i ∈ flat_map invoked os -> i ∉ fx_todo s ->
    Forall (available (fx_built s)) (invoke_params i))); [done|].
  intros y z _ Hs IH i Hi Hn. destruct Hs as [built todo p|built j rest Hf|built todo]; cbn in *.
  - eapply Forall_impl; [by apply IH|]. intros u. apply available_app.
  - destruct (decide (i ∈ j :: rest)) as [Hj|Hj]; [|by apply IH].
    apply elem_of_cons in Hj as [->|Hj]; [done|by destruct Hn].
  - by apply IH.
Qed.

Lemma available_takes s t u : fx_reach s -> available (fx_built s) t -> rtc takes t u -> available (fx_built s) u.
Proof.
  intros Hr Ha Ht. apply reach_in_order in Hr. apply rtc_tc in Ht as [<-|Ht]; [done|]. destruct Ha as [Hg|Hb].
  - destruct Ht as [? ? (p & Hp & <- & _)|? ? ? (p & Hp & <- & _)]; by apply (wired_given _ Hwired p) in Hg.
  - apply list_elem_of_fmap in Hb as (p & -> & Hp). apply list_elem_of_split in Hp as (l1 & l2 & E).
    rewrite E. apply available_app. by eapply dependency_before.
Qed.

(** What the constructors of some types take, and what these take, and so on. *)
Fixpoint closure (n : nat) (ts : list fx_type) : list fx_type :=
  match n with
  | O => ts
  | S n => closure n (ts ++ flat_map (fun p => if decide (result p ∈ ts) then params p else []) providers)
  end.

Lemma closure_takes n ts u : u ∈ closure n ts -> exists t, t ∈ ts /\ rtc takes t u.
Proof.
  revert ts. induction n as [|n IH]; intros ts; cbn [closure]; [intros Hu; exists u; by split|].
  intros Hu. destruct (IH _ Hu) as (t & Ht & Htu). apply elem_of_app in Ht as [Ht|Ht]; [by exists t|].
  apply list_elem_of_In, in_flat_map in Ht as (p & Hp & Ht). case_decide as Hr; [|done].
  exists (result p). split; [done|]. eapply rtc_l; [|done]. exists p. by rewrite !list_elem_of_In.
Qed.

End fx.

(** ** The graph of the application *)

(** A rank below which everything a constructor takes lies. *)
Definition layer (t : fx_type) : nat :=
  match t with
  | TLifecycle | TConfig => 0
  | TLogger | TTracing | TDB | TBus | TAuth => 1
  | TTransactor | TRedis => 2
  | TLocker | TIdempotency | TMetrics | TStore | THealth | TLimiter => 3
  | TOutbound | TCron | TRegistry => 4
  | TAuthorizer | THandler => 5
  | TGRPCServer | THTTPServer => 6
  end.

Lemma app_wired cfg : wired (app_New cfg) layer.
Proof.
  split.
  - intros p q _ _. by destruct p, q.
  - intros p _. by destruct p; apply (bool_decide_unpack _); vm_compute.
  - intros u _. destruct (decide (u ∈ given (app_New cfg))) as [Hg|Hg]; [by left|right].
    assert (u ∈ result <$> providers (app_New cfg)) as Hu.
    { destruct u; try (by apply (bool_decide_unpack _); vm_compute; exact I);
        destruct Hg; by apply (bool_decide_unpack _); vm_compute; exact I. }
    apply list_elem_of_fmap in Hu as (q & -> & Hq). by exists q.
  - intros p u _ Hu. apply list_elem_of_In in Hu.
    destruct p; cbn in Hu; repeat (destruct Hu as [<-|Hu]; [cbn; lia|]); done.
Qed.

Lemma app_providers cfg p : p ∈ providers (app_New cfg).
Proof. destruct p; apply (bool_decide_unpack _); vm_compute; exact I. Qed.

(** fx refuses two constructors of one type. *)
Lemma app_distinct cfg : NoDup (result <$> providers (app_New cfg)).
Proof. apply (bool_decide_unpack _). vm_compute. exact I. Qed.

Lemma built_distinct os s : fx_reach os s -> NoDup (fx_built s).
Proof.
  revert s. apply (rtc_ind_r (fun s => NoDup (fx_built s))); [constructor|].
  intros y z _ Hs Hn. destruct Hs as [built todo p _ Hp _ _|built i rest _|built todo]; cbn in *; [|done..].
  apply NoDup_app. split_and!; [done| |by apply NoDup_singleton].
  intros q Hq Hqp. apply list_elem_of_singleton in Hqp as ->. apply Hp, list_elem_of_fmap. by exists p.
Qed.

(** Nothing takes the transactor. *)
Lemma transactor_unasked cfg todo : ~ asked (app_New cfg) todo TTransactor.
Proof.
  intros (root & Ht & Hroot). apply rtc_inv_r in Ht as [->|(y & _ & p & _ & _ & Hu)].
  - destruct Hroot as [Hl|(i & rest & _ & Hi)]; [|destruct i];
      match goal with H : _ ∈ _ |- _ => revert H end; apply (bool_decide_unpack _); vm_compute; exact I.
  - destruct p; revert Hu; apply (bool_decide_unpack _); vm_compute; exact I.
Qed.

Lemma reach_asked cfg s : fx_reach (app_New cfg) s -> PNewTransactor ∉ fx_built s.
Proof.
  revert s. apply (rtc_ind_r (fun s => PNewTransactor ∉ fx_built s)); [apply not_elem_of_nil|].
  intros y z _ Hs Hn. destruct Hs as [built todo p _ _ Ha _|built i rest _|built todo]; cbn in *; [|done..].
  rewrite elem_of_app, list_elem_of_singleton. intros [Hb|<-]; [done|]. by apply transactor_unasked in Ha.
Qed.

(** Everything else is taken by something that is invoked. *)
Lemma all_taken cfg p :
  p <> PNewTransactor ->
  exists i t, i ∈ flat_map invoked (app_New cfg) /\ t ∈ invoke_params i /\ rtc (takes (app_New cfg)) t (result p).
Proof.
  intros Hp.
  assert (exists i, i ∈ flat_map invoked (app_New cfg) /\
    result p ∈ closure (app_New cfg) 6 (invoke_params i)) as (i & Hi & Hc).
  { destruct p; try done;
      first [ exists IHTTP; split; apply (bool_decide_unpack _); vm_compute; exact I
            | exists IGRPC; split; apply (bool_decide_unpack _); vm_compute; exact I
            | exists IScheduler; split; apply (bool_decide_unpack _); vm_compute; exact I
            | exists IBus; split; apply (bool_decide_unpack _); vm_compute; exact I ]. }
  apply closure_takes in Hc as (t & Ht & Hr). by exists i, t.
Qed.

Lemma steps_counted os n s s' :
  nsteps (fx_step os) n s s' ->
  (length (fx_built s') + Nat.b2n (fx_failed s') + length (fx_todo s) =
   n + length (fx_built s) + Nat.b2n (fx_failed s) + length (fx_todo s'))%nat.
Proof.
  induction 1 as [s|n s s1 s' Hs _ IH]; [lia|].
  destruct Hs; cbn in *; rewrite ?length_app in IH; cbn in IH; lia.
Qed.

Lemma built_few cfg s : fx_reach (app_New cfg) s -> (length (fx_built s) <= 19)%nat.
Proof.
  intros Hr. set (l := filter (fun p => p <> PNewTransactor) (providers (app_New cfg))).
  change 19%nat with (length l). apply submseteq_length, NoDup_submseteq; [by eapply built_distinct|].
  intros p Hp. apply list_elem_of_filter. split; [|apply app_providers].
  intros ->. by eapply reach_asked.
Qed.

(** C33: whatever order fx chooses, the constructors of the application never wait for
    each other: within 28 steps either something has failed, or every constructor has
    been called, once and after what it takes, but [NewTransactor], which nothing takes,
    and all that was to be invoked has been invoked; before that fx can always go on. *)
Theorem startup_completes cfg n s :
  nsteps (fx_step (app_New cfg)) n (fx_start (app_New cfg)) s ->
  (n <= 28)%nat /\ NoDup (fx_built s) /\
  (fx_failed s = true \/ (exists s', fx_step (app_New cfg) s s' /\ fx_failed s' = false) \/
   (fx_todo s = [] /\ forall p, p ∈ fx_built s <-> p <> PNewTransactor)).
Proof.
  intros Hn. assert (fx_reach (app_New cfg) s) as Hr by (apply rtc_nsteps; by exists n).
  pose proof (steps_counted _ _ _ _ Hn) as Hc. pose proof (built_few cfg s Hr).
  change (length (fx_todo (fx_start (app_New cfg)))) with 8%nat in Hc. cbn [fx_built fx_start length fx_failed] in Hc.
  split_and!; [destruct (fx_failed s); cbn in Hc; lia|by eapply built_distinct|].
  destruct (fx_failed s) eqn:Ef; [by left|right].
  destruct (fx_todo s) eqn:Et; cycle 1.
  { left. eapply fx_progress; [apply app_wired|done..|by rewrite Et]. }
  right. split; [done|]. intros p. split; [intros Hb ->; by eapply reach_asked|]. intros Hp.
  destruct (all_taken cfg p Hp) as (i & t & Hi & Ht & Htp).
  assert (available (app_New cfg) (fx_built s) t) as Ha.
  { pose proof (reach_ready _ s Hr i Hi) as HF. rewrite Et in HF. specialize (HF (not_elem_of_nil i)).
    rewrite Forall_forall in HF. by apply HF. }
  destruct (available_takes _ layer (app_wired cfg) s t (result p) Hr Ha Htp) as [Hg|Hb].
  - by apply (wired_given _ _ (app_wired cfg) p (app_providers cfg p)) in Hg.
  - apply list_elem_of_fmap in Hb as (q & Eq & Hq).
    by rewrite (wired_once _ _ (app_wired cfg) p q (app_providers cfg p) (app_providers cfg q) Eq).
Qed.

(** ** The hooks are those of the constructors *)

Definition is_hook (x : app_call * mig_reply) : bool := match x with (AHook _, _) => true | _ => false end.

Lemma lifted_no_hook {A} (p : dbprog A) tr a :
  emits (plift ADb first_err p) tr a -> app_count is_hook tr = 0%nat.
Proof.
  revert tr. induction p as [a0|c k IH]; intros tr Htr; emits_inv Htr; [done|].
  rewrite app_count_cons. cbn. by eapply IH.
Qed.

(** A constructor that succeeds has appended the hooks [appends] says. *)
Lemma appends_hooks `{DbDrivers} `{Quote} dir level cfg tracing tr :
  (forall b, emits (newDatabase cfg) tr (Ok b) -> app_count is_hook tr = Nat.b2n (appends cfg PnewDatabase)) /\
  (forall b, emits (newRedis cfg tracing) tr (Ok b) -> app_count is_hook tr = Nat.b2n (appends cfg PnewRedis)) /\
  (forall b, emits (newBus cfg) tr (Ok b) -> app_count is_hook tr = Nat.b2n (appends cfg PnewBus)) /\
  (forall b, emits (newLogger dir level cfg) tr (Ok b) -> app_count is_hook tr = Nat.b2n (appends cfg PnewLogger)) /\
  (forall b, emits (NewTracing cfg) tr (Ok b) -> app_count is_hook tr = Nat.b2n (appends cfg PNewTracing)).
Proof.
  unfold newDatabase, newRedis, cache_Open, newBus, eventbus_New, newLogger, logging_New, NewTracing, acall, hook,
    appends. split_and!; intros b Htr.
  - destruct (database_Enabled _); cbn [negb] in Htr; [|by emits_inv Htr].
    apply emits_gbind in Htr as [(e & ? & _)|(t1 & [] & t2 & -> & Hp & Htr)]; [done|].
    emits_inv Htr. emits_inv Htr. by rewrite app_count_app, (lifted_no_hook _ _ _ Hp).
  - destruct (redis_Enabled _); cbn [negb] in Htr; [|by emits_inv Htr].
    apply emits_gbind in Htr as [(e & ? & _)|(t1 & [] & t2 & -> & Hp & Htr)]; [done|].
    emits_inv Hp. emits_inv Hp. cbn [pbind] in Hp. destruct (first_err _); [emits_inv Hp; by emits_inv Hp|].
    emits_inv Hp. destruct tracing; [emits_inv Htr; cbn [pbind] in Htr; destruct (first_err _)|];
      emits_inv Htr; by emits_inv Htr.
  - apply emits_gbind in Htr as [(e & ? & _)|(t1 & bus & t2 & -> & Hp & Htr)]; [done|].
    emits_inv Htr. emits_inv Htr. rewrite app_count_app. destruct (negb _); [by emits_inv Hp|].
    emits_inv Hp. by emits_inv Hp.
  - apply emits_gbind in Htr as [(e & ? & _)|(t1 & text & t2 & -> & Hp & Htr)]; [done|].
    emits_inv Htr. emits_inv Htr. emits_inv Hp. cbn [pbind] in Hp.
    destruct (first_err _); [by emits_inv Hp|]. by destruct (level _); emits_inv Hp.
  - destruct (observability_TracingEnabled _); cbn [negb] in Htr; [|by emits_inv Htr].
    emits_inv Htr. cbn [pbind] in Htr. destruct (first_err _); emits_inv Htr. by emits_inv Htr.
Qed.

(** ** What comes first and what goes last *)

(** The startup migration needs the logger only. *)
Lemma logger_only cfg t : rtc (takes (app_New cfg)) TLogger t -> t ∈ [TLogger; TLifecycle; TConfig].
Proof.
  intros Ht. apply rtc_inv in Ht as [<-|(y & (p & _ & Ep & Hy) & Ht)]; [left|].
  destruct p; try discriminate Ep. cbn in Hy. apply rtc_inv in Ht as [<-|(z & (q & _ & Eq & _) & _)].
  - right. exact Hy.
  - apply list_elem_of_In in Hy as [<-|[<-|[]]]; by destruct q.
Qed.

Lemma migration_asks cfg todo p :
  fx_todo (fx_start (app_New cfg)) = todo -> asked (app_New cfg) todo (result p) -> p = PnewLogger.
Proof.
  intros <- (root & Ht & Hroot).
  assert (root = TLogger \/ root = TConfig) as [->| ->].
  { destruct Hroot as [Hl|(i & rest & [= <- _] & Hi)]; apply list_elem_of_In in Hl || apply list_elem_of_In in Hi;
      cbn in *; intuition. }
  - apply logger_only in Ht. apply list_elem_of_In in Ht. by destruct p; cbn in Ht; intuition.
  - apply rtc_inv in Ht as [E|(y & (q & _ & Eq & _) & _)]; [by destruct p|by destruct q].
Qed.

Definition migrated_first (cfg : Config) (s : fx_state) : Prop :=
  (fx_todo s = fx_todo (fx_start (app_New cfg)) /\ Forall (fun p => p = PnewLogger) (fx_built s)) \/
  (~ IrunStartupMigration ∈ fx_todo s /\ head (fx_built s) = Some PnewLogger).

Lemma reach_migrated cfg s : fx_reach (app_New cfg) s -> migrated_first cfg s.
Proof.
  revert s. apply (rtc_ind_r (migrated_first cfg)); [left; by split|].
  intros y z _ Hs Hm. destruct Hs as [built todo p _ _ Ha _|built i rest Hf|built todo]; unfold migrated_first in *;
    cbn [fx_todo fx_built] in *; [..|exact Hm].
  - destruct Hm as [[Ht Hb]|[Ht Hb]]; [left|right]; (split; [done|]).
    + apply Forall_app. split; [done|]. constructor; [|done]. by eapply migration_asks.
    + by destruct built.
  - right. destruct Hm as [[Ht Hb]|[Ht Hb]].
    + injection Ht as -> ->. split; [apply (bool_decide_unpack _); vm_compute; exact I|].
      apply Forall_cons_1 in Hf as [_ Hf]. apply Forall_cons_1 in Hf as [[Hg|Hl] _].
      { revert Hg. apply (bool_decide_unpack _). vm_compute. exact I. }
      destruct built as [|p built]; [by apply not_elem_of_nil in Hl|]. by apply Forall_cons_1 in Hb as [-> _].
    + split; [|done]. intros Hi. apply Ht. by right.
Qed.

(** C32: however the application comes up, no connection is opened and no server made
    before the startup migration has succeeded, and however far it came, its hooks
    stop in an order in which nothing is stopped while something made from it still
    runs: both servers and the scheduler before the Redis client, the servers before the
    database, the token verifier and the outbound connections; and the log file is
    closed last. *)
Theorem lifecycle_ordered cfg s :
  fx_reach (app_New cfg) s ->
  (forall p, p ∈ fx_built s -> p <> PnewLogger -> ~ IrunStartupMigration ∈ fx_todo s) /\
  (forall l1 q l2 p, stop_order cfg s = l1 ++ q :: l2 -> p ∈ l2 -> ~ tc (takes (app_New cfg)) (result p) (result q)) /\
  (forall l1 q l2, stop_order cfg s = l1 ++ q :: l2 ->
     (q = PnewRedis -> Forall (fun p => p ∉ [Phttp_NewServer; Pgrpc_NewServer; Pscheduler_New]) l2) /\
     (q ∈ [PnewDatabase; PNewRuntime; PNewRegistry; PNewTracing] ->
        Forall (fun p => p ∉ [Phttp_NewServer; Pgrpc_NewServer]) l2)) /\
  (fx_built s <> [] -> last (stop_order cfg s) = Some PnewLogger).
Proof.
  intros Hr. pose proof (stops_in_order _ layer (app_wired cfg) cfg s) as Hso.
  assert (forall p q, result q ∈ closure (app_New cfg) 6 (params p) -> tc (takes (app_New cfg)) (result p) (result q))
    as Hd.
  { intros p q Hc. apply closure_takes in Hc as (t & Ht & Hc). eapply tc_rtc_r; [|exact Hc].
    apply tc_once. exists p. split_and!; [apply app_providers|done|done]. }
  assert (forall l1 q l2 ps, stop_order cfg s = l1 ++ q :: l2 ->
    Forall (fun p => result q ∈ closure (app_New cfg) 6 (params p)) ps -> Forall (fun p => p ∉ ps) l2) as Hlate.
  { intros l1 q l2 ps E HF. apply Forall_forall. intros p Hp Hps. rewrite Forall_forall in HF.
    by eapply (Hso l1 q l2 p Hr E Hp), Hd, HF. }
  split_and!.
  - intros p Hp Hne. destruct (reach_migrated cfg s Hr) as [[_ HF]|[Hn _]]; [|done].
    rewrite Forall_forall in HF. by destruct Hne; apply HF.
  - intros l1 q l2 p E Hp. by eapply Hso.
  - intros l1 q l2 E. split.
    + intros ->. eapply Hlate; [exact E|]. apply (bool_decide_unpack _). vm_compute. exact I.
    + intros Hq. eapply Hlate; [exact E|]. apply list_elem_of_In in Hq.
      destruct Hq as [<-|[<-|[<-|[<-|[]]]]]; apply (bool_decide_unpack _); vm_compute; exact I.
  - intros Hne. destruct (reach_migrated cfg s Hr) as [[_ HF]|[_ Hh]]; unfold stop_order.
    + destruct (fx_built s) as [|p l]; [done|]. apply Forall_cons_1 in HF as [-> _].
      rewrite filter_cons_True by done. by rewrite reverse_cons, last_snoc.
    + destruct (fx_built s) as [|p l]; [done|]. injection Hh as ->.
      rewrite filter_cons_True by done. by rewrite reverse_cons, last_snoc.
Qed.

(** ** Without Redis *)

(** The configuration with nothing set is valid and leaves Redis disabled; the store is
    then made from a nil client, and the readiness check reports ready. *)
Lemma redisless_ready tracing redis_first :
  @Validate key_order (fun s => s) (default_config "development") = Ok tt /\
  newRedis (default_config "development") tracing = Ret (Ok false) /\
  (health_Ready None None redis_first).2 = true.
Proof. split_and!; [vm_compute; reflexivity|reflexivity|by destruct redis_first]. Qed.

(** ** Witnesses *)

(** One order fx can choose: [Some p] calls a constructor, [None] invokes the next
    function. *)
Definition fx_try (os : list fx_option) (s : fx_state) (m : option provider) : option fx_state :=
  let 'FX built todo failed := s in
  if failed then None
  else
    match m, todo with
    | Some p, _ =>
        if bool_decide (p ∈ providers os) && negb (bool_decide (result p ∈ result <$> built)) &&
           bool_decide (result p ∈ closure os 6 (flat_map logging_needs os ++
             match todo with i :: _ => invoke_params i | [] => [] end)) &&
           forallb (fun u => bool_decide (u ∈ given os \/ u ∈ result <$> built)) (params p)
        then Some (FX (built ++ [p]) todo false) else None
    | None, i :: rest =>
        if forallb (fun u => bool_decide (u ∈ given os \/ u ∈ result <$> built)) (invoke_params i)
        then Some (FX built rest false) else None
    | None, [] => None
    end.

Lemma forallb_available os built ts :
  forallb (fun u => bool_decide (u ∈ given os \/ u ∈ result <$> built)) ts = true -> Forall (available os built) ts.
Proof.
  intros Hf. apply Forall_forall. intros u Hu. rewrite forallb_forall in Hf.
  specialize (Hf u ltac:(by apply list_elem_of_In)). by apply bool_decide_eq_true in Hf.
Qed.

Lemma fx_try_step os s m s' : fx_try os s m = Some s' -> fx_step os s s'.
Proof.
  destruct s as [built todo failed]. cbn [fx_try]. destruct failed; [done|]. destruct m as [p|].
  - destruct (_ && _) eqn:E; [|done]. intros [= <-].
    apply andb_prop in E as [E Hf]. apply andb_prop in E as [E Hc]. apply andb_prop in E as [Hp Hn].
    apply bool_decide_eq_true in Hp, Hc. apply negb_true_iff, bool_decide_eq_false in Hn.
    apply fx_construct; [done|done| |by apply forallb_available].
    apply closure_takes in Hc as (root & Hroot & Ht). exists root. split; [done|].
    apply elem_of_app in Hroot as [Hr|Hr]; [by left|right].
    destruct todo as [|i rest]; [by apply not_elem_of_nil in Hr|]. by exists i, rest.
  - destruct todo as [|i rest]; [done|]. destruct (forallb _ _) eqn:E; [|done]. intros [= <-].
    by apply fx_invoke, forallb_available.
Qed.

Fixpoint fx_play (os : list fx_option) (s : fx_state) (ms : list (option provider)) : option fx_state :=
  match ms with [] => Some s | m :: ms => s' ← fx_try os s m; fx_play os s' ms end.

Lemma fx_play_steps os s ms s' : fx_play os s ms = Some s' -> nsteps (fx_step os) (length ms) s s'.
Proof.
  revert s. induction ms as [|m ms IH]; intros s; cbn [fx_play length].
  { intros [= <-]. constructor. }
  destruct (fx_try os s m) as [s1|] eqn:E; [|done]. cbn [mbind option_bind]. intros Hp.
  econstructor; [by eapply fx_try_step|by apply IH].
Qed.

Definition sample_order : list (option provider) := [
  Some PnewLogger; None; Some PnewDatabase; None; Some PNewTracing; Some PnewRedis; None; Some PnewBus; None;
  Some PNewMetrics; Some PNewRegistry; None; Some PnewLocker; Some Pscheduler_New; None;
  Some PNewRuntime; Some Pauthorization_New; Some Phealth_New; Some PNewStore; Some PNewService;
  Some Pidempotency_New; Some Pgrpc_NewServer; None;
  Some PNewHandler; Some Pratelimit_New; Some Phttp_NewServer; None].

Definition sample_built : fx_state := FX (omap (fun m => m) sample_order) [] false.

Lemma sample_startup :
  nsteps (fx_step (app_New sample_config)) 27 (fx_start (app_New sample_config)) sample_built.
Proof.
  apply (fx_play_steps (app_New sample_config) (fx_start (app_New sample_config)) sample_order).
  vm_compute. reflexivity.
Qed.

Lemma startup_completes_witness :
  (27 <= 28)%nat /\ NoDup (fx_built sample_built) /\
  (fx_failed sample_built = true \/
   (exists s', fx_step (app_New sample_config) sample_built s' /\ fx_failed s' = false) \/
   (fx_todo sample_built = [] /\ forall p, p ∈ fx_built sample_built <-> p <> PNewTransactor)).
Proof. exact (startup_completes sample_config 27 sample_built sample_startup). Defined.

(** The servers go first, Redis and the log file at the end. *)
Lemma lifecycle_ordered_witness :
  exists l, stop_order sample_config sample_built = Phttp_NewServer :: Pgrpc_NewServer :: l /\
    last (stop_order sample_config sample_built) = Some PnewLogger.
Proof.
  assert (fx_reach (app_New sample_config) sample_built) as Hr.
  { apply rtc_nsteps. exists 27%nat. exact sample_startup. }
  destruct (lifecycle_ordered sample_config sample_built Hr) as (_ & _ & _ & Hl).
  eexists. split; [reflexivity|]. apply Hl. discriminate.
Defined.
